(** * The coredump problem type of faf (src/pyfaf/problemtypes/core.py)

    A shallow embedding of [CoredumpProblem]: the JIT repair pass and the
    schema check of [validate_ureport], the two hashers, the persistence of
    a report ([save_ureport]), the retracer ([retrace]) and the conversion
    of a stored report for comparison ([db_report_to_satyr]).

    Python values are JSON trees ([pyval]); a dictionary is a finite map
    from strings.  In-place mutation is explicit state passing: a function
    that mutates its argument returns the mutated value next to its
    outcome, which is [Ok] or a raised exception.  ORM objects live in
    tables of a [DB] record and are referred to by their row index. *)

From stdpp Require Import gmap strings list fin_maps pretty.
From Stdlib Require Import ZArith Ascii.

#[local] Set Warnings "-register-all".
#[local] Open Scope Z_scope.

(** ** Python values and exceptions *)

Inductive pyval : Type :=
| PNone
| PBool (b : bool)
| PInt (z : Z)
| PStr (s : string)
| PList (l : list pyval)
| PDict (d : gmap string pyval).

Inductive exn : Type :=
| KeyError (k : string)
| TypeError
| AttributeError
| IndexError
| ValueError
| DanglingReference
| FafError (msg : string)
| OutOfFuel.

Inductive result (A : Type) : Type :=
| Ok (a : A)
| Raise (e : exn).
Arguments Ok {A} a.
Arguments Raise {A} e.

#[export] Instance result_ret : MRet result := fun _ a => Ok a.
#[export] Instance result_bind : MBind result := fun _ _ k r =>
  match r with
  | Ok a => k a
  | Raise e => Raise e
  end.

#[export] Instance result_fmap : FMap result := fun _ _ f r =>
  match r with
  | Ok a => Ok (f a)
  | Raise e => Raise e
  end.

Definition is_ok {A : Type} (r : result A) : bool :=
  match r with Ok _ => true | Raise _ => false end.

(** [x is None] *)
Definition py_is_none (v : pyval) : bool :=
  match v with PNone => true | _ => false end.

(** [isinstance(v, dict)], [isinstance(v, list)] are pattern matches on
    [PDict] and [PList].  Truth value of an object, as [if v:] tests it. *)
Definition py_truthy (v : pyval) : bool :=
  match v with
  | PNone => false
  | PBool b => b
  | PInt z => negb (Z.eqb z 0)
  | PStr s => negb (String.eqb s EmptyString)
  | PList l => match l with [] => false | _ => true end
  | PDict d => negb (bool_decide (d = ∅))
  end.

(** [v == s] for a string literal [s]: no other type compares equal. *)
Definition py_eq_str (v : pyval) (s : string) : bool :=
  match v with PStr t => String.eqb t s | _ => false end.

Definition lower_ascii (c : ascii) : ascii :=
  let n := nat_of_ascii c in
  if (65 <=? n)%nat && (n <=? 90)%nat then ascii_of_nat (n + 32) else c.

Fixpoint str_lower (s : string) : string :=
  match s with
  | EmptyString => EmptyString
  | String c r => String (lower_ascii c) (str_lower r)
  end.

(** [needle in hay] on strings *)
Fixpoint str_contains (needle hay : string) : bool :=
  String.prefix needle hay ||
  match hay with
  | EmptyString => false
  | String _ r => str_contains needle r
  end.

(** [v.lower()]: only strings have the method. *)
Definition py_lower (v : pyval) : result string :=
  match v with
  | PStr s => Ok (str_lower s)
  | _ => Raise AttributeError
  end.

(** [key in v] *)
Definition py_contains (key : string) (v : pyval) : result bool :=
  match v with
  | PDict d => Ok (bool_decide (is_Some (d !! key)))
  | PList l => Ok (existsb (fun x => py_eq_str x key) l)
  | PStr s => Ok (str_contains key s)
  | _ => Raise TypeError
  end.

(** [v[key]] for a string key *)
Definition py_getitem (v : pyval) (key : string) : result pyval :=
  match v with
  | PDict d => match d !! key with
               | Some x => Ok x
               | None => Raise (KeyError key)
               end
  | _ => Raise TypeError
  end.

(** [for x in v]: the model iterates lists only.  A dictionary or a string
    is iterable in Python too (keys, characters); no such value passes the
    checker where the functions below iterate, and the repair pass guards
    its loops with [isinstance]. *)
Definition py_iter (v : pyval) : result (list pyval) :=
  match v with
  | PList l => Ok l
  | _ => Raise TypeError
  end.

(** ** The JIT repair pass of [validate_ureport] (core.py, lines 253-285) *)

Definition ANON : string := "anonymous function".
Definition UNKNOWN_FILE : string := "unknown filename".

(** ["function_name" not in frame or frame["function_name"] == "??"] *)
Definition lacks_function_name (d : gmap string pyval) : bool :=
  match d !! "function_name" with
  | None => true
  | Some v => py_eq_str v "??"
  end.

(** Lines 264-268: the new value of [jit_fname] after looking at [frame]. *)
Definition jit_detect (jit_fname : pyval) (d : gmap string pyval)
  : result pyval :=
  match d !! "file_name", d !! "function_name" with
  | Some file, Some fn =>
      low ← py_lower fn;
      Ok (if str_contains "jit" low then file else jit_fname)
  | _, _ => Ok jit_fname
  end.

(** Lines 270-275: a frame without file name after a JIT frame. *)
Definition jit_fill (jit_fname : pyval) (d : gmap string pyval)
  : gmap string pyval :=
  match d !! "file_name" with
  | Some _ => d
  | None =>
      if py_is_none jit_fname then d
      else
        let d1 := <["file_name" := jit_fname]> d in
        if lacks_function_name d1
        then <["function_name" := PStr ANON]> d1
        else d1
  end.

(** One iteration of the loop over frames (lines 260-275): the frame as it
    is left, and the new [jit_fname] or the exception raised. *)
Definition repair_frame (jit_fname : pyval) (frame : pyval)
  : pyval * result pyval :=
  match frame with
  | PDict d =>
      match jit_detect jit_fname d with
      | Raise e => (frame, Raise e)
      | Ok j => (PDict (jit_fill j d), Ok j)
      end
  | _ => (frame, Ok jit_fname)
  end.

(** The loop [for frame in thread["frames"]]; an exception leaves the
    remaining frames as they were. *)
Fixpoint repair_frames (jit_fname : pyval) (frames : list pyval)
  : list pyval * result pyval :=
  match frames with
  | [] => ([], Ok jit_fname)
  | f :: rest =>
      match repair_frame jit_fname f with
      | (f', Raise e) => (f' :: rest, Raise e)
      | (f', Ok j) =>
          let '(rest', r) := repair_frames j rest in (f' :: rest', r)
      end
  end.

(** Lines 279-285, on [thread["frames"][-1]]. *)
Definition repair_last_frame (frame : pyval) : pyval :=
  match frame with
  | PDict d =>
      let d1 := match d !! "file_name" with
                | None => <["file_name" := PStr UNKNOWN_FILE]> d
                | Some _ => d
                end in
      PDict (if lacks_function_name d1
             then <["function_name" := PStr ANON]> d1
             else d1)
  | _ => frame
  end.

(** Lines 277-285: [if thread["frames"]: last_frame = thread["frames"][-1]] *)
Definition repair_last (frames : list pyval) : list pyval :=
  match last frames with
  | None => frames
  | Some l => removelast frames ++ [repair_last_frame l]
  end.

(** The body of the loop over threads (lines 255-285). *)
Definition repair_thread (thread : pyval) : pyval * result unit :=
  match thread with
  | PDict t =>
      match t !! "frames" with
      | Some (PList frames) =>
          match repair_frames PNone frames with
          | (frames', Raise e) =>
              (PDict (<["frames" := PList frames']> t), Raise e)
          | (frames', Ok _) =>
              (PDict (<["frames" := PList (repair_last frames')]> t), Ok tt)
          end
      | _ => (thread, Ok tt)
      end
  | _ => (thread, Ok tt)
  end.

Fixpoint repair_threads (threads : list pyval) : list pyval * result unit :=
  match threads with
  | [] => ([], Ok tt)
  | t :: rest =>
      match repair_thread t with
      | (t', Raise e) => (t' :: rest, Raise e)
      | (t', Ok _) =>
          let '(rest', r) := repair_threads rest in (t' :: rest', r)
      end
  end.

(** Lines 253-285 as a whole: the report as the pass leaves it. *)
Definition jit_repair (ureport : gmap string pyval)
  : gmap string pyval * result unit :=
  match ureport !! "stacktrace" with
  | Some (PList threads) =>
      let '(threads', r) := repair_threads threads in
      (<["stacktrace" := PList threads']> ureport, r)
  | _ => (ureport, Ok tt)
  end.

(** ** The threads handed to satyr ([satyr.GdbThread], [satyr.GdbFrame]) *)

Record GdbFrame : Type := {
  gf_address : Z;
  gf_library_name : string;
  gf_number : Z;
  gf_function_name : string;
  gf_source_file : option string;
  gf_source_line : option Z
}.

Record GdbThread : Type := {
  gt_number : Z;
  gt_frames : list GdbFrame
}.

(** ** External collaborators

    Functions of other modules and of the Python runtime that the code
    calls and whose results are opaque here. *)

Class Externals : Type := {
  (** [str(x)] and [str(b)] for the [bytes] value [b] *)
  py_str : pyval -> string;
  bytes_str : string -> string;
  (** [pyfaf.utils.hash.hash_list] *)
  hash_list : list pyval -> string;
  (** [os.path.abspath], [os.path.join], [pyfaf.common.get_libname] *)
  abspath : string -> string;
  path_join : string -> list string -> string;
  get_libname : string -> string;
  (** [pyfaf.retrace]: [None] is a raised exception *)
  get_base_address : string -> option Z;
  addr2line : string -> Z -> string -> option (list (string * string * Z));
  demangle : string -> string;
  (** [satyr.GdbStacktrace.normalize] on a stack trace of one thread *)
  satyr_normalize : GdbThread -> GdbThread;
  (** [column_len(Table, "column")] *)
  len_component_name : nat;
  len_reportexe_path : nat;
  len_ssource_path : nat;
  len_ssource_build_id : nat;
  len_bthash_hash : nat;
  len_symbol_nice_name : nat
}.

(** ** Schema checkers (core.py, lines 64-96) *)

Inductive Pattern : Type :=
| PatComponent   (* ^[a-zA-Z0-9\-\._]+$ *)
| PatHex.        (* ^[a-fA-F0-9]+$ *)

Inductive Checker : Type :=
| CheckerBool (mandatory : bool)
| IntChecker (minval : Z) (mandatory : bool)
| StringChecker (pattern : option Pattern) (maxlen : nat) (mandatory : bool)
| ListChecker (elem : Checker) (minlen : nat) (mandatory : bool)
| DictChecker (fields : list (string * Checker)) (mandatory : bool).

Definition mandatory (c : Checker) : bool :=
  match c with
  | CheckerBool m | IntChecker _ m | StringChecker _ _ m
  | ListChecker _ _ m | DictChecker _ m => m
  end.

Definition in_range (lo hi : nat) (c : ascii) : bool :=
  let n := nat_of_ascii c in (lo <=? n)%nat && (n <=? hi)%nat.

Definition is_alnum (c : ascii) : bool :=
  in_range 97 122 c || in_range 65 90 c || in_range 48 57 c.

Definition is_hex (c : ascii) : bool :=
  in_range 97 102 c || in_range 65 70 c || in_range 48 57 c.

Fixpoint str_forall (p : ascii -> bool) (s : string) : bool :=
  match s with
  | EmptyString => true
  | String c r => p c && str_forall p r
  end.

(** Modelled from the spec: matching of the two patterns the schema uses
    (pyfaf.checker is not part of the sources): a non-empty string of
    characters of the class. *)
Definition pattern_match (p : Pattern) (s : string) : bool :=
  negb (String.eqb s EmptyString) &&
  match p with
  | PatComponent =>
      str_forall (fun c => is_alnum c || in_range 45 46 c || in_range 95 95 c) s
  | PatHex => str_forall is_hex s
  end.

(** Modelled from the spec: [Checker.check] of pyfaf.checker, which is not
    part of the sources.  A value passes when it has the checker's type
    and satisfies its bounds; a dictionary passes when every mandatory key
    is present and every present key passes its checker. *)
Fixpoint check (c : Checker) (v : pyval) : bool :=
  match c, v with
  | CheckerBool _, PBool _ => true
  | IntChecker minval _, PInt z => Z.leb minval z
  | StringChecker pat maxlen _, PStr s =>
      match pat with Some p => pattern_match p s | None => true end
      && (String.length s <=? maxlen)%nat
  | ListChecker elem minlen _, PList l =>
      (minlen <=? length l)%nat && forallb (check elem) l
  | DictChecker fields _, PDict d =>
      (fix check_fields (fs : list (string * Checker)) : bool :=
         match fs with
         | [] => true
         | (k, c') :: rest =>
             match d !! k with
             | Some x => check c' x
             | None => negb (mandatory c')
             end && check_fields rest
         end) fields
  | _, _ => false
  end.

Section WithExternals.
Context `{Externals}.

(** The class attribute [checker]. *)
Definition frame_checker : Checker :=
  DictChecker
    [("address", IntChecker 0 true);
     ("build_id_offset", IntChecker 0 true);
     ("file_name", StringChecker None len_ssource_path true);
     ("build_id", StringChecker (Some PatHex) len_ssource_build_id false);
     ("fingerprint", StringChecker (Some PatHex) len_bthash_hash false);
     ("function_name", StringChecker None len_symbol_nice_name false)]
    true.

Definition thread_checker : Checker :=
  DictChecker
    [("crash_thread", CheckerBool false);
     ("frames", ListChecker frame_checker 1 true)]
    true.

Definition checker : Checker :=
  DictChecker
    [("signal", IntChecker 0 true);
     ("component", StringChecker (Some PatComponent) len_component_name true);
     ("executable", StringChecker None len_reportexe_path true);
     ("user", DictChecker [("root", CheckerBool true);
                           ("local", CheckerBool true)] true);
     ("stacktrace", ListChecker thread_checker 1 true)]
    true.

(** [CoredumpProblem.checker.check(ureport)]: raises when the check fails. *)
Definition checker_check (ureport : gmap string pyval) : result unit :=
  if check checker (PDict ureport) then Ok tt
  else Raise (FafError "check failed").

(** ** Configuration ([__init__], lines 98-120) *)

Record Config : Type := {
  hashframes : Z;
  normalize : bool;
  skipsrc : bool
}.

(** Modelled from the spec: [load_config_to_self] of pyfaf.problemtypes
    (not part of the sources) takes the first configured key, or the
    default. *)
Fixpoint load_config {A : Type} (conf : gmap string A) (keys : list string)
    (default : A) : A :=
  match keys with
  | [] => default
  | k :: rest =>
      match conf !! k with
      | Some v => v
      | None => load_config conf rest default
      end
  end.

Definition init (ints : gmap string Z) (bools : gmap string bool) : Config :=
  {| hashframes :=
       load_config ints ["processing.corehashframes"; "processing.hashframes"] 16;
     normalize :=
       load_config bools ["processing.corenormalize"; "processing.normalize"] true;
     skipsrc :=
       load_config bools ["retrace.coreskipsource"; "retrace.skipsource"] true |}.

(** ** Crash thread selection (lines 122-136) *)

(** ["crash_thread" in t and t["crash_thread"]], as a truth value *)
Definition is_crash_thread (t : pyval) : result bool :=
  b ← py_contains "crash_thread" t;
  if b : bool then v ← py_getitem t "crash_thread"; Ok (py_truthy v)
  else Ok false.

Fixpoint filter_crash (threads : list pyval) : result (list pyval) :=
  match threads with
  | [] => Ok []
  | t :: rest =>
      b ← is_crash_thread t;
      r ← filter_crash rest;
      Ok (if b : bool then t :: r else r)
  end.

Definition _get_crash_thread (stacktrace : pyval) : result pyval :=
  threads ← py_iter stacktrace;
  crashthreads ← filter_crash threads;
  match crashthreads with
  | [] => Raise (FafError "No crash thread found")
  | [t] => py_getitem t "frames"
  | _ => Raise (FafError "Multiple crash threads found")
  end.

(** ** [validate_ureport] (lines 245-291) *)

Definition validate_ureport (ureport : gmap string pyval)
  : gmap string pyval * result bool :=
  let '(u, r) := jit_repair ureport in
  (u, _ ← r;
      _ ← checker_check u;
      st ← py_getitem (PDict u) "stacktrace";
      _ ← _get_crash_thread st;
      Ok true).

(** ** The hashers (lines 138-171 and 293-312) *)

(** [all(key in f for f in frames)]: stops at the first frame without. *)
Fixpoint all_have (key : string) (frames : list pyval) : result bool :=
  match frames with
  | [] => Ok true
  | f :: rest =>
      b ← py_contains key f;
      if b : bool then all_have key rest else Ok false
  end.

Fixpoint mapR {A B : Type} (f : A -> result B) (l : list A) : result (list B) :=
  match l with
  | [] => Ok []
  | x :: rest => y ← f x; ys ← mapR f rest; Ok (y :: ys)
  end.

Definition is_ascii (c : ascii) : bool := (nat_of_ascii c <? 128)%nat.

Fixpoint str_filter (p : ascii -> bool) (s : string) : string :=
  match s with
  | EmptyString => EmptyString
  | String c r => if p c then String c (str_filter p r) else str_filter p r
  end.

(** [v.encode("ascii", "ignore")], the content of the [bytes] result *)
Definition py_encode_ascii (v : pyval) : result string :=
  match v with
  | PStr s => Ok (str_filter is_ascii s)
  | _ => Raise AttributeError
  end.

(** [frame["build_id"] if "build_id" in frame else None] *)
Definition get_or_none (key : string) (frame : pyval) : result pyval :=
  b ← py_contains key frame;
  if b : bool then py_getitem frame key else Ok PNone.

(** Lines 158-167 *)
Definition backtrace_line (key : string) (frame : pyval) : result pyval :=
  build_id ← get_or_none "build_id" frame;
  v ← py_getitem frame key;
  file ← py_getitem frame "file_name";
  enc ← py_encode_ascii file;
  Ok (PStr ("  " +:+ py_str v +:+ " @ " +:+ bytes_str enc
            +:+ " (" +:+ py_str build_id +:+ ")")).

(** Lines 151-167 for one thread *)
Definition backtrace_thread_lines (key : string) (thread : pyval)
  : result (list pyval) :=
  c ← is_crash_thread thread;
  fs ← py_getitem thread "frames";
  frames ← py_iter fs;
  lines ← mapR (backtrace_line key) frames;
  Ok (PStr (if c : bool then "Crash Thread" else "Thread") :: lines).

(** Lines 144-146 for one thread *)
Definition thread_sane (key : string) (thread : pyval) : result bool :=
  fs ← py_getitem thread "frames";
  frames ← py_iter fs;
  all_have key frames.

(** The body of the loop over keys: the hash, or [None] on [continue]. *)
Definition hash_backtrace_key (threads : list pyval) (key : string)
  : result (option string) :=
  threads_sane ← mapR (thread_sane key) threads;
  if forallb id threads_sane then
    hashbase ← mapR (backtrace_thread_lines key) threads;
    Ok (Some (hash_list (concat hashbase)))
  else Ok None.

Definition HASH_KEYS : list string :=
  ["function_name"; "fingerprint"; "build_id_offset"].

Definition _hash_backtrace (backtrace : pyval) : result (list string) :=
  threads ← py_iter backtrace;
  hs ← mapR (hash_backtrace_key threads) HASH_KEYS;
  Ok (omap (M:=list) id hs).

(** Line 310 *)
Definition short_line (key : string) (frame : pyval) : result pyval :=
  v ← py_getitem frame key;
  file ← py_getitem frame "file_name";
  Ok (PStr (py_str v +:+ " @ " +:+ py_str file)).

(** Lines 304-310: the loop with its [break]. *)
Fixpoint short_lines (cfg : Config) (key : string) (i : Z)
    (crashthread : list pyval) : result (list pyval) :=
  match crashthread with
  | [] => Ok []
  | frame :: rest =>
      if Z.leb (hashframes cfg) i then Ok []
      else
        l ← short_line key frame;
        ls ← short_lines cfg key (i + 1) rest;
        Ok (l :: ls)
  end.

(** Lines 297-302 *)
Definition short_key (crashthread : list pyval) : result string :=
  b1 ← all_have "function_name" crashthread;
  if b1 : bool then Ok "function_name"
  else
    b2 ← all_have "fingerprint" crashthread;
    Ok (if b2 : bool then "fingerprint" else "build_id_offset").

Definition hash_ureport (cfg : Config) (ureport : gmap string pyval)
  : result string :=
  st ← py_getitem (PDict ureport) "stacktrace";
  ct ← _get_crash_thread st;
  component ← py_getitem (PDict ureport) "component";
  crashthread ← py_iter ct;
  key ← short_key crashthread;
  lines ← short_lines cfg key 0 crashthread;
  Ok (hash_list (component :: lines)).

End WithExternals.

(** ** Storage

    Modelled from the spec: the ORM classes of pyfaf.storage, which is not
    part of the sources.  A table is the list of its objects in creation
    order and a reference is an index into it.  A relationship collection
    ([thread.frames], [symbolsource.frames], [report.backtraces]) is a
    field of its owner and grows at the end when a child is attached.
    Columns are typed. *)

Record Symbol : Type := {
  sym_name : string;
  sym_normalized_path : string;
  sym_nice_name : option string
}.

Record SymbolSource : Type := {
  ss_symbol : option nat;
  ss_build_id : option string;
  ss_path : string;
  ss_offset : Z;
  ss_hash : option string;
  ss_source_path : option string;
  ss_line_number : option Z;
  ss_retrace_fail_count : Z;
  ss_frames : list nat
}.

Record ReportBtFrame : Type := {
  fr_thread : nat;
  fr_order : Z;
  fr_symbolsource : nat;
  fr_inlined : bool
}.

Record ReportBtThread : Type := {
  th_backtrace : nat;
  th_number : Z;
  th_crashthread : bool;
  th_frames : list nat
}.

Record ReportBacktrace : Type := {
  bt_report : nat;
  bt_threads : list nat
}.

Record ReportBtHash : Type := {
  bh_backtrace : nat;
  bh_type : string;
  bh_hash : string
}.

Record ReportExecutable : Type := {
  re_path : string;
  re_report : nat;
  re_count : Z
}.

Record Report : Type := {
  rp_errname : option string;
  rp_backtraces : list nat
}.

(** The session: every object created so far.  The last [pending_*] rows
    of a table are pending, the rows before them are in the database; a
    query sees the database only. *)
Record DB : Type := {
  reports : list Report;
  reportexes : list ReportExecutable;
  backtraces : list ReportBacktrace;
  bthashes : list ReportBtHash;
  threads : list ReportBtThread;
  frames : list ReportBtFrame;
  symbols : list Symbol;
  symbolsources : list SymbolSource;
  pending_reportexes : nat;
  pending_symbols : nat;
  pending_symbolsources : nat
}.

Definition flushed_reportexes (d : DB) : nat :=
  length (reportexes d) - pending_reportexes d.

Definition flushed_symbols (d : DB) : nat :=
  length (symbols d) - pending_symbols d.

Definition flushed_symbolsources (d : DB) : nat :=
  length (symbolsources d) - pending_symbolsources d.

Definition set_reports (f : list Report -> list Report) (db : DB) : DB :=
  {| reports := f (reports db); reportexes := reportexes db;
     backtraces := backtraces db; bthashes := bthashes db;
     threads := threads db; frames := frames db; symbols := symbols db;
     symbolsources := symbolsources db;
     pending_reportexes := pending_reportexes db;
     pending_symbols := pending_symbols db;
     pending_symbolsources := pending_symbolsources db |}.

Definition set_reportexes
    (f : list ReportExecutable -> list ReportExecutable) (db : DB) : DB :=
  {| reports := reports db; reportexes := f (reportexes db);
     backtraces := backtraces db; bthashes := bthashes db;
     threads := threads db; frames := frames db; symbols := symbols db;
     symbolsources := symbolsources db;
     pending_reportexes := pending_reportexes db;
     pending_symbols := pending_symbols db;
     pending_symbolsources := pending_symbolsources db |}.

Definition set_backtraces
    (f : list ReportBacktrace -> list ReportBacktrace) (db : DB) : DB :=
  {| reports := reports db; reportexes := reportexes db;
     backtraces := f (backtraces db); bthashes := bthashes db;
     threads := threads db; frames := frames db; symbols := symbols db;
     symbolsources := symbolsources db;
     pending_reportexes := pending_reportexes db;
     pending_symbols := pending_symbols db;
     pending_symbolsources := pending_symbolsources db |}.

Definition set_bthashes
    (f : list ReportBtHash -> list ReportBtHash) (db : DB) : DB :=
  {| reports := reports db; reportexes := reportexes db;
     backtraces := backtraces db; bthashes := f (bthashes db);
     threads := threads db; frames := frames db; symbols := symbols db;
     symbolsources := symbolsources db;
     pending_reportexes := pending_reportexes db;
     pending_symbols := pending_symbols db;
     pending_symbolsources := pending_symbolsources db |}.

Definition set_threads
    (f : list ReportBtThread -> list ReportBtThread) (db : DB) : DB :=
  {| reports := reports db; reportexes := reportexes db;
     backtraces := backtraces db; bthashes := bthashes db;
     threads := f (threads db); frames := frames db; symbols := symbols db;
     symbolsources := symbolsources db;
     pending_reportexes := pending_reportexes db;
     pending_symbols := pending_symbols db;
     pending_symbolsources := pending_symbolsources db |}.

Definition set_frames
    (f : list ReportBtFrame -> list ReportBtFrame) (db : DB) : DB :=
  {| reports := reports db; reportexes := reportexes db;
     backtraces := backtraces db; bthashes := bthashes db;
     threads := threads db; frames := f (frames db); symbols := symbols db;
     symbolsources := symbolsources db;
     pending_reportexes := pending_reportexes db;
     pending_symbols := pending_symbols db;
     pending_symbolsources := pending_symbolsources db |}.

Definition set_symbols (f : list Symbol -> list Symbol) (db : DB) : DB :=
  {| reports := reports db; reportexes := reportexes db;
     backtraces := backtraces db; bthashes := bthashes db;
     threads := threads db; frames := frames db; symbols := f (symbols db);
     symbolsources := symbolsources db;
     pending_reportexes := pending_reportexes db;
     pending_symbols := pending_symbols db;
     pending_symbolsources := pending_symbolsources db |}.

Definition set_symbolsources
    (f : list SymbolSource -> list SymbolSource) (db : DB) : DB :=
  {| reports := reports db; reportexes := reportexes db;
     backtraces := backtraces db; bthashes := bthashes db;
     threads := threads db; frames := frames db; symbols := symbols db;
     symbolsources := f (symbolsources db);
     pending_reportexes := pending_reportexes db;
     pending_symbols := pending_symbols db;
     pending_symbolsources := pending_symbolsources db |}.

(** [db.session.flush()] *)
Definition flush (db : DB) : DB :=
  {| reports := reports db; reportexes := reportexes db;
     backtraces := backtraces db; bthashes := bthashes db;
     threads := threads db; frames := frames db; symbols := symbols db;
     symbolsources := symbolsources db;
     pending_reportexes := 0;
     pending_symbols := 0;
     pending_symbolsources := 0 |}.

(** A new object of a table the queries read is pending. *)
Definition add_reportexe (e : ReportExecutable) (db : DB) : DB :=
  {| reports := reports db; reportexes := reportexes db ++ [e];
     backtraces := backtraces db; bthashes := bthashes db;
     threads := threads db; frames := frames db; symbols := symbols db;
     symbolsources := symbolsources db;
     pending_reportexes := S (pending_reportexes db);
     pending_symbols := pending_symbols db;
     pending_symbolsources := pending_symbolsources db |}.

Definition add_symbol (s : Symbol) (db : DB) : DB :=
  {| reports := reports db; reportexes := reportexes db;
     backtraces := backtraces db; bthashes := bthashes db;
     threads := threads db; frames := frames db;
     symbols := symbols db ++ [s];
     symbolsources := symbolsources db;
     pending_reportexes := pending_reportexes db;
     pending_symbols := S (pending_symbols db);
     pending_symbolsources := pending_symbolsources db |}.

Definition add_symbolsource (s : SymbolSource) (db : DB) : DB :=
  {| reports := reports db; reportexes := reportexes db;
     backtraces := backtraces db; bthashes := bthashes db;
     threads := threads db; frames := frames db; symbols := symbols db;
     symbolsources := symbolsources db ++ [s];
     pending_reportexes := pending_reportexes db;
     pending_symbols := pending_symbols db;
     pending_symbolsources := S (pending_symbolsources db) |}.

(** Attribute updates of single objects *)

Definition ss_add_frame (fr : nat) (s : SymbolSource) : SymbolSource :=
  {| ss_symbol := ss_symbol s; ss_build_id := ss_build_id s;
     ss_path := ss_path s; ss_offset := ss_offset s; ss_hash := ss_hash s;
     ss_source_path := ss_source_path s; ss_line_number := ss_line_number s;
     ss_retrace_fail_count := ss_retrace_fail_count s;
     ss_frames := ss_frames s ++ [fr] |}.

(** [db_ssource.retrace_fail_count += 1] *)
Definition ss_fail (s : SymbolSource) : SymbolSource :=
  {| ss_symbol := ss_symbol s; ss_build_id := ss_build_id s;
     ss_path := ss_path s; ss_offset := ss_offset s; ss_hash := ss_hash s;
     ss_source_path := ss_source_path s; ss_line_number := ss_line_number s;
     ss_retrace_fail_count := ss_retrace_fail_count s + 1;
     ss_frames := ss_frames s |}.

(** Lines 648-650 *)
Definition ss_resolve (sym : nat) (srcfile : string) (srcline : Z)
    (s : SymbolSource) : SymbolSource :=
  {| ss_symbol := Some sym; ss_build_id := ss_build_id s;
     ss_path := ss_path s; ss_offset := ss_offset s; ss_hash := ss_hash s;
     ss_source_path := Some srcfile; ss_line_number := Some srcline;
     ss_retrace_fail_count := ss_retrace_fail_count s;
     ss_frames := ss_frames s |}.

Definition th_add_frame (fr : nat) (t : ReportBtThread) : ReportBtThread :=
  {| th_backtrace := th_backtrace t; th_number := th_number t;
     th_crashthread := th_crashthread t; th_frames := th_frames t ++ [fr] |}.

Definition bt_add_thread (th : nat) (b : ReportBacktrace) : ReportBacktrace :=
  {| bt_report := bt_report b; bt_threads := bt_threads b ++ [th] |}.

Definition rp_add_backtrace (bt : nat) (r : Report) : Report :=
  {| rp_errname := rp_errname r; rp_backtraces := rp_backtraces r ++ [bt] |}.

Definition rp_set_errname (e : string) (r : Report) : Report :=
  {| rp_errname := Some e; rp_backtraces := rp_backtraces r |}.

Definition re_add_count (n : Z) (e : ReportExecutable) : ReportExecutable :=
  {| re_path := re_path e; re_report := re_report e;
     re_count := re_count e + n |}.

Definition sym_set_nice_name (n : string) (s : Symbol) : Symbol :=
  {| sym_name := sym_name s; sym_normalized_path := sym_normalized_path s;
     sym_nice_name := Some n |}.

(** The identities the store deduplicates by *)
Definition sym_key (s : Symbol) : string * string :=
  (sym_name s, sym_normalized_path s).

Definition ss_key (s : SymbolSource) : option string * string * Z :=
  (ss_build_id s, ss_path s, ss_offset s).

(** Modelled from the spec: the queries of pyfaf.queries, which is not part
    of the sources; each returns the first object in the database with the
    given identity, or [None]. *)
Definition get_symbol_by_name_path (db : DB) (name path : string)
  : option nat :=
  fst <$> list_find (fun s => sym_key s = (name, path))
                    (take (flushed_symbols db) (symbols db)).

Definition get_ssource_by_bpo (db : DB) (build_id : option string)
    (path : string) (offset : Z) : option nat :=
  fst <$> list_find (fun s => ss_key s = (build_id, path, offset))
                    (take (flushed_symbolsources db) (symbolsources db)).

Definition get_reportexe (db : DB) (db_report : nat) (path : string)
  : option nat :=
  fst <$> list_find (fun e => re_report e = db_report ∧ re_path e = path)
                    (take (flushed_reportexes db) (reportexes db)).

(** ** The unit of work: the session and the two pending-insert caches
    ([new_symbols], [new_symbolsources]) *)

Record Batch : Type := {
  db : DB;
  new_symbols : gmap (string * string) nat;
  new_symbolsources : gmap (option string * string * Z) nat
}.

Definition start (d : DB) : Batch :=
  {| db := d; new_symbols := ∅; new_symbolsources := ∅ |}.

(** Computations that mutate the batch and may raise; the mutations made
    before an exception stay. *)
Definition M (A : Type) : Type := Batch -> Batch * result A.

#[export] Instance M_ret : MRet M := fun _ a s => (s, Ok a).
#[export] Instance M_bind : MBind M := fun _ _ k m s =>
  match m s with
  | (s', Ok a) => k a s'
  | (s', Raise e) => (s', Raise e)
  end.

Definition raise {A : Type} (e : exn) : M A := fun s => (s, Raise e).
Definition lift {A : Type} (r : result A) : M A := fun s => (s, r).
Definition get_db : M DB := fun s => (s, Ok (db s)).
Definition modify_db (f : DB -> DB) : M unit := fun s =>
  ({| db := f (db s); new_symbols := new_symbols s;
      new_symbolsources := new_symbolsources s |}, Ok tt).
Definition cache_symbol (k : string * string) (r : nat) : M unit := fun s =>
  ({| db := db s; new_symbols := <[k := r]> (new_symbols s);
      new_symbolsources := new_symbolsources s |}, Ok tt).
Definition cache_symbolsource (k : option string * string * Z) (r : nat)
  : M unit := fun s =>
  ({| db := db s; new_symbols := new_symbols s;
      new_symbolsources := <[k := r]> (new_symbolsources s) |}, Ok tt).

(** Following a reference; a reference to no object cannot occur in Python
    and shows as [DanglingReference]. *)
Definition deref {A : Type} (table : DB -> list A) (r : nat) : M A := fun s =>
  (s, match table (db s) !! r with
      | Some x => Ok x
      | None => Raise DanglingReference
      end).

Fixpoint forM {A : Type} (f : A -> M unit) (l : list A) : M unit :=
  match l with
  | [] => mret tt
  | x :: rest => _ ← f x; forM f rest
  end.

(** Object construction: the new object's reference *)
Definition new_symbol (s : Symbol) : M nat :=
  d ← get_db;
  _ ← modify_db (add_symbol s);
  mret (length (symbols d)).

Definition new_symbolsource (s : SymbolSource) : M nat :=
  d ← get_db;
  _ ← modify_db (add_symbolsource s);
  mret (length (symbolsources d)).

(** A new frame is attached to its thread and to its location. *)
Definition new_frame (f : ReportBtFrame) : M nat :=
  d ← get_db;
  let r := length (frames d) in
  _ ← modify_db (set_frames (fun l => l ++ [f]));
  _ ← modify_db (set_symbolsources
                   (alter (ss_add_frame r) (fr_symbolsource f)));
  _ ← modify_db (set_threads (alter (th_add_frame r) (fr_thread f)));
  mret r.

Definition new_thread (t : ReportBtThread) : M nat :=
  d ← get_db;
  let r := length (threads d) in
  _ ← modify_db (set_threads (fun l => l ++ [t]));
  _ ← modify_db (set_backtraces (alter (bt_add_thread r) (th_backtrace t)));
  mret r.

Definition new_backtrace (bt : ReportBacktrace) : M nat :=
  d ← get_db;
  let r := length (backtraces d) in
  _ ← modify_db (set_backtraces (fun l => l ++ [bt]));
  _ ← modify_db (set_reports (alter (rp_add_backtrace r) (bt_report bt)));
  mret r.

Definition new_bthash (h : ReportBtHash) : M unit :=
  modify_db (set_bthashes (fun l => l ++ [h])).

Definition new_reportexe (e : ReportExecutable) : M nat :=
  d ← get_db;
  _ ← modify_db (add_reportexe e);
  mret (length (reportexes d)).

Section WithExternals.
Context `{Externals}.

(** Values stored in typed columns: the model raises [TypeError] where a
    value of another type would reach a string or integer column. *)
Definition as_str (v : pyval) : result string :=
  match v with PStr s => Ok s | _ => Raise TypeError end.

Definition as_int (v : pyval) : result Z :=
  match v with PInt z => Ok z | _ => Raise TypeError end.

Definition as_opt_str (v : pyval) : result (option string) :=
  match v with
  | PNone => Ok None
  | PStr s => Ok (Some s)
  | _ => Raise TypeError
  end.

(** ** The symbol and location store (lines 385-416) *)

(** Lines 385-398, and again 587-599 and 631-643: the symbol of the
    database, else the one pending in this batch, else a new one. *)
Definition get_or_create_symbol (name norm_path : string) : M nat :=
  d ← get_db;
  match get_symbol_by_name_path d name norm_path with
  | Some r => mret r
  | None =>
      fun b =>
        match new_symbols b !! (name, norm_path) with
        | Some r => (b, Ok r)
        | None =>
            (r ← new_symbol {| sym_name := name;
                               sym_normalized_path := norm_path;
                               sym_nice_name := None |};
             _ ← cache_symbol (name, norm_path) r;
             mret r) b
        end
  end.

(** Lines 400-416 *)
Definition get_or_create_symbolsource (db_symbol : option nat)
    (build_id : option string) (path : string) (offset : Z)
    (fingerprint : option string) : M nat :=
  d ← get_db;
  match get_ssource_by_bpo d build_id path offset with
  | Some r => mret r
  | None =>
      fun b =>
        match new_symbolsources b !! (build_id, path, offset) with
        | Some r => (b, Ok r)
        | None =>
            (r ← new_symbolsource
                   {| ss_symbol := db_symbol; ss_build_id := build_id;
                      ss_path := path; ss_offset := offset;
                      ss_hash := fingerprint; ss_source_path := None;
                      ss_line_number := None; ss_retrace_fail_count := 0;
                      ss_frames := [] |};
             _ ← cache_symbolsource (build_id, path, offset) r;
             mret r) b
        end
  end.

(** ** [save_ureport] (lines 314-426) *)

(** The body of the loop over frames (lines 366-423); [fid] is already
    advanced. *)
Definition save_frame (db_thread : nat) (fid : Z) (frame : pyval) : M unit :=
  build_id ← lift (get_or_none "build_id" frame ≫= as_opt_str);
  fingerprint ← lift (get_or_none "fingerprint" frame ≫= as_opt_str);
  file ← lift (py_getitem frame "file_name" ≫= as_str);
  let path := abspath file in
  offset ← lift (py_getitem frame "build_id_offset" ≫= as_int);
  has_name ← lift (py_contains "function_name" frame);
  db_symbol ←
    (if has_name : bool then
       name ← lift (py_getitem frame "function_name" ≫= as_str);
       r ← get_or_create_symbol name (get_libname path);
       mret (Some r)
     else mret None);
  db_symbolsource ←
    get_or_create_symbolsource db_symbol build_id path offset fingerprint;
  _ ← new_frame {| fr_thread := db_thread; fr_order := fid;
                   fr_symbolsource := db_symbolsource;
                   fr_inlined := false |};
  mret tt.

Fixpoint save_frames (db_thread : nat) (fid : Z) (frames : list pyval)
  : M unit :=
  match frames with
  | [] => mret tt
  | frame :: rest =>
      _ ← save_frame db_thread (fid + 10) frame;
      save_frames db_thread (fid + 10) rest
  end.

(** The loop over threads (lines 346-423) *)
Fixpoint save_threads (db_backtrace : nat) (tid : Z) (threads : list pyval)
  : M unit :=
  match threads with
  | [] => mret tt
  | thread :: rest =>
      crash ← lift (is_crash_thread thread);
      db_thread ← new_thread {| th_backtrace := db_backtrace;
                                th_number := tid + 1;
                                th_crashthread := crash;
                                th_frames := [] |};
      fs ← lift (py_getitem thread "frames" ≫= py_iter);
      _ ← save_frames db_thread 0 fs;
      save_threads db_backtrace (tid + 1) rest
  end.

(** Lines 332-423: the branch taken when the report has no backtrace. *)
Definition save_backtrace (db_report : nat) (stacktrace : pyval)
    (bthashes : list string) : M unit :=
  db_backtrace ← new_backtrace {| bt_report := db_report; bt_threads := [] |};
  _ ← forM (fun h => new_bthash {| bh_backtrace := db_backtrace;
                                   bh_type := "NAMES"; bh_hash := h |})
           bthashes;
  threads ← lift (py_iter stacktrace);
  save_threads db_backtrace 0 threads.

(** Lines 315-423 *)
Definition save_ureport_core (db_report : nat) (ureport : gmap string pyval)
    (count : Z) : M unit :=
  signal ← lift (py_getitem (PDict ureport) "signal");
  _ ← modify_db (set_reports (alter (rp_set_errname (py_str signal)) db_report));
  executable ← lift (py_getitem (PDict ureport) "executable" ≫= as_str);
  d ← get_db;
  db_reportexe ←
    match get_reportexe d db_report executable with
    | Some r => mret r
    | None => new_reportexe {| re_path := executable; re_report := db_report;
                               re_count := 0 |}
    end;
  _ ← modify_db (set_reportexes (alter (re_add_count count) db_reportexe));
  stacktrace ← lift (py_getitem (PDict ureport) "stacktrace");
  bthashes ← lift (_hash_backtrace stacktrace);
  _ ← match bthashes with
      | [] => raise (FafError "Unable to get backtrace hash")
      | _ => mret tt
      end;
  rp ← deref reports db_report;
  match rp_backtraces rp with
  | [] => save_backtrace db_report stacktrace bthashes
  | _ => mret tt
  end.

(** Lines 315-426 *)
Definition save_ureport_body (db_report : nat) (ureport : gmap string pyval)
    (do_flush : bool) (count : Z) : M unit :=
  _ ← save_ureport_core db_report ureport count;
  if do_flush then modify_db flush else mret tt.

(** One call: the caches are created by the call and dropped with it. *)
Definition save_ureport (d : DB) (db_report : nat)
    (ureport : gmap string pyval) (do_flush : bool) (count : Z)
  : DB * result unit :=
  let '(b, r) := save_ureport_body db_report ureport do_flush count (start d) in
  (db b, r).

(** ** [retrace] (lines 528-663) *)

(** Modelled from the spec: the retrace task of pyfaf.retrace, which is not
    part of the sources: the locations to resolve grouped by binary
    package, the debuginfo package and the optional source package. *)
Record Package : Type := {
  nvra : string;
  unpacked_path : option string
}.

Record RetraceTask : Type := {
  debuginfo : Package;
  source : option Package;
  binary_packages : list (Package * list nat)
}.

(** [results.pop()] *)
Definition list_pop {A : Type} (l : list A) : result (A * list A) :=
  match last l with
  | Some x => Ok (x, removelast l)
  | None => Raise IndexError
  end.

(** [s[1:]] *)
Definition str_tail (s : string) : string :=
  match s with
  | EmptyString => EmptyString
  | String _ r => r
  end.

(** [sorted(l, key=lambda f: f.order)] on pairs of order and reference:
    a stable insertion sort. *)
Fixpoint insert_by_order (x : Z * nat) (l : list (Z * nat)) : list (Z * nat) :=
  match l with
  | [] => [x]
  | y :: rest =>
      if Z.leb (fst x) (fst y) then x :: y :: rest
      else y :: insert_by_order x rest
  end.

Definition sorted_by_order (l : list (Z * nat)) : list (Z * nat) :=
  foldr insert_by_order [] l.

(** [db_ssource.retrace_fail_count += 1] *)
Definition count_failure (db_ssource : nat) : M unit :=
  modify_db (set_symbolsources (alter ss_fail db_ssource)).

(** Lines 580-609: the location of an inlined call. *)
Definition get_or_create_inlined (db_ssource : nat) (norm_path : string)
    (funcname srcfile : string) (srcline : Z) : M nat :=
  ss ← deref symbolsources db_ssource;
  let offset := - srcline in
  d ← get_db;
  match get_ssource_by_bpo d (ss_build_id ss) (ss_path ss) offset with
  | Some r => mret r
  | None =>
      fun b =>
        match new_symbolsources b !! (ss_build_id ss, ss_path ss, offset) with
        | Some r => (b, Ok r)
        | None =>
            (db_symbol_inl ← get_or_create_symbol funcname norm_path;
             r ← new_symbolsource
                   {| ss_symbol := Some db_symbol_inl;
                      ss_build_id := ss_build_id ss;
                      ss_path := ss_path ss; ss_offset := offset;
                      ss_hash := None; ss_source_path := Some srcfile;
                      ss_line_number := Some srcline;
                      ss_retrace_fail_count := 0; ss_frames := [] |};
             _ ← cache_symbolsource (ss_build_id ss, ss_path ss, offset) r;
             mret r) b
        end
  end.

(** The frames of a thread, each with its [order] *)
Definition frame_orders (refs : list nat) : M (list (Z * nat)) := fun b =>
  (b, mapR (fun r => match frames (db b) !! r with
                     | Some f => Ok (fr_order f, r)
                     | None => Raise DanglingReference
                     end) refs).

(** The body of the loop over [db_ssource.frames] (lines 612-627). *)
Definition expand_frame (db_ssource_inl : nat) (inl_id : Z) (db_frame : nat)
  : M unit :=
  fr ← deref frames db_frame;
  th ← deref threads (fr_thread fr);
  keyed ← frame_orders (th_frames th);
  let db_frames := (sorted_by_order keyed).*2 in
  idx ← lift (match list_find (fun r => r = db_frame) db_frames with
              | Some (i, _) => Ok i
              | None => Raise ValueError
              end);
  skip ←
    (if (0 <? idx)%nat then
       prev ← lift (match th_frames th !! (idx - 1)%nat with
                    | Some r => Ok r
                    | None => Raise IndexError
                    end);
       prevframe ← deref frames prev;
       mret (fr_inlined prevframe &&
             bool_decide (fr_symbolsource prevframe = db_ssource_inl))
     else mret false);
  if skip : bool then mret tt
  else
    _ ← new_frame {| fr_thread := fr_thread fr;
                     fr_order := fr_order fr - inl_id;
                     fr_symbolsource := db_ssource_inl;
                     fr_inlined := true |};
    mret tt.

(** [for db_frame in db_ssource.frames] (line 611).  The collection is read
    again at every step, as Python's list iterator does: a frame attached
    to [db_ssource] during the loop is visited too.  [fuel] bounds the
    number of steps; [OutOfFuel] is not a Python exception but marks a loop
    the bound cut short. *)
Fixpoint expand_frames (fuel : nat) (i : nat) (db_ssource db_ssource_inl : nat)
    (inl_id : Z) : M unit :=
  match fuel with
  | O => raise OutOfFuel
  | S fuel' =>
      ss ← deref symbolsources db_ssource;
      match ss_frames ss !! i with
      | None => mret tt
      | Some db_frame =>
          _ ← expand_frame db_ssource_inl inl_id db_frame;
          expand_frames fuel' (S i) db_ssource db_ssource_inl inl_id
      end
  end.

(** [while len(results) > 1] (lines 570-627); [n] is the length of
    [results], which every iteration shortens by one. *)
Fixpoint unwind_inlined (fuel : nat) (n : nat) (db_ssource : nat)
    (norm_path : string) (inl_id : Z) (results : list (string * string * Z))
  : M (list (string * string * Z)) :=
  match n with
  | O => mret results
  | S n' =>
      if (1 <? length results)%nat then
        '(funcname, srcfile, srcline, results') ← lift (list_pop results);
        db_ssource_inl ←
          get_or_create_inlined db_ssource norm_path funcname srcfile srcline;
        _ ← expand_frames fuel 0 db_ssource db_ssource_inl (inl_id + 1);
        unwind_inlined fuel n' db_ssource norm_path (inl_id + 1) results'
      else mret results
  end.

(** Lines 629-650: the last entry resolves the location itself. *)
Definition resolve_ssource (db_ssource : nat) (norm_path : string)
    (results : list (string * string * Z)) : M unit :=
  '(funcname, srcfile, srcline, _) ← lift (list_pop results);
  db_symbol ← get_or_create_symbol funcname norm_path;
  sym ← deref symbols db_symbol;
  _ ← match sym_nice_name sym with
      | None => modify_db (set_symbols
                             (alter (sym_set_nice_name (demangle funcname))
                                    db_symbol))
      | Some _ => mret tt
      end;
  modify_db (set_symbolsources
               (alter (ss_resolve db_symbol srcfile srcline) db_ssource)).

(** Lines 560-564 with their [except]: the reversed answer of the
    resolver, or [None] when anything was raised. *)
Definition resolve_address (task : RetraceTask) (binary : string)
    (address : Z) : option (list (string * string * Z)) :=
  match unpacked_path (debuginfo task) with
  | None => None
  | Some dir =>
      reverse <$> addr2line binary address
                            (path_join dir ["usr"; "lib"; "debug"])
  end.

(** The body of the loop over the locations of a package (lines 538-650). *)
Definition retrace_ssource (fuel : nat) (task : RetraceTask)
    (bin_pkg : Package) (db_ssource : nat) : M unit :=
  ss ← deref symbolsources db_ssource;
  let norm_path := get_libname (ss_path ss) in
  match unpacked_path bin_pkg with
  | None => count_failure db_ssource
  | Some dir =>
      let binary := path_join dir [str_tail (ss_path ss)] in
      match get_base_address binary with
      | None => count_failure db_ssource
      | Some base =>
          match resolve_address task binary (base + ss_offset ss) with
          | None => count_failure db_ssource
          | Some results =>
              results' ← unwind_inlined fuel (length results) db_ssource
                                        norm_path 0 results;
              resolve_ssource db_ssource norm_path results'
          end
      end
  end.

Definition retrace_package (fuel : nat) (task : RetraceTask)
    (entry : Package * list nat) : M unit :=
  forM (retrace_ssource fuel task (fst entry)) (snd entry).

Definition retrace_packages (fuel : nat) (task : RetraceTask)
    (entries : list (Package * list nat)) : M unit :=
  forM (retrace_package fuel task) entries.

(** Lines 652-663: the directories [shutil.rmtree] is called on. *)
Definition cleanup (task : RetraceTask) : list string :=
  match unpacked_path (debuginfo task) with Some p => [p] | None => [] end
  ++ match source task with
     | Some src => match unpacked_path src with Some p => [p] | None => [] end
     | None => []
     end
  ++ omap (fun e => unpacked_path (fst e)) (binary_packages task).

Definition retrace_body (fuel : nat) (task : RetraceTask) : M (list string) :=
  _ ← retrace_packages fuel task (binary_packages task);
  mret (cleanup task).

(** One call of [retrace]: the database it leaves and the directories it
    removed. *)
Definition retrace (fuel : nat) (d : DB) (task : RetraceTask)
  : DB * result (list string) :=
  let '(b, r) := retrace_body fuel task (start d) in (db b, r).

(** ** Conversion for comparison (lines 173-238) *)

Definition _db_frame_to_satyr (d : DB) (db_frame : nat) : result GdbFrame :=
  match frames d !! db_frame with
  | None => Raise DanglingReference
  | Some fr =>
      match symbolsources d !! fr_symbolsource fr with
      | None => Raise DanglingReference
      | Some ss =>
          name ← match ss_symbol ss with
                 | None => Ok "??"
                 | Some r => match symbols d !! r with
                             | Some sym => Ok (sym_name sym)
                             | None => Raise DanglingReference
                             end
                 end;
          Ok {| gf_address := ss_offset ss;
                gf_library_name := ss_path ss;
                gf_number := fr_order fr;
                gf_function_name := name;
                gf_source_file := ss_source_path ss;
                gf_source_line := ss_line_number ss |}
      end
  end.

Definition _db_thread_to_satyr (cfg : Config) (d : DB) (db_thread : nat)
  : result GdbThread :=
  match threads d !! db_thread with
  | None => Raise DanglingReference
  | Some th =>
      fs ← mapR (_db_frame_to_satyr d) (th_frames th);
      let thread := {| gt_number := th_number th; gt_frames := fs |} in
      Ok (if normalize cfg then satyr_normalize thread else thread)
  end.

Definition _db_thread_validate (d : DB) (db_thread : nat) : result bool :=
  match threads d !! db_thread with
  | None => Raise DanglingReference
  | Some th =>
      match th_frames th with
      | [db_frame] =>
          match frames d !! db_frame with
          | None => Raise DanglingReference
          | Some fr =>
              match symbolsources d !! fr_symbolsource fr with
              | None => Raise DanglingReference
              | Some ss =>
                  match ss_symbol ss with
                  | None => Ok true
                  | Some r =>
                      match symbols d !! r with
                      | None => Raise DanglingReference
                      | Some sym =>
                          Ok (negb (String.eqb (sym_name sym) ANON &&
                                    String.eqb (sym_normalized_path sym)
                                               UNKNOWN_FILE))
                      end
                  end
              end
          end
      | _ => Ok true
      end
  end.

(** The loop of lines 227-238: the first crash thread decides. *)
Fixpoint first_crash_thread (cfg : Config) (d : DB) (db_threads : list nat)
  : result (option GdbThread) :=
  match db_threads with
  | [] => Ok None
  | t :: rest =>
      match threads d !! t with
      | None => Raise DanglingReference
      | Some th =>
          if th_crashthread th then
            ok ← _db_thread_validate d t;
            if ok : bool then Some <$> _db_thread_to_satyr cfg d t
            else Ok None
          else first_crash_thread cfg d rest
      end
  end.

Definition db_report_to_satyr (cfg : Config) (d : DB) (db_report : nat)
  : result (option GdbThread) :=
  match reports d !! db_report with
  | None => Raise DanglingReference
  | Some rp =>
      match rp_backtraces rp with
      | [] => Ok None
      | bt :: _ =>
          match backtraces d !! bt with
          | None => Raise DanglingReference
          | Some b =>
              match bt_threads b with
              | [] => Ok None
              | ts => first_crash_thread cfg d ts
              end
          end
      end
  end.

End WithExternals.

(** ** Notions the statements use *)

(** A frame that has both a file name and a function name containing
    "jit", in any case. *)
Definition is_jit_frame (frame : pyval) : bool :=
  match frame with
  | PDict d =>
      match d !! "file_name", d !! "function_name" with
      | Some _, Some (PStr s) => str_contains "jit" (str_lower s)
      | _, _ => false
      end
  | _ => false
  end.

(** The identities of the rows of a table, in row order *)
Definition sym_keys (d : DB) : list (string * string) :=
  sym_key <$> symbols d.

Definition ss_keys (d : DB) : list (option string * string * Z) :=
  ss_key <$> symbolsources d.

(** The batch [d'] was reached from the session [d] without a fresh
    duplicate: a symbol or location created on the way shares its identity
    with no other created row and with no row of the database, and two
    created frames whose locations have one identity reference one
    location. *)
Definition no_fresh_duplicates (d d' : DB) : Prop :=
  (∀ i j k, (length (symbols d) ≤ i)%nat →
     sym_keys d' !! i = Some k → sym_keys d' !! j = Some k →
     (length (symbols d) ≤ j ∨ j < flushed_symbols d)%nat → i = j) ∧
  (∀ i j k, (length (symbolsources d) ≤ i)%nat →
     ss_keys d' !! i = Some k → ss_keys d' !! j = Some k →
     (length (symbolsources d) ≤ j ∨ j < flushed_symbolsources d)%nat →
     i = j) ∧
  (∀ f1 f2 fr1 fr2 k,
     (length (frames d) ≤ f1)%nat → (length (frames d) ≤ f2)%nat →
     frames d' !! f1 = Some fr1 → frames d' !! f2 = Some fr2 →
     ss_keys d' !! fr_symbolsource fr1 = Some k →
     ss_keys d' !! fr_symbolsource fr2 = Some k →
     fr_symbolsource fr1 = fr_symbolsource fr2).

(** The references of the session are consistent, as the ORM keeps them: a
    frame is in the collection of its thread, and the collections of
    threads and locations hold frames of the session. *)
Definition wf_db (d : DB) : Prop :=
  (∀ f fr, frames d !! f = Some fr →
     ∃ th, threads d !! fr_thread fr = Some th ∧ f ∈ th_frames th) ∧
  (∀ t th, threads d !! t = Some th →
     ∀ f, f ∈ th_frames th → is_Some (frames d !! f)) ∧
  (∀ l row, symbolsources d !! l = Some row →
     ∀ f, f ∈ ss_frames row → is_Some (frames d !! f)).

(** The pending-insert caches map an identity to an object that has it. *)
Definition cache_ok (s : Batch) : Prop :=
  (∀ k r, new_symbols s !! k = Some r → sym_keys (db s) !! r = Some k) ∧
  (∀ k r, new_symbolsources s !! k = Some r → ss_keys (db s) !! r = Some k).

(** ** A boolean check of [wf_db] *)

Definition wf_db_check (d : DB) : bool :=
  forallb (fun p : nat * ReportBtFrame =>
             match threads d !! fr_thread p.2 with
             | Some th => bool_decide (p.1 ∈ th_frames th)
             | None => false
             end) (imap pair (frames d)) &&
  forallb (fun th => forallb (fun f => bool_decide (f < length (frames d))%nat)
                             (th_frames th)) (threads d) &&
  forallb (fun row => forallb (fun f => bool_decide (f < length (frames d))%nat)
                              (ss_frames row)) (symbolsources d).

(** Modelled from the spec: a collection loaded from the database is in
    the order of the [order] column ("an order value used for stable
    sequencing"); [reload] is the session after a flush and a fresh load
    of the collections of the threads. *)
Definition reload_thread (d : DB) (th : ReportBtThread) : ReportBtThread :=
  {| th_backtrace := th_backtrace th; th_number := th_number th;
     th_crashthread := th_crashthread th;
     th_frames :=
       (sorted_by_order
          (omap (fun f => (fun fr => (fr_order fr, f)) <$> frames d !! f)
                (th_frames th))).*2 |}.

Definition reload (d : DB) : DB :=
  set_threads (fun ths => reload_thread d <$> ths) (flush d).

(** ** Test doubles and example data *)

Definition test_py_str (v : pyval) : string :=
  match v with
  | PNone => "None"
  | PBool true => "True"
  | PBool false => "False"
  | PInt z => pretty z
  | PStr s => s
  | PList _ => "[...]"
  | PDict _ => "{...}"
  end.

(** External collaborators returning canned answers; [resolver] answers
    for an address. *)
Definition test_externals
    (resolver : Z -> option (list (string * string * Z))) : Externals :=
  {| py_str := test_py_str;
     bytes_str := fun s => "b'" +:+ s +:+ "'";
     hash_list := fun l => String.concat "|" (test_py_str <$> l);
     abspath := fun p => p;
     path_join := fun dir parts => foldl (fun a b => a +:+ "/" +:+ b) dir parts;
     get_libname := fun p => p;
     get_base_address := fun _ => Some 4096;
     addr2line := fun _ address _ => resolver address;
     demangle := fun n => "demangled " +:+ n;
     satyr_normalize := fun t => t;
     len_component_name := 64;
     len_reportexe_path := 512;
     len_ssource_path := 512;
     len_ssource_build_id := 64;
     len_bthash_hash := 64;
     len_symbol_nice_name := 2048 |}.

Definition no_resolver : Z -> option (list (string * string * Z)) :=
  fun _ => None.

Definition dict (l : list (string * pyval)) : pyval := PDict (list_to_map l).

(** A report with one thread of two frames *)
Definition example_frames : list pyval :=
  [dict [("address", PInt 1); ("build_id_offset", PInt 10);
         ("file_name", PStr "/lib/libc.so"); ("function_name", PStr "malloc");
         ("build_id", PStr "abc123")];
   dict [("address", PInt 2); ("build_id_offset", PInt 20);
         ("file_name", PStr "/usr/bin/app"); ("function_name", PStr "main");
         ("build_id", PStr "def456"); ("fingerprint", PStr "f00d")]].

Definition example_ureport : gmap string pyval :=
  list_to_map
    [("signal", PInt 11); ("component", PStr "app");
     ("executable", PStr "/usr/bin/app");
     ("user", dict [("root", PBool false); ("local", PBool true)]);
     ("stacktrace",
      PList [dict [("crash_thread", PBool true);
                   ("frames", PList example_frames)]])].

(** A thread whose second frame has no file name and the placeholder "??",
    after a JIT frame; and the same with the function name
    "unknown function" *)
Definition jit_frame : pyval :=
  dict [("address", PInt 1); ("build_id_offset", PInt 10);
        ("file_name", PStr "/usr/lib/libjit.so");
        ("function_name", PStr "JIT_compile")].

Definition jit_thread (placeholder : string) : gmap string pyval :=
  list_to_map
    [("frames",
      PList [jit_frame;
             dict [("address", PInt 2); ("build_id_offset", PInt 20);
                   ("function_name", PStr placeholder)];
             dict [("address", PInt 3); ("build_id_offset", PInt 30)]])].

(** [d[k]] on a value that is a dictionary, and the [i]-th frame of a
    thread *)
Definition field (k : string) (v : pyval) : option pyval :=
  match v with PDict d => d !! k | _ => None end.

Definition frame_at (i : nat) (thread : pyval) : option pyval :=
  match field "frames" thread with
  | Some (PList fs) => fs !! i
  | _ => None
  end.

(** A session with one report and nothing else *)
Definition one_report_db : DB :=
  {| reports := [{| rp_errname := None; rp_backtraces := [] |}];
     reportexes := []; backtraces := []; bthashes := []; threads := [];
     frames := []; symbols := []; symbolsources := [];
     pending_reportexes := 0; pending_symbols := 0;
     pending_symbolsources := 0 |}.

(** The session after the example report was saved and flushed *)
Definition saved_db : DB :=
  Eval vm_compute in
    (@save_ureport (test_externals no_resolver) one_report_db 0
                   example_ureport true 1).1.

Definition example_package (dir : option string) : Package :=
  {| nvra := "app-1.0-1.x86_64"; unpacked_path := dir |}.

(** A task for the two locations of the saved report *)
Definition example_task (dir : option string) : RetraceTask :=
  {| debuginfo := {| nvra := "app-debuginfo-1.0-1.x86_64";
                     unpacked_path := Some "/tmp/debuginfo" |};
     source := None;
     binary_packages := [(example_package dir, [0%nat; 1%nat])] |}.

(** A task for the first location only *)
Definition single_task : RetraceTask :=
  {| debuginfo := {| nvra := "app-debuginfo-1.0-1.x86_64";
                     unpacked_path := Some "/tmp/debuginfo" |};
     source := None;
     binary_packages := [(example_package (Some "/tmp/app"), [0%nat])] |}.

(** Resolver answers for the first location (base 4096, offset 10) *)
Definition answer_at (a : Z) (r : list (string * string * Z))
  : Z -> option (list (string * string * Z)) :=
  fun address => if Z.eqb address a then Some r else None.

Definition two_entries : list (string * string * Z) :=
  [("outer", "outer.c", 5); ("inner", "inner.c", 7)].

Definition three_entries : list (string * string * Z) :=
  [("f", "a.c", 7); ("g", "b.c", 9); ("malloc", "malloc.c", 3)].

Definition three_entries_line_0 : list (string * string * Z) :=
  [("f", "??", 0); ("g", "??", 0); ("malloc", "malloc.c", 3)].

Definition three_entries_same_line : list (string * string * Z) :=
  [("f", "a.c", 7); ("g", "b.c", 7); ("malloc", "malloc.c", 3)].

(** A stored report whose crash thread is one frame synthesized by the
    repair pass *)
Definition bad_frame_db : DB :=
  {| reports := [{| rp_errname := Some "11"; rp_backtraces := [0%nat] |}];
     reportexes := [];
     backtraces := [{| bt_report := 0; bt_threads := [0%nat; 1%nat] |}];
     bthashes := [];
     threads := [{| th_backtrace := 0; th_number := 1;
                    th_crashthread := false; th_frames := [] |};
                 {| th_backtrace := 0; th_number := 2;
                    th_crashthread := true; th_frames := [0%nat] |}];
     frames := [{| fr_thread := 1; fr_order := 10; fr_symbolsource := 0;
                   fr_inlined := false |}];
     symbols := [{| sym_name := "anonymous function";
                    sym_normalized_path := "unknown filename";
                    sym_nice_name := None |}];
     symbolsources := [{| ss_symbol := Some 0%nat; ss_build_id := None;
                          ss_path := "/unknown filename"; ss_offset := 16;
                          ss_hash := None; ss_source_path := None;
                          ss_line_number := None; ss_retrace_fail_count := 0;
                          ss_frames := [0%nat] |}];
     pending_reportexes := 0; pending_symbols := 0;
     pending_symbolsources := 0 |}.

(** ** Notions of the proofs *)

(** What the schema guarantees of a frame and of a thread. *)
Definition valid_frame (f : pyval) : Prop :=
  ∃ d z s, f = PDict d ∧
    d !! "build_id_offset" = Some (PInt z) ∧
    d !! "file_name" = Some (PStr s) ∧
    (d !! "build_id" = None ∨ ∃ b, d !! "build_id" = Some (PStr b)).

Definition valid_thread (th : pyval) : Prop :=
  ∃ t fs, th = PDict t ∧ t !! "frames" = Some (PList fs) ∧ fs ≠ [] ∧
    Forall valid_frame fs ∧
    (t !! "crash_thread" = None ∨ ∃ b, t !! "crash_thread" = Some (PBool b)).

Definition has_key (key : string) (f : pyval) : Prop :=
  py_contains key f = Ok true.

(** No step of the persistence raises [FafError], except the explicit
    check of the hashes. *)
Definition quiet {A} (r : result A) : Prop := ∀ msg, r ≠ Raise (FafError msg).
Definition quietM {A} (m : M A) : Prop := ∀ s, quiet (m s).2.

(** What the deduplication depends on: the identities of the rows, the
    flushed prefixes, the caches and the locations the frames reference. *)
Record View : Type := {
  v_sym_keys : list (string * string);
  v_ss_keys : list (option string * string * Z);
  v_flushed_sym : nat;
  v_flushed_ss : nat;
  v_new_sym : gmap (string * string) nat;
  v_new_ss : gmap (option string * string * Z) nat;
  v_frame_ss : list nat
}.

Definition view (s : Batch) : View :=
  {| v_sym_keys := sym_keys (db s);
     v_ss_keys := ss_keys (db s);
     v_flushed_sym := flushed_symbols (db s);
     v_flushed_ss := flushed_symbolsources (db s);
     v_new_sym := new_symbols s;
     v_new_ss := new_symbolsources s;
     v_frame_ss := fr_symbolsource <$> frames (db s) |}.

Definition find_key {K} `{EqDecision K} (fl : nat) (keys : list K) (k : K)
  : option nat :=
  fst <$> list_find (fun k' => k' = k) (take fl keys).

Definition canon_sym (v : View) (k : string * string) : option nat :=
  match find_key (v_flushed_sym v) (v_sym_keys v) k with
  | Some r => Some r
  | None => v_new_sym v !! k
  end.

Definition canon_ss (v : View) (k : option string * string * Z) : option nat :=
  match find_key (v_flushed_ss v) (v_ss_keys v) k with
  | Some r => Some r
  | None => v_new_ss v !! k
  end.

(** The invariant of a batch that started with [n0] symbols, [m0]
    locations and [f0] frames. *)
Record batch_inv (n0 m0 f0 a0 b0 : nat) (v : View) : Prop := {
  inv_flushed_sym : v_flushed_sym v = a0;
  inv_flushed_ss : v_flushed_ss v = b0;
  inv_cache_sym : ∀ k r, v_new_sym v !! k = Some r → v_sym_keys v !! r = Some k;
  inv_cache_ss : ∀ k r, v_new_ss v !! k = Some r → v_ss_keys v !! r = Some k;
  inv_fresh_sym : ∀ i k, (n0 ≤ i)%nat → v_sym_keys v !! i = Some k →
    v_new_sym v !! k = Some i ∧ find_key (v_flushed_sym v) (v_sym_keys v) k = None;
  inv_fresh_ss : ∀ i k, (m0 ≤ i)%nat → v_ss_keys v !! i = Some k →
    v_new_ss v !! k = Some i ∧ find_key (v_flushed_ss v) (v_ss_keys v) k = None;
  inv_frames : ∀ f r, (f0 ≤ f)%nat → v_frame_ss v !! f = Some r →
    ∃ k, v_ss_keys v !! r = Some k ∧ canon_ss v k = Some r
}.

Definition hoare {A} (I P : View → Prop) (m : M A) (Q : A → View → Prop)
  : Prop :=
  ∀ s s' r, m s = (s', r) → I (view s) → P (view s) →
    I (view s') ∧ match r with Ok a => Q a (view s') | Raise _ => True end.

Definition stable {A} (m : M A) : Prop :=
  ∀ s s' r, m s = (s', r) → view s' = view s.

(** Updates of the session that leave the view alone *)
Definition view_stable (f : DB → DB) : Prop :=
  ∀ d, sym_keys (f d) = sym_keys d ∧ ss_keys (f d) = ss_keys d ∧
       flushed_symbols (f d) = flushed_symbols d ∧
       flushed_symbolsources (f d) = flushed_symbolsources d ∧
       fr_symbolsource <$> frames (f d) = fr_symbolsource <$> frames d.

Definition view_add_sym (k : string * string) (v : View) : View :=
  {| v_sym_keys := v_sym_keys v ++ [k]; v_ss_keys := v_ss_keys v;
     v_flushed_sym := v_flushed_sym v; v_flushed_ss := v_flushed_ss v;
     v_new_sym := <[k := length (v_sym_keys v)]> (v_new_sym v);
     v_new_ss := v_new_ss v; v_frame_ss := v_frame_ss v |}.

Definition view_add_ss (k : option string * string * Z) (v : View) : View :=
  {| v_sym_keys := v_sym_keys v; v_ss_keys := v_ss_keys v ++ [k];
     v_flushed_sym := v_flushed_sym v; v_flushed_ss := v_flushed_ss v;
     v_new_sym := v_new_sym v;
     v_new_ss := <[k := length (v_ss_keys v)]> (v_new_ss v);
     v_frame_ss := v_frame_ss v |}.

Definition view_add_frame (r : nat) (v : View) : View :=
  {| v_sym_keys := v_sym_keys v; v_ss_keys := v_ss_keys v;
     v_flushed_sym := v_flushed_sym v; v_flushed_ss := v_flushed_ss v;
     v_new_sym := v_new_sym v; v_new_ss := v_new_ss v;
     v_frame_ss := v_frame_ss v ++ [r] |}.

(** The flushed prefixes lie within the tables. *)
Definition view_wf (v : View) : Prop :=
  (v_flushed_sym v ≤ length (v_sym_keys v))%nat ∧
  (v_flushed_ss v ≤ length (v_ss_keys v))%nat.

Definition canon_ref (r : nat) (v : View) : Prop :=
  ∃ k, v_ss_keys v !! r = Some k ∧ canon_ss v k = Some r.

(** The trivial condition *)
Definition any_view : View → Prop := fun _ => True.

(** The session after [retrace_fail_count += 1] on every location of a
    list *)
Definition with_symbolsources (tbl : list SymbolSource) (s : Batch) : Batch :=
  {| db := set_symbolsources (fun _ => tbl) (db s);
     new_symbols := new_symbols s;
     new_symbolsources := new_symbolsources s |}.

(** The frame the expansion attaches for [fr] at inlining depth [inl_id] *)
Definition inlined_frame (fr : ReportBtFrame) (db_ssource_inl : nat)
    (inl_id : Z) : ReportBtFrame :=
  {| fr_thread := fr_thread fr; fr_order := fr_order fr - inl_id;
     fr_symbolsource := db_ssource_inl; fr_inlined := true |}.

(** The session after a frame was created and attached *)
Definition attach (N : ReportBtFrame) (d : DB) : DB :=
  set_threads (alter (th_add_frame (length (frames d))) (fr_thread N))
    (set_symbolsources
       (alter (ss_add_frame (length (frames d))) (fr_symbolsource N))
       (set_frames (fun l => l ++ [N]) d)).

Definition with_db (d : DB) (s : Batch) : Batch :=
  {| db := d; new_symbols := new_symbols s;
     new_symbolsources := new_symbolsources s |}.

(** What the expansion of one inlined call and the lookups preserve, seen
    from the location [l] that is being resolved *)
Record unwound (l : nat) (s s' : Batch) : Prop := {
  uw_wf : wf_db (db s');
  uw_cache : cache_ok s';
  uw_row : symbolsources (db s') !! l = symbolsources (db s) !! l;
  uw_symbols : symbols (db s) `prefix_of` symbols (db s');
  uw_keys : ss_keys (db s) `prefix_of` ss_keys (db s');
  uw_flushed : flushed_symbols (db s') = flushed_symbols (db s);
  uw_fresh : ∀ i sym, symbols (db s) !! i = None →
    symbols (db s') !! i = Some sym → sym_nice_name sym = None
}.

(** ** The other methods of [CoredumpProblem] *)

(** [s[:n]] and [s[n:]] *)
Fixpoint str_take (n : nat) (s : string) : string :=
  match n, s with
  | S n', String c r => String c (str_take n' r)
  | _, _ => EmptyString
  end.

Fixpoint str_drop (n : nat) (s : string) : string :=
  match n, s with
  | S n', String _ r => str_drop n' r
  | _, _ => s
  end.

(** Lines 240-243.  [build_id] is the column of a location, a string or
    [None]; slicing [None] raises [TypeError]. *)
Definition _build_id_to_debug_files (build_id : option string)
  : result (list string) :=
  match build_id with
  | None => Raise TypeError
  | Some b =>
      Ok ["/usr/lib/debug/.build-id/" +:+ str_take 2 b +:+ "/"
            +:+ str_drop 2 b +:+ ".debug";
          "/usr/lib/.build-id/" +:+ str_take 2 b +:+ "/" +:+ str_drop 2 b]
  end.

(** Lines 471-526.  Modelled from the spec: the package queries of
    pyfaf.queries and [usrmove] of pyfaf.retrace, which are not part of
    the sources, are the parameters of the section; the database they read
    does not change during the call. *)
Section Packages.
Context `{Externals}.
Context {Pkg Build Arch : Type}.
Variable get_package_by_file : list string -> option Pkg.
Variable get_package_by_file_build_arch :
  string -> Build -> Arch -> option Pkg.
Variable get_src_package_by_build : Build -> option Pkg.
Variable pkg_build : Pkg -> Build.
Variable pkg_arch : Pkg -> Arch.
Variable usrmove : string -> string.

(** Lines 486-490 *)
Definition candidate_paths (path : string) : list string :=
  path :: (if str_contains "/" path
           then [usrmove path; abspath path; usrmove (abspath path)]
           else []).

(** Lines 494-500: the loop with its [break] *)
Fixpoint first_bin_package (paths : list string) (db_build : Build)
    (db_arch : Arch) : option Pkg :=
  match paths with
  | [] => None
  | path :: rest =>
      match get_package_by_file_build_arch path db_build db_arch with
      | Some p => Some p
      | None => first_bin_package rest db_build db_arch
      end
  end.

Definition find_packages_for_ssource (cfg : Config) (db_ssource : SymbolSource)
  : result (SymbolSource * (option Pkg * option Pkg * option Pkg)) :=
  files ← _build_id_to_debug_files (ss_build_id db_ssource);
  let db_debug_package := get_package_by_file files in
  let db_bin_package :=
    match db_debug_package with
    | Some dbg =>
        first_bin_package (candidate_paths (ss_path db_ssource))
                          (pkg_build dbg) (pkg_arch dbg)
    | None => None
    end in
  let db_src_package :=
    match db_debug_package with
    | Some dbg =>
        if negb (skipsrc cfg) then get_src_package_by_build (pkg_build dbg)
        else None
    | None => None
    end in
  Ok (db_ssource,
      (match db_bin_package with
       | None => None
       | Some _ => db_debug_package
       end, db_bin_package, db_src_package)).

End Packages.

(** Lines 431-432 *)
Definition get_component_name (ureport : gmap string pyval) : result pyval :=
  py_getitem (PDict ureport) "component".

(** Lines 440-444: the loop keeps the last thread flagged as crash
    thread; [crash_thread] is the value so far. *)
Fixpoint last_crash_thread (threads : list pyval) (crash_thread : pyval)
  : result pyval :=
  match threads with
  | [] => Ok crash_thread
  | t :: rest =>
      b ← is_crash_thread t;
      last_crash_thread rest (if b : bool then t else crash_thread)
  end.

(** Lines 446-452; [parser] tells whether [parser.match] finds a match. *)
Fixpoint any_frame_matches (parser : string -> bool) (frames : list pyval)
  : result bool :=
  match frames with
  | [] => Ok false
  | frame :: rest =>
      file ← py_getitem frame "file_name" ≫= as_str;
      if parser file then Ok true else any_frame_matches parser rest
  end.

(** Lines 439-452 *)
Definition check_btpath_match (ureport : gmap string pyval)
    (parser : string -> bool) : result bool :=
  st ← py_getitem (PDict ureport) "stacktrace";
  threads ← py_iter st;
  crash_thread ← last_crash_thread threads PNone;
  fs ← py_getitem crash_thread "frames";
  frames ← py_iter fs;
  any_frame_matches parser frames.

(** ** Further notions the statements use *)

Definition is_dict (v : pyval) : Prop := ∃ d, v = PDict d.

(** ["crash_thread" in t and t["crash_thread"]] on a dictionary *)
Definition crash_flag (t : pyval) : bool :=
  match t with
  | PDict d =>
      match d !! "crash_thread" with
      | Some v => py_truthy v
      | None => false
      end
  | _ => false
  end.

(** What the schema guarantees of the fields of a frame, of a thread and
    of a report *)
Definition opt_str (d : gmap string pyval) (k : string) : Prop :=
  d !! k = None ∨ ∃ s, d !! k = Some (PStr s).

Definition typed_frame (f : pyval) : Prop :=
  ∃ d z s, f = PDict d ∧
    d !! "build_id_offset" = Some (PInt z) ∧
    d !! "file_name" = Some (PStr s) ∧
    opt_str d "build_id" ∧ opt_str d "fingerprint" ∧
    opt_str d "function_name".

Definition typed_thread (th : pyval) : Prop :=
  ∃ t fs, th = PDict t ∧ t !! "frames" = Some (PList fs) ∧ fs ≠ [] ∧
    Forall typed_frame fs ∧
    (t !! "crash_thread" = None ∨ ∃ b, t !! "crash_thread" = Some (PBool b)).

Definition typed_report (u : gmap string pyval) : Prop :=
  ∃ z c e ths,
    u !! "signal" = Some (PInt z) ∧ u !! "component" = Some (PStr c) ∧
    u !! "executable" = Some (PStr e) ∧
    u !! "stacktrace" = Some (PList ths) ∧ ths ≠ [] ∧
    Forall typed_thread ths.

(** What the repair pass may do to a frame: give it a file name when it
    has none, and the function name "anonymous function" when it has none
    or has "??"; and what it may do to a thread and to a report: that, to
    the frames. *)
Definition frame_kept (f f' : pyval) : Prop :=
  match f, f' with
  | PDict d, PDict d' =>
      (∀ k, k ≠ "file_name" → k ≠ "function_name" → d' !! k = d !! k) ∧
      (∀ v, d !! "file_name" = Some v → d' !! "file_name" = Some v) ∧
      (∀ v, d !! "function_name" = Some v → v ≠ PStr "??" →
            d' !! "function_name" = Some v) ∧
      (d' !! "function_name" = d !! "function_name" ∨
       d' !! "function_name" = Some (PStr "anonymous function"))
  | _, _ => f' = f
  end.

Definition thread_kept (t t' : pyval) : Prop :=
  match t, t' with
  | PDict d, PDict d' =>
      (∀ k, k ≠ "frames" → d' !! k = d !! k) ∧
      match d !! "frames" with
      | Some (PList fs) =>
          ∃ fs', d' !! "frames" = Some (PList fs') ∧ Forall2 frame_kept fs fs'
      | o => d' !! "frames" = o
      end
  | _, _ => t' = t
  end.

Definition report_kept (u u' : gmap string pyval) : Prop :=
  (∀ k, k ≠ "stacktrace" → u' !! k = u !! k) ∧
  match u !! "stacktrace" with
  | Some (PList ths) =>
      ∃ ths', u' !! "stacktrace" = Some (PList ths') ∧
              Forall2 thread_kept ths ths'
  | o => u' !! "stacktrace" = o
  end.

(** A frame the repair pass has nothing to add to *)
Definition has_file_name (f : pyval) : Prop :=
  match f with PDict d => is_Some (d !! "file_name") | _ => True end.

Definition has_function_name (f : pyval) : Prop :=
  match f with
  | PDict d => ∃ v, d !! "function_name" = Some v ∧ v ≠ PStr "??"
  | _ => True
  end.

Definition complete_thread (t : pyval) : Prop :=
  match t with
  | PDict d =>
      match d !! "frames" with
      | Some (PList fs) =>
          Forall has_file_name fs ∧
          match last fs with Some l => has_function_name l | None => True end
      | _ => True
      end
  | _ => True
  end.

(** A frame whose function name is not a string although it has a file
    name, and a thread with such a frame *)
Definition bad_function_name (f : pyval) : Prop :=
  match f with
  | PDict d =>
      is_Some (d !! "file_name") ∧
      ∃ v, d !! "function_name" = Some v ∧ ∀ s, v ≠ PStr s
  | _ => False
  end.

Definition thread_has_bad_name (t : pyval) : Prop :=
  match t with
  | PDict d =>
      match d !! "frames" with
      | Some (PList fs) => Exists bad_function_name fs
      | _ => False
      end
  | _ => False
  end.

(** ** Invariants of the session *)

(** A computation started in a session satisfying [P] ends in one
    satisfying [Q], or [E] when it raises. *)
Definition triple {A} (P : DB → Prop) (m : M A) (Q : A → DB → Prop)
    (E : DB → Prop) : Prop :=
  ∀ s s' r, m s = (s', r) → P (db s) →
    match r with Ok a => Q a (db s') | Raise _ => E (db s') end.

Definition keeps {A} (I : DB → Prop) (m : M A) : Prop :=
  triple I m (λ _, I) I.

(** The session [d'] has every object of [d], in place, with its identity
    and its place in the structure: objects are only added, collections
    only extended at the end, and of an existing object only the
    attributes that the methods assign can differ. *)
Record grows (d d' : DB) : Prop := {
  g_frames : frames d `prefix_of` frames d';
  g_bthashes : bthashes d `prefix_of` bthashes d';
  g_threads : ∀ i th, threads d !! i = Some th →
    ∃ th', threads d' !! i = Some th' ∧
      th_backtrace th' = th_backtrace th ∧ th_number th' = th_number th ∧
      th_crashthread th' = th_crashthread th ∧
      th_frames th `prefix_of` th_frames th';
  g_backtraces : ∀ i b, backtraces d !! i = Some b →
    ∃ b', backtraces d' !! i = Some b' ∧ bt_report b' = bt_report b ∧
      bt_threads b `prefix_of` bt_threads b';
  g_reports : ∀ i rp, reports d !! i = Some rp →
    ∃ rp', reports d' !! i = Some rp' ∧
      rp_backtraces rp `prefix_of` rp_backtraces rp';
  g_reportexes : ∀ i e, reportexes d !! i = Some e →
    ∃ e', reportexes d' !! i = Some e' ∧ re_path e' = re_path e ∧
      re_report e' = re_report e;
  g_symbols : ∀ i sym, symbols d !! i = Some sym →
    ∃ sym', symbols d' !! i = Some sym' ∧ sym_key sym' = sym_key sym ∧
      (∀ n, sym_nice_name sym = Some n → sym_nice_name sym' = Some n);
  g_symbolsources : ∀ i row, symbolsources d !! i = Some row →
    ∃ row', symbolsources d' !! i = Some row' ∧ ss_key row' = ss_key row ∧
      ss_hash row' = ss_hash row ∧
      ss_retrace_fail_count row ≤ ss_retrace_fail_count row' ∧
      ss_frames row `prefix_of` ss_frames row'
}.

(** What [retrace] does not touch *)
Definition same_reports (d d' : DB) : Prop :=
  reports d' = reports d ∧ reportexes d' = reportexes d ∧
  backtraces d' = backtraces d ∧ bthashes d' = bthashes d ∧
  length (threads d') = length (threads d).

(** The location [l] has the failure count of [row] *)
Definition fail_count_of (l : nat) (row : SymbolSource) (d : DB) : Prop :=
  ∃ row', symbolsources d !! l = Some row' ∧
    ss_retrace_fail_count row' = ss_retrace_fail_count row.

(** The location [l] is resolved: it has a symbol, a source path and a
    line number *)
Definition resolved (l : nat) (d : DB) : Prop :=
  ∃ row', symbolsources d !! l = Some row' ∧
    is_Some (ss_symbol row') ∧ is_Some (ss_source_path row') ∧
    is_Some (ss_line_number row').

(** A computation that returns, from every session satisfying [P] *)
Definition total_on {A} (P : DB → Prop) (m : M A) : Prop :=
  ∀ s, P (db s) → ∃ s' a, m s = (s', Ok a).

(** ** The objects [save_ureport] creates for a stack trace *)

Definition th_add_frames (fs : list nat) (t : ReportBtThread)
  : ReportBtThread :=
  {| th_backtrace := th_backtrace t; th_number := th_number t;
     th_crashthread := th_crashthread t; th_frames := th_frames t ++ fs |}.

Definition bt_add_threads (ths : list nat) (b : ReportBacktrace)
  : ReportBacktrace :=
  {| bt_report := bt_report b; bt_threads := bt_threads b ++ ths |}.

(** The frames of a thread, from the locations they reference: the
    [j]-th frame has order [10 * (j + 1)]. *)
Definition saved_thread_frames (db_thread : nat) (locs : list nat)
  : list ReportBtFrame :=
  imap (λ j loc, {| fr_thread := db_thread;
                    fr_order := 10 * (Z.of_nat j + 1);
                    fr_symbolsource := loc; fr_inlined := false |}) locs.

(** The threads and the frames of a stack trace, from the flag of each
    thread and the locations of its frames; [tid] threads came before,
    the next thread and the next frame will be at [db_thread] and
    [db_frame]. *)
Fixpoint saved_threads (db_backtrace : nat) (tid : Z) (db_frame : nat)
    (shapes : list (bool * list nat)) : list ReportBtThread :=
  match shapes with
  | [] => []
  | (crash, locs) :: rest =>
      {| th_backtrace := db_backtrace; th_number := tid + 1;
         th_crashthread := crash;
         th_frames := seq db_frame (length locs) |}
      :: saved_threads db_backtrace (tid + 1) (db_frame + length locs) rest
  end.

Fixpoint saved_frames (db_thread : nat) (shapes : list (bool * list nat))
  : list ReportBtFrame :=
  match shapes with
  | [] => []
  | (_, locs) :: rest =>
      saved_thread_frames db_thread locs ++ saved_frames (S db_thread) rest
  end.

(** The flag and the number of frames of a thread of a report *)
Definition shape_of (thread : pyval) (shape : bool * list nat) : Prop :=
  is_crash_thread thread = Ok shape.1 ∧
  ∃ fs, py_getitem thread "frames" = Ok (PList fs) ∧
        length shape.2 = length fs.

(** The structure of the reports (everything but symbols and locations) is
    that of [d0] *)
Definition same_structure (d0 d : DB) : Prop :=
  frames d = frames d0 ∧ threads d = threads d0 ∧
  backtraces d = backtraces d0 ∧ reports d = reports d0 ∧
  bthashes d = bthashes d0 ∧ reportexes d = reportexes d0.

(** Lines 645-646: the nice name is set when the symbol has none *)
Definition sym_fill_nice_name (n : string) (s : Symbol) : Symbol :=
  match sym_nice_name s with
  | None => sym_set_nice_name n s
  | Some _ => s
  end.

(** The identity of the location of a frame of a report (lines 368-379,
    404) *)
Section FrameKey.
Context `{Externals}.

Definition frame_key (frame : pyval) : result (option string * string * Z) :=
  build_id ← get_or_none "build_id" frame ≫= as_opt_str;
  file ← py_getitem frame "file_name" ≫= as_str;
  offset ← py_getitem frame "build_id_offset" ≫= as_int;
  Ok (build_id, abspath file, offset).

(** The identities of the locations of the frames of a thread of a
    report *)
Definition thread_keys (thread : pyval)
    (ks : list (option string * string * Z)) : Prop :=
  ∃ fs, py_getitem thread "frames" = Ok (PList fs) ∧
        mapR frame_key fs = Ok ks.

(** The [j]-th frame of a thread of a report, against a frame handed to
    satyr *)
Definition satyr_frame_of (j : nat) (frame : pyval) (gf : GdbFrame) : Prop :=
  ∃ file, py_getitem frame "file_name" ≫= as_str = Ok file ∧
    gf_library_name gf = abspath file ∧
    py_getitem frame "build_id_offset" ≫= as_int = Ok (gf_address gf) ∧
    gf_number gf = 10 * (Z.of_nat j + 1).

End FrameKey.

(** The frames created since the view [v0] reference locations that have
    the identities [ks], one by one *)
Definition view_keyed (v0 : View) (ks : list (option string * string * Z))
    (v : View) : Prop :=
  ∃ locs, v_frame_ss v = v_frame_ss v0 ++ locs ∧
    Forall2 (λ k loc, v_ss_keys v !! loc = Some k) ks locs.

(** * The JIT repair pass *)

Lemma repair_frames_length j fs :
  length (repair_frames j fs).1 = length fs.
Proof.
  revert j. induction fs as [|f fs IH]; intros j; simpl; [done|].
  destruct (repair_frame j f) as [f' [j'|e]]; simpl; [|done].
  specialize (IH j'). destruct (repair_frames j' fs) as [rest r]. simpl in *. lia.
Qed.

Lemma repair_frames_app j xs ys :
  repair_frames j (xs ++ ys) =
  match repair_frames j xs with
  | (xs', Ok j') =>
      let '(ys', r) := repair_frames j' ys in (xs' ++ ys', r)
  | (xs', Raise e) => (xs' ++ ys, Raise e)
  end.
Proof.
  revert j. induction xs as [|x xs IH]; intros j; simpl.
  - by destruct (repair_frames j ys).
  - destruct (repair_frame j x) as [x' [j'|e]]; [|done].
    rewrite IH. destruct (repair_frames j' xs) as [xs' [j''|e]]; [|done].
    by destruct (repair_frames j'' ys).
Qed.

Lemma jit_fill_has_file j d :
  is_Some (d !! "file_name") → jit_fill j d = d.
Proof. intros [v Hv]. unfold jit_fill. by rewrite Hv. Qed.

Lemma jit_fill_file_name j d :
  d !! "file_name" = None → py_is_none j = false →
  jit_fill j d !! "file_name" = Some j.
Proof.
  intros Hd Hj. unfold jit_fill. rewrite Hd, Hj.
  destruct (lacks_function_name _); by simplify_map_eq.
Qed.

Lemma lacks_function_name_insert_file v d :
  lacks_function_name (<["file_name" := v]> d) = lacks_function_name d.
Proof. unfold lacks_function_name. by rewrite lookup_insert_ne. Qed.

Lemma jit_fill_function_name j d :
  d !! "file_name" = None → py_is_none j = false →
  jit_fill j d !! "function_name" =
  if lacks_function_name d then Some (PStr ANON) else d !! "function_name".
Proof.
  intros Hd Hj. unfold jit_fill. rewrite Hd, Hj.
  rewrite lacks_function_name_insert_file.
  destruct (lacks_function_name d); by simplify_map_eq.
Qed.

(** The state a frame leaves depends on the frame only through the keys
    the detection reads. *)
Lemma jit_detect_after_fill j d j' :
  jit_detect j d = Ok j' →
  match jit_detect j (jit_fill j' d) with
  | Ok j'' => j'' = j'
  | Raise _ => True
  end.
Proof.
  unfold jit_detect. intros Hd.
  destruct (d !! "file_name") as [file|] eqn:Hfile.
  - rewrite (jit_fill_has_file j' d) by eauto. rewrite Hfile, Hd. done.
  - assert (j' = j) as -> by (by destruct (d !! "function_name"); simplify_eq).
    destruct (py_is_none j) eqn:Hj.
    + unfold jit_fill. rewrite Hfile, Hj, Hfile. done.
    + rewrite jit_fill_file_name, jit_fill_function_name by done.
      destruct (lacks_function_name d) eqn:Hl; simpl.
      * done.
      * destruct (d !! "function_name") as [fn|] eqn:Hfn; [|done].
        destruct (py_lower fn) as [low|]; simpl; [|done].
        by destruct (str_contains "jit" low).
Qed.

Lemma jit_fill_idem j d : jit_fill j (jit_fill j d) = jit_fill j d.
Proof.
  destruct (d !! "file_name") as [file|] eqn:Hfile.
  - rewrite (jit_fill_has_file j d) by eauto. by apply jit_fill_has_file.
  - destruct (py_is_none j) eqn:Hj.
    + unfold jit_fill. by rewrite Hfile, Hj, ?Hfile, ?Hj.
    + apply jit_fill_has_file. rewrite jit_fill_file_name by done. eauto.
Qed.

(** A second look at a repaired frame leaves it as it is; when both looks
    succeed they leave the same state, and a look that raised raises
    again. *)
Lemma repair_frame_idem j f :
  let '(f', r) := repair_frame j f in
  (repair_frame j f').1 = f' ∧
  match r with
  | Ok j' => ∀ j'', (repair_frame j f').2 = Ok j'' → j'' = j'
  | Raise _ => ∃ e, (repair_frame j f').2 = Raise e
  end.
Proof.
  destruct f as [| | | | |d]; simpl; try (split; [done|]; intros; congruence).
  destruct (jit_detect j d) as [j'|e] eqn:Hd; simpl.
  - pose proof (jit_detect_after_fill _ _ _ Hd) as Hd'.
    destruct (jit_detect j (jit_fill j' d)) as [j''|e'] eqn:Hd''; simpl.
    + subst j''. rewrite jit_fill_idem. split; [done|]. intros; congruence.
    + split; [done|]. intros; congruence.
  - rewrite Hd. simpl. eauto.
Qed.

Lemma repair_frames_idem j fs :
  let '(gs, r) := repair_frames j fs in
  (repair_frames j gs).1 = gs ∧
  match r with
  | Ok j' => ∀ j'', (repair_frames j gs).2 = Ok j'' → j'' = j'
  | Raise _ => ∃ e, (repair_frames j gs).2 = Raise e
  end.
Proof.
  revert j. induction fs as [|f fs IH]; intros j; simpl.
  - split; [done|]. intros; congruence.
  - pose proof (repair_frame_idem j f) as Hf.
    destruct (repair_frame j f) as [f' [j'|e]] eqn:Hrf.
    + destruct Hf as [Hf1 Hf2]. specialize (IH j').
      destruct (repair_frames j' fs) as [gs r] eqn:Hfs. destruct IH as [IH1 IH2].
      simpl. destruct (repair_frame j f') as [f'' [j''|e]] eqn:Hrf'; simpl in *.
      * assert (j'' = j') as -> by auto. subst f''.
        destruct (repair_frames j' gs) as [gs' r'] eqn:Hgs; simpl in *.
        subst gs'. split; [done|]. done.
      * subst f''. split; [done|]. destruct r; [intros; congruence|eauto].
    + destruct Hf as [Hf1 [e' Hf2]]. simpl.
      destruct (repair_frame j f') as [f'' [j''|e'']] eqn:Hrf'; simpl in *;
        [congruence|]. subst. eauto.
Qed.

Lemma repair_last_frame_has_file f d :
  repair_last_frame f = PDict d → is_Some (d !! "file_name").
Proof.
  destruct f as [| | | | |d0]; simpl; try congruence.
  intros [= <-].
  destruct (d0 !! "file_name") as [v|] eqn:Hv.
  - destruct (lacks_function_name d0); simplify_map_eq; eauto.
  - rewrite lacks_function_name_insert_file.
    destruct (lacks_function_name d0); simplify_map_eq; eauto.
Qed.

Lemma lacks_function_name_insert_anon d :
  lacks_function_name (<["function_name" := PStr ANON]> d) = false.
Proof. unfold lacks_function_name. by simplify_map_eq. Qed.

Lemma repair_last_frame_idem f :
  repair_last_frame (repair_last_frame f) = repair_last_frame f.
Proof.
  destruct f as [| | | | |d]; simpl; try done.
  set (d1 := match d !! "file_name" with
             | Some _ => d | None => <["file_name":=PStr UNKNOWN_FILE]> d end).
  assert (is_Some (d1 !! "file_name")) as [v Hv].
  { unfold d1. destruct (d !! "file_name") eqn:E; simplify_map_eq; eauto. }
  destruct (lacks_function_name d1) eqn:Hl.
  - rewrite lookup_insert_ne, Hv by done.
    by rewrite lacks_function_name_insert_anon.
  - by rewrite Hv, Hl.
Qed.

(** The scan leaves a frame repaired as a last frame alone. *)
Lemma repair_frame_last_fixed j f :
  (repair_frame j (repair_last_frame f)).1 = repair_last_frame f.
Proof.
  destruct (repair_last_frame f) as [| | | | |d] eqn:Hf; simpl; try done.
  apply repair_last_frame_has_file in Hf.
  destruct (jit_detect j d); simpl; [|done].
  by rewrite jit_fill_has_file.
Qed.

Lemma last_snoc_inv {A} (l : list A) x :
  last l = Some x → l = removelast l ++ [x].
Proof.
  intros Hl. destruct l as [|a l] using rev_ind; [done|].
  rewrite last_snoc in Hl. simplify_eq. by rewrite removelast_last.
Qed.

Lemma repair_last_idem fs : repair_last (repair_last fs) = repair_last fs.
Proof.
  unfold repair_last. destruct (last fs) as [l|] eqn:Hl.
  - rewrite last_snoc, removelast_last. by rewrite repair_last_frame_idem.
  - by rewrite Hl.
Qed.

Lemma repair_frames_snoc_fst j init l :
  (repair_frames j (init ++ [l])).1 = init ++ [l] →
  (repair_frames j init).1 = init.
Proof.
  intros Hi. pose proof (repair_frames_length j init) as Hlen.
  rewrite repair_frames_app in Hi.
  destruct (repair_frames j init) as [init' [j'|e]].
  - pose proof (repair_frames_length j' [l]) as Hl.
    destruct (repair_frames j' [l]) as [ys r]. simpl in Hi, Hl, Hlen |- *.
    apply app_inj_1 in Hi; [tauto|done].
  - simpl in *. by apply app_inj_tail in Hi as [? _].
Qed.

(** After a scan that repaired the frames and a repair of the last one,
    another scan changes nothing. *)
Lemma repair_frames_after_last j gs :
  (repair_frames j gs).1 = gs →
  (repair_frames j (repair_last gs)).1 = repair_last gs.
Proof.
  intros Hgs. unfold repair_last. destruct (last gs) as [l|] eqn:Hl; [|done].
  apply last_snoc_inv in Hl. rewrite Hl in Hgs.
  apply repair_frames_snoc_fst in Hgs.
  rewrite repair_frames_app.
  destruct (repair_frames j (removelast gs)) as [init' [j'|e]]; simpl in *;
    subst init'; [|done].
  pose proof (repair_frame_last_fixed j' l) as Hfix.
  destruct (repair_frame j' (repair_last_frame l)) as [l' [j''|e]];
    simpl in *; by subst.
Qed.

Lemma repair_thread_idem t :
  let '(t', r) := repair_thread t in
  (repair_thread t').1 = t' ∧
  match r with
  | Ok _ => True
  | Raise _ => ∃ e, (repair_thread t').2 = Raise e
  end.
Proof.
  destruct t as [| | | | |t]; simpl; try done.
  destruct (t !! "frames") as [[| | | |fs|]|] eqn:Hfs; simpl;
    rewrite ?Hfs; try done.
  pose proof (repair_frames_idem PNone fs) as Hidem.
  destruct (repair_frames PNone fs) as [gs [j|e]] eqn:Hrf.
  - destruct Hidem as [H1 _]. simpl. rewrite lookup_insert_eq.
    pose proof (repair_frames_after_last PNone gs H1) as H2.
    destruct (repair_frames PNone (repair_last gs)) as [hs [j'|e]];
      simpl in *; subst hs.
    + by rewrite insert_insert_eq, repair_last_idem.
    + by rewrite insert_insert_eq.
  - destruct Hidem as [H1 [e' H2]]. simpl. rewrite lookup_insert_eq.
    destruct (repair_frames PNone gs) as [hs [j'|e'']]; simpl in *;
      [congruence|]. subst hs. rewrite insert_insert_eq. eauto.
Qed.

Lemma repair_threads_idem ts :
  let '(ts', r) := repair_threads ts in
  (repair_threads ts').1 = ts' ∧
  match r with
  | Ok _ => True
  | Raise _ => ∃ e, (repair_threads ts').2 = Raise e
  end.
Proof.
  induction ts as [|t ts IH]; simpl; [done|].
  pose proof (repair_thread_idem t) as Ht.
  destruct (repair_thread t) as [t' [[]|e]].
  - destruct Ht as [Ht _].
    destruct (repair_threads ts) as [ts' r]. destruct IH as [IH1 IH2]. simpl.
    destruct (repair_thread t') as [t'' [[]|e]]; simpl in *; subst t''.
    + destruct (repair_threads ts') as [ts'' r']; simpl in *. subst ts''.
      split; [done|]. done.
    + split; [done|]. destruct r; eauto.
  - destruct Ht as [Ht [e' He]]. simpl.
    destruct (repair_thread t') as [t'' [[]|e'']]; simpl in *; [congruence|].
    subst t''. eauto.
Qed.

(** C7: the JIT repair pass is idempotent: for every report, a second pass
    over the report the first pass left changes nothing in it, whether or
    not a pass ends in an exception. *)
Theorem jit_repair_idempotent (ureport : gmap string pyval) :
  (jit_repair (jit_repair ureport).1).1 = (jit_repair ureport).1.
Proof.
  unfold jit_repair.
  destruct (ureport !! "stacktrace") as [[| | | |ts|]|] eqn:Hst; simpl;
    rewrite ?Hst; try done.
  pose proof (repair_threads_idem ts) as Hts.
  destruct (repair_threads ts) as [ts' r]. destruct Hts as [Hts _]. simpl.
  rewrite lookup_insert_eq.
  destruct (repair_threads ts') as [ts'' r']. simpl in *. subst ts''.
  by rewrite insert_insert_eq.
Qed.

Lemma repair_frames_Ok_app j xs ys gs j' :
  repair_frames j (xs ++ ys) = (gs, Ok j') →
  ∃ xs' ys' j1, repair_frames j xs = (xs', Ok j1) ∧
                repair_frames j1 ys = (ys', Ok j') ∧ gs = xs' ++ ys'.
Proof.
  rewrite repair_frames_app.
  destruct (repair_frames j xs) as [xs' [j1|e]]; [|intros [=]].
  destruct (repair_frames j1 ys) as [ys' r] eqn:Hys. intros [= <- ->]. by eexists _, _, _.
Qed.

Lemma repair_frames_Ok_cons j f fs gs j' :
  repair_frames j (f :: fs) = (gs, Ok j') →
  ∃ f' fs' j1, repair_frame j f = (f', Ok j1) ∧
               repair_frames j1 fs = (fs', Ok j') ∧ gs = f' :: fs'.
Proof.
  simpl. destruct (repair_frame j f) as [f' [j1|e]]; [|intros [=]].
  destruct (repair_frames j1 fs) as [fs' r] eqn:Hfs. intros [= <- ->]. by eexists _, _, _.
Qed.

Lemma repair_frame_jit j dj file f' j' :
  is_jit_frame (PDict dj) = true → dj !! "file_name" = Some file →
  repair_frame j (PDict dj) = (f', Ok j') → j' = file.
Proof.
  simpl. intros Hjit Hfile. unfold jit_detect. rewrite Hfile in *.
  destruct (dj !! "function_name") as [[| | |s| |]|]; try done. simpl.
  rewrite Hjit. by intros [= _ <-].
Qed.

Lemma repair_frame_not_jit j f f' j' :
  is_jit_frame f = false → repair_frame j f = (f', Ok j') → j' = j.
Proof.
  destruct f as [| | | | |d]; simpl; try by intros _ [= _ <-].
  unfold jit_detect.
  destruct (d !! "file_name") as [file|]; [|by intros _ [= _ <-]].
  destruct (d !! "function_name") as [[| | |s| |]|]; simpl;
    try by intros _ [= _ <-].
  intros ->. by intros [= _ <-].
Qed.

Lemma repair_frames_not_jit j fs gs j' :
  Forall (fun f => is_jit_frame f = false) fs →
  repair_frames j fs = (gs, Ok j') → j' = j.
Proof.
  intros Hfs. revert j gs. induction Hfs as [|f fs Hf Hfs IH]; intros j gs.
  - by intros [= _ <-].
  - intros (f' & fs' & j1 & H1 & H2 & ->)%repair_frames_Ok_cons.
    apply repair_frame_not_jit in H1 as ->; [|done]. eauto.
Qed.

Lemma repair_frame_no_file j d :
  d !! "file_name" = None →
  repair_frame j (PDict d) = (PDict (jit_fill j d), Ok j).
Proof.
  intros Hd. simpl. unfold jit_detect. rewrite Hd. done.
Qed.

Lemma repair_frames_Ok_length j fs gs r :
  repair_frames j fs = (gs, r) → length gs = length fs.
Proof. intros Hr. pose proof (repair_frames_length j fs). by rewrite Hr in *. Qed.

Lemma repair_last_length gs : length (repair_last gs) = length gs.
Proof.
  unfold repair_last. destruct (last gs) as [l|] eqn:Hl; [|done].
  apply last_snoc_inv in Hl. rewrite Hl at 2. by rewrite !length_app.
Qed.

Lemma repair_last_lookup_fixed gs k x :
  gs !! k = Some x → repair_last_frame x = x → repair_last gs !! k = Some x.
Proof.
  intros Hk Hx. unfold repair_last. destruct (last gs) as [l|] eqn:Hl; [|done].
  apply last_snoc_inv in Hl. rewrite Hl in Hk.
  apply lookup_app_Some in Hk as [Hk|[Hlen Hk]].
  - by apply lookup_app_l_Some.
  - apply list_lookup_singleton_Some in Hk as [Hk <-].
    rewrite lookup_app_r by done. rewrite Hk. simpl. by rewrite Hx.
Qed.

Lemma last_repair_last gs l :
  last gs = Some l → last (repair_last gs) = Some (repair_last_frame l).
Proof. intros Hl. unfold repair_last. rewrite Hl. by rewrite last_snoc. Qed.

(** C6, amended: in the scan of a thread that ends without exception, a
    frame without file name that comes after a frame with a non-null file
    name and a function name containing "jit" (no such frame in between)
    gets that file name, and the function name "anonymous function" when
    it has none or has "??"; after the scan a last frame still without
    file name gets "unknown filename", and one without function name gets
    "anonymous function". *)
Theorem jit_repair_thread (t : gmap string pyval) (fs : list pyval)
    (th' : pyval) :
  t !! "frames" = Some (PList fs) →
  repair_thread (PDict t) = (th', Ok tt) →
  ∃ t' gs hs jl,
    th' = PDict t' ∧ t' !! "frames" = Some (PList hs) ∧
    repair_frames PNone fs = (gs, Ok jl) ∧
    (∀ pre dj file mid d post,
        fs = pre ++ PDict dj :: mid ++ PDict d :: post →
        is_jit_frame (PDict dj) = true →
        dj !! "file_name" = Some file → file ≠ PNone →
        Forall (fun f => is_jit_frame f = false) mid →
        d !! "file_name" = None →
        ∃ d', hs !! (length pre + 1 + length mid)%nat = Some (PDict d') ∧
              d' !! "file_name" = Some file ∧
              (d !! "function_name" = None ∨
               d !! "function_name" = Some (PStr "??") →
               d' !! "function_name" = Some (PStr "anonymous function"))) ∧
    (∀ dl, last gs = Some (PDict dl) →
        ∃ dl', last hs = Some (PDict dl') ∧
               (dl !! "file_name" = None →
                dl' !! "file_name" = Some (PStr "unknown filename")) ∧
               (dl !! "function_name" = None →
                dl' !! "function_name" = Some (PStr "anonymous function"))).
Proof.
  intros Hfs. simpl. rewrite Hfs.
  destruct (repair_frames PNone fs) as [gs [jl|e]] eqn:Hscan; [|intros [=]].
  intros [= <-].
  exists (<["frames" := PList (repair_last gs)]> t), gs, (repair_last gs), jl.
  split; [done|]. split; [by rewrite lookup_insert_eq|]. split; [done|]. split.
  - intros pre dj file mid d post -> Hjit Hfile Hnone Hmid Hd.
    apply repair_frames_Ok_app in Hscan as (pre' & r1 & j0 & Hpre & Hr1 & ->).
    apply repair_frames_Ok_cons in Hr1 as (dj' & r2 & j1 & Hdj & Hr2 & ->).
    apply (repair_frame_jit _ _ file) in Hdj as Hj1; [|done..]. subst j1.
    apply repair_frames_Ok_app in Hr2 as (mid' & r3 & j2 & Hmid' & Hr3 & ->).
    pose proof (repair_frames_not_jit _ _ _ _ Hmid Hmid') as ->.
    apply repair_frames_Ok_cons in Hr3 as (d' & post' & j3 & Hd' & Hpost & ->).
    rewrite repair_frame_no_file in Hd' by done. injection Hd' as <- <-.
    assert (py_is_none file = false) as Hnn by by destruct file.
    exists (jit_fill file d).
    apply repair_frames_Ok_length in Hpre, Hmid'.
    split; [|split].
    + apply repair_last_lookup_fixed.
      * rewrite lookup_app_r by lia.
        replace (length pre + 1 + length mid - length pre')%nat
          with (S (length mid')) by lia.
        simpl. rewrite lookup_app_r by lia.
        by replace (length mid' - length mid')%nat with 0%nat by lia.
      * simpl. rewrite jit_fill_file_name by done.
        unfold lacks_function_name.
        rewrite jit_fill_function_name by done.
        unfold lacks_function_name.
        destruct (d !! "function_name") as [v|] eqn:Hv; simpl; [|done].
        destruct (py_eq_str v "??") eqn:Hq; simpl; [done|].
        by rewrite Hq.
    + by apply jit_fill_file_name.
    + intros Hlack. rewrite jit_fill_function_name by done.
      unfold lacks_function_name. by destruct Hlack as [-> | ->].
  - intros dl Hl. apply last_repair_last in Hl as Hl'. simpl in Hl'.
    eexists. split; [exact Hl'|]. split.
    + intros Hf. rewrite Hf. rewrite lacks_function_name_insert_file.
      destruct (lacks_function_name dl); by simplify_map_eq.
    + intros Hf.
      assert (∀ d1, d1 !! "function_name" = None →
                    lacks_function_name d1 = true) as Hlk.
      { intros d1 H1. unfold lacks_function_name. by rewrite H1. }
      destruct (dl !! "file_name");
        rewrite Hlk by (by simplify_map_eq); by simplify_map_eq.
Qed.

(** * Validated reports and the hashers *)

Section Hashers.
Context `{Externals}.

Lemma mapR_ok {A B} (f : A → result B) (l : list A) :
  Forall (fun x => ∃ y, f x = Ok y) l → ∃ ys, mapR f l = Ok ys ∧ length ys = length l.
Proof.
  induction 1 as [|x l [y Hy] _ [ys [IH Hlen]]]; simpl; [by eexists|].
  rewrite Hy. simpl. rewrite IH. simpl. eexists. split; [done|]. simpl. lia.
Qed.

Lemma mapR_Ok_length {A B} (f : A → result B) l ys :
  mapR f l = Ok ys → length ys = length l.
Proof.
  revert ys. induction l as [|x l IH]; intros ys; simpl; [by intros [= <-]|].
  destruct (f x) as [y|]; simpl; [|done].
  destruct (mapR f l) as [ys'|]; simpl; [|done].
  intros [= <-]. simpl. f_equal. by apply IH.
Qed.

Lemma check_frame_valid f : check frame_checker f = true → valid_frame f.
Proof.
  destruct f as [| | | | |d]; simpl; try done.
  intros Hc. repeat (apply andb_prop in Hc as [? Hc]).
  destruct (d !! "build_id_offset") as [[]|] eqn:E1; try done.
  destruct (d !! "file_name") as [[]|] eqn:E2; try done.
  eexists _, _, _. split; [done|]. split; [done|]. split; [done|].
  destruct (d !! "build_id") as [[]|] eqn:E3; try done; eauto.
Qed.

Lemma check_thread_valid th : check thread_checker th = true → valid_thread th.
Proof.
  destruct th as [| | | | |t]; simpl; try done.
  intros Hc. repeat (apply andb_prop in Hc as [? Hc]).
  destruct (t !! "frames") as [[| | | |fs|]|] eqn:E1; try done.
  match goal with H : _ && forallb _ fs = true |- _ =>
    apply andb_prop in H as [Hlen Hall] end.
  exists t, fs. split; [done|]. split; [done|]. split.
  { destruct fs; [done|done]. }
  split.
  { apply Forall_forall. intros f Hf. apply check_frame_valid.
    rewrite forallb_forall in Hall. apply Hall. by apply list_elem_of_In. }
  destruct (t !! "crash_thread") as [[]|] eqn:E3; try done; eauto.
Qed.

Lemma check_report_valid u :
  check checker (PDict u) = true →
  ∃ ths, u !! "stacktrace" = Some (PList ths) ∧ ths ≠ [] ∧
         Forall valid_thread ths.
Proof.
  simpl. intros Hc. repeat (apply andb_prop in Hc as [? Hc]).
  destruct (u !! "stacktrace") as [[| | | |ths|]|] eqn:E1; try done.
  match goal with H : _ && forallb _ ths = true |- _ =>
    apply andb_prop in H as [Hlen Hall] end.
  exists ths. split; [done|]. split.
  { by destruct ths. }
  apply Forall_forall. intros f Hf. apply check_thread_valid.
  rewrite forallb_forall in Hall. apply Hall. by apply list_elem_of_In.
Qed.

Lemma all_have_dicts key fs :
  Forall valid_frame fs → ∃ b, all_have key fs = Ok b ∧
    (b = true → Forall (has_key key) fs).
Proof.
  induction 1 as [|f fs (d & z & s & -> & _) _ (b & IH & IHb)]; simpl.
  - eexists. split; [done|]. by constructor.
  - destruct (bool_decide (is_Some (d !! key))) eqn:Hk.
    + exists b. split; [done|]. intros ->. constructor; [|auto].
      unfold has_key. simpl. by rewrite Hk.
    + exists false. done.
Qed.

Lemma all_have_true key fs :
  Forall (has_key key) fs → all_have key fs = Ok true.
Proof.
  induction 1 as [|f fs Hf _ IH]; simpl; [done|].
  unfold has_key in Hf. by rewrite Hf.
Qed.

Lemma thread_sane_valid key th :
  valid_thread th → ∃ b, thread_sane key th = Ok b.
Proof.
  intros (t & fs & -> & Hfs & _ & Hall & _). unfold thread_sane. simpl.
  rewrite Hfs. simpl.
  destruct (all_have_dicts key fs Hall) as (b & -> & _). eauto.
Qed.

Lemma is_crash_thread_valid th : valid_thread th → ∃ b, is_crash_thread th = Ok b.
Proof.
  intros (t & fs & -> & _ & _ & _ & Hc). unfold is_crash_thread. simpl.
  destruct Hc as [Hc|[b Hc]]; rewrite Hc; simpl; eauto.
Qed.

Lemma backtrace_line_valid key f :
  valid_frame f → has_key key f → ∃ l, backtrace_line key f = Ok l.
Proof.
  intros (d & z & s & -> & _ & Hfile & Hbid) Hkey.
  unfold has_key in Hkey. simpl in Hkey.
  injection Hkey as Hkey. apply bool_decide_eq_true in Hkey as [v Hv].
  unfold backtrace_line, get_or_none. simpl.
  assert (∃ b, (if bool_decide (is_Some (d !! "build_id"))
                then match d !! "build_id" with
                     | Some x => Ok x
                     | None => Raise (KeyError "build_id")
                     end
                else Ok PNone) = Ok b) as [b ->].
  { destruct Hbid as [Hb|[b Hb]]; rewrite Hb; simpl; eauto. }
  simpl. rewrite Hv, Hfile. simpl. eauto.
Qed.

Lemma backtrace_thread_lines_valid key th :
  valid_thread th → thread_sane key th = Ok true →
  ∃ ls, backtrace_thread_lines key th = Ok ls.
Proof.
  intros Hth Hsane.
  destruct (is_crash_thread_valid th Hth) as [c Hc].
  destruct Hth as (t & fs & -> & Hfs & _ & Hall & _).
  unfold backtrace_thread_lines. rewrite Hc. simpl.
  unfold thread_sane in Hsane. simpl in Hsane. rewrite Hfs in *. simpl in *.
  destruct (all_have_dicts key fs Hall) as (b & Hb & Hkeys).
  rewrite Hb in Hsane. injection Hsane as ->.
  destruct (mapR_ok (backtrace_line key) fs) as (ls & -> & _).
  { specialize (Hkeys eq_refl). rewrite Forall_forall in *.
    intros f Hf. apply backtrace_line_valid; auto. }
  simpl. eauto.
Qed.

Lemma mapR_forall_true {A} (f : A → result bool) l bs :
  mapR f l = Ok bs → forallb id bs = true → Forall (fun x => f x = Ok true) l.
Proof.
  revert bs. induction l as [|x l IH]; intros bs; simpl; [constructor|].
  destruct (f x) as [b|] eqn:Hx; simpl; [|done].
  destruct (mapR f l) as [bs'|]; simpl; [|done].
  intros [= <-]. simpl. intros [-> Hbs]%andb_prop. constructor; eauto.
Qed.

Lemma hash_backtrace_key_valid ths key :
  Forall valid_thread ths → ∃ o, hash_backtrace_key ths key = Ok o.
Proof.
  intros Hths. unfold hash_backtrace_key.
  destruct (mapR_ok (thread_sane key) ths) as (bs & Hbs & _).
  { eapply Forall_impl; [done|]. intros th. apply thread_sane_valid. }
  rewrite Hbs. simpl. destruct (forallb id bs) eqn:Hall; [|eauto].
  pose proof (mapR_forall_true _ _ _ Hbs Hall) as Hsane.
  destruct (mapR_ok (backtrace_thread_lines key) ths) as (ls & -> & _).
  { rewrite Forall_forall in *. intros th Hth.
    apply backtrace_thread_lines_valid; auto. }
  simpl. eauto.
Qed.

Lemma valid_frame_has_offset f : valid_frame f → has_key "build_id_offset" f.
Proof.
  intros (d & z & s & -> & Hoff & _). unfold has_key. simpl.
  by rewrite bool_decide_eq_true_2 by eauto.
Qed.

Lemma mapR_all_true {A} (f : A → result bool) l :
  Forall (fun x => f x = Ok true) l →
  ∃ bs, mapR f l = Ok bs ∧ forallb id bs = true.
Proof.
  induction 1 as [|x l Hx _ (bs & IH & Hbs)]; simpl; [by eexists|].
  rewrite Hx. simpl. rewrite IH. simpl. exists (true :: bs). done.
Qed.

(** The [build_id_offset] strategy is usable on every validated stack. *)
Lemma hash_backtrace_offset_usable ths :
  Forall valid_thread ths →
  ∃ h, hash_backtrace_key ths "build_id_offset" = Ok (Some h).
Proof.
  intros Hths. unfold hash_backtrace_key.
  assert (Forall (fun th => thread_sane "build_id_offset" th = Ok true) ths)
    as Hsane.
  { eapply Forall_impl; [done|]. intros th (t & fs & -> & Hfs & _ & Hall & _).
    unfold thread_sane. simpl. rewrite Hfs. simpl. apply all_have_true.
    eapply Forall_impl; [done|]. apply valid_frame_has_offset. }
  destruct (mapR_all_true _ _ Hsane) as (bs & -> & Hbs). simpl. rewrite Hbs.
  destruct (mapR_ok (backtrace_thread_lines "build_id_offset") ths)
    as (ls & -> & _).
  { rewrite Forall_forall in *. intros th Hth.
    apply backtrace_thread_lines_valid; auto. }
  simpl. eauto.
Qed.

Lemma validate_ureport_Ok u u' b :
  validate_ureport u = (u', Ok b) →
  check checker (PDict u') = true ∧ u' = (jit_repair u).1.
Proof.
  unfold validate_ureport, checker_check.
  destruct (jit_repair u) as [u1 r].
  destruct (check checker (PDict u1)) eqn:Hc; intros [= <- Hr];
    (split; [|done]); [done|].
  by destruct r as [[]|].
Qed.

Lemma quiet_bind {A B} (r : result A) (k : A → result B) :
  quiet r → (∀ a, quiet (k a)) → quiet (r ≫= k).
Proof.
  intros Hr Hk. destruct r as [a|e]; simpl; [apply Hk|].
  intros msg [= ->]. by apply (Hr msg).
Qed.

Lemma quietM_bind {A B} (m : M A) (k : A → M B) :
  quietM m → (∀ a, quietM (k a)) → quietM (m ≫= k).
Proof.
  intros Hm Hk s. specialize (Hm s). unfold mbind, M_bind.
  destruct (m s) as [s' [a|e]]; simpl in *; [apply Hk|].
  intros msg [= ->]. by apply (Hm msg).
Qed.

Lemma quietM_ret {A} (a : A) : quietM (mret a).
Proof. by intros s msg. Qed.

Lemma quietM_lift {A} (r : result A) : quiet r → quietM (lift r).
Proof. by intros Hr s. Qed.

Lemma quietM_modify f : quietM (modify_db f).
Proof. by intros s msg. Qed.

Lemma quietM_get_db : quietM get_db.
Proof. by intros s msg. Qed.

Lemma quietM_deref {A} (table : DB → list A) r : quietM (deref table r).
Proof. intros s msg. unfold deref. simpl. by destruct (table (db s) !! r). Qed.

Lemma quiet_py_getitem v k : quiet (py_getitem v k).
Proof. intros msg. destruct v; simpl; try done. by destruct (_ !! k). Qed.

Lemma quiet_py_contains v k : quiet (py_contains k v).
Proof. intros msg. by destruct v. Qed.

Lemma quiet_py_iter v : quiet (py_iter v).
Proof. intros msg. by destruct v. Qed.

Lemma quiet_as_str v : quiet (as_str v).
Proof. intros msg. by destruct v. Qed.

Lemma quiet_as_int v : quiet (as_int v).
Proof. intros msg. by destruct v. Qed.

Lemma quiet_as_opt_str v : quiet (as_opt_str v).
Proof. intros msg. by destruct v. Qed.

Lemma quiet_get_or_none k v : quiet (get_or_none k v).
Proof.
  apply quiet_bind; [apply quiet_py_contains|].
  intros []; [apply quiet_py_getitem|done].
Qed.

Lemma quiet_is_crash_thread v : quiet (is_crash_thread v).
Proof.
  apply quiet_bind; [apply quiet_py_contains|].
  intros []; [|done]. apply quiet_bind; [apply quiet_py_getitem|done].
Qed.

Create HintDb quiet.
#[local] Hint Resolve quietM_ret quietM_lift quietM_modify quietM_get_db
  quietM_deref quiet_py_getitem quiet_py_contains quiet_py_iter quiet_as_str
  quiet_as_int quiet_as_opt_str quiet_get_or_none quiet_is_crash_thread
  quiet_bind : quiet.

Ltac quiet_step :=
  first [ apply quietM_bind; [|intros ?] | apply quietM_lift
        | apply quiet_bind; [|intros ?] ]; auto with quiet.

Lemma quietM_new_symbol s : quietM (new_symbol s).
Proof. unfold new_symbol. repeat quiet_step. Qed.

Lemma quietM_new_symbolsource s : quietM (new_symbolsource s).
Proof. unfold new_symbolsource. repeat quiet_step. Qed.

Lemma quietM_new_frame f : quietM (new_frame f).
Proof. unfold new_frame. repeat quiet_step. Qed.

Lemma quietM_new_thread t : quietM (new_thread t).
Proof. unfold new_thread. repeat quiet_step. Qed.

Lemma quietM_new_backtrace b : quietM (new_backtrace b).
Proof. unfold new_backtrace. repeat quiet_step. Qed.

Lemma quietM_get_or_create_symbol n p : quietM (get_or_create_symbol n p).
Proof.
  unfold get_or_create_symbol. apply quietM_bind; [auto with quiet|].
  intros d. destruct (get_symbol_by_name_path d n p); [auto with quiet|].
  intros s. destruct (new_symbols s !! (n, p)); [done|].
  revert s. change (quietM (r ← new_symbol {| sym_name := n;
    sym_normalized_path := p; sym_nice_name := None |};
    _ ← cache_symbol (n, p) r; mret r)).
  apply quietM_bind; [apply quietM_new_symbol|]. intros r.
  apply quietM_bind; [by intros s msg|]. auto with quiet.
Qed.

Lemma quietM_get_or_create_symbolsource sym b p o f :
  quietM (get_or_create_symbolsource sym b p o f).
Proof.
  unfold get_or_create_symbolsource. apply quietM_bind; [auto with quiet|].
  intros d. destruct (get_ssource_by_bpo d b p o); [auto with quiet|].
  intros s. destruct (new_symbolsources s !! (b, p, o)); [done|].
  revert s.
  match goal with |- ∀ s, quiet (?m s).2 => change (quietM m) end.
  apply quietM_bind; [apply quietM_new_symbolsource|]. intros r.
  apply quietM_bind; [by intros s msg|]. auto with quiet.
Qed.

Lemma quietM_save_frame t fid f : quietM (save_frame t fid f).
Proof.
  unfold save_frame.
  apply quietM_bind; [auto with quiet|]. intros build_id.
  apply quietM_bind; [auto with quiet|]. intros fingerprint.
  apply quietM_bind; [auto with quiet|]. intros file.
  apply quietM_bind; [auto with quiet|]. intros offset.
  apply quietM_bind; [auto with quiet|]. intros has_name.
  apply quietM_bind.
  { destruct has_name; [|auto with quiet].
    apply quietM_bind; [auto with quiet|]. intros name.
    apply quietM_bind; [apply quietM_get_or_create_symbol|].
    auto with quiet. }
  intros sym. apply quietM_bind; [apply quietM_get_or_create_symbolsource|].
  intros ss. apply quietM_bind; [apply quietM_new_frame|]. auto with quiet.
Qed.

Lemma quietM_save_frames t fid fs : quietM (save_frames t fid fs).
Proof.
  revert fid. induction fs as [|f fs IH]; intros fid; simpl.
  - auto with quiet.
  - apply quietM_bind; [apply quietM_save_frame|]. intros _. apply IH.
Qed.

Lemma quietM_save_threads bt tid ths : quietM (save_threads bt tid ths).
Proof.
  revert tid. induction ths as [|th ths IH]; intros tid; simpl.
  - auto with quiet.
  - apply quietM_bind; [auto with quiet|]. intros c.
    apply quietM_bind; [apply quietM_new_thread|]. intros t.
    apply quietM_bind; [auto with quiet|]. intros fs.
    apply quietM_bind; [apply quietM_save_frames|]. intros _. apply IH.
Qed.

Lemma quietM_forM {A} (f : A → M unit) l :
  (∀ x, quietM (f x)) → quietM (forM f l).
Proof.
  intros Hf. induction l as [|x l IH]; simpl; [auto with quiet|].
  apply quietM_bind; [apply Hf|]. by intros _.
Qed.

Lemma quietM_save_backtrace r st hs : quietM (save_backtrace r st hs).
Proof.
  unfold save_backtrace.
  apply quietM_bind; [apply quietM_new_backtrace|]. intros bt.
  apply quietM_bind.
  { apply quietM_forM. intros h. apply quietM_modify. }
  intros _. apply quietM_bind; [auto with quiet|]. intros ths.
  apply quietM_save_threads.
Qed.

Lemma quietM_new_reportexe e : quietM (new_reportexe e).
Proof. unfold new_reportexe. repeat quiet_step. Qed.

Lemma quietM_bind_lift_Ok {A B} (a : A) (k : A → M B) :
  quietM (k a) → quietM (lift (Ok a) ≫= k).
Proof. intros Hk s. apply Hk. Qed.

Lemma save_ureport_body_quiet r (u : gmap string pyval) fl n ths hashes :
  u !! "stacktrace" = Some (PList ths) →
  _hash_backtrace (PList ths) = Ok hashes → hashes ≠ [] →
  quietM (save_ureport_body r u fl n).
Proof.
  intros Hst Hh Hne. unfold save_ureport_body.
  apply quietM_bind; [|intros _; destruct fl; auto with quiet].
  unfold save_ureport_core.
  apply quietM_bind; [auto with quiet|]. intros signal.
  apply quietM_bind; [auto with quiet|]. intros _.
  apply quietM_bind; [auto with quiet|]. intros executable.
  apply quietM_bind; [auto with quiet|]. intros d.
  apply quietM_bind.
  { destruct (get_reportexe d r executable); [auto with quiet|].
    apply quietM_new_reportexe. }
  intros e. apply quietM_bind; [auto with quiet|]. intros _.
  replace (py_getitem (PDict u) "stacktrace") with (Ok (A:=pyval) (PList ths))
    by (simpl; by rewrite Hst).
  apply quietM_bind_lift_Ok. rewrite Hh. apply quietM_bind_lift_Ok.
  apply quietM_bind; [by destruct hashes; auto with quiet|]. intros _.
  apply quietM_bind; [auto with quiet|]. intros rp.
  destruct (rp_backtraces rp); [apply quietM_save_backtrace|auto with quiet].
Qed.

(** C1: for every report that passes validation, [_hash_backtrace] returns
    a non-empty list of hashes on the validated stack trace, the
    build_id_offset strategy being usable, and so [save_ureport] does not
    fail with "Unable to get backtrace hash". *)
Theorem validated_report_has_hash (u u' : gmap string pyval) :
  validate_ureport u = (u', Ok true) →
  ∃ threads hashes,
    u' !! "stacktrace" = Some (PList threads) ∧
    _hash_backtrace (PList threads) = Ok hashes ∧
    hashes ≠ [] ∧
    (∃ h, hash_backtrace_key threads "build_id_offset" = Ok (Some h) ∧
          h ∈ hashes) ∧
    (∀ d r fl n,
       (save_ureport d r u' fl n).2 ≠
       Raise (FafError "Unable to get backtrace hash")).
Proof.
  intros [Hcheck _]%validate_ureport_Ok.
  destruct (check_report_valid u' Hcheck) as (ths & Hst & _ & Hths).
  destruct (hash_backtrace_key_valid ths "function_name" Hths) as [o1 H1].
  destruct (hash_backtrace_key_valid ths "fingerprint" Hths) as [o2 H2].
  destruct (hash_backtrace_offset_usable ths Hths) as [h H3].
  assert (_hash_backtrace (PList ths) = Ok (omap id [o1; o2; Some h])) as Hh.
  { unfold _hash_backtrace. simpl. rewrite H1. simpl. rewrite H2. simpl.
    rewrite H3. done. }
  assert (h ∈ omap (M:=list) id [o1; o2; Some h]) as Hin.
  { apply list_elem_of_omap. exists (Some h). split; [|done].
    set_solver. }
  exists ths, (omap id [o1; o2; Some h]).
  split; [done|]. split; [done|]. split.
  { intros Hnil. rewrite Hnil in Hin. by apply elem_of_nil in Hin. }
  split; [eauto|].
  intros d r fl n. unfold save_ureport.
  pose proof (save_ureport_body_quiet r u' fl n ths _ Hst Hh) as Hq.
  specialize (Hq ltac:(intros Hnil; rewrite Hnil in Hin;
                       by apply elem_of_nil in Hin) (start d)).
  destruct (save_ureport_body r u' fl n (start d)) as [b res]. apply Hq.
Qed.
End Hashers.

Section Short.
Context `{Externals}.

Lemma all_have_Ok_true key fs :
  all_have key fs = Ok true ↔ Forall (has_key key) fs.
Proof.
  split.
  - induction fs as [|f fs IH]; simpl; [constructor|].
    destruct (py_contains key f) as [[]|] eqn:Hf; simpl; try done.
    intros Hfs. constructor; auto.
  - induction 1 as [|f fs Hf _ IH]; simpl; [done|].
    unfold has_key in Hf. by rewrite Hf.
Qed.

Lemma all_have_Ok_false key fs :
  all_have key fs = Ok false → ¬ Forall (has_key key) fs.
Proof.
  intros Hf Hall. apply all_have_Ok_true in Hall. congruence.
Qed.

(** The loop with its [break] takes the first [hashframes] frames. *)
Lemma short_lines_take cfg key i fs :
  short_lines cfg key i fs =
  mapR (short_line key) (take (Z.to_nat (hashframes cfg - i)) fs).
Proof.
  revert i. induction fs as [|f fs IH]; intros i; simpl.
  - by rewrite take_nil.
  - destruct (Z.leb_spec (hashframes cfg) i) as [Hle|Hlt].
    + by replace (Z.to_nat (hashframes cfg - i)) with 0%nat by lia.
    + replace (Z.to_nat (hashframes cfg - i))
        with (S (Z.to_nat (hashframes cfg - (i + 1)))) by lia.
      simpl. by rewrite IH.
Qed.

Lemma hash_ureport_inv cfg (u : gmap string pyval) h :
  hash_ureport cfg u = Ok h →
  ∃ threads t fs component key lines,
    u !! "stacktrace" = Some (PList threads) ∧
    filter_crash threads = Ok [t] ∧
    py_getitem t "frames" = Ok (PList fs) ∧
    u !! "component" = Some component ∧
    short_key fs = Ok key ∧
    mapR (short_line key) (take (Z.to_nat (hashframes cfg)) fs) = Ok lines ∧
    h = hash_list (component :: lines).
Proof.
  unfold hash_ureport. simpl.
  destruct (u !! "stacktrace") as [st|] eqn:Hst; simpl; [|done].
  unfold _get_crash_thread.
  destruct st as [| | | |threads|]; simpl; try done.
  destruct (filter_crash threads) as [[|t [|]]|] eqn:Hcrash; simpl; try done.
  destruct (py_getitem t "frames") as [ct|] eqn:Hct; simpl; [|done].
  destruct (u !! "component") as [component|] eqn:Hcomp; simpl; [|done].
  destruct ct as [| | | |fs|]; simpl; try done.
  destruct (short_key fs) as [key|] eqn:Hkey; simpl; [|done].
  rewrite short_lines_take, Z.sub_0_r.
  destruct (mapR _ _) as [lines|] eqn:Hlines; simpl; [|done].
  intros [= <-]. by eexists _, _, _, _, _, _.
Qed.

Lemma short_key_spec fs key :
  short_key fs = Ok key →
  key = "function_name" ∧ Forall (has_key "function_name") fs ∨
  key = "fingerprint" ∧ ¬ Forall (has_key "function_name") fs ∧
    Forall (has_key "fingerprint") fs ∨
  key = "build_id_offset" ∧ ¬ Forall (has_key "function_name") fs ∧
    ¬ Forall (has_key "fingerprint") fs.
Proof.
  unfold short_key.
  destruct (all_have "function_name" fs) as [[]|] eqn:H1; simpl; try done.
  - intros [= <-]. left. split; [done|]. by apply all_have_Ok_true.
  - apply all_have_Ok_false in H1.
    destruct (all_have "fingerprint" fs) as [[]|] eqn:H2; simpl; try done.
    + intros [= <-]. right. left. split; [done|]. split; [done|].
      by apply all_have_Ok_true.
    + intros [= <-]. right. right. split; [done|]. split; [done|].
      by apply all_have_Ok_false.
Qed.

(** C5: the short hash is computed from the component and the frames of
    the single crash thread only; its key is function_name when every
    frame of that thread has one (whatever else they have), else
    fingerprint when every frame has one, else build_id_offset; it takes
    the first [hashframes] frames at most, 16 by default. *)
Theorem hash_ureport_short cfg (u : gmap string pyval) (h : string) :
  hash_ureport cfg u = Ok h →
  ∃ threads t fs component key lines,
    u !! "stacktrace" = Some (PList threads) ∧
    filter_crash threads = Ok [t] ∧
    py_getitem t "frames" = Ok (PList fs) ∧
    u !! "component" = Some component ∧
    (key = "function_name" ∧ Forall (has_key "function_name") fs ∨
     key = "fingerprint" ∧ ¬ Forall (has_key "function_name") fs ∧
       Forall (has_key "fingerprint") fs ∨
     key = "build_id_offset" ∧ ¬ Forall (has_key "function_name") fs ∧
       ¬ Forall (has_key "fingerprint") fs) ∧
    (Forall (has_key "function_name") fs → key = "function_name") ∧
    mapR (short_line key) (take (Z.to_nat (hashframes cfg)) fs) = Ok lines ∧
    (length lines ≤ Z.to_nat (hashframes cfg))%nat ∧
    h = hash_list (component :: lines) ∧
    (∀ u2 threads2 t2 h2,
       u2 !! "stacktrace" = Some (PList threads2) →
       filter_crash threads2 = Ok [t2] →
       py_getitem t2 "frames" = Ok (PList fs) →
       u2 !! "component" = Some component →
       hash_ureport cfg u2 = Ok h2 → h2 = h) ∧
    hashframes (init ∅ ∅) = 16.
Proof.
  intros (threads & t & fs & component & key & lines & Hst & Hcrash & Hfs
          & Hcomp & Hkey & Hlines & ->)%hash_ureport_inv.
  exists threads, t, fs, component, key, lines.
  repeat (split; [done || by apply short_key_spec|]).
  split.
  { intros Hall.
    destruct (short_key_spec _ _ Hkey) as [[-> _]|[(_ & Hn & _)|(_ & Hn & _)]];
      done. }
  split; [done|]. split.
  { apply mapR_Ok_length in Hlines. rewrite Hlines, length_take. lia. }
  split; [done|]. split; [|done].
  intros u2 threads2 t2 h2 Hst2 Hcrash2 Hfs2 Hcomp2
    (threads3 & t3 & fs3 & component3 & key3 & lines3 & Hst3 & Hcrash3 & Hfs3
     & Hcomp3 & Hkey3 & Hlines3 & ->)%hash_ureport_inv.
  congruence.
Qed.
End Short.

Section Satyr.
Context `{Externals}.

Lemma first_crash_thread_skip cfg d pre ts :
  Forall (fun t => ∃ th, threads d !! t = Some th ∧ th_crashthread th = false)
         pre →
  first_crash_thread cfg d (pre ++ ts) = first_crash_thread cfg d ts.
Proof.
  induction 1 as [|t pre (th & Ht & Hc) _ IH]; simpl; [done|].
  by rewrite Ht, Hc.
Qed.

(** C9: [db_report_to_satyr] returns [None] when the first crash thread of
    the report's first backtrace has exactly one frame, whose symbol is
    named "anonymous function" with normalized path "unknown filename". *)
Theorem db_report_to_satyr_single_bad_frame cfg (d : DB) (db_report : nat)
    rp bt others b pre t post th f fr ss r sym :
  reports d !! db_report = Some rp →
  rp_backtraces rp = bt :: others →
  backtraces d !! bt = Some b →
  bt_threads b = pre ++ t :: post →
  Forall (fun t' => ∃ th', threads d !! t' = Some th' ∧
                          th_crashthread th' = false) pre →
  threads d !! t = Some th →
  th_crashthread th = true →
  th_frames th = [f] →
  frames d !! f = Some fr →
  symbolsources d !! fr_symbolsource fr = Some ss →
  ss_symbol ss = Some r →
  symbols d !! r = Some sym →
  sym_name sym = "anonymous function" →
  sym_normalized_path sym = "unknown filename" →
  db_report_to_satyr cfg d db_report = Ok None.
Proof.
  intros Hrp Hbts Hb Hths Hpre Ht Hcrash Hfs Hfr Hss Hsym Hs Hname Hpath.
  unfold db_report_to_satyr. rewrite Hrp, Hbts, Hb, Hths.
  destruct (pre ++ t :: post) as [|x l] eqn:Hl.
  { by destruct pre. }
  rewrite <- Hl. rewrite first_crash_thread_skip by done.
  simpl. rewrite Ht, Hcrash. unfold _db_thread_validate.
  rewrite Ht, Hfs, Hfr, Hss, Hsym, Hs, Hname, Hpath. done.
Qed.
End Satyr.

Lemma alter_snoc {A} (f : A → A) (l : list A) (x : A) :
  alter f (length l) (l ++ [x]) = l ++ [f x].
Proof. induction l as [|y l IH]; simpl; [done|]. by f_equal. Qed.

Section Save.
Context `{Externals}.

(** C10: when the report already has a backtrace, a successful
    [save_ureport] leaves the backtraces, hashes, threads, frames, symbols
    and locations as they are; it sets the report's error name and adds
    the count to the matching executable (created with count 0 when the
    database has none). *)
Theorem save_ureport_existing_backtrace (d d' : DB) (db_report : nat)
    (u : gmap string pyval) (fl : bool) (count : Z) (rp : Report) :
  reports d !! db_report = Some rp →
  rp_backtraces rp ≠ [] →
  save_ureport d db_report u fl count = (d', Ok tt) →
  backtraces d' = backtraces d ∧ bthashes d' = bthashes d ∧
  threads d' = threads d ∧ frames d' = frames d ∧
  symbols d' = symbols d ∧ symbolsources d' = symbolsources d ∧
  (∃ signal, u !! "signal" = Some signal ∧
     reports d' =
     alter (rp_set_errname (py_str signal)) db_report (reports d)) ∧
  (∃ exe, u !! "executable" = Some (PStr exe) ∧
     match get_reportexe d db_report exe with
     | Some e => reportexes d' = alter (re_add_count count) e (reportexes d)
     | None =>
         reportexes d' =
         reportexes d ++ [{| re_path := exe; re_report := db_report;
                             re_count := 0 + count |}]
     end).
Proof.
  intros Hrp Hbt. unfold save_ureport, save_ureport_body, save_ureport_core.
  unfold mbind, M_bind, lift, modify_db, get_db, deref, raise, mret, M_ret.
  simpl.
  destruct (u !! "signal") as [signal|] eqn:Hsig; simpl; [|intros [=]].
  destruct (u !! "executable") as [[| | |exe| |]|] eqn:Hexe; simpl;
    try (intros [=]; done).
  change (get_reportexe (set_reports _ d) db_report exe)
    with (get_reportexe d db_report exe).
  destruct (get_reportexe d db_report exe) as [e|] eqn:Hget;
    unfold new_reportexe, mbind, M_bind, modify_db, get_db, mret, M_ret;
    simpl;
    (destruct (u !! "stacktrace") as [st|]; simpl; [|intros [=]]);
    (destruct (_hash_backtrace st) as [[|h hs]|]; simpl; try (intros [=]; done));
    rewrite list_lookup_alter, Hrp, decide_True by done; simpl;
    (destruct (rp_backtraces rp) as [|bt bts] eqn:Hbts; [done|]);
    destruct fl; simpl; intros [= <-]; simpl;
    (repeat (split; [done|])); split;
    try (exists signal; split; [done|]);
    try (exists exe; split; [done|]; rewrite ?Hget; simpl);
    try done.
  all: by rewrite alter_snoc.
Qed.
End Save.

(** * The store: no duplicate within a batch *)

Lemma list_find_fmap_key {A K} `{EqDecision K} (key : A → K) (k : K) (l : list A) :
  fst <$> list_find (fun x => key x = k) l =
  fst <$> list_find (fun k' => k' = k) (key <$> l).
Proof.
  rewrite list_find_fmap.
  by destruct (list_find _ l) as [[i x]|].
Qed.

Lemma get_symbol_view s n p :
  get_symbol_by_name_path (db s) n p =
  find_key (v_flushed_sym (view s)) (v_sym_keys (view s)) (n, p).
Proof.
  unfold get_symbol_by_name_path, find_key. simpl. unfold sym_keys.
  rewrite <- fmap_take. apply list_find_fmap_key.
Qed.

Lemma get_ssource_view s b p o :
  get_ssource_by_bpo (db s) b p o =
  find_key (v_flushed_ss (view s)) (v_ss_keys (view s)) (b, p, o).
Proof.
  unfold get_ssource_by_bpo, find_key. simpl. unfold ss_keys.
  rewrite <- fmap_take. apply list_find_fmap_key.
Qed.

(** ** A small program logic over views *)

Lemma hoare_bind {A B} I P Q R (m : M A) (k : A → M B) :
  hoare I P m Q → (∀ a, hoare I (Q a) (k a) R) → hoare I P (m ≫= k) R.
Proof.
  intros Hm Hk s s' r. unfold mbind, M_bind.
  destruct (m s) as [s1 [a|e]] eqn:Hms; intros Hrun HI HP.
  - destruct (Hm _ _ _ Hms HI HP) as [HI1 HQ]. by eapply Hk.
  - injection Hrun as <- <-. destruct (Hm _ _ _ Hms HI HP) as [HI1 _]. done.
Qed.

Lemma hoare_stable {A} I (P : View → Prop) (Q : A → View → Prop) (m : M A) :
  stable m → (∀ a v, P v → Q a v) → hoare I P m Q.
Proof.
  intros Hm HPQ s s' r Hrun HI HP. rewrite (Hm _ _ _ Hrun).
  split; [done|]. destruct r; auto.
Qed.

Lemma hoare_weaken {A} I (P P' : View → Prop) (Q Q' : A → View → Prop) m :
  hoare I P m Q → (∀ v, P' v → P v) → (∀ a v, Q a v → Q' a v) →
  hoare I P' m Q'.
Proof.
  intros Hm HP HQ s s' r Hrun HI HP'.
  destruct (Hm _ _ _ Hrun HI (HP _ HP')) as [? ?]. split; [done|].
  destruct r; auto.
Qed.

Lemma stable_bind {A B} (m : M A) (k : A → M B) :
  stable m → (∀ a, stable (k a)) → stable (m ≫= k).
Proof.
  intros Hm Hk s s' r. unfold mbind, M_bind.
  destruct (m s) as [s1 [a|e]] eqn:Hms; intros Hrun.
  - rewrite (Hk _ _ _ _ Hrun). by eapply Hm.
  - injection Hrun as <- <-. by eapply Hm.
Qed.

Lemma stable_ret {A} (a : A) : stable (mret a).
Proof. by intros s s' r [= <- <-]. Qed.

Lemma stable_lift {A} (r : result A) : stable (lift r).
Proof. by intros s s' r' [= <- <-]. Qed.

Lemma stable_raise {A} e : stable (raise (A:=A) e).
Proof. by intros s s' r' [= <- <-]. Qed.

Lemma stable_get_db : stable get_db.
Proof. by intros s s' r' [= <- <-]. Qed.

Lemma stable_deref {A} (table : DB → list A) r : stable (deref table r).
Proof. by intros s s' r' [= <- <-]. Qed.

Lemma stable_frame_orders l : stable (frame_orders l).
Proof. by intros s s' r' [= <- <-]. Qed.

Lemma stable_modify f : view_stable f → stable (modify_db f).
Proof.
  intros Hf s s' r [= <- <-]. destruct (Hf (db s)) as (H1 & H2 & H3 & H4 & H5).
  unfold view. simpl. by rewrite H1, H2, H3, H4, H5.
Qed.

Lemma view_stable_reports g : view_stable (set_reports g).
Proof. by intros d. Qed.
Lemma view_stable_reportexes g : view_stable (set_reportexes g).
Proof. by intros d. Qed.
Lemma view_stable_backtraces g : view_stable (set_backtraces g).
Proof. by intros d. Qed.
Lemma view_stable_bthashes g : view_stable (set_bthashes g).
Proof. by intros d. Qed.
Lemma view_stable_threads g : view_stable (set_threads g).
Proof. by intros d. Qed.

Lemma fmap_alter_same {A B} (f : A → B) (g : A → A) i (l : list A) :
  (∀ x, f (g x) = f x) → f <$> alter g i l = f <$> l.
Proof.
  intros Hfg. revert i. induction l as [|x l IH]; intros [|i]; simpl;
    try done.
  - by rewrite Hfg.
  - f_equal. apply IH.
Qed.

Lemma view_stable_ss_alter g i :
  (∀ x, ss_key (g x) = ss_key x) → view_stable (set_symbolsources (alter g i)).
Proof.
  intros Hg d. unfold flushed_symbols, flushed_symbolsources, ss_keys. simpl.
  rewrite length_alter. repeat split. by apply fmap_alter_same.
Qed.

Lemma view_stable_sym_alter g i :
  (∀ x, sym_key (g x) = sym_key x) → view_stable (set_symbols (alter g i)).
Proof.
  intros Hg d. unfold flushed_symbols, flushed_symbolsources, sym_keys. simpl.
  rewrite length_alter. repeat split. by apply fmap_alter_same.
Qed.

Create HintDb stable.
#[local] Hint Resolve stable_ret stable_lift stable_raise stable_get_db
  stable_deref stable_frame_orders stable_modify view_stable_reports
  view_stable_reportexes view_stable_backtraces view_stable_bthashes
  view_stable_threads : stable.

Lemma view_stable_add_reportexe e : view_stable (add_reportexe e).
Proof. by intros d. Qed.

#[local] Hint Resolve view_stable_add_reportexe : stable.

Lemma stable_new_thread t : stable (new_thread t).
Proof.
  unfold new_thread. repeat (apply stable_bind; [auto with stable|intros ?]).
  auto with stable.
Qed.

Lemma stable_new_backtrace t : stable (new_backtrace t).
Proof.
  unfold new_backtrace. repeat (apply stable_bind; [auto with stable|intros ?]).
  auto with stable.
Qed.

Lemma stable_new_reportexe t : stable (new_reportexe t).
Proof.
  unfold new_reportexe. repeat (apply stable_bind; [auto with stable|intros ?]).
  auto with stable.
Qed.

Lemma stable_new_bthash t : stable (new_bthash t).
Proof. unfold new_bthash. auto with stable. Qed.

Lemma stable_count_failure l : stable (count_failure l).
Proof.
  unfold count_failure. apply stable_modify. by apply view_stable_ss_alter.
Qed.

Lemma stable_forM {A} (f : A → M unit) l : (∀ x, stable (f x)) → stable (forM f l).
Proof.
  intros Hf. induction l as [|x l IH]; simpl; [auto with stable|].
  apply stable_bind; [done|]. by intros _.
Qed.

(** ** The lookups *)

Lemma find_key_app_fresh {K} `{EqDecision K} fl (keys : list K) k k' :
  (fl ≤ length keys)%nat → find_key fl (keys ++ [k']) k = find_key fl keys k.
Proof. intros Hfl. unfold find_key. by rewrite take_app_le. Qed.

Lemma find_key_Some {K} `{EqDecision K} fl (keys : list K) k r :
  find_key fl keys k = Some r → keys !! r = Some k ∧ (r < fl)%nat.
Proof.
  unfold find_key. destruct (list_find _ _) as [[i x]|] eqn:E; simpl; [|done].
  intros [= <-]. apply list_find_Some in E as (Hi & -> & _).
  apply lookup_take_Some in Hi as [? ?]. done.
Qed.

Lemma find_key_None {K} `{EqDecision K} fl (keys : list K) k j :
  find_key fl keys k = None → keys !! j = Some k → (j < fl)%nat → False.
Proof.
  unfold find_key. destruct (list_find _ _) as [[i x]|] eqn:E; simpl; [done|].
  intros _ Hj Hlt. apply list_find_None in E.
  rewrite Forall_forall in E. apply (E k); [|done].
  apply list_elem_of_lookup. exists j.
  by rewrite lookup_take_lt.
Qed.

Lemma view_wf_view s : view_wf (view s).
Proof.
  unfold view_wf, view, sym_keys, ss_keys, flushed_symbols,
    flushed_symbolsources. simpl. rewrite !length_fmap. lia.
Qed.

Lemma batch_inv_add_sym n0 m0 f0 a0 b0 v k :
  view_wf v → batch_inv n0 m0 f0 a0 b0 v →
  find_key (v_flushed_sym v) (v_sym_keys v) k = None →
  v_new_sym v !! k = None →
  batch_inv n0 m0 f0 a0 b0 (view_add_sym k v).
Proof.
  intros [Hwf _] [inv_flushed_sym0 inv_flushed_ss0 inv_cache_sym0 inv_cache_ss0 inv_fresh_sym0 inv_fresh_ss0 inv_frames0] Hfind Hnew. split; simpl; try done.
  - intros k' r. destruct (decide (k = k')) as [<-|Hne].
    + rewrite lookup_insert_eq. intros [= <-].
      by rewrite lookup_app_r, Nat.sub_diag.
    + rewrite lookup_insert_ne by done. intros Hk'.
      apply lookup_app_l_Some. eauto.
  - intros i k' Hi Hk'. rewrite find_key_app_fresh by done.
    apply lookup_app_Some in Hk' as [Hk'|[Hlen Hk']].
    + destruct (inv_fresh_sym0 _ _ Hi Hk') as [Hc Hf]. split; [|done].
      rewrite lookup_insert_ne; [done|]. intros <-. congruence.
    + apply list_lookup_singleton_Some in Hk' as [Hi' <-].
      assert (i = length (v_sym_keys v)) as -> by lia.
      by rewrite lookup_insert_eq.
Qed.

Lemma batch_inv_add_ss n0 m0 f0 a0 b0 v k :
  view_wf v → batch_inv n0 m0 f0 a0 b0 v →
  find_key (v_flushed_ss v) (v_ss_keys v) k = None →
  v_new_ss v !! k = None →
  batch_inv n0 m0 f0 a0 b0 (view_add_ss k v).
Proof.
  intros [_ Hwf] [inv_flushed_sym0 inv_flushed_ss0 inv_cache_sym0 inv_cache_ss0 inv_fresh_sym0 inv_fresh_ss0 inv_frames0] Hfind Hnew. split; simpl; try done.
  - intros k' r. destruct (decide (k = k')) as [<-|Hne].
    + rewrite lookup_insert_eq. intros [= <-].
      by rewrite lookup_app_r, Nat.sub_diag.
    + rewrite lookup_insert_ne by done. intros Hk'.
      apply lookup_app_l_Some. eauto.
  - intros i k' Hi Hk'. rewrite find_key_app_fresh by done.
    apply lookup_app_Some in Hk' as [Hk'|[Hlen Hk']].
    + destruct (inv_fresh_ss0 _ _ Hi Hk') as [Hc Hf]. split; [|done].
      rewrite lookup_insert_ne; [done|]. intros <-. congruence.
    + apply list_lookup_singleton_Some in Hk' as [Hi' <-].
      assert (i = length (v_ss_keys v)) as -> by lia.
      by rewrite lookup_insert_eq.
  - intros f r Hf Hr.
    destruct (inv_frames0 _ _ Hf Hr) as (k' & Hk' & Hcanon).
    exists k'. split; [by apply lookup_app_l_Some|].
    unfold canon_ss in *. simpl. rewrite find_key_app_fresh by done.
    destruct (find_key _ _ k'); [done|].
    rewrite lookup_insert_ne; [done|]. intros <-. congruence.
Qed.

Lemma batch_inv_add_frame n0 m0 f0 a0 b0 v r :
  batch_inv n0 m0 f0 a0 b0 v → canon_ref r v → batch_inv n0 m0 f0 a0 b0 (view_add_frame r v).
Proof.
  intros [inv_flushed_sym0 inv_flushed_ss0 inv_cache_sym0 inv_cache_ss0 inv_fresh_sym0 inv_fresh_ss0 inv_frames0] Hr. split; simpl; try done.
  intros f r' Hf Hr'. apply lookup_app_Some in Hr' as [Hr'|[Hlen Hr']].
  - by apply inv_frames0 in Hr'.
  - by apply list_lookup_singleton_Some in Hr' as [_ <-].
Qed.

Lemma canon_ref_add_frame r r' v : canon_ref r v → canon_ref r (view_add_frame r' v).
Proof. done. Qed.

Section Store.
Context `{Externals}.

Lemma view_add_symbol_cache s sym :
  view {| db := add_symbol sym (db s);
          new_symbols := <[sym_key sym := length (symbols (db s))]> (new_symbols s);
          new_symbolsources := new_symbolsources s |}
  = view_add_sym (sym_key sym) (view s).
Proof.
  unfold view, view_add_sym, sym_keys, ss_keys, flushed_symbols. simpl.
  rewrite fmap_app, !length_app, length_fmap. simpl.
  by replace (length (symbols (db s)) + 1 - S (pending_symbols (db s)))%nat
    with (length (symbols (db s)) - pending_symbols (db s))%nat by lia.
Qed.

Lemma view_add_symbolsource_cache s row :
  view {| db := add_symbolsource row (db s);
          new_symbols := new_symbols s;
          new_symbolsources :=
            <[ss_key row := length (symbolsources (db s))]> (new_symbolsources s) |}
  = view_add_ss (ss_key row) (view s).
Proof.
  unfold view, view_add_ss, sym_keys, ss_keys, flushed_symbolsources. simpl.
  rewrite fmap_app, !length_app, length_fmap. simpl.
  by replace (length (symbolsources (db s)) + 1
              - S (pending_symbolsources (db s)))%nat
    with (length (symbolsources (db s)) - pending_symbolsources (db s))%nat
    by lia.
Qed.

(** A symbol lookup returns without exception; it leaves the view alone
    or adds one row for an identity that had none. *)
Lemma get_or_create_symbol_view n p s s' r :
  get_or_create_symbol n p s = (s', r) →
  ∃ r0, r = Ok r0 ∧
    (s' = s ∧ canon_sym (view s) (n, p) = Some r0 ∨
     find_key (v_flushed_sym (view s)) (v_sym_keys (view s)) (n, p) = None ∧
     v_new_sym (view s) !! (n, p) = None ∧
     r0 = length (symbols (db s)) ∧
     view s' = view_add_sym (n, p) (view s)).
Proof.
  unfold get_or_create_symbol, canon_sym.
  unfold mbind at 1, M_bind at 1, get_db. rewrite get_symbol_view.
  destruct (find_key _ _ _) as [r0|] eqn:Hfind.
  { intros [= <- <-]. eauto. }
  simpl. destruct (new_symbols s !! (n, p)) as [r0|] eqn:Hnew.
  { intros [= <- <-]. eauto. }
  unfold new_symbol, cache_symbol, mbind, M_bind, get_db, modify_db, mret,
    M_ret. simpl.
  intros [= <- <-]. eexists. split; [done|]. right.
  split; [done|]. split; [done|]. split; [done|].
  apply (view_add_symbol_cache s
           {| sym_name := n; sym_normalized_path := p; sym_nice_name := None |}).
Qed.

Lemma hoare_get_or_create_symbol n0 m0 f0 a0 b0 (P : View → Prop) n p :
  (∀ k v, P v → P (view_add_sym k v)) →
  hoare (batch_inv n0 m0 f0 a0 b0) P (get_or_create_symbol n p) (fun _ => P).
Proof.
  intros HP s s' r Hrun HI HPs.
  apply get_or_create_symbol_view in Hrun
    as (r0 & -> & [[-> _]|(Hfind & Hnew & _ & ->)]); [done|].
  split; [|by apply HP].
  apply batch_inv_add_sym; auto using view_wf_view.
Qed.

Lemma get_or_create_symbolsource_view sym b p o f s s' r :
  get_or_create_symbolsource sym b p o f s = (s', r) →
  ∃ r0, r = Ok r0 ∧
    (s' = s ∧ canon_ss (view s) (b, p, o) = Some r0 ∨
     find_key (v_flushed_ss (view s)) (v_ss_keys (view s)) (b, p, o) = None ∧
     v_new_ss (view s) !! (b, p, o) = None ∧
     r0 = length (symbolsources (db s)) ∧
     view s' = view_add_ss (b, p, o) (view s)).
Proof.
  unfold get_or_create_symbolsource, canon_ss.
  unfold mbind at 1, M_bind at 1, get_db. rewrite get_ssource_view.
  destruct (find_key _ _ _) as [r0|] eqn:Hfind.
  { intros [= <- <-]. eauto. }
  simpl. destruct (new_symbolsources s !! (b, p, o)) as [r0|] eqn:Hnew.
  { intros [= <- <-]. eauto. }
  unfold new_symbolsource, cache_symbolsource, mbind, M_bind, get_db,
    modify_db, mret, M_ret. simpl.
  intros [= <- <-]. eexists. split; [done|]. right.
  split; [done|]. split; [done|]. split; [done|].
  match goal with |- context [add_symbolsource ?row _] =>
    apply (view_add_symbolsource_cache s row) end.
Qed.

Lemma canon_ref_of_canon n0 m0 f0 a0 b0 v k r :
  batch_inv n0 m0 f0 a0 b0 v → canon_ss v k = Some r → canon_ref r v.
Proof.
  intros [inv_flushed_sym0 inv_flushed_ss0 inv_cache_sym0 inv_cache_ss0 inv_fresh_sym0 inv_fresh_ss0 inv_frames0] Hc. exists k. split; [|done]. unfold canon_ss in Hc.
  destruct (find_key _ _ k) as [r'|] eqn:Hf.
  - injection Hc as ->. by apply find_key_Some in Hf as [? _].
  - by apply inv_cache_ss0.
Qed.

Lemma canon_ref_add_ss v k :
  view_wf v → find_key (v_flushed_ss v) (v_ss_keys v) k = None →
  canon_ref (length (v_ss_keys v)) (view_add_ss k v).
Proof.
  intros [_ Hwf] Hfind. exists k. simpl. split.
  - by rewrite lookup_app_r, Nat.sub_diag.
  - unfold canon_ss. simpl. rewrite find_key_app_fresh, Hfind by done.
    by rewrite lookup_insert_eq.
Qed.

Lemma hoare_get_or_create_symbolsource n0 m0 f0 a0 b0 sym b p o f :
  hoare (batch_inv n0 m0 f0 a0 b0) (fun _ => True)
        (get_or_create_symbolsource sym b p o f) canon_ref.
Proof.
  intros s s' r Hrun HI _.
  apply get_or_create_symbolsource_view in Hrun
    as (r0 & -> & [[-> Hc]|(Hfind & Hnew & -> & ->)]).
  - split; [done|]. by eapply canon_ref_of_canon.
  - split; [apply batch_inv_add_ss; auto using view_wf_view|].
    replace (length (symbolsources (db s))) with (length (v_ss_keys (view s)))
      by (simpl; unfold ss_keys; by rewrite length_fmap).
    apply canon_ref_add_ss; auto using view_wf_view.
Qed.

Lemma new_frame_view N s :
  ∃ s', new_frame N s = (s', Ok (length (frames (db s)))) ∧
        view s' = view_add_frame (fr_symbolsource N) (view s).
Proof.
  unfold new_frame, mbind, M_bind, get_db, modify_db, mret, M_ret. simpl.
  eexists. split; [reflexivity|].
  unfold view, view_add_frame, sym_keys, ss_keys, flushed_symbols,
    flushed_symbolsources. simpl.
  rewrite length_alter, fmap_app. f_equal.
  by apply fmap_alter_same.
Qed.

Lemma hoare_new_frame n0 m0 f0 a0 b0 N r :
  hoare (batch_inv n0 m0 f0 a0 b0) (fun v => canon_ref (fr_symbolsource N) v ∧ canon_ref r v)
        (new_frame N) (fun _ => canon_ref r).
Proof.
  intros s s' res Hrun HI [HN Hr].
  destruct (new_frame_view N s) as (s1 & Hs1 & Hview).
  rewrite Hs1 in Hrun. injection Hrun as <- <-. rewrite Hview.
  split; [by apply batch_inv_add_frame|done].
Qed.

Lemma hoare_bind_stable {A B} I P R (m : M A) (k : A → M B) :
  stable m → (∀ a, hoare I P (k a) R) → hoare I P (m ≫= k) R.
Proof.
  intros Hm Hk. apply (hoare_bind I P (fun _ => P)); [|done].
  by apply hoare_stable.
Qed.

Lemma hoare_ret {A} I (P : View → Prop) (Q : A → View → Prop) (a : A) :
  (∀ v, P v → Q a v) → hoare I P (mret a) Q.
Proof. intros HPQ s s' r [= <- <-] HI HP. auto. Qed.

Lemma hoare_true {A} I P (m : M A) (Q : A → View → Prop) :
  hoare I P m Q → hoare I P m (fun _ _ => True).
Proof. intros Hm. eapply hoare_weaken; [done|auto..]. Qed.

Lemma hoare_save_frame n0 m0 f0 a0 b0 t fid f :
  hoare (batch_inv n0 m0 f0 a0 b0) any_view (save_frame t fid f) (fun _ => any_view).
Proof.
  unfold save_frame.
  do 4 (apply hoare_bind_stable; [auto with stable|intros ?]).
  apply hoare_bind_stable; [auto with stable|intros has_name].
  apply (hoare_bind _ _ (fun _ => any_view)).
  { destruct has_name.
    - apply hoare_bind_stable; [auto with stable|intros ?].
      apply (hoare_bind _ _ (fun _ => any_view)).
      + by apply hoare_get_or_create_symbol.
      + intros r. by apply hoare_ret.
    - by apply hoare_ret. }
  intros sym. eapply hoare_bind; [apply hoare_get_or_create_symbolsource|].
  intros r. simpl. apply (hoare_bind _ _ (fun _ => canon_ref r)).
  - eapply hoare_weaken; [apply (hoare_new_frame _ _ _ _ _ _ r)| |].
    + intros v Hv. simpl. by split.
    + by intros ? v Hv.
  - intros ?. by apply hoare_ret.
Qed.

Lemma hoare_save_frames n0 m0 f0 a0 b0 t fid fs :
  hoare (batch_inv n0 m0 f0 a0 b0) any_view (save_frames t fid fs) (fun _ => any_view).
Proof.
  revert fid. induction fs as [|f fs IH]; intros fid; simpl.
  - by apply hoare_ret.
  - eapply hoare_bind; [apply hoare_save_frame|]. intros ?. apply IH.
Qed.

Lemma hoare_save_threads n0 m0 f0 a0 b0 bt tid ths :
  hoare (batch_inv n0 m0 f0 a0 b0) any_view (save_threads bt tid ths) (fun _ => any_view).
Proof.
  revert tid. induction ths as [|th ths IH]; intros tid; simpl.
  - by apply hoare_ret.
  - apply hoare_bind_stable; [auto with stable|intros c].
    apply hoare_bind_stable; [apply stable_new_thread|intros t].
    apply hoare_bind_stable; [auto with stable|intros fs].
    eapply hoare_bind; [apply hoare_save_frames|]. intros ?. apply IH.
Qed.

Lemma hoare_save_backtrace n0 m0 f0 a0 b0 r st hs :
  hoare (batch_inv n0 m0 f0 a0 b0) any_view (save_backtrace r st hs) (fun _ => any_view).
Proof.
  unfold save_backtrace.
  apply hoare_bind_stable; [apply stable_new_backtrace|intros bt].
  apply hoare_bind_stable.
  { apply stable_forM. intros h. apply stable_new_bthash. }
  intros ?. apply hoare_bind_stable; [auto with stable|intros ths].
  apply hoare_save_threads.
Qed.

Lemma hoare_save_ureport_core n0 m0 f0 a0 b0 r u n :
  hoare (batch_inv n0 m0 f0 a0 b0) any_view (save_ureport_core r u n) (fun _ => any_view).
Proof.
  unfold save_ureport_core.
  apply hoare_bind_stable; [auto with stable|intros signal].
  apply hoare_bind_stable; [auto with stable|intros ?].
  apply hoare_bind_stable; [auto with stable|intros exe].
  apply hoare_bind_stable; [auto with stable|intros d].
  apply hoare_bind_stable.
  { destruct (get_reportexe d r exe); [auto with stable|].
    apply stable_new_reportexe. }
  intros e.
  apply hoare_bind_stable; [auto with stable|intros ?].
  apply hoare_bind_stable; [auto with stable|intros st].
  apply hoare_bind_stable; [auto with stable|intros hs].
  apply hoare_bind_stable; [destruct hs; auto with stable|intros ?].
  apply hoare_bind_stable; [auto with stable|intros rp].
  destruct (rp_backtraces rp); [apply hoare_save_backtrace|by apply hoare_ret].
Qed.

Lemma hoare_get_or_create_inlined n0 m0 f0 a0 b0 l np fn sf sl :
  hoare (batch_inv n0 m0 f0 a0 b0) any_view (get_or_create_inlined l np fn sf sl) canon_ref.
Proof.
  unfold get_or_create_inlined.
  apply hoare_bind_stable; [auto with stable|intros ss].
  intros s s' r Hrun HI _. revert Hrun.
  unfold mbind at 1, M_bind at 1, get_db. rewrite get_ssource_view.
  destruct (find_key _ _ _) as [r0|] eqn:Hfind.
  { intros [= <- <-]. split; [done|]. eapply canon_ref_of_canon; [done|].
    unfold canon_ss. by rewrite Hfind. }
  simpl. destruct (new_symbolsources s !! _) as [r0|] eqn:Hnew.
  { intros [= <- <-]. split; [done|]. eapply canon_ref_of_canon; [done|].
    unfold canon_ss. by rewrite Hfind. }
  unfold mbind at 1, M_bind at 1.
  destruct (get_or_create_symbol fn np s) as [s1 rs] eqn:Hsym.
  apply get_or_create_symbol_view in Hsym as (sy & -> & Hcase).
  unfold new_symbolsource, cache_symbolsource, mbind, M_bind, get_db,
    modify_db, mret, M_ret. simpl.
  intros [= <- <-].
  match goal with |- context [add_symbolsource ?row _] =>
    pose proof (view_add_symbolsource_cache s1 row) as Hv end.
  unfold ss_key in Hv at 1 2. cbn [ss_build_id ss_path ss_offset] in Hv.
  rewrite Hv. clear Hv.
  assert (batch_inv n0 m0 f0 a0 b0 (view s1) ∧
          find_key (v_flushed_ss (view s1)) (v_ss_keys (view s1))
                   (ss_build_id ss, ss_path ss, - sl) = None ∧
          v_new_ss (view s1) !! (ss_build_id ss, ss_path ss, - sl) = None)
    as (HI1 & Hfind1 & Hnew1).
  { destruct Hcase as [[-> _]|(Hf & Hn & _ & Hv)]; [done|]. rewrite Hv.
    split; [|done]. apply batch_inv_add_sym; auto using view_wf_view. }
  split; [apply batch_inv_add_ss; auto using view_wf_view|].
  replace (length (symbolsources (db s1))) with (length (v_ss_keys (view s1)))
    by (simpl; unfold ss_keys; by rewrite length_fmap).
  apply canon_ref_add_ss; auto using view_wf_view.
Qed.

Lemma hoare_expand_frame n0 m0 f0 a0 b0 inl id f :
  hoare (batch_inv n0 m0 f0 a0 b0) (canon_ref inl) (expand_frame inl id f)
        (fun _ => canon_ref inl).
Proof.
  unfold expand_frame.
  apply hoare_bind_stable; [auto with stable|intros fr].
  apply hoare_bind_stable; [auto with stable|intros th].
  apply hoare_bind_stable; [auto with stable|intros keyed].
  apply hoare_bind_stable; [auto with stable|intros idx].
  apply hoare_bind_stable.
  { destruct (0 <? idx)%nat; [|auto with stable].
    repeat (apply stable_bind; [auto with stable|intros ?]). auto with stable. }
  intros [].
  - by apply hoare_ret.
  - apply (hoare_bind _ _ (fun _ => canon_ref inl)).
    + eapply hoare_weaken; [apply (hoare_new_frame _ _ _ _ _ _ inl)| |].
      * intros v Hv. simpl. by split.
      * by intros ? v Hv.
    + intros ?. by apply hoare_ret.
Qed.

Lemma hoare_expand_frames n0 m0 f0 a0 b0 fuel i l inl id :
  hoare (batch_inv n0 m0 f0 a0 b0) (canon_ref inl) (expand_frames fuel i l inl id)
        (fun _ => any_view).
Proof.
  revert i. induction fuel as [|fuel IH]; intros i; simpl.
  - by apply hoare_stable; auto with stable.
  - apply hoare_bind_stable; [auto with stable|intros ss].
    destruct (ss_frames ss !! i) as [f|]; [|by apply hoare_ret].
    eapply hoare_bind; [apply hoare_expand_frame|]. intros ?. apply IH.
Qed.

Lemma hoare_unwind_inlined n0 m0 f0 a0 b0 fuel n l np id results :
  hoare (batch_inv n0 m0 f0 a0 b0) any_view (unwind_inlined fuel n l np id results)
        (fun _ => any_view).
Proof.
  revert id results. induction n as [|n IH]; intros id results; simpl.
  - by apply hoare_ret.
  - destruct (1 <? length results)%nat; [|by apply hoare_ret].
    apply hoare_bind_stable; [auto with stable|intros [[[fn sf] sl] rest]].
    eapply hoare_bind; [apply hoare_get_or_create_inlined|]. intros inl.
    eapply hoare_bind; [apply hoare_expand_frames|]. intros ?. apply IH.
Qed.

Lemma hoare_resolve_ssource n0 m0 f0 a0 b0 l np results :
  hoare (batch_inv n0 m0 f0 a0 b0) any_view (resolve_ssource l np results) (fun _ => any_view).
Proof.
  unfold resolve_ssource.
  apply hoare_bind_stable; [auto with stable|intros [[[fn sf] sl] rest]].
  apply (hoare_bind _ _ (fun _ => any_view)).
  { by apply hoare_get_or_create_symbol. }
  intros sy. apply hoare_bind_stable; [auto with stable|intros sym].
  apply hoare_bind_stable.
  { destruct (sym_nice_name sym); [auto with stable|].
    apply stable_modify. by apply view_stable_sym_alter. }
  intros ?. apply hoare_stable; [|done].
  apply stable_modify. by apply view_stable_ss_alter.
Qed.

Lemma hoare_retrace_ssource n0 m0 f0 a0 b0 fuel task pkg l :
  hoare (batch_inv n0 m0 f0 a0 b0) any_view (retrace_ssource fuel task pkg l) (fun _ => any_view).
Proof.
  unfold retrace_ssource.
  apply hoare_bind_stable; [auto with stable|intros ss].
  destruct (unpacked_path pkg) as [dir|];
    [|by apply hoare_stable; [apply stable_count_failure|]].
  destruct (get_base_address _) as [base|];
    [|by apply hoare_stable; [apply stable_count_failure|]].
  destruct (resolve_address _ _ _) as [results|];
    [|by apply hoare_stable; [apply stable_count_failure|]].
  eapply hoare_bind; [apply hoare_unwind_inlined|]. intros results'.
  apply hoare_resolve_ssource.
Qed.

Lemma hoare_forM {A} I (f : A → M unit) l :
  (∀ x, hoare I any_view (f x) (fun _ => any_view)) → hoare I any_view (forM f l) (fun _ => any_view).
Proof.
  intros Hf. induction l as [|x l IH]; simpl; [by apply hoare_ret|].
  eapply hoare_bind; [apply Hf|]. by intros ?.
Qed.

Lemma hoare_retrace_body n0 m0 f0 a0 b0 fuel task :
  hoare (batch_inv n0 m0 f0 a0 b0) any_view (retrace_body fuel task) (fun _ => any_view).
Proof.
  unfold retrace_body, retrace_packages, retrace_package.
  eapply (hoare_bind _ _ (fun _ => any_view)).
  - apply hoare_forM. intros [pkg locs]. apply hoare_forM. intros l.
    apply hoare_retrace_ssource.
  - intros ?. by apply hoare_ret.
Qed.

Lemma batch_inv_start d :
  batch_inv (length (symbols d)) (length (symbolsources d)) (length (frames d))
            (flushed_symbols d) (flushed_symbolsources d) (view (start d)).
Proof.
  split; simpl; try done.
  - intros i k Hi Hk. apply lookup_lt_Some in Hk.
    unfold sym_keys in Hk. rewrite length_fmap in Hk. lia.
  - intros i k Hi Hk. apply lookup_lt_Some in Hk.
    unfold ss_keys in Hk. rewrite length_fmap in Hk. lia.
  - intros f r Hf Hr. apply lookup_lt_Some in Hr.
    rewrite length_fmap in Hr. lia.
Qed.

Lemma batch_inv_no_fresh_duplicates d s' :
  batch_inv (length (symbols d)) (length (symbolsources d)) (length (frames d))
            (flushed_symbols d) (flushed_symbolsources d) (view s') →
  no_fresh_duplicates d (db s').
Proof.
  intros [inv_flushed_sym0 inv_flushed_ss0 inv_cache_sym0 inv_cache_ss0 inv_fresh_sym0 inv_fresh_ss0 inv_frames0]. simpl in *. split; [|split].
  - intros i j k Hi Hik Hjk Hj.
    destruct (inv_fresh_sym0 _ _ Hi Hik) as [Hc Hf]. destruct Hj as [Hj|Hj].
    + destruct (inv_fresh_sym0 _ _ Hj Hjk) as [Hc' _]. congruence.
    + exfalso. eapply find_key_None; [exact Hf|exact Hjk|]. by rewrite inv_flushed_sym0.
  - intros i j k Hi Hik Hjk Hj.
    destruct (inv_fresh_ss0 _ _ Hi Hik) as [Hc Hf]. destruct Hj as [Hj|Hj].
    + destruct (inv_fresh_ss0 _ _ Hj Hjk) as [Hc' _]. congruence.
    + exfalso. eapply find_key_None; [exact Hf|exact Hjk|]. by rewrite inv_flushed_ss0.
  - intros f1 f2 fr1 fr2 k Hf1 Hf2 Hfr1 Hfr2 Hk1 Hk2.
    assert ((fr_symbolsource <$> frames (db s')) !! f1
            = Some (fr_symbolsource fr1)) as H1
      by by rewrite list_lookup_fmap, Hfr1.
    assert ((fr_symbolsource <$> frames (db s')) !! f2
            = Some (fr_symbolsource fr2)) as H2
      by by rewrite list_lookup_fmap, Hfr2.
    destruct (inv_frames0 _ _ Hf1 H1) as (k1 & Hk1' & Hc1).
    destruct (inv_frames0 _ _ Hf2 H2) as (k2 & Hk2' & Hc2).
    congruence.
Qed.

Lemma no_fresh_duplicates_flush d d' :
  no_fresh_duplicates d d' → no_fresh_duplicates d (flush d').
Proof. done. Qed.

(** C2: within one [save_ureport] call and within one [retrace] call, a
    lookup of a location (or symbol) whose identity was looked up before
    finds the database's object or the pending one the earlier lookup
    created, never a fresh duplicate: no row created by the call shares
    its identity with another created row or with a row of the database,
    frames created by the call whose locations have one identity reference
    one location, and a lookup repeated at once returns the same object
    and creates nothing. *)
Theorem store_lookup_deduplicates :
  (∀ d db_report u fl n d' res,
     save_ureport d db_report u fl n = (d', res) → no_fresh_duplicates d d') ∧
  (∀ fuel d task d' res,
     retrace fuel d task = (d', res) → no_fresh_duplicates d d') ∧
  (∀ s sym1 sym2 b p o f1 f2 s1 r1,
     get_or_create_symbolsource sym1 b p o f1 s = (s1, Ok r1) →
     get_or_create_symbolsource sym2 b p o f2 s1 = (s1, Ok r1)) ∧
  (∀ s name path s1 r1,
     get_or_create_symbol name path s = (s1, Ok r1) →
     get_or_create_symbol name path s1 = (s1, Ok r1)).
Proof.
  split; [|split; [|split]].
  - intros d r u fl n d' res. unfold save_ureport, save_ureport_body.
    unfold mbind, M_bind.
    destruct (save_ureport_core r u n (start d)) as [s1 r1] eqn:Hcore.
    assert (no_fresh_duplicates d (db s1)) as Hs1.
    { apply batch_inv_no_fresh_duplicates.
      eapply hoare_save_ureport_core; [exact Hcore|apply batch_inv_start|done]. }
    destruct r1 as [[]|e]; [|by intros [= <- _]].
    destruct fl; by intros [= <- _].
  - intros fuel d task d' res. unfold retrace.
    destruct (retrace_body fuel task (start d)) as [s1 r1] eqn:Hbody.
    intros [= <- _]. apply batch_inv_no_fresh_duplicates.
    eapply hoare_retrace_body; [exact Hbody|apply batch_inv_start|done].
  - intros s sym1 sym2 b p o f1 f2 s1 r1 Hrun.
    pose proof (view_wf_view s) as [_ Hwf].
    apply get_or_create_symbolsource_view in Hrun
      as (r0 & [= <-] & [[-> Hc]|(Hfind & Hnew & -> & Hv)]).
    + unfold get_or_create_symbolsource, mbind, M_bind, get_db.
      unfold canon_ss in Hc. rewrite get_ssource_view.
      destruct (find_key _ _ _); [by injection Hc as ->|].
      simpl in Hc. by rewrite Hc.
    + unfold get_or_create_symbolsource, mbind, M_bind, get_db.
      rewrite get_ssource_view, Hv.
      change (find_key _ _ (b, p, o))
        with (find_key (v_flushed_ss (view s))
                       (v_ss_keys (view s) ++ [(b, p, o)]) (b, p, o)).
      rewrite find_key_app_fresh, Hfind by done.
      assert (new_symbolsources s1 = v_new_ss (view s1)) as -> by done.
      rewrite Hv.
      change (v_new_ss (view_add_ss (b, p, o) (view s)))
        with (<[(b, p, o) := length (v_ss_keys (view s))]> (v_new_ss (view s))).
      rewrite lookup_insert_eq.
      cbn [view v_ss_keys]. unfold ss_keys. by rewrite length_fmap.
  - intros s n p s1 r1 Hrun.
    pose proof (view_wf_view s) as [Hwf _].
    apply get_or_create_symbol_view in Hrun
      as (r0 & [= <-] & [[-> Hc]|(Hfind & Hnew & -> & Hv)]).
    + unfold get_or_create_symbol, mbind, M_bind, get_db.
      unfold canon_sym in Hc. rewrite get_symbol_view.
      destruct (find_key _ _ _); [by injection Hc as ->|].
      simpl in Hc. by rewrite Hc.
    + unfold get_or_create_symbol, mbind, M_bind, get_db.
      rewrite get_symbol_view, Hv.
      change (find_key _ _ (n, p))
        with (find_key (v_flushed_sym (view s))
                       (v_sym_keys (view s) ++ [(n, p)]) (n, p)).
      rewrite find_key_app_fresh, Hfind by done.
      assert (new_symbols s1 = v_new_sym (view s1)) as -> by done.
      rewrite Hv.
      change (v_new_sym (view_add_sym (n, p) (view s)))
        with (<[(n, p) := length (v_sym_keys (view s))]> (v_new_sym (view s))).
      rewrite lookup_insert_eq.
      cbn [view v_sym_keys]. unfold sym_keys. by rewrite length_fmap.
Qed.
End Store.

(** * The retracer *)

Lemma forM_app {A} (f : A → M unit) (xs ys : list A) (s : Batch) :
  forM f (xs ++ ys) s =
  match forM f xs s with
  | (s1, Ok _) => forM f ys s1
  | (s1, Raise e) => (s1, Raise e)
  end.
Proof.
  revert s. induction xs as [|x xs IH]; intros s; simpl; [done|].
  unfold mbind, M_bind. destruct (f x s) as [s1 [[]|e]]; [apply IH|done].
Qed.

Section Retrace.
Context `{Externals}.

Lemma fail_rows_lookup locs : ∀ (tbl : list SymbolSource) l,
  NoDup locs →
  foldl (fun t l => alter ss_fail l t) tbl locs !! l =
  (if decide (l ∈ locs) then ss_fail else id) <$> tbl !! l.
Proof.
  induction locs as [|x locs IH]; intros tbl l Hnd; simpl.
  - by destruct (tbl !! l).
  - apply NoDup_cons in Hnd as [Hx Hnd]. rewrite IH by done.
    rewrite list_lookup_alter.
    destruct (decide (x = l)) as [->|Hne].
    + destruct (decide (l ∈ locs)); [done|].
      destruct (decide (l ∈ l :: locs)) as [_|Hn];
        [|exfalso; apply Hn; left].
      by destruct (tbl !! l).
    + destruct (decide (l ∈ locs)) as [Hin|Hnin];
        destruct (decide (l ∈ x :: locs)) as [Hin'|Hnin']; try done.
      * exfalso. apply Hnin'. by right.
      * apply elem_of_cons in Hin' as [->|?]; done.
Qed.

Lemma retrace_package_unpacked_none fuel task pkg locs s :
  unpacked_path pkg = None →
  Forall (fun l => is_Some (symbolsources (db s) !! l)) locs →
  retrace_package fuel task (pkg, locs) s =
  (with_symbolsources
     (foldl (fun t l => alter ss_fail l t) (symbolsources (db s)) locs) s,
   Ok tt).
Proof.
  intros Hpkg. unfold retrace_package. simpl.
  revert s. induction locs as [|l locs IH]; intros s Hlocs; simpl.
  - by destruct s as [[] ? ?].
  - apply Forall_cons in Hlocs as [[row Hrow] Hlocs].
    unfold mbind, M_bind, retrace_ssource at 1. unfold mbind, M_bind, deref.
    rewrite Hrow, Hpkg. unfold count_failure, modify_db.
    rewrite IH.
    + done.
    + simpl. eapply Forall_impl; [done|]. intros l' [row' Hl'].
      rewrite list_lookup_alter. destruct (decide (l = l')) as [->|];
        rewrite Hl'; simpl; eauto.
Qed.

(** C8: a binary package without unpacked path, anywhere in a task:
    [retrace] adds exactly 1 to the failure count of every location of the
    package, writes nothing else to any location, and goes on with the
    packages that follow. *)
Theorem retrace_unpacked_path_absent fuel task pkg locs before after s s1 :
  unpacked_path pkg = None →
  NoDup locs →
  retrace_packages fuel task before s = (s1, Ok tt) →
  Forall (fun l => is_Some (symbolsources (db s1) !! l)) locs →
  ∃ s2,
    retrace_package fuel task (pkg, locs) s1 = (s2, Ok tt) ∧
    retrace_packages fuel task (before ++ (pkg, locs) :: after) s =
      retrace_packages fuel task after s2 ∧
    (∀ l row, symbolsources (db s1) !! l = Some row →
       ∃ row', symbolsources (db s2) !! l = Some row' ∧
         ss_retrace_fail_count row' =
           ss_retrace_fail_count row + (if decide (l ∈ locs) then 1 else 0) ∧
         ss_symbol row' = ss_symbol row ∧
         ss_source_path row' = ss_source_path row ∧
         ss_line_number row' = ss_line_number row ∧
         ss_key row' = ss_key row ∧ ss_hash row' = ss_hash row ∧
         ss_frames row' = ss_frames row) ∧
    length (symbolsources (db s2)) = length (symbolsources (db s1)) ∧
    symbols (db s2) = symbols (db s1) ∧ frames (db s2) = frames (db s1) ∧
    threads (db s2) = threads (db s1) ∧
    new_symbols s2 = new_symbols s1 ∧
    new_symbolsources s2 = new_symbolsources s1.
Proof.
  intros Hpkg Hnd Hbefore Hlocs.
  eexists. split; [by apply retrace_package_unpacked_none|].
  split.
  { unfold retrace_packages in *. rewrite forM_app, Hbefore. simpl.
    unfold mbind, M_bind. by rewrite retrace_package_unpacked_none. }
  split.
  { intros l row Hrow. simpl. rewrite fail_rows_lookup, Hrow by done. simpl.
    eexists. split; [done|]. destruct (decide (l ∈ locs)); simpl;
      repeat split; lia. }
  split; [|done]. simpl. clear. revert s1.
  induction locs as [|l locs IH]; intros s1; simpl; [done|].
  generalize (symbolsources (db s1)). intros tbl.
  change (length (foldl (λ t l0, alter ss_fail l0 t) (alter ss_fail l tbl) locs)
          = length tbl).
  rewrite <- (length_alter ss_fail tbl l). generalize (alter ss_fail l tbl).
  clear. induction locs as [|x locs IH]; intros tbl; simpl; [done|].
  by rewrite IH, length_alter.
Qed.
End Retrace.

(** * Expansion of inlined calls *)

Lemma insert_by_order_perm x l : insert_by_order x l ≡ₚ x :: l.
Proof.
  induction l as [|y l IH]; simpl; [done|].
  destruct (Z.leb (x.1) (y.1)); [done|]. rewrite IH. apply Permutation_swap.
Qed.

Lemma sorted_by_order_perm l : sorted_by_order l ≡ₚ l.
Proof.
  induction l as [|x l IH]; simpl; [done|].
  by rewrite insert_by_order_perm, IH.
Qed.

Lemma list_find_eq_elem_of (l : list nat) (f : nat) :
  f ∈ l → ∃ i, list_find (fun r => r = f) l = Some (i, f) ∧ (i < length l)%nat.
Proof.
  intros Hf. destruct (list_find_elem_of (fun r => r = f) l f Hf eq_refl)
    as [[i x] Hi].
  pose proof Hi as Hi'. apply list_find_Some in Hi' as (Hl & -> & _).
  exists i. split; [done|]. by apply lookup_lt_Some in Hl.
Qed.

Section Expand.
Context `{Externals}.

Lemma frame_orders_ok s refs :
  (∀ f, f ∈ refs → is_Some (frames (db s) !! f)) →
  ∃ keyed, frame_orders refs s = (s, Ok keyed) ∧ keyed.*2 = refs.
Proof.
  unfold frame_orders. induction refs as [|r refs IH]; intros Hrefs; simpl.
  - by exists [].
  - destruct (Hrefs r) as [fr Hfr]; [by left|]. rewrite Hfr. simpl.
    destruct IH as (keyed & IH & Hk).
    { intros f Hf. apply Hrefs. by right. }
    injection IH as IH. rewrite IH. simpl.
    exists ((fr_order fr, r) :: keyed). split; [done|].
    rewrite fmap_cons. simpl. by f_equal.
Qed.

(** One frame of the location: either the frame before it (at the sorted
    position, in the collection) is an inlined frame of the same synthetic
    location and nothing happens, or a frame is attached. *)
Lemma expand_frame_cases inl id f fr th s :
  wf_db (db s) →
  frames (db s) !! f = Some fr →
  threads (db s) !! fr_thread fr = Some th →
  ∃ skip : bool,
    expand_frame inl id f s =
      ((if skip then s else (new_frame (inlined_frame fr inl id) s).1), Ok tt) ∧
    (skip = true →
     ∃ i prev pf, (i + 1 < length (th_frames th))%nat ∧
       th_frames th !! i = Some prev ∧ frames (db s) !! prev = Some pf ∧
       fr_inlined pf = true ∧ fr_symbolsource pf = inl).
Proof.
  intros (W1 & W2 & W3) Hfr Hth.
  destruct (W1 _ _ Hfr) as (th' & Hth' & Hin). simplify_eq.
  destruct (frame_orders_ok s (th_frames th)) as (keyed & Hko & Hk).
  { intros f' Hf'. eapply W2; eauto. }
  assert (f ∈ (sorted_by_order keyed).*2) as Hsorted.
  { rewrite sorted_by_order_perm, Hk. done. }
  destruct (list_find_eq_elem_of _ _ Hsorted) as (idx & Hidx & Hlt).
  rewrite length_fmap in Hlt.
  assert (length (sorted_by_order keyed) = length (th_frames th)) as Hlen.
  { rewrite sorted_by_order_perm. by rewrite <- Hk, length_fmap. }
  unfold expand_frame. unfold mbind at 1, M_bind at 1, deref at 1.
  rewrite Hfr. unfold mbind at 1, M_bind at 1, deref at 1. rewrite Hth.
  unfold mbind at 1, M_bind at 1. rewrite Hko.
  unfold mbind at 1, M_bind at 1, lift at 1. rewrite Hidx.
  destruct (0 <? idx)%nat eqn:Hpos.
  - apply Nat.ltb_lt in Hpos.
    destruct (lookup_lt_is_Some_2 (th_frames th) (idx - 1)) as [prev Hprev];
      [lia|].
    destruct (W2 _ _ Hth prev) as [pf Hpf].
    { apply list_elem_of_lookup. eauto. }
    unfold mbind at 1, M_bind at 1. unfold mbind at 1, M_bind at 1, lift at 1.
    rewrite Hprev. unfold mbind at 1, M_bind at 1, deref at 1. rewrite Hpf.
    unfold mret at 1, M_ret at 1.
    destruct (fr_inlined pf && bool_decide (fr_symbolsource pf = inl))
      eqn:Hskip.
    + exists true. split; [done|]. intros _.
      apply andb_prop in Hskip as [Hi Hs]. apply bool_decide_eq_true in Hs.
      exists (idx - 1)%nat, prev, pf. repeat split; try done. lia.
    + exists false. split; [|done].
      unfold mbind, M_bind.
      by destruct (new_frame (inlined_frame fr inl id) s) as [s1 [r|e]] eqn:E;
        unfold new_frame, mbind, M_bind, get_db, modify_db, mret, M_ret in E;
        simpl in E; injection E as <- <-.
  - exists false. split; [|done].
    unfold mbind, M_bind, mret, M_ret.
    by destruct (new_frame (inlined_frame fr inl id) s) as [s1 [r|e]] eqn:E;
        unfold new_frame, mbind, M_bind, get_db, modify_db, mret, M_ret in E;
        simpl in E; injection E as <- <-.
Qed.

Lemma new_frame_run N s :
  new_frame N s = (with_db (attach N (db s)) s, Ok (length (frames (db s)))).
Proof. done. Qed.

Lemma attach_wf N d :
  wf_db d → is_Some (threads d !! fr_thread N) → wf_db (attach N d).
Proof.
  intros (W1 & W2 & W3) [thN HthN]. unfold attach. split; [|split]; simpl.
  - intros f fr Hf. apply lookup_app_Some in Hf as [Hf|[Hlen Hf]].
    + destruct (W1 _ _ Hf) as (th & Hth & Hin).
      rewrite list_lookup_alter. destruct (decide (fr_thread N = fr_thread fr))
        as [Heq|Hne].
      * rewrite Heq, Hth. eexists. split; [done|]. simpl.
        apply elem_of_app. by left.
      * eauto.
    + apply list_lookup_singleton_Some in Hf as [Hf <-].
      rewrite list_lookup_alter, decide_True, HthN by done.
      eexists. split; [done|]. simpl. apply elem_of_app. right.
      apply list_elem_of_singleton. lia.
  - intros t th Ht f Hf. rewrite list_lookup_alter in Ht.
    destruct (decide (fr_thread N = t)) as [<-|Hne].
    + rewrite HthN in Ht. injection Ht as <-. simpl in Hf.
      apply elem_of_app in Hf as [Hf|Hf].
      * destruct (W2 _ _ HthN f Hf) as [x Hx]. exists x.
        by apply lookup_app_l_Some.
      * apply list_elem_of_singleton in Hf as ->. exists N.
        by rewrite lookup_app_r, Nat.sub_diag.
    + destruct (W2 _ _ Ht f Hf) as [x Hx]. exists x.
      by apply lookup_app_l_Some.
  - intros l row Hl f Hf. rewrite list_lookup_alter in Hl.
    destruct (decide (fr_symbolsource N = l)) as [<-|Hne].
    + destruct (symbolsources d !! fr_symbolsource N) as [row0|] eqn:Hrow0;
        [|done].
      injection Hl as <-. simpl in Hf. apply elem_of_app in Hf as [Hf|Hf].
      * destruct (W3 _ _ Hrow0 f Hf) as [x Hx]. exists x.
        by apply lookup_app_l_Some.
      * apply list_elem_of_singleton in Hf as ->. exists N.
        by rewrite lookup_app_r, Nat.sub_diag.
    + destruct (W3 _ _ Hl f Hf) as [x Hx]. exists x.
      by apply lookup_app_l_Some.
Qed.

Lemma cache_ok_attach N s : cache_ok s → cache_ok (with_db (attach N (db s)) s).
Proof.
  intros [Hs Hss]. split; [done|]. intros k r Hk. simpl.
  unfold ss_keys, attach. simpl. rewrite fmap_alter_same by done.
  by apply Hss.
Qed.

Lemma unwound_refl l s : wf_db (db s) → cache_ok s → unwound l s s.
Proof. split; try done. intros; congruence. Qed.

Lemma unwound_trans l s1 s2 s3 :
  unwound l s1 s2 → unwound l s2 s3 → unwound l s1 s3.
Proof.
  intros [? ? ? Hp1 ? ? Hf1] [? ? ? Hp2 ? ? Hf2].
  split; try done; try congruence.
  - by etrans.
  - by etrans.
  - intros i sym Hi1 Hi3.
    destruct (symbols (db s2) !! i) as [sym2|] eqn:Hi2.
    + rewrite (prefix_lookup_Some _ _ _ _ Hi2 Hp2) in Hi3.
      injection Hi3 as <-. eauto.
    + eauto.
Qed.

Lemma unwound_attach l N s :
  wf_db (db s) → cache_ok s → is_Some (threads (db s) !! fr_thread N) →
  fr_symbolsource N ≠ l →
  unwound l s (with_db (attach N (db s)) s).
Proof.
  intros Hwf Hc Hth Hne. split; simpl.
  - by apply attach_wf.
  - by apply cache_ok_attach.
  - by rewrite list_lookup_alter, decide_False.
  - done.
  - unfold ss_keys. simpl. by rewrite fmap_alter_same.
  - done.
  - simpl. intros; congruence.
Qed.

(** The loop over the frames of the location [l], for a synthetic location
    other than [l]: the collection does not grow, and the loop ends
    without exception within [fuel] steps. *)
Lemma expand_frames_unwound fuel l inl id row : ∀ i s,
  wf_db (db s) → cache_ok s →
  symbolsources (db s) !! l = Some row → inl ≠ l →
  (length (ss_frames row) - i < fuel)%nat →
  ∃ s', expand_frames fuel i l inl id s = (s', Ok tt) ∧ unwound l s s'.
Proof.
  induction fuel as [|fuel IH]; intros i s Hwf Hc Hrow Hne Hfuel; [lia|].
  simpl. unfold mbind at 1, M_bind at 1, deref at 1. rewrite Hrow.
  destruct (ss_frames row !! i) as [f|] eqn:Hf.
  - pose proof Hwf as (W1 & W2 & W3).
    destruct (W3 _ _ Hrow f) as [fr Hfr].
    { apply list_elem_of_lookup. eauto. }
    destruct (W1 _ _ Hfr) as (th & Hth & _).
    destruct (expand_frame_cases inl id f fr th s Hwf Hfr Hth)
      as (skip & Hrun & _).
    unfold mbind, M_bind. rewrite Hrun.
    assert (unwound l s (if skip then s
                         else (new_frame (inlined_frame fr inl id) s).1)) as Hu.
    { destruct skip; [by apply unwound_refl|]. rewrite new_frame_run. simpl.
      apply unwound_attach; eauto. }
    destruct (IH (S i) _ (uw_wf _ _ _ Hu) (uw_cache _ _ _ Hu)) as (s' & Hs' & Hu').
    { by rewrite (uw_row _ _ _ Hu). }
    { done. }
    { apply lookup_lt_Some in Hf. lia. }
    exists s'. split; [done|]. by eapply unwound_trans.
  - exists s. split; [done|]. by apply unwound_refl.
Qed.

Lemma cache_ok_canon_sym s k r :
  cache_ok s → canon_sym (view s) k = Some r → sym_keys (db s) !! r = Some k.
Proof.
  intros [Hs _]. unfold canon_sym.
  destruct (find_key _ _ k) as [r'|] eqn:Hf.
  - intros [= <-]. by apply find_key_Some in Hf as [? _].
  - apply Hs.
Qed.

Lemma cache_ok_canon_ss s k r :
  cache_ok s → canon_ss (view s) k = Some r → ss_keys (db s) !! r = Some k.
Proof.
  intros [_ Hss]. unfold canon_ss.
  destruct (find_key _ _ k) as [r'|] eqn:Hf.
  - intros [= <-]. by apply find_key_Some in Hf as [? _].
  - apply Hss.
Qed.

(** A symbol lookup: the object found, or the state with the new one. *)
Lemma get_or_create_symbol_cases n p s :
  ∃ s' r, get_or_create_symbol n p s = (s', Ok r) ∧
    (s' = s ∧ canon_sym (view s) (n, p) = Some r ∨
     canon_sym (view s) (n, p) = None ∧ r = length (symbols (db s)) ∧
     s' = {| db := add_symbol {| sym_name := n; sym_normalized_path := p;
                                 sym_nice_name := None |} (db s);
             new_symbols := <[(n, p) := length (symbols (db s))]> (new_symbols s);
             new_symbolsources := new_symbolsources s |}).
Proof.
  unfold get_or_create_symbol, canon_sym.
  unfold mbind at 1, M_bind at 1, get_db. rewrite get_symbol_view.
  destruct (find_key _ _ _) as [r0|] eqn:Hfind; [by eexists _, _; eauto|].
  simpl. destruct (new_symbols s !! (n, p)) as [r0|] eqn:Hnew;
    [by eexists _, _; eauto|].
  eexists _, _. split; [reflexivity|]. right. done.
Qed.

Lemma unwound_get_or_create_symbol l n p s :
  wf_db (db s) → cache_ok s →
  ∃ s' r sym, get_or_create_symbol n p s = (s', Ok r) ∧ unwound l s s' ∧
    symbols (db s') !! r = Some sym ∧ sym_key sym = (n, p) ∧
    (symbols (db s) !! r = None → sym_nice_name sym = None) ∧
    symbolsources (db s') = symbolsources (db s) ∧
    frames (db s') = frames (db s) ∧ threads (db s') = threads (db s) ∧
    new_symbolsources s' = new_symbolsources s.
Proof.
  intros Hwf Hc.
  destruct (get_or_create_symbol_cases n p s)
    as (s' & r & Hrun & [[-> Hcanon]|(Hcanon & -> & ->)]).
  - apply cache_ok_canon_sym in Hcanon; [|done].
    unfold sym_keys in Hcanon. rewrite list_lookup_fmap in Hcanon.
    destruct (symbols (db s) !! r) as [sym|] eqn:Hsym; [|done].
    assert (sym_key sym = (n, p)) as Hkey by (simpl in Hcanon; congruence).
    exists s, r, sym. split; [done|]. split; [by apply unwound_refl|].
    repeat split; try done. intros Hn. congruence.
  - eexists _, _, _. split; [done|]. split; [|split].
    + split; simpl; try done.
      * destruct Hc as [Hs Hss]. split; [|done]. intros k r. simpl.
        unfold sym_keys. simpl. rewrite fmap_app.
        destruct (decide ((n, p) = k)) as [<-|Hne].
        -- rewrite lookup_insert_eq. intros [= <-].
           by rewrite lookup_app_r, length_fmap, Nat.sub_diag
             by (by rewrite length_fmap).
        -- rewrite lookup_insert_ne by done. intros Hk.
           apply lookup_app_l_Some. by apply Hs.
      * by apply prefix_app_r.
      * unfold flushed_symbols. simpl. rewrite length_app. simpl. lia.
      * intros i sym Hi Hi'. apply lookup_app_Some in Hi' as [Hi'|[_ Hi']];
          [congruence|].
        by apply list_lookup_singleton_Some in Hi' as [_ <-].
    + simpl. by rewrite lookup_app_r, Nat.sub_diag.
    + repeat split; done.
Qed.

(** The lookup of the location of an inlined call *)
Lemma unwound_get_or_create_inlined l np fn sf sl row s :
  wf_db (db s) → cache_ok s →
  symbolsources (db s) !! l = Some row →
  ∃ s' r rowi, get_or_create_inlined l np fn sf sl s = (s', Ok r) ∧
    unwound l s s' ∧
    symbolsources (db s') !! r = Some rowi ∧
    ss_key rowi = (ss_build_id row, ss_path row, - sl) ∧
    frames (db s') = frames (db s) ∧ threads (db s') = threads (db s) ∧
    (symbolsources (db s) !! r = None →
     symbolsources (db s') = symbolsources (db s) ++ [rowi] ∧
     ss_frames rowi = []) ∧
    (is_Some (symbolsources (db s) !! r) → s' = s).
Proof.
  intros Hwf Hc Hrow. unfold get_or_create_inlined.
  unfold mbind at 1, M_bind at 1, deref at 1. rewrite Hrow.
  unfold mbind at 1, M_bind at 1, get_db. rewrite get_ssource_view.
  assert (∀ r, canon_ss (view s) (ss_build_id row, ss_path row, - sl) = Some r →
    ∃ rowi, symbolsources (db s) !! r = Some rowi ∧
            ss_key rowi = (ss_build_id row, ss_path row, - sl)) as Hcanon.
  { intros r Hr. apply cache_ok_canon_ss in Hr; [|done].
    unfold ss_keys in Hr. rewrite list_lookup_fmap in Hr.
    destruct (symbolsources (db s) !! r) as [rowi|]; [|done].
    exists rowi. split; [done|]. simpl in Hr. congruence. }
  unfold canon_ss in Hcanon.
  destruct (find_key _ _ _) as [r0|] eqn:Hfind.
  { destruct (Hcanon r0 eq_refl) as (rowi & Hrowi & Hkey).
    exists s, r0, rowi. split; [done|]. split; [by apply unwound_refl|].
    repeat split; try done; congruence. }
  simpl. destruct (new_symbolsources s !! _) as [r0|] eqn:Hnew.
  { destruct (Hcanon r0 Hnew) as (rowi & Hrowi & Hkey).
    exists s, r0, rowi. split; [done|]. split; [by apply unwound_refl|].
    repeat split; try done; congruence. }
  destruct (unwound_get_or_create_symbol l fn np s Hwf Hc)
    as (s1 & sy & sym & Hrun & Hu & Hsym & Hkey & _ & Hss & Hfr & Hth & Hnss).
  unfold mbind at 1, M_bind at 1. rewrite Hrun.
  unfold new_symbolsource, cache_symbolsource, mbind, M_bind, get_db,
    modify_db, mret, M_ret. simpl.
  eexists _, _, _. split; [reflexivity|].
  destruct Hu as [Uwf Ucache Urow Usym Ukeys Ufl Ufresh].
  split; [|split; [|split; [|split; [|split; [|split]]]]]; simpl.
  - split; simpl; try done.
    + destruct Uwf as (W1 & W2 & W3). split; [done|]. split; [done|].
      intros l' row' Hl' f Hf. apply lookup_app_Some in Hl' as [Hl'|[_ Hl']].
      * eauto.
      * apply list_lookup_singleton_Some in Hl' as [_ <-]. simpl in Hf.
        by apply elem_of_nil in Hf.
    + destruct Ucache as [Hs Hss']. split; [done|]. intros k r. simpl.
      unfold ss_keys. simpl. rewrite fmap_app.
      destruct (decide ((ss_build_id row, ss_path row, - sl) = k)) as [<-|Hne].
      * rewrite lookup_insert_eq. intros [= <-].
        by rewrite lookup_app_r, length_fmap, Nat.sub_diag
          by (by rewrite length_fmap).
      * rewrite lookup_insert_ne by done. intros Hk.
        apply lookup_app_l_Some. by apply Hss'.
    + rewrite lookup_app_l; [done|]. rewrite Hss. by eapply lookup_lt_Some.
    + etrans; [exact Ukeys|]. unfold ss_keys. simpl. rewrite fmap_app.
      by apply prefix_app_r.
  - by rewrite lookup_app_r, Nat.sub_diag.
  - done.
  - done.
  - done.
  - intros _. by rewrite Hss.
  - intros [x Hx]. rewrite Hss in Hx. apply lookup_lt_Some in Hx. lia.
Qed.

Lemma list_pop_snoc {A} (l : list A) x : list_pop (l ++ [x]) = Ok (x, l).
Proof. unfold list_pop. by rewrite last_snoc, removelast_last. Qed.

Lemma prefix_lookup_key (l1 l2 : list (option string * string * Z)) i k :
  l1 `prefix_of` l2 → l1 !! i = Some k → l2 !! i = Some k.
Proof. intros Hp Hi. by eapply prefix_lookup_Some. Qed.

(** The loop over the inlined entries ends without exception and leaves
    the last entry of the resolver's answer. *)
Lemma unwind_inlined_unwound fuel l np row : ∀ resp id s,
  resp ≠ [] → wf_db (db s) → cache_ok s →
  symbolsources (db s) !! l = Some row →
  Forall (fun t => - t.2 ≠ ss_offset row) (removelast resp) →
  (length (ss_frames row) < fuel)%nat →
  ∃ s' t,
    unwind_inlined fuel (length resp) l np id (reverse resp) s = (s', Ok [t]) ∧
    last resp = Some t ∧ unwound l s s' ∧
    Forall (fun t' => ∃ r, ss_keys (db s') !! r =
                           Some (ss_build_id row, ss_path row, - t'.2))
           (removelast resp).
Proof.
  induction resp as [|x rest IH]; intros id s Hne Hwf Hc Hrow Halias Hfuel;
    [done|].
  destruct rest as [|y rest].
  { exists s, x. simpl. split; [done|]. split; [done|].
    split; [by apply unwound_refl|]. constructor. }
  change (removelast (x :: y :: rest)) with (x :: removelast (y :: rest))
    in Halias |- *.
  apply Forall_cons in Halias as [Hx Halias].
  change (length (x :: y :: rest)) with (S (length (y :: rest))).
  cbn [unwind_inlined].
  assert ((1 <? length (reverse (x :: y :: rest)))%nat = true) as ->.
  { apply Nat.ltb_lt. rewrite length_reverse. simpl. lia. }
  rewrite (reverse_cons (y :: rest) x). unfold mbind at 1, M_bind at 1, lift at 1.
  rewrite list_pop_snoc. destruct x as [[fn sf] sl]. simpl in Hx.
  destruct (unwound_get_or_create_inlined l np fn sf sl row s Hwf Hc Hrow)
    as (s1 & r & rowi & Hrun1 & Hu1 & Hrowi & Hkey & _).
  unfold mbind at 1, M_bind at 1. rewrite Hrun1.
  assert (r ≠ l) as Hrl.
  { intros ->. rewrite (uw_row _ _ _ Hu1), Hrow in Hrowi.
    injection Hrowi as <-. unfold ss_key in Hkey. congruence. }
  destruct (expand_frames_unwound fuel l r (id + 1) row 0 s1)
    as (s2 & Hrun2 & Hu2); [apply Hu1|apply Hu1| |done|lia|].
  { by rewrite (uw_row _ _ _ Hu1). }
  unfold mbind at 1, M_bind at 1. rewrite Hrun2.
  destruct (IH (id + 1) s2) as (s' & t & Hrun3 & Hlast & Hu3 & Hrows);
    [done|apply Hu2|apply Hu2| |done|done|].
  { by rewrite (uw_row _ _ _ Hu2), (uw_row _ _ _ Hu1). }
  exists s', t. split; [done|]. split; [done|].
  split; [eauto using unwound_trans|].
  constructor; [|done]. exists r. simpl.
  eapply prefix_lookup_key; [apply (uw_keys _ _ _ Hu3)|].
  eapply prefix_lookup_key; [apply (uw_keys _ _ _ Hu2)|].
  unfold ss_keys. by rewrite list_lookup_fmap, Hrowi, <- Hkey.
Qed.

Lemma alter_insert {A} (f : A → A) i (l : list A) x :
  l !! i = Some x → alter f i l = <[i := f x]> l.
Proof.
  intros Hi. apply list_eq. intros j.
  rewrite list_lookup_alter, list_lookup_insert.
  destruct (decide (i = j)) as [<-|Hne].
  - rewrite decide_True by (split; [done|by eapply lookup_lt_Some]).
    by rewrite Hi.
  - by rewrite decide_False by (by intros [? _]).
Qed.

(** Lines 629-650 on a well-formed session *)
Lemma resolve_ssource_run l np fn sf sl row s :
  cache_ok s →
  symbolsources (db s) !! l = Some row →
  ∃ s' sy sym',
    resolve_ssource l np [(fn, sf, sl)] s = (s', Ok tt) ∧
    symbolsources (db s') = <[l := ss_resolve sy sf sl row]> (symbolsources (db s)) ∧
    symbols (db s') !! sy = Some sym' ∧
    sym_key sym' = (fn, np) ∧
    sym_nice_name sym' =
      Some (default (demangle fn) (symbols (db s) !! sy ≫= sym_nice_name)) ∧
    (get_symbol_by_name_path (db s) fn np = Some sy ∨
     get_symbol_by_name_path (db s) fn np = None ∧
     new_symbols s' !! (fn, np) = Some sy) ∧
    frames (db s') = frames (db s) ∧ threads (db s') = threads (db s).
Proof.
  intros Hc Hrow. unfold resolve_ssource.
  unfold mbind at 1, M_bind at 1, lift at 1.
  change (list_pop [(fn, sf, sl)]) with (Ok (A:=_ * list (string * string * Z))
                                           ((fn, sf, sl), [])).
  cbn beta iota.
  destruct (get_or_create_symbol_cases fn np s)
    as (s1 & sy & Hrun & [[-> Hcanon]|(Hcanon & -> & ->)]);
    unfold mbind at 1, M_bind at 1; rewrite Hrun.
  - pose proof (cache_ok_canon_sym _ _ _ Hc Hcanon) as Hkey.
    unfold sym_keys in Hkey. rewrite list_lookup_fmap in Hkey.
    destruct (symbols (db s) !! sy) as [sym|] eqn:Hsym; [|done].
    assert (sym_key sym = (fn, np)) as Hk by (simpl in Hkey; congruence).
    assert (get_symbol_by_name_path (db s) fn np = Some sy ∨
            get_symbol_by_name_path (db s) fn np = None ∧
            new_symbols s !! (fn, np) = Some sy) as Hdedup.
    { rewrite get_symbol_view. unfold canon_sym in Hcanon.
      destruct (find_key _ _ _); [left; congruence|by right]. }
    unfold mbind at 1, M_bind at 1, deref at 1. rewrite Hsym.
    destruct (sym_nice_name sym) as [nice|] eqn:Hnice.
    + eexists _, sy, sym. split; [reflexivity|]. simpl.
      split; [by apply alter_insert|].
      split; [done|]. split; [done|]. split; [|done].
      rewrite Hsym. simpl. by rewrite Hnice.
    + eexists _, sy, (sym_set_nice_name (demangle fn) sym).
      split; [reflexivity|]. simpl.
      split; [by apply alter_insert|].
      split; [by rewrite list_lookup_alter, decide_True, Hsym by done|].
      split; [done|]. split; [|done].
      rewrite Hsym. simpl. by rewrite Hnice.
  - unfold mbind at 1, M_bind at 1, deref at 1. simpl.
    rewrite lookup_app_r, Nat.sub_diag by done. simpl.
    eexists _, _, _. split; [reflexivity|]. simpl.
    split; [by apply alter_insert|].
    split.
    { rewrite list_lookup_alter, decide_True by done.
      by rewrite lookup_app_r, Nat.sub_diag. }
    simpl. split; [done|].
    rewrite (lookup_ge_None_2 (symbols (db s))) by done. simpl.
    split; [done|]. split; [|done]. right. rewrite lookup_insert_eq.
    split; [|done]. rewrite get_symbol_view. unfold canon_sym in Hcanon.
    by destruct (find_key _ _ _).
Qed.

Lemma get_symbol_unwound l s s' n p :
  unwound l s s' →
  get_symbol_by_name_path (db s') n p = get_symbol_by_name_path (db s) n p.
Proof.
  intros Hu. unfold get_symbol_by_name_path. rewrite (uw_flushed _ _ _ Hu).
  destruct (uw_symbols _ _ _ Hu) as [k ->].
  rewrite take_app_le; [done|]. unfold flushed_symbols. lia.
Qed.

(** C3, amended: for a resolver answer of n >= 1 entries the last entry of
    the answer (the innermost call when the answer runs from the outermost
    call to the innermost) is the one popped last, and its function name,
    source file and line are written to the location; the symbol is the
    one of the database or of the batch with that name and normalized
    path, created when there is none, and its nice name is the demangled
    name when it had none.  The n - 1 entries before it have a synthetic
    location each, keyed by minus their line. *)
Theorem retrace_resolves_last_entry fuel task pkg (l : nat) (s : Batch)
    row dir base ddir resp inl fn sf sl :
  wf_db (db s) → cache_ok s →
  symbolsources (db s) !! l = Some row →
  unpacked_path pkg = Some dir →
  get_base_address (path_join dir [str_tail (ss_path row)]) = Some base →
  unpacked_path (debuginfo task) = Some ddir →
  addr2line (path_join dir [str_tail (ss_path row)]) (base + ss_offset row)
            (path_join ddir ["usr"; "lib"; "debug"]) = Some resp →
  resp = inl ++ [(fn, sf, sl)] →
  Forall (fun t => - t.2 ≠ ss_offset row) inl →
  (length (ss_frames row) < fuel)%nat →
  ∃ s' sy sym row',
    retrace_ssource fuel task pkg l s = (s', Ok tt) ∧
    symbolsources (db s') !! l = Some row' ∧
    ss_symbol row' = Some sy ∧
    ss_source_path row' = Some sf ∧
    ss_line_number row' = Some sl ∧
    ss_key row' = ss_key row ∧
    ss_retrace_fail_count row' = ss_retrace_fail_count row ∧
    symbols (db s') !! sy = Some sym ∧
    sym_name sym = fn ∧
    sym_normalized_path sym = get_libname (ss_path row) ∧
    sym_nice_name sym =
      Some (default (demangle fn) (symbols (db s) !! sy ≫= sym_nice_name)) ∧
    (get_symbol_by_name_path (db s) fn (get_libname (ss_path row)) = Some sy ∨
     get_symbol_by_name_path (db s) fn (get_libname (ss_path row)) = None ∧
     new_symbols s' !! (fn, get_libname (ss_path row)) = Some sy) ∧
    Forall (fun t => ∃ r, ss_keys (db s') !! r =
                          Some (ss_build_id row, ss_path row, - t.2)) inl.
Proof.
  intros Hwf Hc Hrow Hdir Hbase Hddir Hresp -> Halias Hfuel.
  unfold retrace_ssource. unfold mbind at 1, M_bind at 1, deref at 1.
  rewrite Hrow, Hdir, Hbase. unfold resolve_address. rewrite Hddir, Hresp.
  cbn [fmap option_fmap option_map].
  set (resp := inl ++ [(fn, sf, sl)]).
  assert (removelast resp = inl) as Hrl by apply removelast_last.
  destruct (unwind_inlined_unwound fuel l (get_libname (ss_path row)) row
              resp 0 s) as (s2 & t & Hrun & Hlast & Hu & Hrows);
    [by destruct inl|done|done|done|by rewrite Hrl|done|].
  unfold resp in Hlast. rewrite last_snoc in Hlast. injection Hlast as <-.
  rewrite length_reverse. unfold mbind at 1, M_bind at 1. rewrite Hrun.
  destruct (resolve_ssource_run l (get_libname (ss_path row)) fn sf sl row s2)
    as (s' & sy & sym & Hrun' & Hss & Hsym & Hkey & Hnice & Hdedup & _ & _);
    [apply Hu|by rewrite (uw_row _ _ _ Hu)|].
  assert (symbolsources (db s2) !! l = Some row) as Hrow2
    by by rewrite (uw_row _ _ _ Hu).
  exists s', sy, sym, (ss_resolve sy sf sl row). split; [done|].
  split.
  { rewrite Hss, list_lookup_insert, decide_True; [done|].
    split; [done|]. by eapply lookup_lt_Some. }
  do 5 (split; [done|]). split; [done|].
  split; [by injection Hkey|]. split; [by injection Hkey|].
  split.
  { rewrite Hnice. f_equal. f_equal.
    destruct (symbols (db s) !! sy) as [sym0|] eqn:Hsym0.
    - by rewrite (prefix_lookup_Some _ _ _ _ Hsym0 (uw_symbols _ _ _ Hu)).
    - destruct (symbols (db s2) !! sy) as [sym2|] eqn:Hsym2; [|done].
      simpl. by rewrite (uw_fresh _ _ _ Hu _ _ Hsym0 Hsym2). }
  split.
  { by rewrite <- (get_symbol_unwound l s s2). }
  rewrite Hrl in Hrows. eapply Forall_impl; [exact Hrows|].
  intros t' [r Hr]. exists r. unfold ss_keys in *. rewrite Hss.
  rewrite list_fmap_insert.
  replace (ss_key (ss_resolve sy sf sl row)) with (ss_key row) by done.
  rewrite list_insert_id; [done|]. by rewrite list_lookup_fmap, Hrow2.
Qed.





End Expand.

(** * The statements on the example data *)

Lemma wf_db_check_sound d : wf_db_check d = true → wf_db d.
Proof.
  unfold wf_db_check. intros [[H1 H2]%andb_prop H3]%andb_prop.
  rewrite forallb_forall in H1, H2, H3. split; [|split].
  - intros f fr Hf. specialize (H1 (f, fr)). simpl in H1.
    destruct (threads d !! fr_thread fr) as [th|].
    + exists th. split; [done|]. apply (bool_decide_eq_true_1 _), H1.
      apply list_elem_of_In, elem_of_lookup_imap. eauto.
    + discriminate H1. apply list_elem_of_In, elem_of_lookup_imap. eauto.
  - intros t th Ht f Hf. apply lookup_lt_is_Some.
    assert (In th (threads d)) as Hin
      by (apply list_elem_of_In, list_elem_of_lookup; eauto).
    specialize (H2 th Hin). rewrite forallb_forall in H2.
    apply (bool_decide_eq_true_1 _), H2. by apply list_elem_of_In.
  - intros l row Hl f Hf. apply lookup_lt_is_Some.
    assert (In row (symbolsources d)) as Hin
      by (apply list_elem_of_In, list_elem_of_lookup; eauto).
    specialize (H3 row Hin). rewrite forallb_forall in H3.
    apply (bool_decide_eq_true_1 _), H3. by apply list_elem_of_In.
Qed.

Lemma cache_ok_start d : cache_ok (start d).
Proof. by split. Qed.

Lemma jit_repair_thread_witness :
  ∃ d', frame_at 1 (repair_thread (PDict (jit_thread "??"))).1 = Some (PDict d') ∧
        d' !! "file_name" = Some (PStr "/usr/lib/libjit.so") ∧
        d' !! "function_name" = Some (PStr "anonymous function").
Proof.
  destruct (jit_repair_thread (jit_thread "??")
              [jit_frame;
               dict [("address", PInt 2); ("build_id_offset", PInt 20);
                     ("function_name", PStr "??")];
               dict [("address", PInt 3); ("build_id_offset", PInt 30)]]
              (repair_thread (PDict (jit_thread "??"))).1)
    as (t' & gs & hs & jl & Ht' & Hhs & _ & Ha & _).
  - vm_compute. reflexivity.
  - vm_compute. reflexivity.
  - destruct (Ha [] (list_to_map
                 [("address", PInt 1); ("build_id_offset", PInt 10);
                  ("file_name", PStr "/usr/lib/libjit.so");
                  ("function_name", PStr "JIT_compile")])
                (PStr "/usr/lib/libjit.so") []
                (list_to_map [("address", PInt 2); ("build_id_offset", PInt 20);
                              ("function_name", PStr "??")])
                [dict [("address", PInt 3); ("build_id_offset", PInt 30)]])
      as (d' & Hd' & Hfile & Hname).
    + reflexivity.
    + vm_compute. reflexivity.
    + vm_compute. reflexivity.
    + discriminate.
    + constructor.
    + vm_compute. reflexivity.
    + exists d'. rewrite Ht'. unfold frame_at, field. rewrite Hhs.
      split; [exact Hd'|]. split; [exact Hfile|]. apply Hname. right.
      vm_compute. reflexivity.
Defined.

(** C6 as stated fails: a frame after a JIT frame that has no file name
    and the function name "unknown function" gets the file name and keeps
    its function name; the placeholder the code replaces is "??". *)
Lemma jit_repair_keeps_unknown_function :
  is_jit_frame jit_frame = true ∧
  (repair_thread (PDict (jit_thread "unknown function"))).2 = Ok tt ∧
  frame_at 1 (PDict (jit_thread "unknown function"))
    = Some (dict [("address", PInt 2); ("build_id_offset", PInt 20);
                  ("function_name", PStr "unknown function")]) ∧
  frame_at 1 (repair_thread (PDict (jit_thread "unknown function"))).1
    = Some (dict [("address", PInt 2); ("build_id_offset", PInt 20);
                  ("file_name", PStr "/usr/lib/libjit.so");
                  ("function_name", PStr "unknown function")]).
Proof. vm_compute. repeat split; reflexivity. Qed.

Lemma validated_report_has_hash_witness :
  ∃ threads hashes,
    example_ureport !! "stacktrace" = Some (PList threads) ∧
    @_hash_backtrace (test_externals no_resolver) (PList threads) = Ok hashes ∧
    hashes ≠ [].
Proof.
  destruct (@validated_report_has_hash (test_externals no_resolver)
              example_ureport example_ureport)
    as (ths & hs & H1 & H2 & H3 & _).
  - vm_compute. reflexivity.
  - exists ths, hs. split; [exact H1|]. split; [exact H2|exact H3].
Defined.

Lemma hash_ureport_short_witness :
  ∃ fs lines,
    Forall (has_key "function_name") fs ∧
    @mapR pyval pyval (@short_line (test_externals no_resolver) "function_name")
          (take 16 fs) = Ok lines ∧
    "app|malloc @ /lib/libc.so|main @ /usr/bin/app"
      = @hash_list (test_externals no_resolver) (PStr "app" :: lines).
Proof.
  destruct (@hash_ureport_short (test_externals no_resolver)
              (@init ∅ ∅) example_ureport
              "app|malloc @ /lib/libc.so|main @ /usr/bin/app")
    as (ths & t & fs & c & key & lines & Hst & Hcrash & Hfs & Hc & Hkey
        & Hfn & Hlines & _ & Hh & _).
  - vm_compute. reflexivity.
  - assert (fs = example_frames) as ->.
    { vm_compute in Hst. injection Hst as <-. vm_compute in Hcrash.
      injection Hcrash as <-. vm_compute in Hfs. by injection Hfs as <-. }
    assert (Forall (has_key "function_name") example_frames) as Hall.
    { repeat constructor. }
    rewrite (Hfn Hall) in Hlines. injection Hc as <-.
    exists example_frames, lines. split; [exact Hall|].
    split; [exact Hlines|exact Hh].
Defined.

Lemma db_report_to_satyr_single_bad_frame_witness :
  @db_report_to_satyr (test_externals no_resolver) (@init ∅ ∅) bad_frame_db 0
  = Ok None.
Proof.
  eapply (@db_report_to_satyr_single_bad_frame (test_externals no_resolver)
            (@init ∅ ∅) bad_frame_db 0 _ 0%nat [] _ [0%nat] 1%nat []);
    try reflexivity.
  repeat constructor. eexists. split; reflexivity.
Defined.

Lemma save_ureport_existing_backtrace_witness :
  frames (@save_ureport (test_externals no_resolver) saved_db 0
                        example_ureport false 1).1 = frames saved_db ∧
  symbolsources (@save_ureport (test_externals no_resolver) saved_db 0
                               example_ureport false 1).1
    = symbolsources saved_db.
Proof.
  destruct (@save_ureport_existing_backtrace (test_externals no_resolver)
              saved_db
              (@save_ureport (test_externals no_resolver) saved_db 0
                             example_ureport false 1).1
              0 example_ureport false 1
              {| rp_errname := Some "11"; rp_backtraces := [0%nat] |})
    as (_ & _ & _ & Hf & _ & Hss & _).
  - reflexivity.
  - discriminate.
  - vm_compute. reflexivity.
  - split; [exact Hf|exact Hss].
Defined.

Lemma store_lookup_deduplicates_witness :
  no_fresh_duplicates one_report_db saved_db.
Proof.
  apply (proj1 (@store_lookup_deduplicates (test_externals no_resolver))
           one_report_db 0%nat example_ureport true 1 saved_db (Ok tt)).
  vm_compute. reflexivity.
Defined.

Lemma retrace_unpacked_path_absent_witness :
  ∃ s2,
    @retrace_package (test_externals no_resolver) 5 (example_task None)
      (example_package None, [0%nat; 1%nat]) (start saved_db) = (s2, Ok tt) ∧
    (ss_retrace_fail_count <$> symbolsources (db s2)) = [1; 1] ∧
    (ss_symbol <$> symbolsources (db s2)) = (ss_symbol <$> symbolsources saved_db).
Proof.
  destruct (@retrace_unpacked_path_absent (test_externals no_resolver) 5
              (example_task None) (example_package None) [0%nat; 1%nat] [] []
              (start saved_db) (start saved_db))
    as (s2 & Hrun & _ & _).
  - reflexivity.
  - apply (bool_decide_unpack _). vm_compute. exact I.
  - reflexivity.
  - repeat constructor; eexists; reflexivity.
  - exists s2. split; [exact Hrun|].
    vm_compute in Hrun. injection Hrun as <-. split; reflexivity.
Defined.

Lemma saved_db_wf : wf_db saved_db.
Proof. apply wf_db_check_sound. vm_compute. reflexivity. Qed.

Lemma retrace_resolves_last_entry_witness :
  ∃ s' row' sy sym,
    @retrace_ssource (test_externals (answer_at 4106 two_entries)) 5
      single_task (example_package (Some "/tmp/app")) 0 (start saved_db)
      = (s', Ok tt) ∧
    symbolsources (db s') !! 0%nat = Some row' ∧
    ss_source_path row' = Some "inner.c" ∧ ss_line_number row' = Some 7 ∧
    ss_symbol row' = Some sy ∧ symbols (db s') !! sy = Some sym ∧
    sym_name sym = "inner".
Proof.
  destruct (@retrace_resolves_last_entry
              (test_externals (answer_at 4106 two_entries)) 5 single_task
              (example_package (Some "/tmp/app")) 0%nat (start saved_db)
              {| ss_symbol := Some 0%nat; ss_build_id := Some "abc123";
                 ss_path := "/lib/libc.so"; ss_offset := 10; ss_hash := None;
                 ss_source_path := None; ss_line_number := None;
                 ss_retrace_fail_count := 0; ss_frames := [0%nat] |}
              "/tmp/app" 4096 "/tmp/debuginfo" two_entries
              [("outer", "outer.c", 5)] "inner" "inner.c" 7)
    as (s' & sy & sym & row' & Hrun & Hrow & Hsy & Hsf & Hsl & _ & _ & Hsym
        & Hname & _).
  - exact saved_db_wf.
  - apply cache_ok_start.
  - reflexivity.
  - reflexivity.
  - reflexivity.
  - reflexivity.
  - reflexivity.
  - reflexivity.
  - repeat constructor. simpl. lia.
  - simpl. lia.
  - exists s', row', sy, sym. repeat (split; [assumption|]). assumption.
Defined.

(** C3 as stated fails: of an answer that runs from the outermost call to
    the innermost, the entry popped last and written to the location is
    the last one, the innermost, not the first. *)
Lemma retrace_writes_last_entry_not_first :
  let d' := (@retrace (test_externals (answer_at 4106 two_entries)) 5
                      saved_db single_task).1 in
  hd_error two_entries = Some ("outer", "outer.c", 5) ∧
  (ss_source_path <$> symbolsources d' !! 0%nat) = Some (Some "inner.c") ∧
  (ss_line_number <$> symbolsources d' !! 0%nat) = Some (Some 7) ∧
  (ss_symbol <$> symbolsources d' !! 0%nat) = Some (Some 3%nat) ∧
  (sym_name <$> symbols d' !! 3%nat) = Some "inner" ∧
  (ss_key <$> symbolsources d' !! 2%nat)
    = Some (Some "abc123", "/lib/libc.so", -5) ∧
  (ss_source_path <$> symbolsources d' !! 2%nat) = Some (Some "outer.c").
Proof. vm_compute. repeat split; reflexivity. Qed.


(** Two inlined entries of one source line (here line 7 of two files)
    have one key, and the two frames attached reference one location;
    with source line 0 the offset, minus the line, is 0. *)
Lemma retrace_inlined_offsets_not_unique :
  let d7 := (@retrace (test_externals (answer_at 4106 three_entries_same_line))
                      5 saved_db single_task).1 in
  let d0 := (@retrace (test_externals (answer_at 4106 three_entries_line_0)) 5
                      saved_db single_task).1 in
  ((fr_symbolsource <$> drop (length (frames saved_db)) (frames d7))
     = [2%nat; 2%nat] ∧
   (fr_inlined <$> drop (length (frames saved_db)) (frames d7))
     = [true; true] ∧
   (fr_order <$> drop (length (frames saved_db)) (frames d7)) = [9; 8] ∧
   (ss_offset <$> symbolsources d7 !! 2%nat) = Some (-7)) ∧
  ((fr_symbolsource <$> drop (length (frames saved_db)) (frames d0))
     = [2%nat; 2%nat] ∧
   (fr_inlined <$> drop (length (frames saved_db)) (frames d0))
     = [true; true] ∧
   (ss_offset <$> symbolsources d0 !! 2%nat) = Some 0).
Proof. vm_compute. repeat split; reflexivity. Qed.

(** C4: the expansion run again on the same location and frame is not a
    no-op.  The first run attaches the two inlined frames, of order 9 and
    8, to the thread of the frame of order 10, for the locations keyed -7
    and -9.  A second run after a flush attaches both again with the
    collections as the first run left them, and the second of them again
    with the collections loaded anew in the order of [order]: the check
    of lines 611-620 takes the index in the sorted list, reads the
    collection as it is at that index less one, and looks at that one
    frame only. *)
Theorem retrace_again_attaches_frames :
  let E := test_externals (answer_at 4106 three_entries) in
  let d1 := (@retrace E 5 saved_db single_task).1 in
  let attached := fun d : DB =>
    (fun f => (fr_order f, fr_symbolsource f, fr_inlined f))
      <$> drop (length (frames saved_db)) (frames d) in
  attached d1 = [(9, 2%nat, true); (8, 3%nat, true)] ∧
  (ss_offset <$> symbolsources d1 !! 2%nat) = Some (-7) ∧
  (ss_offset <$> symbolsources d1 !! 3%nat) = Some (-9) ∧
  attached (@retrace E 9 (flush d1) single_task).1
    = [(9, 2%nat, true); (8, 3%nat, true);
       (9, 2%nat, true); (8, 3%nat, true)] ∧
  attached (@retrace E 9 (reload d1) single_task).1
    = [(9, 2%nat, true); (8, 3%nat, true); (8, 3%nat, true)].
Proof. vm_compute. repeat split; reflexivity. Qed.

(** * The crash thread of a report *)

Lemma is_crash_thread_dict t : is_dict t → is_crash_thread t = Ok (crash_flag t).
Proof.
  intros [d ->]. unfold is_crash_thread, crash_flag. simpl.
  by destruct (d !! "crash_thread") as [v|] eqn:E.
Qed.

Lemma filter_crash_dicts ths :
  Forall is_dict ths →
  filter_crash ths = Ok (filter (λ t, crash_flag t = true) ths).
Proof.
  induction 1 as [|t ths Ht _ IH]; simpl; [done|].
  rewrite (is_crash_thread_dict t Ht). simpl. rewrite IH. simpl.
  rewrite filter_cons. destruct (crash_flag t) eqn:E.
  - by rewrite decide_True.
  - by rewrite decide_False.
Qed.

Lemma filter_none {A} (P : A → Prop) `{∀ x, Decision (P x)} (l : list A) :
  Forall (λ x, ¬ P x) l → filter P l = [].
Proof.
  induction 1 as [|x l Hx _ IH]; [done|].
  rewrite filter_cons, decide_False by done. exact IH.
Qed.

Lemma filter_crash_single pre t post :
  crash_flag t = true →
  Forall (λ x, crash_flag x = false) (pre ++ post) →
  filter (λ t, crash_flag t = true) (pre ++ t :: post) = [t].
Proof.
  intros Ht [Hpre Hpost]%Forall_app.
  rewrite filter_app, filter_cons, decide_True by done.
  rewrite !filter_none; [done| |].
  - eapply Forall_impl; [exact Hpost|]. simpl. intros x ->. done.
  - eapply Forall_impl; [exact Hpre|]. simpl. intros x ->. done.
Qed.

Lemma filter_single_inv {A} (P : A → Prop) `{∀ x, Decision (P x)}
    (l : list A) t :
  filter P l = [t] →
  ∃ pre post, l = pre ++ t :: post ∧ P t ∧ Forall (λ x, ¬ P x) (pre ++ post).
Proof.
  induction l as [|x l IH]; [done|].
  rewrite filter_cons. destruct (decide (P x)) as [Hx|Hx].
  - intros [= -> Hnil]. exists [], l. split; [done|]. split; [done|].
    simpl. apply Forall_forall. intros y Hy Hpy.
    assert (y ∈ filter P l) as Hin by (apply list_elem_of_filter; done).
    rewrite Hnil in Hin. by apply elem_of_nil in Hin.
  - intros (pre & post & -> & Ht & Hall)%IH.
    exists (x :: pre), post. split; [done|]. split; [done|].
    simpl. by constructor.
Qed.

Lemma get_crash_thread_filter ths :
  Forall is_dict ths →
  _get_crash_thread (PList ths) =
    match filter (λ t, crash_flag t = true) ths with
    | [] => Raise (FafError "No crash thread found")
    | [t] => py_getitem t "frames"
    | _ => Raise (FafError "Multiple crash threads found")
    end.
Proof.
  intros Hd. unfold _get_crash_thread. simpl.
  by rewrite (filter_crash_dicts ths Hd).
Qed.

Lemma get_crash_thread_Ok_inv ths fs :
  Forall is_dict ths →
  _get_crash_thread (PList ths) = Ok fs →
  ∃ pre t post, ths = pre ++ t :: post ∧ crash_flag t = true ∧
    Forall (λ x, crash_flag x = false) (pre ++ post) ∧
    py_getitem t "frames" = Ok fs.
Proof.
  intros Hd. rewrite (get_crash_thread_filter ths Hd). intros Hfs.
  destruct (filter (λ t, crash_flag t = true) ths) as [|t [|t' l]] eqn:E;
    try done.
  apply filter_single_inv in E as (pre & post & -> & Ht & Hall).
  exists pre, t, post. split; [done|]. split; [done|]. split; [|done].
  eapply Forall_impl; [exact Hall|]. simpl. intros x Hx.
  by destruct (crash_flag x).
Qed.

(** X1: A stack trace of dictionaries: [_get_crash_thread] raises "No crash
    thread found" when no thread is flagged, returns [t["frames"]] of the
    thread [t] that alone is flagged (raising [KeyError] when [t] has no
    frames), and raises "Multiple crash threads found" when two are. *)
Theorem get_crash_thread_cases (ths : list pyval) :
  Forall is_dict ths →
  (Forall (λ t, crash_flag t = false) ths →
   _get_crash_thread (PList ths) = Raise (FafError "No crash thread found")) ∧
  (∀ pre t post, ths = pre ++ t :: post → crash_flag t = true →
     Forall (λ x, crash_flag x = false) (pre ++ post) →
     _get_crash_thread (PList ths) = py_getitem t "frames") ∧
  (∀ pre t1 mid t2 post, ths = pre ++ t1 :: mid ++ t2 :: post →
     crash_flag t1 = true → crash_flag t2 = true →
     _get_crash_thread (PList ths)
       = Raise (FafError "Multiple crash threads found")) ∧
  (∀ fs, _get_crash_thread (PList ths) = Ok fs →
     ∃ pre t post, ths = pre ++ t :: post ∧ crash_flag t = true ∧
       Forall (λ x, crash_flag x = false) (pre ++ post) ∧
       py_getitem t "frames" = Ok fs).
Proof.
  intros Hd. split; [|split; [|split]].
  - intros Hnone. rewrite (get_crash_thread_filter ths Hd).
    rewrite filter_none; [done|].
    eapply Forall_impl; [exact Hnone|]. simpl. intros x ->. done.
  - intros pre t post -> Ht Hrest. rewrite (get_crash_thread_filter _ Hd).
    by rewrite filter_crash_single.
  - intros pre t1 mid t2 post -> H1 H2.
    rewrite (get_crash_thread_filter _ Hd).
    rewrite filter_app, filter_cons, decide_True by done.
    rewrite filter_app, filter_cons, decide_True by done.
    destruct (filter _ pre) as [|x [|y l]]; simpl; try done.
    destruct (filter _ mid) as [|x [|y l]]; simpl; done.
  - intros fs. by apply get_crash_thread_Ok_inv.
Qed.

(** * What validation guarantees *)

Section Validated.
Context `{Externals}.

Lemma check_frame_typed f : check frame_checker f = true → typed_frame f.
Proof.
  destruct f as [| | | | |d]; simpl; try done.
  intros Hc. repeat (apply andb_prop in Hc as [? Hc]).
  destruct (d !! "build_id_offset") as [[]|] eqn:E1; try done.
  destruct (d !! "file_name") as [[]|] eqn:E2; try done.
  eexists _, _, _. split; [done|]. split; [done|]. split; [done|].
  unfold opt_str.
  destruct (d !! "build_id") as [[]|] eqn:E3; try done;
  destruct (d !! "fingerprint") as [[]|] eqn:E4; try done;
  destruct (d !! "function_name") as [[]|] eqn:E5; try done; eauto 10.
Qed.

Lemma check_thread_typed th : check thread_checker th = true → typed_thread th.
Proof.
  destruct th as [| | | | |t]; simpl; try done.
  intros Hc. repeat (apply andb_prop in Hc as [? Hc]).
  destruct (t !! "frames") as [[| | | |fs|]|] eqn:E1; try done.
  match goal with H : _ && forallb _ fs = true |- _ =>
    apply andb_prop in H as [Hlen Hall] end.
  exists t, fs. split; [done|]. split; [done|]. split.
  { destruct fs; [done|done]. }
  split.
  { apply Forall_forall. intros f Hf. apply check_frame_typed.
    rewrite forallb_forall in Hall. apply Hall. by apply list_elem_of_In. }
  destruct (t !! "crash_thread") as [[]|] eqn:E3; try done; eauto.
Qed.

Lemma check_report_typed u : check checker (PDict u) = true → typed_report u.
Proof.
  simpl. intros Hc. repeat (apply andb_prop in Hc as [? Hc]).
  destruct (u !! "signal") as [[]|] eqn:E0; try done.
  destruct (u !! "component") as [[]|] eqn:E2; try done.
  destruct (u !! "executable") as [[]|] eqn:E3; try done.
  destruct (u !! "stacktrace") as [[| | | |ths|]|] eqn:E1; try done.
  match goal with H : _ && forallb _ ths = true |- _ =>
    apply andb_prop in H as [Hlen Hall] end.
  eexists _, _, _, ths. repeat (split; [done|]). split.
  { by destruct ths. }
  apply Forall_forall. intros f Hf. apply check_thread_typed.
  rewrite forallb_forall in Hall. apply Hall. by apply list_elem_of_In.
Qed.

Lemma typed_thread_dict th : typed_thread th → is_dict th.
Proof. intros (t & fs & -> & _). by eexists. Qed.

Lemma validate_ureport_typed u u' b :
  validate_ureport u = (u', Ok b) → typed_report u'.
Proof. intros [Hc _]%validate_ureport_Ok. by apply check_report_typed. Qed.

Lemma validate_ureport_crash u u' b :
  validate_ureport u = (u', Ok b) →
  b = true ∧ ∃ ths fs, u' !! "stacktrace" = Some (PList ths) ∧
    _get_crash_thread (PList ths) = Ok fs.
Proof.
  unfold validate_ureport, checker_check.
  destruct (jit_repair u) as [u1 r].
  destruct (check checker (PDict u1)) eqn:Hc;
    destruct r as [[]|]; intros [= <- Hr]; simpl in Hr; try done.
  destruct (check_report_typed _ Hc) as (z & c & e & ths & _ & _ & _ & Hst & _).
  rewrite Hst in Hr. simpl in Hr.
  destruct (_get_crash_thread (PList ths)) as [fs|] eqn:Hct; [|done].
  injection Hr as <-. eauto.
Qed.

(** X2: A validated report has exactly one thread flagged as crash thread, a
    dictionary whose flag is [True] and whose frames are a non-empty list;
    and [validate_ureport] never returns [False]. *)
Theorem validate_ureport_single_crash_thread (u u' : gmap string pyval)
    (b : bool) :
  validate_ureport u = (u', Ok b) →
  b = true ∧
  ∃ pre t post fs,
    u' !! "stacktrace" = Some (PList (pre ++ PDict t :: post)) ∧
    t !! "crash_thread" = Some (PBool true) ∧
    t !! "frames" = Some (PList fs) ∧ fs ≠ [] ∧
    Forall (λ x, crash_flag x = false) (pre ++ post) ∧
    _get_crash_thread (PList (pre ++ PDict t :: post)) = Ok (PList fs).
Proof.
  intros Hv. pose proof (validate_ureport_typed _ _ _ Hv) as Hty.
  apply validate_ureport_crash in Hv as (-> & ths & fs & Hst & Hct).
  split; [done|].
  destruct Hty as (z & c & e & ths' & _ & _ & _ & Hst' & _ & Hths).
  assert (ths' = ths) as -> by congruence.
  assert (Forall is_dict ths) as Hd.
  { eapply Forall_impl; [exact Hths|]. apply typed_thread_dict. }
  destruct (get_crash_thread_Ok_inv _ _ Hd Hct)
    as (pre & t & post & -> & Ht & Hrest & Hfs).
  apply Forall_app in Hths as [_ Hths]. apply Forall_cons in Hths as [Hth _].
  destruct Hth as (d & gs & -> & Hgs & Hne & _ & Hflag).
  exists pre, d, post, gs. split; [done|].
  simpl in Hfs. rewrite Hgs in Hfs. injection Hfs as <-.
  split.
  { simpl in Ht. destruct Hflag as [Hn|[[] Hb]]; rewrite ?Hn, ?Hb in Ht;
      try done. }
  done.
Qed.

End Validated.

Section ValidatedUse.
Context `{Externals}.

Lemma typed_frame_valid f : typed_frame f → valid_frame f.
Proof.
  intros (d & z & s & -> & Ho & Hf & Hb & _). exists d, z, s.
  split; [done|]. split; [done|]. split; [done|]. exact Hb.
Qed.

Lemma short_line_typed key f :
  typed_frame f → has_key key f → ∃ l, short_line key f = Ok l.
Proof.
  intros (d & z & s & -> & _ & Hfile & _) Hkey.
  unfold has_key in Hkey. simpl in Hkey.
  injection Hkey as Hkey. apply bool_decide_eq_true in Hkey as [v Hv].
  unfold short_line. simpl. rewrite Hv, Hfile. simpl. eauto.
Qed.

Lemma short_key_typed fs :
  Forall typed_frame fs →
  ∃ key, short_key fs = Ok key ∧ Forall (has_key key) fs.
Proof.
  intros Hfs.
  assert (Forall valid_frame fs) as Hv.
  { eapply Forall_impl; [exact Hfs|]. apply typed_frame_valid. }
  unfold short_key.
  destruct (all_have_dicts "function_name" fs Hv) as (b1 & -> & Hb1). simpl.
  destruct b1; [eauto|].
  destruct (all_have_dicts "fingerprint" fs Hv) as (b2 & -> & Hb2). simpl.
  destruct b2; [eauto|].
  eexists. split; [done|].
  eapply Forall_impl; [exact Hv|]. apply valid_frame_has_offset.
Qed.

(** X3: The short hash of a validated report exists: [hash_ureport] raises
    nothing on it, whatever the configured number of frames. *)
Theorem validated_report_has_short_hash cfg (u u' : gmap string pyval)
    (b : bool) :
  validate_ureport u = (u', Ok b) → ∃ h, hash_ureport cfg u' = Ok h.
Proof.
  intros Hv. pose proof (validate_ureport_typed _ _ _ Hv) as Hty.
  apply validate_ureport_crash in Hv as (_ & ths & ct & Hst & Hct).
  destruct Hty as (z & c & e & ths' & _ & Hcomp & _ & Hst' & _ & Hths).
  assert (ths' = ths) as -> by congruence.
  assert (Forall is_dict ths) as Hd.
  { eapply Forall_impl; [exact Hths|]. apply typed_thread_dict. }
  destruct (get_crash_thread_Ok_inv _ _ Hd Hct)
    as (pre & t & post & -> & _ & _ & Hfs).
  apply Forall_app in Hths as [_ Hths]. apply Forall_cons in Hths as [Hth _].
  destruct Hth as (d & fs & -> & Hgs & _ & Hfr & _).
  simpl in Hfs. rewrite Hgs in Hfs. injection Hfs as <-.
  unfold hash_ureport. simpl. rewrite Hst. simpl. rewrite Hct. simpl.
  rewrite Hcomp. simpl.
  destruct (short_key_typed fs Hfr) as (key & -> & Hkey). simpl.
  rewrite short_lines_take.
  destruct (mapR_ok (short_line key)
              (take (Z.to_nat (hashframes cfg - 0)) fs)) as (ls & -> & _).
  { apply Forall_forall. intros f Hf. apply elem_of_take in Hf as (i & Hf & _).
    apply list_elem_of_lookup_2 in Hf.
    rewrite Forall_forall in Hfr, Hkey. apply short_line_typed; auto. }
  simpl. eauto.
Qed.

(** [frame["file_name"]] of every frame *)
Lemma file_names_typed fs :
  Forall typed_frame fs →
  ∃ files, mapR (λ f, py_getitem f "file_name" ≫= as_str) fs = Ok files.
Proof.
  intros Hfs. destruct (mapR_ok (λ f, py_getitem f "file_name" ≫= as_str) fs)
    as (files & ? & _); [|eauto].
  eapply Forall_impl; [exact Hfs|]. simpl.
  intros f (d & z & s & -> & _ & Hfile & _). simpl. rewrite Hfile. simpl. eauto.
Qed.

Lemma any_frame_matches_files parser fs files :
  mapR (λ f, py_getitem f "file_name" ≫= as_str) fs = Ok files →
  any_frame_matches parser fs = Ok (existsb parser files).
Proof.
  revert files. induction fs as [|f fs IH]; intros files; simpl.
  - by intros [= <-].
  - destruct (py_getitem f "file_name" ≫= as_str) as [file|]; simpl; [|done].
    destruct (mapR _ fs) as [rest|]; simpl; [|done].
    intros [= <-]. simpl. destruct (parser file); [done|]. by apply IH.
Qed.

Lemma last_crash_thread_dicts ths acc :
  Forall is_dict ths →
  last_crash_thread ths acc =
    Ok (default acc (last (filter (λ t, crash_flag t = true) ths))).
Proof.
  intros Hd. revert acc.
  induction Hd as [|t ths Ht _ IH]; intros acc; simpl; [done|].
  rewrite (is_crash_thread_dict t Ht). simpl. rewrite IH.
  rewrite filter_cons. destruct (crash_flag t) eqn:E.
  - rewrite decide_True by done.
    destruct (filter _ ths) as [|x l]; [done|]. rewrite last_cons_cons.
    destruct (last (x :: l)) as [y|] eqn:El; [done|].
    by apply last_None in El.
  - by rewrite decide_False.
Qed.

(** X4: On a validated report [check_btpath_match] raises nothing: it tells
    whether the parser matches the file name of a frame of the crash
    thread, the one [_get_crash_thread] returns. *)
Theorem check_btpath_match_validated (u u' : gmap string pyval) (b : bool)
    (parser : string → bool) :
  validate_ureport u = (u', Ok b) →
  ∃ ths fs files,
    u' !! "stacktrace" = Some (PList ths) ∧
    _get_crash_thread (PList ths) = Ok (PList fs) ∧
    mapR (λ f, py_getitem f "file_name" ≫= as_str) fs = Ok files ∧
    check_btpath_match u' parser = Ok (existsb parser files).
Proof.
  intros Hv. pose proof (validate_ureport_typed _ _ _ Hv) as Hty.
  apply validate_ureport_crash in Hv as (_ & ths & ct & Hst & Hct).
  destruct Hty as (z & c & e & ths' & _ & Hcomp & _ & Hst' & _ & Hths).
  assert (ths' = ths) as -> by congruence.
  assert (Forall is_dict ths) as Hd.
  { eapply Forall_impl; [exact Hths|]. apply typed_thread_dict. }
  destruct (get_crash_thread_Ok_inv _ _ Hd Hct)
    as (pre & t & post & -> & Ht & Hrest & Hfs).
  pose proof Hths as Hths'.
  apply Forall_app in Hths' as [_ Hths']. apply Forall_cons in Hths' as [Hth _].
  destruct Hth as (d & fs & -> & Hgs & _ & Hfr & _).
  simpl in Hfs. rewrite Hgs in Hfs. injection Hfs as <-.
  destruct (file_names_typed fs Hfr) as [files Hfiles].
  exists (pre ++ PDict d :: post), fs, files.
  split; [done|]. split; [done|]. split; [done|].
  unfold check_btpath_match. simpl. rewrite Hst. simpl.
  rewrite (last_crash_thread_dicts _ _ Hd), filter_crash_single by done.
  simpl. rewrite Hgs. simpl. by apply any_frame_matches_files.
Qed.

(** X5: [check_btpath_match] on a stack trace of dictionaries: with no thread
    flagged as crash thread it raises [TypeError]; with several it scans
    the frames of the last one. *)
Theorem check_btpath_match_last_flagged (u : gmap string pyval)
    (ths : list pyval) (parser : string → bool) :
  u !! "stacktrace" = Some (PList ths) →
  Forall is_dict ths →
  (Forall (λ t, crash_flag t = false) ths →
   check_btpath_match u parser = Raise TypeError) ∧
  (∀ pre t post, ths = pre ++ t :: post → crash_flag t = true →
     Forall (λ x, crash_flag x = false) post →
     check_btpath_match u parser =
       (fs ← py_getitem t "frames"; frames ← py_iter fs;
        any_frame_matches parser frames)).
Proof.
  intros Hst Hd. unfold check_btpath_match. simpl. rewrite Hst. simpl.
  rewrite (last_crash_thread_dicts _ _ Hd). split.
  - intros Hnone. rewrite filter_none; [done|].
    eapply Forall_impl; [exact Hnone|]. simpl. intros x ->. done.
  - intros pre t post -> Ht Hpost.
    rewrite filter_app, filter_cons, decide_True by done.
    rewrite (filter_none _ post).
    2:{ eapply Forall_impl; [exact Hpost|]. simpl. intros x ->. done. }
    by rewrite last_snoc.
Qed.

End ValidatedUse.

(** * What the repair pass leaves alone *)

Lemma frame_kept_refl f : frame_kept f f.
Proof. destruct f; simpl; try done. repeat split; auto. Qed.

Lemma frame_kept_trans f g h : frame_kept f g → frame_kept g h → frame_kept f h.
Proof.
  destruct f as [| | | | |d], g as [| | | | |d'], h as [| | | | |d''];
    simpl; try (intros; congruence).
  intros (Ha & Hb & Hc & Hd) (Ha' & Hb' & Hc' & Hd').
  split; [|split; [|split]].
  - intros k H1 H2. by rewrite Ha', Ha.
  - intros v Hv. auto.
  - intros v Hv Hne. auto.
  - destruct Hd' as [Hd'|Hd']; [|by right].
    rewrite Hd'. exact Hd.
Qed.

Lemma py_eq_str_false v s : v ≠ PStr s → py_eq_str v s = false.
Proof.
  destruct v as [| | |t| |]; simpl; try done.
  intros Hne. apply String.eqb_neq. congruence.
Qed.

Ltac kept_field :=
  rewrite ?lookup_insert_ne by done;
  first [ done | congruence
        | match goal with
          | Heq : py_eq_str ?v _ = true, Hne : ?v ≠ _ |- _ =>
              rewrite (py_eq_str_false _ _ Hne) in Heq; discriminate
          end ].

Ltac kept_frame :=
  split; [intros k H1 H2; kept_field|];
  split; [intros w Hw; simplify_eq; kept_field|];
  split; [intros w Hw Hne; simplify_eq; kept_field|];
  first [ left; kept_field | right; by rewrite lookup_insert_eq ].

Lemma jit_fill_kept j d : frame_kept (PDict d) (PDict (jit_fill j d)).
Proof.
  unfold jit_fill.
  destruct (d !! "file_name") as [v|] eqn:Hfile; [apply frame_kept_refl|].
  destruct (py_is_none j); [apply frame_kept_refl|].
  unfold lacks_function_name. rewrite lookup_insert_ne by done.
  simpl. rewrite Hfile.
  destruct (d !! "function_name") as [fn|] eqn:Hfn;
    [destruct (py_eq_str fn "??") eqn:Heq|]; kept_frame.
Qed.

Lemma repair_frame_kept j f : frame_kept f (repair_frame j f).1.
Proof.
  destruct f as [| | | | |d]; simpl; try done.
  destruct (jit_detect j d); simpl; [apply jit_fill_kept|].
  apply (frame_kept_refl (PDict d)).
Qed.

Lemma Forall2_frame_kept_refl fs : Forall2 frame_kept fs fs.
Proof. induction fs; constructor; auto using frame_kept_refl. Qed.

Lemma repair_frames_kept j fs : Forall2 frame_kept fs (repair_frames j fs).1.
Proof.
  revert j. induction fs as [|f fs IH]; intros j; simpl; [constructor|].
  pose proof (repair_frame_kept j f) as Hf.
  destruct (repair_frame j f) as [f' [j'|e]]; simpl in *.
  - specialize (IH j'). destruct (repair_frames j' fs) as [fs' r]; simpl in *.
    by constructor.
  - constructor; [done|]. apply Forall2_frame_kept_refl.
Qed.

Lemma repair_last_frame_kept f : frame_kept f (repair_last_frame f).
Proof.
  destruct f as [| | | | |d]; simpl; try done.
  unfold lacks_function_name.
  destruct (d !! "file_name") as [v|] eqn:Hfile;
    rewrite ?lookup_insert_ne by done;
    (destruct (d !! "function_name") as [fn|] eqn:Hfn;
     [destruct (py_eq_str fn "??") eqn:Heq|]); kept_frame.
Qed.

Lemma repair_last_kept fs : Forall2 frame_kept fs (repair_last fs).
Proof.
  unfold repair_last. destruct (last fs) as [l|] eqn:Hl.
  - apply last_Some in Hl as [fs' ->].
    rewrite removelast_last. apply Forall2_app.
    + apply Forall2_frame_kept_refl.
    + constructor; [apply repair_last_frame_kept|constructor].
  - apply Forall2_frame_kept_refl.
Qed.

Lemma Forall2_frame_kept_trans fs gs hs :
  Forall2 frame_kept fs gs → Forall2 frame_kept gs hs →
  Forall2 frame_kept fs hs.
Proof.
  intros H1. revert hs. induction H1 as [|f g fs gs Hfg _ IH]; intros hs H2.
  - by inversion H2.
  - inversion H2 as [|? h ? hs' Hgh Hrest]; subst.
    constructor; [by eapply frame_kept_trans|]. by apply IH.
Qed.

Lemma thread_kept_refl t : thread_kept t t.
Proof.
  destruct t as [| | | | |d]; simpl; try done. split; [done|].
  destruct (d !! "frames") as [[| | | |fs|]|]; try done.
  exists fs. split; [done|]. apply Forall2_frame_kept_refl.
Qed.

Lemma repair_thread_kept t : thread_kept t (repair_thread t).1.
Proof.
  destruct t as [| | | | |d]; simpl; try done.
  destruct (d !! "frames") as [[| | | |fs|]|] eqn:Hfs; simpl;
    rewrite ?Hfs; try done.
  pose proof (repair_frames_kept PNone fs) as Hk.
  destruct (repair_frames PNone fs) as [fs' [j|e]]; simpl in *.
  - split; [intros k Hk'; by rewrite lookup_insert_ne|].
    eexists. rewrite lookup_insert_eq. split; [done|].
    eapply Forall2_frame_kept_trans; [exact Hk|]. apply repair_last_kept.
  - split; [intros k Hk'; by rewrite lookup_insert_ne|].
    eexists. rewrite lookup_insert_eq. done.
Qed.

Lemma repair_threads_kept ths : Forall2 thread_kept ths (repair_threads ths).1.
Proof.
  induction ths as [|t ths IH]; simpl; [constructor|].
  pose proof (repair_thread_kept t) as Ht.
  destruct (repair_thread t) as [t' [[]|e]]; simpl in *.
  - destruct (repair_threads ths) as [ths' r]; simpl in *. by constructor.
  - constructor; [done|]. clear. induction ths; constructor;
      auto using thread_kept_refl.
Qed.

Lemma jit_fill_has_file_id j d : is_Some (d !! "file_name") → jit_fill j d = d.
Proof. intros [v Hv]. unfold jit_fill. by rewrite Hv. Qed.

Lemma repair_frame_complete j f : has_file_name f → (repair_frame j f).1 = f.
Proof.
  destruct f as [| | | | |d]; simpl; try done. intros Hf.
  destruct (jit_detect j d); simpl; [|done]. by rewrite jit_fill_has_file_id.
Qed.

Lemma repair_frames_complete j fs :
  Forall has_file_name fs → (repair_frames j fs).1 = fs.
Proof.
  intros Hfs. revert j. induction Hfs as [|f fs Hf _ IH]; intros j; simpl;
    [done|].
  pose proof (repair_frame_complete j f Hf) as Hf'.
  destruct (repair_frame j f) as [f' [j'|e]]; simpl in *; subst f'; [|done].
  specialize (IH j'). destruct (repair_frames j' fs) as [fs' r]; simpl in *.
  by subst.
Qed.

Lemma repair_last_frame_complete f :
  has_file_name f → has_function_name f → repair_last_frame f = f.
Proof.
  destruct f as [| | | | |d]; simpl; try done.
  intros [v Hv] (fn & Hfn & Hne). rewrite Hv. unfold lacks_function_name.
  by rewrite Hfn, py_eq_str_false.
Qed.

Lemma repair_last_complete fs :
  Forall has_file_name fs →
  match last fs with Some l => has_function_name l | None => True end →
  repair_last fs = fs.
Proof.
  intros Hfs Hl. unfold repair_last.
  destruct (last fs) as [l|] eqn:El; [|done].
  apply last_Some in El as [fs' ->]. rewrite removelast_last.
  apply Forall_app in Hfs as [_ Hfs]. apply Forall_cons in Hfs as [Hf _].
  by rewrite repair_last_frame_complete.
Qed.

Lemma repair_thread_complete t : complete_thread t → (repair_thread t).1 = t.
Proof.
  destruct t as [| | | | |d]; simpl; try done.
  destruct (d !! "frames") as [[| | | |fs|]|] eqn:Hfs; simpl; try done.
  intros [Hall Hlast].
  pose proof (repair_frames_complete PNone fs Hall) as Hk.
  destruct (repair_frames PNone fs) as [fs' [j|e]]; simpl in *; subst fs'.
  - rewrite repair_last_complete by done. by rewrite insert_id.
  - by rewrite insert_id.
Qed.

Lemma repair_threads_complete ths :
  Forall complete_thread ths → (repair_threads ths).1 = ths.
Proof.
  induction 1 as [|t ths Ht _ IH]; simpl; [done|].
  pose proof (repair_thread_complete t Ht) as Ht'.
  destruct (repair_thread t) as [t' [[]|e]]; simpl in *; subst t'; [|done].
  destruct (repair_threads ths) as [ths' r]; simpl in *. by subst.
Qed.

(** The exceptions of the scan of the frames of a thread *)
Lemma jit_detect_cases j d :
  (∃ j', jit_detect j d = Ok j' ∧ ¬ bad_function_name (PDict d)) ∨
  (jit_detect j d = Raise AttributeError ∧ bad_function_name (PDict d)).
Proof.
  unfold jit_detect. simpl.
  destruct (d !! "file_name") as [file|] eqn:Hfile.
  - destruct (d !! "function_name") as [fn|] eqn:Hfn.
    + destruct fn as [| | |s| |]; simpl;
        try (right; split; [done|]; split; [by eexists|];
             eexists; split; [done|]; done).
      left. eexists. split; [done|]. intros (_ & v & [= <-] & Hv).
      by apply (Hv s).
    + left. eexists. split; [done|]. by intros (_ & v & ? & _).
  - left. exists j. split; [by destruct (d !! "function_name")|].
    by intros [[? ?] _].
Qed.

Lemma repair_frames_cases j fs :
  (∃ j', (repair_frames j fs).2 = Ok j' ∧ ¬ Exists bad_function_name fs) ∨
  ((repair_frames j fs).2 = Raise AttributeError ∧
   Exists bad_function_name fs).
Proof.
  revert j. induction fs as [|f fs IH]; intros j; simpl.
  - left. eexists. split; [done|]. by intros ?%Exists_nil.
  - destruct f as [| | | | |d]; simpl;
      try (destruct (IH j) as [(j' & Hj & Hn)|[Hr Hb]];
           destruct (repair_frames j fs) as [fs' r]; simpl in *;
           [left; eexists; split; [done|];
            intros [?|?]%Exists_cons; done
           |right; split; [done|]; by apply Exists_cons_tl]).
    destruct (jit_detect_cases j d) as [(j' & -> & Hn)|[-> Hb]]; simpl.
    + destruct (IH j') as [(j'' & Hj & Hn')|[Hr Hb]];
        destruct (repair_frames j' fs) as [fs' r]; simpl in *.
      * left. eexists. split; [done|]. by intros [?|?]%Exists_cons.
      * right. split; [done|]. by apply Exists_cons_tl.
    + right. split; [done|]. by apply Exists_cons_hd.
Qed.

Lemma repair_thread_cases t :
  ((repair_thread t).2 = Ok tt ∧ ¬ thread_has_bad_name t) ∨
  ((repair_thread t).2 = Raise AttributeError ∧ thread_has_bad_name t).
Proof.
  destruct t as [| | | | |d]; simpl; try (left; split; [done|tauto]).
  destruct (d !! "frames") as [[| | | |fs|]|] eqn:Hfs; simpl;
    try (left; split; [done|tauto]).
  destruct (repair_frames_cases PNone fs) as [(j' & Hj & Hn)|[Hr Hb]];
    destruct (repair_frames PNone fs) as [fs' r]; simpl in *; subst r.
  - by left.
  - by right.
Qed.

Lemma repair_threads_cases ths :
  ((repair_threads ths).2 = Ok tt ∧ ¬ Exists thread_has_bad_name ths) ∨
  ((repair_threads ths).2 = Raise AttributeError ∧
   Exists thread_has_bad_name ths).
Proof.
  induction ths as [|t ths IH]; simpl.
  - left. split; [done|]. by intros ?%Exists_nil.
  - destruct (repair_thread_cases t) as [[Ht Hn]|[Ht Hb]];
      destruct (repair_thread t) as [t' r]; simpl in *; subst r.
    + destruct IH as [[Hr Hn']|[Hr Hb]];
        destruct (repair_threads ths) as [ths' r]; simpl in *.
      * left. split; [done|]. by intros [?|?]%Exists_cons.
      * right. split; [done|]. by apply Exists_cons_tl.
    + right. split; [done|]. by apply Exists_cons_hd.
Qed.

Section Repair.
Context `{Externals}.

(** X6: The repair pass keeps the number of threads and of frames and every
    field it is not about: in a frame it may only add a file name where
    there is none, and set the function name to "anonymous function" where
    there is none or it is "??"; this holds also for a pass that an
    exception ends. *)
Theorem jit_repair_keeps (ureport : gmap string pyval) :
  report_kept ureport (jit_repair ureport).1 ∧
  report_kept ureport (validate_ureport ureport).1.
Proof.
  assert (report_kept ureport (jit_repair ureport).1) as Hk.
  { unfold jit_repair, report_kept.
    destruct (ureport !! "stacktrace") as [[| | | |ths|]|] eqn:Hst; simpl;
      rewrite ?Hst; try done.
    pose proof (repair_threads_kept ths) as Hths.
    destruct (repair_threads ths) as [ths' r]; simpl in *.
    split; [intros k Hk'; by rewrite lookup_insert_ne|].
    eexists. rewrite lookup_insert_eq. done. }
  split; [exact Hk|].
  unfold validate_ureport. by destruct (jit_repair ureport).
Qed.

(** X7: A report in which every frame has a file name and the last frame of
    every thread has a function name other than "??" is left as it is by
    the repair pass, and so by [validate_ureport]. *)
Theorem jit_repair_complete_unchanged (ureport : gmap string pyval)
    (ths : list pyval) :
  ureport !! "stacktrace" = Some (PList ths) →
  Forall complete_thread ths →
  (jit_repair ureport).1 = ureport ∧ (validate_ureport ureport).1 = ureport.
Proof.
  intros Hst Hths.
  assert ((jit_repair ureport).1 = ureport) as Hk.
  { unfold jit_repair. rewrite Hst.
    pose proof (repair_threads_complete ths Hths) as Hk.
    destruct (repair_threads ths) as [ths' r]; simpl in *. subst ths'.
    by rewrite insert_id. }
  split; [exact Hk|].
  unfold validate_ureport. by destruct (jit_repair ureport).
Qed.

(** X8: The repair pass raises [AttributeError] or nothing, and raises it
    exactly when some frame of a thread has a file name and a function
    name that is not a string; [validate_ureport] then raises it too,
    before the schema is checked. *)
Theorem jit_repair_raises (ureport : gmap string pyval) :
  ((jit_repair ureport).2 = Ok tt ∨
   (jit_repair ureport).2 = Raise AttributeError) ∧
  ((jit_repair ureport).2 = Raise AttributeError ↔
   ∃ ths, ureport !! "stacktrace" = Some (PList ths) ∧
          Exists thread_has_bad_name ths) ∧
  ((jit_repair ureport).2 = Raise AttributeError →
   (validate_ureport ureport).2 = Raise AttributeError).
Proof.
  split; [|split].
  - unfold jit_repair.
    destruct (ureport !! "stacktrace") as [[| | | |ths|]|]; simpl; auto.
    destruct (repair_threads_cases ths) as [[Hr _]|[Hr _]];
      destruct (repair_threads ths) as [ths' r]; simpl in *; auto.
  - unfold jit_repair.
    destruct (ureport !! "stacktrace") as [[| | | |ths|]|] eqn:Hst; simpl;
      try (split; [done|]; by intros (? & [= <-] & _));
      try (split; [done|]; by intros (? & [=] & _)).
    destruct (repair_threads_cases ths) as [[Hr Hn]|[Hr Hb]];
      destruct (repair_threads ths) as [ths' r]; simpl in *; subst r.
    + split; [done|]. by intros (? & [= <-] & ?).
    + split; [|done]. intros _. by exists ths.
  - unfold validate_ureport.
    destruct (jit_repair ureport) as [u1 r]; simpl. by intros ->.
Qed.

End Repair.

(** * Stored reports handed to satyr *)

Section SatyrMore.
Context `{Externals}.

(** X9: [_db_thread_validate] rejects one shape of thread only: exactly one
    frame, whose location has a symbol named "anonymous function" with
    normalized path "unknown filename". *)
Theorem db_thread_validate_false_iff (d : DB) (t : nat) :
  _db_thread_validate d t = Ok false ↔
  ∃ th f fr ss r sym,
    threads d !! t = Some th ∧ th_frames th = [f] ∧
    frames d !! f = Some fr ∧
    symbolsources d !! fr_symbolsource fr = Some ss ∧
    ss_symbol ss = Some r ∧ symbols d !! r = Some sym ∧
    sym_name sym = "anonymous function" ∧
    sym_normalized_path sym = "unknown filename".
Proof.
  unfold _db_thread_validate. split.
  - destruct (threads d !! t) as [th|] eqn:Ht; [|done].
    destruct (th_frames th) as [|f [|]] eqn:Hfs; try done.
    destruct (frames d !! f) as [fr|] eqn:Hfr; [|done].
    destruct (symbolsources d !! fr_symbolsource fr) as [ss|] eqn:Hss; [|done].
    destruct (ss_symbol ss) as [r|] eqn:Hr; [|done].
    destruct (symbols d !! r) as [sym|] eqn:Hsym; [|done].
    intros [= Hb]. apply negb_false_iff, andb_prop in Hb as [H1 H2].
    apply String.eqb_eq in H1, H2.
    by exists th, f, fr, ss, r, sym.
  - intros (th & f & fr & ss & r & sym & -> & -> & -> & -> & -> & -> & -> & ->).
    done.
Qed.

Lemma first_crash_thread_Some_inv cfg d ts g :
  first_crash_thread cfg d ts = Ok (Some g) →
  ∃ pre t post th, ts = pre ++ t :: post ∧
    Forall (λ t', ∃ th', threads d !! t' = Some th' ∧
                         th_crashthread th' = false) pre ∧
    threads d !! t = Some th ∧ th_crashthread th = true ∧
    _db_thread_validate d t = Ok true ∧ _db_thread_to_satyr cfg d t = Ok g.
Proof.
  induction ts as [|t ts IH]; simpl; [done|].
  destruct (threads d !! t) as [th|] eqn:Ht; [|done].
  destruct (th_crashthread th) eqn:Hc.
  - destruct (_db_thread_validate d t) as [[]|] eqn:Hv; simpl; try done.
    destruct (_db_thread_to_satyr cfg d t) as [g'|] eqn:Hg; simpl; [|done].
    intros [= <-]. exists [], t, ts, th. by repeat split.
  - intros (pre & t' & post & th' & -> & Hpre & ?)%IH.
    exists (t :: pre), t', post, th'. split; [done|]. split; [|done].
    constructor; eauto.
Qed.

Lemma first_crash_thread_None_inv cfg d ts :
  first_crash_thread cfg d ts = Ok None →
  Forall (λ t', ∃ th', threads d !! t' = Some th' ∧
                       th_crashthread th' = false) ts ∨
  ∃ pre t post th, ts = pre ++ t :: post ∧
    Forall (λ t', ∃ th', threads d !! t' = Some th' ∧
                         th_crashthread th' = false) pre ∧
    threads d !! t = Some th ∧ th_crashthread th = true ∧
    _db_thread_validate d t = Ok false.
Proof.
  induction ts as [|t ts IH]; simpl; [by left|].
  destruct (threads d !! t) as [th|] eqn:Ht; [|done].
  destruct (th_crashthread th) eqn:Hc.
  - destruct (_db_thread_validate d t) as [[]|] eqn:Hv; simpl; try done.
    + by destruct (_db_thread_to_satyr cfg d t).
    + intros _. right. exists [], t, ts, th. by repeat split.
  - intros [Hall|(pre & t' & post & th' & -> & Hpre & ?)]%IH.
    + left. constructor; eauto.
    + right. exists (t :: pre), t', post, th'. split; [done|]. split; [|done].
      constructor; eauto.
Qed.

(** X10: [db_report_to_satyr] returns a thread exactly when the first backtrace
    of the report has a thread flagged as crash thread and the first such
    thread passes [_db_thread_validate]; the thread returned is that one,
    converted: later backtraces and later crash threads are not looked
    at. *)
Theorem db_report_to_satyr_Some_iff cfg (d : DB) (db_report : nat)
    (g : GdbThread) :
  db_report_to_satyr cfg d db_report = Ok (Some g) ↔
  ∃ rp bt others b pre t post th,
    reports d !! db_report = Some rp ∧ rp_backtraces rp = bt :: others ∧
    backtraces d !! bt = Some b ∧ bt_threads b = pre ++ t :: post ∧
    Forall (λ t', ∃ th', threads d !! t' = Some th' ∧
                         th_crashthread th' = false) pre ∧
    threads d !! t = Some th ∧ th_crashthread th = true ∧
    _db_thread_validate d t = Ok true ∧ _db_thread_to_satyr cfg d t = Ok g.
Proof.
  unfold db_report_to_satyr. split.
  - destruct (reports d !! db_report) as [rp|] eqn:Hrp; [|done].
    destruct (rp_backtraces rp) as [|bt others] eqn:Hbts; [done|].
    destruct (backtraces d !! bt) as [b|] eqn:Hb; [|done].
    destruct (bt_threads b) as [|x l] eqn:Hths; [done|].
    intros (pre & t & post & th & Heq & ?)%first_crash_thread_Some_inv.
    exists rp, bt, others, b, pre, t, post, th.
    repeat (split; [done || congruence|]). tauto.
  - intros (rp & bt & others & b & pre & t & post & th & -> & -> & -> & ->
            & Hpre & Ht & Hc & Hv & Hg).
    destruct (pre ++ t :: post) as [|x l] eqn:Hl; [by destruct pre|].
    rewrite <- Hl, first_crash_thread_skip by done.
    simpl. by rewrite Ht, Hc, Hv, Hg.
Qed.

(** X11: [db_report_to_satyr] returns [None] in four cases and no other: the
    report has no backtrace, its first backtrace has no thread, none of
    the threads of that backtrace is flagged as crash thread, or the
    first flagged one is rejected by [_db_thread_validate]. *)
Theorem db_report_to_satyr_None_iff cfg (d : DB) (db_report : nat) :
  db_report_to_satyr cfg d db_report = Ok None ↔
  ∃ rp, reports d !! db_report = Some rp ∧
    (rp_backtraces rp = [] ∨
     ∃ bt others b, rp_backtraces rp = bt :: others ∧
       backtraces d !! bt = Some b ∧
       (bt_threads b = [] ∨
        Forall (λ t', ∃ th', threads d !! t' = Some th' ∧
                             th_crashthread th' = false) (bt_threads b) ∨
        ∃ pre t post th, bt_threads b = pre ++ t :: post ∧
          Forall (λ t', ∃ th', threads d !! t' = Some th' ∧
                               th_crashthread th' = false) pre ∧
          threads d !! t = Some th ∧ th_crashthread th = true ∧
          _db_thread_validate d t = Ok false)).
Proof.
  unfold db_report_to_satyr. split.
  - destruct (reports d !! db_report) as [rp|] eqn:Hrp; [|done].
    intros Hr. exists rp. split; [done|].
    destruct (rp_backtraces rp) as [|bt others] eqn:Hbts; [by left|].
    right. exists bt, others.
    destruct (backtraces d !! bt) as [b|] eqn:Hb; [|done].
    exists b. split; [done|]. split; [done|].
    destruct (bt_threads b) as [|x l] eqn:Hths; [by left|].
    right. by apply first_crash_thread_None_inv in Hr.
  - intros (rp & -> & [->|(bt & others & b & -> & -> & Hcase)]); [done|].
    destruct Hcase as [->|[Hall|(pre & t & post & th & -> & Hpre & Ht & Hc
                                 & Hv)]]; [done| |].
    + destruct (bt_threads b) as [|x l] eqn:Hl; [done|].
      rewrite <- (app_nil_r (x :: l)), first_crash_thread_skip by done. done.
    + destruct (pre ++ t :: post) as [|x l] eqn:Hl; [by destruct pre|].
      rewrite <- Hl, first_crash_thread_skip by done.
      simpl. by rewrite Ht, Hc, Hv.
Qed.

End SatyrMore.

(** * Debug files and packages of a location *)

Lemma str_length_app s t :
  String.length (s +:+ t) = (String.length s + String.length t)%nat.
Proof. induction s as [|c s IH]; simpl; [done|]. by rewrite IH. Qed.

Lemma str_app_inj_r t s s' : s +:+ t = s' +:+ t → s = s'.
Proof.
  revert s'. induction s as [|c s IH]; intros [|c' s'] Heq; simpl in *.
  - done.
  - apply (f_equal String.length) in Heq. simpl in Heq.
    rewrite !str_length_app in Heq. simpl in Heq. lia.
  - apply (f_equal String.length) in Heq. simpl in Heq.
    rewrite !str_length_app in Heq. simpl in Heq. lia.
  - injection Heq as -> Heq. f_equal. by apply IH.
Qed.

Lemma str_app_assoc s t u : (s +:+ t) +:+ u = s +:+ t +:+ u.
Proof.
  induction s as [|c s IH]; [done|].
  change (String c ((s +:+ t) +:+ u) = String c (s +:+ t +:+ u)).
  by rewrite IH.
Qed.

Lemma build_id_split_inj b1 b2 :
  str_take 2 b1 +:+ "/" +:+ str_drop 2 b1
    = str_take 2 b2 +:+ "/" +:+ str_drop 2 b2 →
  b1 = b2.
Proof.
  destruct b1 as [|c1 [|c2 r1]], b2 as [|d1 [|d2 r2]]; simpl;
    intros Heq; simplify_eq; done.
Qed.

(** X12: The debug files of a build id: two paths, from which the build id can
    be read back, so that two build ids never share a debug file; without
    a build id the call raises [TypeError]. *)
Theorem build_id_to_debug_files_inj :
  _build_id_to_debug_files None = Raise TypeError ∧
  (∀ b, ∃ f1 f2, _build_id_to_debug_files (Some b) = Ok [f1; f2]) ∧
  (∀ b1 b2 f1 f2 g1 g2,
     _build_id_to_debug_files (Some b1) = Ok [f1; f2] →
     _build_id_to_debug_files (Some b2) = Ok [g1; g2] →
     f1 = g1 ∨ f2 = g2 → b1 = b2).
Proof.
  split; [done|]. split; [intros b; by eexists _, _|].
  intros b1 b2 f1 f2 g1 g2 [= <- <-] [= <- <-] [Heq|Heq].
  - apply build_id_split_inj.
    simpl in Heq. simplify_eq.
    match goal with
    | H : _ +:+ _ +:+ _ +:+ ".debug" = _ |- _ => rename H into Heq
    end.
    rewrite <- !str_app_assoc in Heq. apply str_app_inj_r in Heq.
    by rewrite !str_app_assoc in Heq.
  - apply build_id_split_inj. simpl in Heq. by simplify_eq.
Qed.

Section PackagesFacts.
Context `{Externals}.
Context {Pkg Build Arch : Type}.
Variable get_package_by_file : list string → option Pkg.
Variable get_package_by_file_build_arch : string → Build → Arch → option Pkg.
Variable get_src_package_by_build : Build → option Pkg.
Variable pkg_build : Pkg → Build.
Variable pkg_arch : Pkg → Arch.
Variable usrmove : string → string.

Lemma first_bin_package_hit pre path post b a p :
  Forall (λ q, get_package_by_file_build_arch q b a = None) pre →
  get_package_by_file_build_arch path b a = Some p →
  first_bin_package get_package_by_file_build_arch (pre ++ path :: post) b a
  = Some p.
Proof.
  intros Hpre Hp. induction Hpre as [|q pre Hq _ IH]; simpl.
  - by rewrite Hp.
  - by rewrite Hq.
Qed.

Lemma first_bin_package_miss paths b a :
  Forall (λ q, get_package_by_file_build_arch q b a = None) paths →
  first_bin_package get_package_by_file_build_arch paths b a = None.
Proof. induction 1 as [|q paths Hq _ IH]; simpl; [done|]. by rewrite Hq. Qed.

(** X13: [find_packages_for_ssource] raises [TypeError] for a location without
    build id.  Otherwise it returns the location with a triple decided by
    the debuginfo package that owns a debug file of the build id: when
    there is none, the triple is empty; when there is one, the binary
    package is the one of the first candidate path that has one for the
    build and architecture of that debuginfo package, and it is returned
    with the debuginfo package; when no candidate path has one, both are
    withheld.  The source package of the build of the debuginfo package
    is returned in both cases, unless sources are skipped.  The candidate
    paths are the path, and for a path with a separator also
    [usrmove(path)], [abspath(path)] and [usrmove(abspath(path))], in
    this order. *)
Theorem find_packages_for_ssource_result cfg (db_ssource : SymbolSource) :
  (ss_build_id db_ssource = None →
   find_packages_for_ssource get_package_by_file
     get_package_by_file_build_arch get_src_package_by_build pkg_build
     pkg_arch usrmove cfg db_ssource = Raise TypeError) ∧
  (∀ files,
     _build_id_to_debug_files (ss_build_id db_ssource) = Ok files →
     (get_package_by_file files = None →
      find_packages_for_ssource get_package_by_file
        get_package_by_file_build_arch get_src_package_by_build pkg_build
        pkg_arch usrmove cfg db_ssource
      = Ok (db_ssource, (None, None, None))) ∧
     (∀ found, get_package_by_file files = Some found →
        (∀ pre path post p,
           candidate_paths usrmove (ss_path db_ssource)
             = pre ++ path :: post →
           Forall (λ q, get_package_by_file_build_arch
                          q (pkg_build found) (pkg_arch found) = None) pre →
           get_package_by_file_build_arch
             path (pkg_build found) (pkg_arch found) = Some p →
           find_packages_for_ssource get_package_by_file
             get_package_by_file_build_arch get_src_package_by_build
             pkg_build pkg_arch usrmove cfg db_ssource
           = Ok (db_ssource,
                 (Some found, Some p,
                  if skipsrc cfg then None
                  else get_src_package_by_build (pkg_build found)))) ∧
        (Forall (λ q, get_package_by_file_build_arch
                        q (pkg_build found) (pkg_arch found) = None)
                (candidate_paths usrmove (ss_path db_ssource)) →
         find_packages_for_ssource get_package_by_file
           get_package_by_file_build_arch get_src_package_by_build
           pkg_build pkg_arch usrmove cfg db_ssource
         = Ok (db_ssource,
               (None, None,
                if skipsrc cfg then None
                else get_src_package_by_build (pkg_build found)))))) ∧
  candidate_paths usrmove (ss_path db_ssource) =
    ss_path db_ssource ::
    (if str_contains "/" (ss_path db_ssource)
     then [usrmove (ss_path db_ssource); abspath (ss_path db_ssource);
           usrmove (abspath (ss_path db_ssource))]
     else []).
Proof.
  split; [|split; [|done]].
  - unfold find_packages_for_ssource. by intros ->.
  - intros files Hfiles. unfold find_packages_for_ssource.
    rewrite Hfiles. cbn [mbind result_bind].
    split.
    + by intros ->.
    + intros found ->. split.
      * intros pre path post p -> Hpre Hp.
        rewrite (first_bin_package_hit _ _ _ _ _ _ Hpre Hp).
        by destruct (skipsrc cfg).
      * intros Hmiss. rewrite (first_bin_package_miss _ _ _ Hmiss).
        by destruct (skipsrc cfg).
Qed.

End PackagesFacts.

(** * Invariants of the session *)

Lemma triple_bind {A B} P Q R E (m : M A) (k : A → M B) :
  triple P m Q E → (∀ a, triple (Q a) (k a) R E) → triple P (m ≫= k) R E.
Proof.
  intros Hm Hk s s' r. unfold mbind, M_bind.
  destruct (m s) as [s1 [a|e]] eqn:Hms.
  - intros Hks HP. pose proof (Hm _ _ _ Hms HP) as HQ. simpl in HQ.
    by apply (Hk a _ _ _ Hks).
  - intros [= <- <-] HP. by apply (Hm _ _ _ Hms HP).
Qed.

Lemma triple_weaken {A} (P P' : DB → Prop) (Q Q' : A → DB → Prop)
    (E E' : DB → Prop) m :
  triple P' m Q' E' → (∀ d, P d → P' d) → (∀ a d, Q' a d → Q a d) →
  (∀ d, E' d → E d) → triple P m Q E.
Proof.
  intros Hm HP HQ HE s s' r Hms HPs. specialize (Hm _ _ _ Hms (HP _ HPs)).
  destruct r; auto.
Qed.

Lemma triple_ret {A} (P : DB → Prop) E (a : A) : triple P (mret a) (λ _, P) E.
Proof. by intros s s' r [= <- <-]. Qed.

Lemma triple_ret_val {A} (P : DB → Prop) E (a : A) :
  triple P (mret a) (λ b d, b = a ∧ P d) E.
Proof. by intros s s' r [= <- <-]. Qed.

Lemma keeps_exn {A} (I J : DB → Prop) (m : M A) :
  keeps J m → (∀ d, J d → I d) → triple J m (λ _, J) I.
Proof. intros Hm HJ. eapply triple_weaken; [exact Hm| | |]; auto. Qed.

Lemma keeps_bind {A B} I (m : M A) (k : A → M B) :
  keeps I m → (∀ a, keeps I (k a)) → keeps I (m ≫= k).
Proof. intros Hm Hk. by apply (triple_bind _ (λ _, I)). Qed.

Lemma keeps_ret {A} I (a : A) : keeps I (mret a).
Proof. apply triple_ret. Qed.

Lemma keeps_lift {A} I (r : result A) : keeps I (lift r).
Proof. intros s s' r' [= <- <-] HI. by destruct r. Qed.

Lemma keeps_raise {A} I e : keeps I (raise (A:=A) e).
Proof. by intros s s' r' [= <- <-] HI. Qed.

Lemma keeps_get_db I : keeps I get_db.
Proof. by intros s s' r' [= <- <-] HI. Qed.

Lemma triple_get_db (I : DB → Prop) : triple I get_db (λ d0 d, d0 = d ∧ I d) I.
Proof. by intros s s' r' [= <- <-] HI. Qed.

Lemma keeps_deref {A} I (table : DB → list A) r : keeps I (deref table r).
Proof.
  intros s s' r' [= <- <-] HI. by destruct (table (db s) !! r).
Qed.

Lemma triple_deref {A} (I : DB → Prop) (table : DB → list A) r :
  triple I (deref table r) (λ x d, table d !! r = Some x ∧ I d) I.
Proof.
  intros s s' r' [= <- <-] HI. by destruct (table (db s) !! r) eqn:E.
Qed.

Lemma keeps_frame_orders I l : keeps I (frame_orders l).
Proof. intros s s' r' [= <- <-] HI. by destruct (mapR _ l). Qed.

Lemma keeps_modify (I : DB → Prop) f :
  (∀ d, I d → I (f d)) → keeps I (modify_db f).
Proof. intros Hf s s' r' [= <- <-] HI. simpl. auto. Qed.

Lemma triple_modify (P Q : DB → Prop) E f :
  (∀ d, P d → Q (f d)) → triple P (modify_db f) (λ _, Q) E.
Proof. intros Hf s s' r' [= <- <-] HI. simpl. auto. Qed.

Lemma keeps_cache_symbol I k r : keeps I (cache_symbol k r).
Proof. by intros s s' r' [= <- <-] HI. Qed.

Lemma keeps_cache_symbolsource I k r : keeps I (cache_symbolsource k r).
Proof. by intros s s' r' [= <- <-] HI. Qed.

Lemma keeps_forM {A} I (f : A → M unit) l :
  (∀ x, keeps I (f x)) → keeps I (forM f l).
Proof.
  intros Hf. induction l as [|x l IH]; simpl; [apply keeps_ret|].
  apply keeps_bind; [apply Hf|]. by intros _.
Qed.

(** The value of a constructor is the place of the new object. *)
Lemma keeps_new_symbol (I : DB → Prop) sym :
  (∀ d, I d → I (add_symbol sym d)) → keeps I (new_symbol sym).
Proof.
  intros Hf. unfold new_symbol.
  apply keeps_bind; [apply keeps_get_db|]. intros d.
  apply keeps_bind; [by apply keeps_modify|]. intros _. apply keeps_ret.
Qed.

Lemma keeps_new_symbolsource (I : DB → Prop) row :
  (∀ d, I d → I (add_symbolsource row d)) → keeps I (new_symbolsource row).
Proof.
  intros Hf. unfold new_symbolsource.
  apply keeps_bind; [apply keeps_get_db|]. intros d.
  apply keeps_bind; [by apply keeps_modify|]. intros _. apply keeps_ret.
Qed.

Lemma keeps_get_or_create_symbol (I : DB → Prop) n p :
  (∀ sym d, I d → I (add_symbol sym d)) →
  keeps I (get_or_create_symbol n p).
Proof.
  intros Hf. unfold get_or_create_symbol.
  apply keeps_bind; [apply keeps_get_db|]. intros d.
  destruct (get_symbol_by_name_path d n p); [apply keeps_ret|].
  intros s s' r. cbv beta. destruct (new_symbols s !! (n, p)) eqn:E.
  - intros [= <- <-] HI. exact HI.
  - revert s s' r E. 
    assert (keeps I (r ← new_symbol {| sym_name := n; sym_normalized_path := p;
                                       sym_nice_name := None |};
                     _ ← cache_symbol (n, p) r; mret r)) as Hk.
    { apply keeps_bind; [apply keeps_new_symbol; intros d'; apply Hf|]. intros r.
      apply keeps_bind; [apply keeps_cache_symbol|]. intros _.
      apply keeps_ret. }
    intros s s' r _. apply Hk.
Qed.

Lemma keeps_get_or_create_symbolsource (I : DB → Prop) sym b p o f :
  (∀ row d, ss_frames row = [] → I d → I (add_symbolsource row d)) →
  keeps I (get_or_create_symbolsource sym b p o f).
Proof.
  intros Hf. unfold get_or_create_symbolsource.
  apply keeps_bind; [apply keeps_get_db|]. intros d.
  destruct (get_ssource_by_bpo d b p o); [apply keeps_ret|].
  intros s s' r. cbv beta. destruct (new_symbolsources s !! (b, p, o)) eqn:E.
  - intros [= <- <-] HI. exact HI.
  - revert s s' r E.
    assert (keeps I (r ← new_symbolsource
                       {| ss_symbol := sym; ss_build_id := b; ss_path := p;
                          ss_offset := o; ss_hash := f;
                          ss_source_path := None; ss_line_number := None;
                          ss_retrace_fail_count := 0; ss_frames := [] |};
                     _ ← cache_symbolsource (b, p, o) r; mret r)) as Hk.
    { apply keeps_bind; [apply keeps_new_symbolsource; intros d'; by apply Hf|].
      intros r. apply keeps_bind; [apply keeps_cache_symbolsource|]. intros _.
      apply keeps_ret. }
    intros s s' r _. apply Hk.
Qed.

Lemma triple_new_frame (I : DB → Prop) (P : DB → Prop) N :
  (∀ d, P d → I (attach N d)) → triple P (new_frame N) (λ _, I) I.
Proof.
  intros Hf s s' r. rewrite new_frame_run. intros [= <- <-] HP. simpl. auto.
Qed.

Lemma new_thread_run t s :
  new_thread t s =
    (with_db (set_backtraces
                (alter (bt_add_thread (length (threads (db s)))) (th_backtrace t))
                (set_threads (λ l, l ++ [t]) (db s))) s,
     Ok (length (threads (db s)))).
Proof. done. Qed.

Lemma new_backtrace_run bt s :
  new_backtrace bt s =
    (with_db (set_reports
                (alter (rp_add_backtrace (length (backtraces (db s))))
                       (bt_report bt))
                (set_backtraces (λ l, l ++ [bt]) (db s))) s,
     Ok (length (backtraces (db s)))).
Proof. done. Qed.

Lemma new_reportexe_run e s :
  new_reportexe e s =
    (with_db (add_reportexe e (db s)) s, Ok (length (reportexes (db s)))).
Proof. done. Qed.

Lemma is_Some_alter {A} (f : A → A) i j (l : list A) :
  is_Some (l !! j) → is_Some (alter f i l !! j).
Proof.
  intros [x Hx]. rewrite list_lookup_alter.
  destruct (decide (i = j)) as [->|]; [|by eexists].
  rewrite Hx. by eexists.
Qed.

(** Sessions reached by the persistence of a report and by the retracer,
    from a session satisfying an invariant of the single updates *)
Section Keeps.
Context `{Externals}.
Variable I : DB → Prop.
Hypothesis I_add_symbol : ∀ sym d, I d → I (add_symbol sym d).
Hypothesis I_add_symbolsource :
  ∀ row d, ss_frames row = [] → I d → I (add_symbolsource row d).
Hypothesis I_attach :
  ∀ N d, is_Some (threads d !! fr_thread N) → I d → I (attach N d).
Hypothesis I_new_thread : ∀ t d, th_frames t = [] → I d →
  I (set_backtraces (alter (bt_add_thread (length (threads d))) (th_backtrace t))
       (set_threads (λ l, l ++ [t]) d)).
Hypothesis I_new_backtrace : ∀ bt d, bt_threads bt = [] → I d →
  I (set_reports (alter (rp_add_backtrace (length (backtraces d))) (bt_report bt))
       (set_backtraces (λ l, l ++ [bt]) d)).
Hypothesis I_new_bthash : ∀ h d, I d → I (set_bthashes (λ l, l ++ [h]) d).
Hypothesis I_add_reportexe : ∀ e d, I d → I (add_reportexe e d).
Hypothesis I_errname :
  ∀ e r d, I d → I (set_reports (alter (rp_set_errname e) r) d).
Hypothesis I_count :
  ∀ n r d, I d → I (set_reportexes (alter (re_add_count n) r) d).
Hypothesis I_flush : ∀ d, I d → I (flush d).
Hypothesis I_fail : ∀ l d, I d → I (set_symbolsources (alter ss_fail l) d).
Hypothesis I_resolve : ∀ sy sf sl l d, I d →
  I (set_symbolsources (alter (ss_resolve sy sf sl) l) d).
Hypothesis I_nice : ∀ n i sym d,
  symbols d !! i = Some sym → sym_nice_name sym = None → I d →
  I (set_symbols (alter (sym_set_nice_name n) i) d).

Let J (t : nat) : DB → Prop := λ d, I d ∧ is_Some (threads d !! t).

Lemma J_add_symbol t sym d : J t d → J t (add_symbol sym d).
Proof. intros [HI Ht]. split; [by apply I_add_symbol|done]. Qed.

Lemma J_add_symbolsource t row d :
  ss_frames row = [] → J t d → J t (add_symbolsource row d).
Proof. intros Hr [HI Ht]. split; [by apply I_add_symbolsource|done]. Qed.

Lemma keeps_save_frame t fid f : keeps (J t) (save_frame t fid f).
Proof.
  unfold save_frame.
  apply keeps_bind; [apply keeps_lift|]. intros build_id.
  apply keeps_bind; [apply keeps_lift|]. intros fingerprint.
  apply keeps_bind; [apply keeps_lift|]. intros file.
  apply keeps_bind; [apply keeps_lift|]. intros offset.
  apply keeps_bind; [apply keeps_lift|]. intros has_name.
  apply keeps_bind.
  { destruct has_name; [|apply keeps_ret].
    apply keeps_bind; [apply keeps_lift|]. intros name.
    apply keeps_bind; [|intros r; apply keeps_ret].
    apply keeps_get_or_create_symbol. intros sym d. apply J_add_symbol. }
  intros db_symbol.
  apply keeps_bind.
  { apply keeps_get_or_create_symbolsource. intros row d.
    apply J_add_symbolsource. }
  intros db_symbolsource.
  apply keeps_bind; [|intros r; apply keeps_ret].
  apply triple_new_frame. intros d [HI Ht]. split.
  - by apply I_attach.
  - unfold attach. simpl. by apply is_Some_alter.
Qed.

Lemma keeps_save_frames t fid fs : keeps (J t) (save_frames t fid fs).
Proof.
  revert fid. induction fs as [|f fs IH]; intros fid; simpl;
    [apply keeps_ret|].
  apply keeps_bind; [apply keeps_save_frame|]. intros _. apply IH.
Qed.

Lemma triple_new_thread t :
  th_frames t = [] → triple I (new_thread t) J I.
Proof.
  intros Ht s s' r. rewrite new_thread_run. intros [= <- <-] HI. simpl.
  split; [by apply I_new_thread|]. simpl.
  rewrite lookup_app_r, Nat.sub_diag by done. by eexists.
Qed.

Lemma keeps_save_threads bt tid ths : keeps I (save_threads bt tid ths).
Proof.
  revert tid. induction ths as [|th ths IH]; intros tid; simpl;
    [apply keeps_ret|].
  apply keeps_bind; [apply keeps_lift|]. intros crash.
  eapply triple_bind; [by apply triple_new_thread|]. intros t.
  assert (∀ d, J t d → I d) as HJ by (by intros d [? ?]).
  apply (triple_bind _ (λ _, J t)).
  { apply keeps_exn; [apply keeps_lift|done]. }
  intros fs. apply (triple_bind _ (λ _, J t)).
  { apply keeps_exn; [apply keeps_save_frames|done]. }
  intros _. eapply triple_weaken; [apply IH| | |]; simpl; done.
Qed.

Lemma keeps_save_backtrace r st hs : keeps I (save_backtrace r st hs).
Proof.
  unfold save_backtrace.
  apply keeps_bind.
  { intros s s' r'. rewrite new_backtrace_run. intros [= <- <-] HI. simpl.
    by apply (I_new_backtrace {| bt_report := r; bt_threads := [] |}). }
  intros bt. apply keeps_bind.
  { apply keeps_forM. intros h. apply keeps_modify. intros d.
    apply I_new_bthash. }
  intros _. apply keeps_bind; [apply keeps_lift|]. intros ths.
  apply keeps_save_threads.
Qed.

Lemma keeps_save_ureport_core r u n : keeps I (save_ureport_core r u n).
Proof.
  unfold save_ureport_core.
  apply keeps_bind; [apply keeps_lift|]. intros signal.
  apply keeps_bind; [apply keeps_modify; intros d; apply I_errname|].
  intros _. apply keeps_bind; [apply keeps_lift|]. intros exe.
  apply keeps_bind; [apply keeps_get_db|]. intros d.
  apply keeps_bind.
  { destruct (get_reportexe d r exe); [apply keeps_ret|].
    intros s s' r'. rewrite new_reportexe_run. intros [= <- <-] HI. simpl.
    by apply I_add_reportexe. }
  intros e. apply keeps_bind; [apply keeps_modify; intros d'; apply I_count|].
  intros _. apply keeps_bind; [apply keeps_lift|]. intros st.
  apply keeps_bind; [apply keeps_lift|]. intros hs.
  apply keeps_bind.
  { destruct hs; [apply keeps_raise|apply keeps_ret]. }
  intros _. apply keeps_bind; [apply keeps_deref|]. intros rp.
  destruct (rp_backtraces rp); [apply keeps_save_backtrace|apply keeps_ret].
Qed.

Lemma keeps_save_ureport_body r u fl n : keeps I (save_ureport_body r u fl n).
Proof.
  unfold save_ureport_body.
  apply keeps_bind; [apply keeps_save_ureport_core|]. intros _.
  destruct fl; [apply keeps_modify, I_flush|apply keeps_ret].
Qed.

Lemma keeps_save_ureport d r u fl n :
  I d → I (save_ureport d r u fl n).1.
Proof.
  intros HI. unfold save_ureport.
  destruct (save_ureport_body r u fl n (start d)) as [b res] eqn:E.
  pose proof (keeps_save_ureport_body r u fl n _ _ _ E HI) as Hk.
  by destruct res.
Qed.

(** The retracer *)

Lemma keeps_get_or_create_inlined l np fn sf sl :
  keeps I (get_or_create_inlined l np fn sf sl).
Proof.
  unfold get_or_create_inlined.
  apply keeps_bind; [apply keeps_deref|]. intros ss.
  apply keeps_bind; [apply keeps_get_db|]. intros d.
  destruct (get_ssource_by_bpo d _ _ _); [apply keeps_ret|].
  intros s s' r. cbv beta.
  destruct (new_symbolsources s !! _) eqn:E.
  - intros [= <- <-] HI. exact HI.
  - revert s s' r E.
    assert (keeps I
      (db_symbol_inl ← get_or_create_symbol fn np;
       r ← new_symbolsource
             {| ss_symbol := Some db_symbol_inl;
                ss_build_id := ss_build_id ss;
                ss_path := ss_path ss; ss_offset := - sl;
                ss_hash := None; ss_source_path := Some sf;
                ss_line_number := Some sl;
                ss_retrace_fail_count := 0; ss_frames := [] |};
       _ ← cache_symbolsource (ss_build_id ss, ss_path ss, - sl) r;
       mret r)) as Hk.
    { apply keeps_bind; [by apply keeps_get_or_create_symbol|]. intros sy.
      apply keeps_bind.
      { apply keeps_new_symbolsource. intros d'. by apply I_add_symbolsource. }
      intros r. apply keeps_bind; [apply keeps_cache_symbolsource|].
      intros _. apply keeps_ret. }
    intros s s' r _. apply Hk.
Qed.

Lemma keeps_expand_frame inl id f : keeps I (expand_frame inl id f).
Proof.
  unfold expand_frame.
  apply keeps_bind; [apply keeps_deref|]. intros fr.
  eapply triple_bind; [apply triple_deref|]. intros th.
  set (K := λ d, threads d !! fr_thread fr = Some th ∧ I d).
  assert (∀ d, K d → I d) as HK by (by intros d [? ?]).
  apply (triple_bind _ (λ _, K)).
  { apply keeps_exn; [apply keeps_frame_orders|done]. }
  intros keyed.
  apply (triple_bind _ (λ _, K)).
  { apply keeps_exn; [apply keeps_lift|done]. }
  intros idx.
  apply (triple_bind _ (λ _, K)).
  { apply keeps_exn; [|done].
    destruct (0 <? idx)%nat; [|apply (keeps_ret K)].
    apply (keeps_bind K); [apply keeps_lift|]. intros prev.
    apply (keeps_bind K); [apply keeps_deref|]. intros pf. apply keeps_ret. }
  intros [].
  - eapply triple_weaken; [apply (keeps_ret K)| | |]; simpl; auto.
  - apply (triple_bind _ (λ _, I)).
    + apply (triple_new_frame I K). intros d [Hth HI].
      apply I_attach; [|done]. simpl. by eexists.
    + intros _. apply keeps_ret.
Qed.

Lemma keeps_expand_frames fuel i l inl id :
  keeps I (expand_frames fuel i l inl id).
Proof.
  revert i. induction fuel as [|fuel IH]; intros i; simpl;
    [apply keeps_raise|].
  apply keeps_bind; [apply keeps_deref|]. intros ss.
  destruct (ss_frames ss !! i); [|apply keeps_ret].
  apply keeps_bind; [apply keeps_expand_frame|]. intros _. apply IH.
Qed.

Lemma keeps_unwind_inlined fuel n l np id results :
  keeps I (unwind_inlined fuel n l np id results).
Proof.
  revert id results. induction n as [|n IH]; intros id results; simpl;
    [apply keeps_ret|].
  destruct (1 <? length results)%nat; [|apply keeps_ret].
  apply keeps_bind; [apply keeps_lift|]. intros [[[fn sf] sl] rest].
  apply keeps_bind; [apply keeps_get_or_create_inlined|]. intros inl.
  apply keeps_bind; [apply keeps_expand_frames|]. intros _. apply IH.
Qed.

Lemma keeps_resolve_ssource l np results :
  keeps I (resolve_ssource l np results).
Proof.
  unfold resolve_ssource.
  apply keeps_bind; [apply keeps_lift|]. intros [[[fn sf] sl] rest].
  apply keeps_bind; [by apply keeps_get_or_create_symbol|]. intros sy.
  eapply triple_bind; [apply triple_deref|]. intros sym.
  apply (triple_bind _ (λ _, I)).
  - destruct (sym_nice_name sym) eqn:Hn.
    + eapply triple_weaken; [apply (keeps_ret I)| | |]; simpl; try done.
      by intros d [? ?].
    + apply triple_modify. intros d [Hsym HI]. by eapply I_nice.
  - intros _. apply keeps_modify. intros d. apply I_resolve.
Qed.

Lemma keeps_retrace_ssource fuel task pkg l :
  keeps I (retrace_ssource fuel task pkg l).
Proof.
  unfold retrace_ssource.
  apply keeps_bind; [apply keeps_deref|]. intros ss.
  assert (keeps I (count_failure l)) as Hfail.
  { apply keeps_modify. intros d. apply I_fail. }
  destruct (unpacked_path pkg); [|done].
  destruct (get_base_address _); [|done].
  destruct (resolve_address _ _ _); [|done].
  apply keeps_bind; [apply keeps_unwind_inlined|]. intros rest.
  apply keeps_resolve_ssource.
Qed.

Lemma keeps_retrace_body fuel task : keeps I (retrace_body fuel task).
Proof.
  unfold retrace_body, retrace_packages, retrace_package.
  apply keeps_bind; [|intros _; apply keeps_ret].
  apply keeps_forM. intros [pkg locs]. apply keeps_forM. intros l.
  apply keeps_retrace_ssource.
Qed.

Lemma keeps_retrace fuel d task : I d → I (retrace fuel d task).1.
Proof.
  intros HI. unfold retrace.
  destruct (retrace_body fuel task (start d)) as [b res] eqn:E.
  pose proof (keeps_retrace_body fuel task _ _ _ E HI) as Hk.
  by destruct res.
Qed.

End Keeps.

(** * Objects are only added *)

Lemma lookup_alter_rel {A} (R : A → A → Prop) (g : A → A) i (l : list A) j x :
  l !! j = Some x → (∀ y, l !! i = Some y → R y (g y)) → R x x →
  ∃ x', alter g i l !! j = Some x' ∧ R x x'.
Proof.
  intros Hj Hg Hr. rewrite list_lookup_alter.
  destruct (decide (i = j)) as [->|Hne].
  - rewrite Hj. simpl. eauto.
  - eauto.
Qed.

Lemma lookup_app_rel {A} (R : A → A → Prop) (l k : list A) j x :
  l !! j = Some x → R x x → ∃ x', (l ++ k) !! j = Some x' ∧ R x x'.
Proof. intros Hj Hr. exists x. split; [by apply lookup_app_l_Some|done]. Qed.

Lemma grows_refl d : grows d d.
Proof.
  split; try done; intros i x Hx; exists x; (split; [done|]);
    repeat split; try done; lia.
Qed.

Lemma grows_trans d1 d2 d3 : grows d1 d2 → grows d2 d3 → grows d1 d3.
Proof.
  intros [F1 B1 T1 K1 R1 E1 S1 L1] [F2 B2 T2 K2 R2 E2 S2 L2]. split.
  - by etrans.
  - by etrans.
  - intros i th Hth. destruct (T1 _ _ Hth) as (th' & Hth' & ? & ? & ? & ?).
    destruct (T2 _ _ Hth') as (th'' & Hth'' & ? & ? & ? & ?).
    exists th''. split; [done|]. repeat split; try congruence. by etrans.
  - intros i b Hb. destruct (K1 _ _ Hb) as (b' & Hb' & ? & ?).
    destruct (K2 _ _ Hb') as (b'' & Hb'' & ? & ?).
    exists b''. split; [done|]. split; [congruence|]. by etrans.
  - intros i rp Hrp. destruct (R1 _ _ Hrp) as (rp' & Hrp' & ?).
    destruct (R2 _ _ Hrp') as (rp'' & Hrp'' & ?).
    exists rp''. split; [done|]. by etrans.
  - intros i e He. destruct (E1 _ _ He) as (e' & He' & ? & ?).
    destruct (E2 _ _ He') as (e'' & He'' & ? & ?).
    exists e''. split; [done|]. split; congruence.
  - intros i sym Hs. destruct (S1 _ _ Hs) as (s' & Hs' & ? & Hn).
    destruct (S2 _ _ Hs') as (s'' & Hs'' & ? & Hn').
    exists s''. split; [done|]. split; [congruence|]. auto.
  - intros i row Hr. destruct (L1 _ _ Hr) as (r' & Hr' & ? & ? & ? & ?).
    destruct (L2 _ _ Hr') as (r'' & Hr'' & ? & ? & ? & ?).
    exists r''. split; [done|]. repeat split; try congruence; [lia|].
    by etrans.
Qed.

(** The single updates *)

Ltac grows_same :=
  try done;
  try (intros gi gx gHx; exists gx; (split; [exact gHx|]);
       repeat split; try done; lia).

Ltac grows_table :=
  intros gi gx gHx;
  first
    [ exists gx; split; [by apply lookup_app_l_Some|]
    | rewrite list_lookup_alter;
      destruct (decide (_ = gi)) as [->|];
      [rewrite gHx; simpl; eexists; split; [done|]
      |exists gx; split; [done|]] ];
  simpl; repeat split; try done; try lia; try (by apply prefix_app_r).

Lemma grows_add_symbol sym d : grows d (add_symbol sym d).
Proof. split; simpl; grows_same. grows_table. Qed.

Lemma grows_add_symbolsource row d : grows d (add_symbolsource row d).
Proof. split; simpl; grows_same. grows_table. Qed.

Lemma grows_add_reportexe e d : grows d (add_reportexe e d).
Proof. split; simpl; grows_same. grows_table. Qed.

Lemma grows_attach N d : grows d (attach N d).
Proof.
  unfold attach. split; simpl; grows_same.
  - by apply prefix_app_r.
  - grows_table.
  - grows_table.
Qed.

Lemma grows_new_thread t d :
  grows d (set_backtraces
             (alter (bt_add_thread (length (threads d))) (th_backtrace t))
             (set_threads (λ l, l ++ [t]) d)).
Proof. split; simpl; grows_same; grows_table. Qed.

Lemma grows_new_backtrace bt d :
  grows d (set_reports
             (alter (rp_add_backtrace (length (backtraces d))) (bt_report bt))
             (set_backtraces (λ l, l ++ [bt]) d)).
Proof. split; simpl; grows_same; grows_table. Qed.

Lemma grows_new_bthash h d : grows d (set_bthashes (λ l, l ++ [h]) d).
Proof. split; simpl; grows_same. by apply prefix_app_r. Qed.

Lemma grows_errname e r d : grows d (set_reports (alter (rp_set_errname e) r) d).
Proof. split; simpl; grows_same. grows_table. Qed.

Lemma grows_count n r d :
  grows d (set_reportexes (alter (re_add_count n) r) d).
Proof. split; simpl; grows_same. grows_table. Qed.

Lemma grows_flush d : grows d (flush d).
Proof. split; simpl; grows_same. Qed.

Lemma grows_fail l d : grows d (set_symbolsources (alter ss_fail l) d).
Proof. split; simpl; grows_same. grows_table. Qed.

Lemma grows_resolve sy sf sl l d :
  grows d (set_symbolsources (alter (ss_resolve sy sf sl) l) d).
Proof. split; simpl; grows_same. grows_table. Qed.

Lemma grows_nice n i sym d :
  symbols d !! i = Some sym → sym_nice_name sym = None →
  grows d (set_symbols (alter (sym_set_nice_name n) i) d).
Proof.
  intros Hsym Hn. split; simpl; grows_same.
  intros j x Hx. rewrite list_lookup_alter.
  destruct (decide (i = j)) as [->|]; [|by exists x].
  rewrite Hx. simpl. eexists. split; [done|]. split; [done|].
  intros n' Hn'. congruence.
Qed.

Lemma same_reports_refl d : same_reports d d.
Proof. by repeat split. Qed.

(** * The references stay consistent *)

Lemma wf_add_symbolsource row d :
  ss_frames row = [] → wf_db d → wf_db (add_symbolsource row d).
Proof.
  intros Hrow (W1 & W2 & W3). split; [done|]. split; [done|]. simpl.
  intros l row' Hl f Hf. apply lookup_app_Some in Hl as [Hl|[_ Hl]].
  - by eapply W3.
  - apply list_lookup_singleton_Some in Hl as [_ <-]. rewrite Hrow in Hf.
    by apply elem_of_nil in Hf.
Qed.

Lemma wf_new_thread t d :
  th_frames t = [] → wf_db d →
  wf_db (set_backtraces
           (alter (bt_add_thread (length (threads d))) (th_backtrace t))
           (set_threads (λ l, l ++ [t]) d)).
Proof.
  intros Ht (W1 & W2 & W3). split; [|split]; simpl; [| |done].
  - intros f fr Hf. destruct (W1 _ _ Hf) as (th & Hth & Hin).
    exists th. split; [by apply lookup_app_l_Some|done].
  - intros i th Hi f Hf. apply lookup_app_Some in Hi as [Hi|[_ Hi]].
    + by eapply W2.
    + apply list_lookup_singleton_Some in Hi as [_ <-]. rewrite Ht in Hf.
      by apply elem_of_nil in Hf.
Qed.

Lemma wf_ss_alter g l d :
  (∀ row, ss_frames (g row) = ss_frames row) → wf_db d →
  wf_db (set_symbolsources (alter g l) d).
Proof.
  intros Hg (W1 & W2 & W3). split; [done|]. split; [done|]. simpl.
  intros i row Hi f Hf. rewrite list_lookup_alter in Hi.
  destruct (decide (l = i)) as [->|]; [|by eapply W3].
  destruct (symbolsources d !! i) as [row0|] eqn:Hrow0; [|done].
  injection Hi as <-. rewrite Hg in Hf. by eapply W3.
Qed.

Section Grows.
Context `{Externals}.

Lemma grows_step d0 d d' : grows d0 d → grows d d' → grows d0 d'.
Proof. apply grows_trans. Qed.

(** X14: [save_ureport] only adds to the session, whatever its outcome: every
    object is still there, in place; frames and hashes are unchanged,
    the collections of threads, backtraces, reports and locations are
    extended at the end, symbols and locations keep their identity. *)
Theorem save_ureport_grows (d : DB) (db_report : nat)
    (ureport : gmap string pyval) (do_flush : bool) (count : Z) :
  grows d (save_ureport d db_report ureport do_flush count).1.
Proof.
  apply (keeps_save_ureport (grows d)); try apply grows_refl;
    intros; (eapply grows_step; [eassumption|]);
    auto using grows_add_symbol, grows_add_symbolsource, grows_attach,
      grows_new_thread, grows_new_backtrace, grows_new_bthash,
      grows_add_reportexe, grows_errname, grows_count, grows_flush.
Qed.

(** X15: [retrace] only adds to the session too, whatever its outcome, and it
    leaves the reports, the executables, the backtraces and the hashes as
    they are and creates no thread. *)
Theorem retrace_grows (fuel : nat) (d : DB) (task : RetraceTask) :
  grows d (retrace fuel d task).1 ∧ same_reports d (retrace fuel d task).1.
Proof.
  split.
  - apply (keeps_retrace (grows d)); try apply grows_refl;
      intros; (eapply grows_step; [eassumption|]);
      eauto using grows_add_symbol, grows_add_symbolsource, grows_attach,
        grows_fail, grows_resolve, grows_nice.
  - apply (keeps_retrace (same_reports d)); try apply same_reports_refl;
      unfold same_reports, attach; simpl; intros; try done.
    by rewrite length_alter.
Qed.

(** X16: [save_ureport] keeps the references of the session consistent,
    whatever its outcome. *)
Theorem save_ureport_wf (d : DB) (db_report : nat)
    (ureport : gmap string pyval) (do_flush : bool) (count : Z) :
  wf_db d → wf_db (save_ureport d db_report ureport do_flush count).1.
Proof.
  apply (keeps_save_ureport wf_db); try done.
  - intros row d'. apply wf_add_symbolsource.
  - intros N d' Hth Hwf. by apply attach_wf.
  - intros t d'. apply wf_new_thread.
Qed.

(** X17: [retrace] keeps the references of the session consistent, whatever
    its outcome. *)
Theorem retrace_wf (fuel : nat) (d : DB) (task : RetraceTask) :
  wf_db d → wf_db (retrace fuel d task).1.
Proof.
  apply (keeps_retrace wf_db); try done.
  - intros row d'. apply wf_add_symbolsource.
  - intros N d' Hth Hwf. by apply attach_wf.
  - intros l d'. by apply wf_ss_alter.
  - intros sy sf sl l d'. by apply wf_ss_alter.
Qed.

End Grows.

(** * The outcomes of the retracer for a location *)

Lemma fail_count_ss_alter g i l row d :
  (∀ r, ss_retrace_fail_count (g r) = ss_retrace_fail_count r) →
  fail_count_of l row d →
  fail_count_of l row (set_symbolsources (alter g i) d).
Proof.
  intros Hg (row' & Hl & Hc). unfold fail_count_of. simpl.
  rewrite list_lookup_alter. destruct (decide (i = l)) as [->|].
  - rewrite Hl. simpl. eexists. split; [done|]. by rewrite Hg.
  - by exists row'.
Qed.

Lemma fail_count_add_symbolsource r l row d :
  fail_count_of l row d → fail_count_of l row (add_symbolsource r d).
Proof.
  intros (row' & Hl & Hc). exists row'. split; [|done]. simpl.
  by apply lookup_app_l_Some.
Qed.

Lemma fail_count_attach N l row d :
  fail_count_of l row d → fail_count_of l row (attach N d).
Proof.
  intros Hf. unfold attach.
  assert (∀ f d', fail_count_of l row d' →
                  fail_count_of l row (set_threads f d')) as Hth by done.
  assert (∀ f d', fail_count_of l row d' →
                  fail_count_of l row (set_frames f d')) as Hfr by done.
  apply Hth. by apply fail_count_ss_alter; [|apply Hfr].
Qed.

Section Outcome.
Context `{Externals}.

Lemma keeps_fail_count_unwind fuel n l0 l row np id results :
  keeps (fail_count_of l row) (unwind_inlined fuel n l0 np id results).
Proof.
  apply keeps_unwind_inlined.
  - by intros sym d.
  - intros r d _. apply fail_count_add_symbolsource.
  - intros N d _. apply fail_count_attach.
Qed.

Lemma triple_resolve_ssource l row np results :
  triple (fail_count_of l row) (resolve_ssource l np results)
    (λ _ d, fail_count_of l row d ∧ resolved l d) (λ _, True).
Proof.
  unfold resolve_ssource.
  apply (triple_bind _ (λ _, fail_count_of l row)).
  { eapply triple_weaken; [apply (keeps_lift (fail_count_of l row))| | |];
      simpl; auto. }
  intros [[[fn sf] sl] rest].
  apply (triple_bind _ (λ _, fail_count_of l row)).
  { eapply triple_weaken;
      [apply (keeps_get_or_create_symbol (fail_count_of l row))| | |];
      simpl; auto. }
  intros sy.
  apply (triple_bind _ (λ _, fail_count_of l row)).
  { eapply triple_weaken; [apply (keeps_deref (fail_count_of l row))| | |];
      simpl; auto. }
  intros sym.
  apply (triple_bind _ (λ _, fail_count_of l row)).
  { destruct (sym_nice_name sym).
    - eapply triple_weaken; [apply (keeps_ret (fail_count_of l row))| | |];
        simpl; auto.
    - by apply triple_modify. }
  intros _. apply triple_modify. intros d (row' & Hl & Hc). split.
  - by apply fail_count_ss_alter; [|exists row'].
  - unfold resolved. simpl. rewrite list_lookup_alter, decide_True, Hl by done.
    simpl. eexists. split; [done|]. simpl. by repeat split; eexists.
Qed.

Lemma count_failure_run l s :
  count_failure l s =
    (with_db (set_symbolsources (alter ss_fail l) (db s)) s, Ok tt).
Proof. done. Qed.

(** X18: A location that [retrace] has gone through without exception is
    either counted as failed, its failure count raised by 1 and nothing
    else changed in the session, or resolved: it has a symbol, a source
    path and a line number, and its failure count is as it was.  The
    failures are a package without unpacked path, an exception of
    [get_base_address], and an exception of [addr2line] or of forming the
    path of the debug files. *)
Theorem retrace_ssource_outcome fuel task pkg (l : nat) (s s' : Batch)
    (row : SymbolSource) :
  symbolsources (db s) !! l = Some row →
  retrace_ssource fuel task pkg l s = (s', Ok tt) →
  let failed :=
    match unpacked_path pkg with
    | None => true
    | Some dir =>
        let binary := path_join dir [str_tail (ss_path row)] in
        match get_base_address binary with
        | None => true
        | Some base =>
            match unpacked_path (debuginfo task) with
            | None => true
            | Some ddir =>
                bool_decide
                  (addr2line binary (base + ss_offset row)
                             (path_join ddir ["usr"; "lib"; "debug"]) = None)
            end
        end
    end in
  if failed
  then db s' = set_symbolsources (alter ss_fail l) (db s) ∧
       symbolsources (db s') !! l = Some (ss_fail row)
  else fail_count_of l row (db s') ∧ resolved l (db s').
Proof.
  intros Hrow. unfold retrace_ssource.
  unfold mbind at 1, M_bind at 1, deref at 1. rewrite Hrow.
  assert (∀ s1, count_failure l s = (s1, Ok tt) →
            db s1 = set_symbolsources (alter ss_fail l) (db s) ∧
            symbolsources (db s1) !! l = Some (ss_fail row)) as Hfail.
  { intros s1. rewrite count_failure_run. intros [= <-]. split; [done|].
    simpl. by rewrite list_lookup_alter, decide_True, Hrow. }
  destruct (unpacked_path pkg) as [dir|]; [|by apply Hfail].
  destruct (get_base_address _) as [base|]; [|by apply Hfail].
  unfold resolve_address.
  destruct (unpacked_path (debuginfo task)) as [ddir|]; [|by apply Hfail].
  destruct (addr2line _ _ _) as [resp|] eqn:Hresp; simpl;
    [|by apply Hfail].
  intros Hrun.
  assert (fail_count_of l row (db s)) as H0 by (by exists row).
  assert (triple (fail_count_of l row)
            (unwind_inlined fuel (length (reverse resp)) l
               (get_libname (ss_path row)) 0 (reverse resp)
             ≫= resolve_ssource l (get_libname (ss_path row)))
            (λ _ d, fail_count_of l row d ∧ resolved l d) (λ _, True)) as Ht.
  { apply (triple_bind _ (λ _, fail_count_of l row)).
    - eapply triple_weaken; [apply (keeps_fail_count_unwind _ _ _ l row)| | |];
        simpl; auto.
    - intros a. apply triple_resolve_ssource. }
  exact (Ht _ _ _ Hrun H0).
Qed.

Lemma retrace_ssource_empty fuel task pkg l s row dir base ddir :
  symbolsources (db s) !! l = Some row →
  unpacked_path pkg = Some dir →
  get_base_address (path_join dir [str_tail (ss_path row)]) = Some base →
  unpacked_path (debuginfo task) = Some ddir →
  addr2line (path_join dir [str_tail (ss_path row)]) (base + ss_offset row)
            (path_join ddir ["usr"; "lib"; "debug"]) = Some [] →
  retrace_ssource fuel task pkg l s = (s, Raise IndexError).
Proof.
  intros Hrow Hdir Hbase Hddir Hresp. unfold retrace_ssource.
  unfold mbind at 1, M_bind at 1, deref at 1. rewrite Hrow, Hdir, Hbase.
  unfold resolve_address. rewrite Hddir, Hresp. done.
Qed.

(** X19: An empty answer of the resolver is not a failure that is counted:
    [retrace] raises [IndexError] at that location, with the session as
    the locations before it left it; the locations and packages after it
    are not processed and no directory is removed. *)
Theorem retrace_empty_answer_aborts fuel task pkg (l : nat) pre post
    before after (d : DB) (s1 s2 : Batch) row dir base ddir :
  binary_packages task = before ++ (pkg, pre ++ l :: post) :: after →
  retrace_packages fuel task before (start d) = (s1, Ok tt) →
  forM (retrace_ssource fuel task pkg) pre s1 = (s2, Ok tt) →
  symbolsources (db s2) !! l = Some row →
  unpacked_path pkg = Some dir →
  get_base_address (path_join dir [str_tail (ss_path row)]) = Some base →
  unpacked_path (debuginfo task) = Some ddir →
  addr2line (path_join dir [str_tail (ss_path row)]) (base + ss_offset row)
            (path_join ddir ["usr"; "lib"; "debug"]) = Some [] →
  retrace fuel d task = (db s2, Raise IndexError).
Proof.
  intros Hbp Hbefore Hpre Hrow Hdir Hbase Hddir Hresp.
  unfold retrace, retrace_body. unfold mbind, M_bind.
  rewrite Hbp. unfold retrace_packages in *. rewrite forM_app, Hbefore.
  change (forM (retrace_package fuel task) ((pkg, pre ++ l :: post) :: after) s1)
    with ((_ ← retrace_package fuel task (pkg, pre ++ l :: post);
           forM (retrace_package fuel task) after) s1).
  unfold mbind, M_bind, retrace_package. simpl.
  rewrite forM_app, Hpre.
  change (forM (retrace_ssource fuel task pkg) (l :: post) s2)
    with ((_ ← retrace_ssource fuel task pkg l;
           forM (retrace_ssource fuel task pkg) post) s2).
  unfold mbind, M_bind.
  by rewrite (retrace_ssource_empty _ _ _ _ _ _ _ _ _ Hrow Hdir Hbase Hddir
                Hresp).
Qed.

End Outcome.

(** * The objects created for a stack trace *)

Lemma keeps_true {A} (I : DB → Prop) (m : M A) :
  keeps I m → triple I m (λ _, I) (λ _, True).
Proof. intros Hm. eapply triple_weaken; [exact Hm| | |]; auto. Qed.

Lemma th_add_frames_compose fs gs i (l : list ReportBtThread) :
  alter (th_add_frames gs) i (alter (th_add_frames fs) i l)
  = alter (th_add_frames (fs ++ gs)) i l.
Proof.
  rewrite list_alter_alter_eq. apply list_alter_ext; [|done].
  intros th _. unfold th_add_frames. simpl. by rewrite (assoc_L (++)).
Qed.

Lemma bt_add_threads_compose fs gs i (l : list ReportBacktrace) :
  alter (bt_add_threads gs) i (alter (bt_add_threads fs) i l)
  = alter (bt_add_threads (fs ++ gs)) i l.
Proof.
  rewrite list_alter_alter_eq. apply list_alter_ext; [|done].
  intros th _. unfold bt_add_threads. simpl. by rewrite (assoc_L (++)).
Qed.

Lemma alter_nil_frames i (l : list ReportBtThread) :
  alter (th_add_frames []) i l = l.
Proof.
  apply list_alter_id. intros []. unfold th_add_frames. simpl.
  by rewrite app_nil_r.
Qed.

Lemma alter_nil_threads i (l : list ReportBacktrace) :
  alter (bt_add_threads []) i l = l.
Proof.
  apply list_alter_id. intros []. unfold bt_add_threads. simpl.
  by rewrite app_nil_r.
Qed.

Section Created.
Context `{Externals}.

Lemma save_frame_spec t fid f s s' :
  save_frame t fid f s = (s', Ok tt) →
  ∃ loc,
    frames (db s') =
      frames (db s) ++ [{| fr_thread := t; fr_order := fid;
                           fr_symbolsource := loc; fr_inlined := false |}] ∧
    threads (db s') =
      alter (th_add_frames [length (frames (db s))]) t (threads (db s)) ∧
    backtraces (db s') = backtraces (db s) ∧ reports (db s') = reports (db s) ∧
    bthashes (db s') = bthashes (db s) ∧
    reportexes (db s') = reportexes (db s).
Proof.
  set (d0 := db s).
  set (K := same_structure d0).
  set (Q := λ d, ∃ loc,
    frames d = frames d0 ++ [{| fr_thread := t; fr_order := fid;
                                fr_symbolsource := loc;
                                fr_inlined := false |}] ∧
    threads d = alter (th_add_frames [length (frames d0)]) t (threads d0) ∧
    backtraces d = backtraces d0 ∧ reports d = reports d0 ∧
    bthashes d = bthashes d0 ∧ reportexes d = reportexes d0).
  assert (triple K (save_frame t fid f) (λ _, Q) (λ _, True)) as Ht.
  { unfold save_frame.
    apply (triple_bind _ (λ _, K)); [apply keeps_true, keeps_lift|].
    intros build_id.
    apply (triple_bind _ (λ _, K)); [apply keeps_true, keeps_lift|].
    intros fingerprint.
    apply (triple_bind _ (λ _, K)); [apply keeps_true, keeps_lift|].
    intros file.
    apply (triple_bind _ (λ _, K)); [apply keeps_true, keeps_lift|].
    intros offset.
    apply (triple_bind _ (λ _, K)); [apply keeps_true, keeps_lift|].
    intros has_name.
    apply (triple_bind _ (λ _, K)).
    { apply keeps_true. destruct has_name; [|apply keeps_ret].
      apply keeps_bind; [apply keeps_lift|]. intros name.
      apply keeps_bind; [|intros r; apply keeps_ret].
      apply keeps_get_or_create_symbol. by intros sym d. }
    intros db_symbol.
    apply (triple_bind _ (λ _, K)).
    { apply keeps_true, keeps_get_or_create_symbolsource. by intros row d. }
    intros loc.
    apply (triple_bind _ (λ _, Q)).
    - intros s1 s2 r. rewrite new_frame_run. intros [= <- <-].
      intros (Hf & Ht & Hb & Hr & Hh & He). exists loc. unfold attach. simpl.
      rewrite Hf, Ht. by repeat split.
    - intros _. by intros s1 s2 r [= <- <-]. }
  intros Hrun. apply (Ht _ _ _ Hrun). by repeat split.
Qed.

Lemma save_frames_spec t fs : ∀ fid s s',
  save_frames t fid fs s = (s', Ok tt) →
  ∃ locs, length locs = length fs ∧
    frames (db s') =
      frames (db s) ++
      imap (λ j loc, {| fr_thread := t;
                        fr_order := fid + 10 * (Z.of_nat j + 1);
                        fr_symbolsource := loc; fr_inlined := false |}) locs ∧
    threads (db s') =
      alter (th_add_frames (seq (length (frames (db s))) (length fs))) t
            (threads (db s)) ∧
    backtraces (db s') = backtraces (db s) ∧ reports (db s') = reports (db s) ∧
    bthashes (db s') = bthashes (db s) ∧
    reportexes (db s') = reportexes (db s).
Proof.
  induction fs as [|f fs IH]; intros fid s s'; simpl.
  - intros [= <-]. exists []. simpl. rewrite app_nil_r, alter_nil_frames. done.
  - unfold mbind, M_bind.
    destruct (save_frame t (fid + 10) f s) as [s1 [[]|e]] eqn:E1; [|done].
    intros Hrest. apply save_frame_spec in E1
      as (loc & Hf1 & Ht1 & Hb1 & Hr1 & Hh1 & He1).
    apply IH in Hrest as (locs & Hlen & Hf2 & Ht2 & Hb2 & Hr2 & Hh2 & He2).
    exists (loc :: locs). split; [simpl; by rewrite Hlen|].
    split.
    { rewrite Hf2, Hf1, <- (assoc_L (++)). f_equal. simpl. f_equal.
      apply imap_ext. intros j x _. simpl. f_equal. lia. }
    split.
    { rewrite Ht2, Ht1, Hf1, th_add_frames_compose, length_app. simpl.
      by rewrite Nat.add_1_r. }
    repeat split; congruence.
Qed.

Lemma save_threads_spec bt ths : ∀ tid s s',
  save_threads bt tid ths s = (s', Ok tt) →
  ∃ shapes, Forall2 shape_of ths shapes ∧
    threads (db s') =
      threads (db s) ++ saved_threads bt tid (length (frames (db s))) shapes ∧
    frames (db s') =
      frames (db s) ++ saved_frames (length (threads (db s))) shapes ∧
    backtraces (db s') =
      alter (bt_add_threads (seq (length (threads (db s))) (length ths))) bt
            (backtraces (db s)) ∧
    reports (db s') = reports (db s) ∧ bthashes (db s') = bthashes (db s) ∧
    reportexes (db s') = reportexes (db s).
Proof.
  induction ths as [|th ths IH]; intros tid s s'; simpl.
  - intros [= <-]. exists []. simpl.
    rewrite !app_nil_r, alter_nil_threads. by repeat split.
  - unfold mbind at 1, M_bind at 1, lift at 1.
    destruct (is_crash_thread th) as [crash|] eqn:Hcrash; [|done].
    unfold mbind at 1, M_bind at 1. rewrite new_thread_run.
    unfold mbind at 1, M_bind at 1, lift at 1.
    destruct (py_getitem th "frames") as [fsv|] eqn:Hfsv; simpl; [|done].
    destruct fsv as [| | | |fs|]; simpl; try done.
    unfold mbind at 1, M_bind at 1.
    destruct (save_frames _ 0 fs _) as [s1 [[]|e]] eqn:E1; [|done].
    intros Hrest.
    apply save_frames_spec in E1
      as (locs & Hlen & Hf1 & Ht1 & Hb1 & Hr1 & Hh1 & He1).
    simpl in Hf1, Ht1, Hb1, Hr1, Hh1, He1.
    apply IH in Hrest as (shapes & Hsh & Ht2 & Hf2 & Hb2 & Hr2 & Hh2 & He2).
    exists ((crash, locs) :: shapes). split.
    { constructor; [|done]. split; [done|]. exists fs. by rewrite Hfsv. }
    rewrite alter_snoc in Ht1.
    split.
    { rewrite Ht2, Ht1, Hf1, <- (assoc_L (++)). simpl. rewrite Hlen.
      unfold th_add_frames. simpl.
      rewrite length_app, length_imap, Hlen. done. }
    split.
    { rewrite Hf2, Hf1, Ht1, <- (assoc_L (++)), length_app. simpl.
      rewrite Nat.add_1_r. by f_equal. }
    split.
    { rewrite Hb2, Hb1, Ht1, length_app. simpl.
      rewrite Nat.add_1_r.
      replace (alter (bt_add_thread (length (threads (db s)))) bt
                     (backtraces (db s)))
        with (alter (bt_add_threads [length (threads (db s))]) bt
                    (backtraces (db s)))
        by (apply list_alter_ext; done).
      by rewrite bt_add_threads_compose. }
    repeat split; congruence.
Qed.

Lemma forM_new_bthash bt hs s :
  forM (λ h, new_bthash {| bh_backtrace := bt; bh_type := "NAMES";
                           bh_hash := h |}) hs s =
  (with_db (set_bthashes
              (λ l, l ++ ((λ h, {| bh_backtrace := bt; bh_type := "NAMES";
                                   bh_hash := h |}) <$> hs)) (db s)) s,
   Ok tt).
Proof.
  revert s. induction hs as [|h hs IH]; intros s; simpl.
  - unfold mret, M_ret, with_db, set_bthashes. simpl. rewrite app_nil_r.
    by destruct s as [[]].
  - unfold mbind, M_bind, new_bthash, modify_db. rewrite IH.
    unfold with_db, set_bthashes. simpl. by rewrite <- (assoc_L (++)).
Qed.

Lemma save_backtrace_spec r st hs s s' :
  save_backtrace r st hs s = (s', Ok tt) →
  ∃ ths shapes, st = PList ths ∧ Forall2 shape_of ths shapes ∧
    reports (db s') =
      alter (rp_add_backtrace (length (backtraces (db s)))) r (reports (db s)) ∧
    backtraces (db s') =
      backtraces (db s) ++
      [{| bt_report := r;
          bt_threads := seq (length (threads (db s))) (length ths) |}] ∧
    bthashes (db s') =
      bthashes (db s) ++
      ((λ h, {| bh_backtrace := length (backtraces (db s));
                bh_type := "NAMES"; bh_hash := h |}) <$> hs) ∧
    threads (db s') =
      threads (db s) ++
      saved_threads (length (backtraces (db s))) 0 (length (frames (db s)))
                    shapes ∧
    frames (db s') = frames (db s) ++ saved_frames (length (threads (db s))) shapes ∧
    reportexes (db s') = reportexes (db s).
Proof.
  unfold save_backtrace. unfold mbind at 1, M_bind at 1.
  rewrite new_backtrace_run. unfold mbind at 1, M_bind at 1.
  rewrite forM_new_bthash. unfold mbind at 1, M_bind at 1, lift at 1.
  destruct st as [| | | |ths|]; simpl; try done.
  intros (shapes & Hsh & Ht & Hf & Hb & Hr & Hh & He)%save_threads_spec.
  simpl in *. exists ths, shapes. split; [done|]. split; [done|].
  split; [done|]. split.
  { rewrite Hb, alter_snoc. done. }
  by repeat split.
Qed.

Lemma save_ureport_core_inv r (u : gmap string pyval) n s s' :
  save_ureport_core r u n s = (s', Ok tt) →
  ∃ signal st hs s0 rp,
    u !! "signal" = Some signal ∧ u !! "stacktrace" = Some st ∧
    _hash_backtrace st = Ok hs ∧ hs ≠ [] ∧
    frames (db s0) = frames (db s) ∧ threads (db s0) = threads (db s) ∧
    backtraces (db s0) = backtraces (db s) ∧
    bthashes (db s0) = bthashes (db s) ∧
    symbols (db s0) = symbols (db s) ∧
    symbolsources (db s0) = symbolsources (db s) ∧
    view s0 = view s ∧
    reports (db s0) = alter (rp_set_errname (py_str signal)) r (reports (db s)) ∧
    reports (db s0) !! r = Some rp ∧
    match rp_backtraces rp with
    | [] => save_backtrace r st hs s0
    | _ => (s0, Ok tt)
    end = (s', Ok tt).
Proof.
  unfold save_ureport_core.
  unfold mbind at 1, M_bind at 1, lift at 1.
  destruct (py_getitem (PDict u) "signal") as [signal|] eqn:Hsig; [|done].
  unfold mbind at 1, M_bind at 1, modify_db at 1.
  unfold mbind at 1, M_bind at 1, lift at 1.
  destruct (py_getitem (PDict u) "executable" ≫= as_str) as [exe|]; [|done].
  unfold mbind at 1, M_bind at 1, get_db at 1.
  unfold mbind at 1, M_bind at 1.
  destruct (get_reportexe _ r exe) as [e0|];
    [unfold mret at 1, M_ret at 1|rewrite new_reportexe_run];
    (unfold mbind at 1, M_bind at 1, modify_db at 1;
     unfold mbind at 1, M_bind at 1, lift at 1;
     destruct (py_getitem (PDict u) "stacktrace") as [st|] eqn:Hst; [|done];
     unfold mbind at 1, M_bind at 1, lift at 1;
     destruct (_hash_backtrace st) as [hs|] eqn:Hhs; [|done];
     unfold mbind at 1, M_bind at 1;
     destruct hs as [|h hs]; [done|];
     unfold mret at 1, M_ret at 1;
     unfold mbind at 1, M_bind at 1, deref at 1;
     match goal with
     | |- context [reports ?d !! r] =>
         destruct (reports d !! r) as [rp|] eqn:Hrp'
     end; [|done];
     intros Hrun;
     match type of Hrun with
     | match _ with [] => _ | _ => _ end ?st0 = _ =>
         exists signal, st, (h :: hs), st0, rp
     end;
     simpl in Hsig, Hst;
     (split; [by destruct (u !! "signal") as [?|]; simplify_eq|]);
     (split; [by destruct (u !! "stacktrace") as [?|]; simplify_eq|]);
     (split; [done|]); (split; [done|]);
     repeat (split; [reflexivity || exact Hrp'|]);
     by destruct (rp_backtraces rp)).
Qed.
(** X20: A successful [save_ureport] for a report without backtrace creates
    one backtrace of the report, one hash of type NAMES for each hash of
    [_hash_backtrace], one thread for each thread of the stack trace,
    numbered from 1 and flagged as the report flags it, and one frame for
    each frame, not inlined, of order 10, 20, ... within its thread, each
    in the collection of its thread in that order; and nothing else in
    these tables. *)
Theorem save_ureport_new_backtrace (d d' : DB) (db_report : nat)
    (u : gmap string pyval) (fl : bool) (count : Z) (rp : Report) :
  reports d !! db_report = Some rp →
  rp_backtraces rp = [] →
  save_ureport d db_report u fl count = (d', Ok tt) →
  ∃ signal ths hashes shapes,
    u !! "signal" = Some signal ∧
    u !! "stacktrace" = Some (PList ths) ∧
    _hash_backtrace (PList ths) = Ok hashes ∧
    Forall2 shape_of ths shapes ∧
    reports d' =
      <[db_report := {| rp_errname := Some (py_str signal);
                        rp_backtraces := [length (backtraces d)] |}]>
        (reports d) ∧
    backtraces d' =
      backtraces d ++
      [{| bt_report := db_report;
          bt_threads := seq (length (threads d)) (length ths) |}] ∧
    bthashes d' =
      bthashes d ++
      ((λ h, {| bh_backtrace := length (backtraces d); bh_type := "NAMES";
                bh_hash := h |}) <$> hashes) ∧
    threads d' =
      threads d ++
      saved_threads (length (backtraces d)) 0 (length (frames d)) shapes ∧
    frames d' = frames d ++ saved_frames (length (threads d)) shapes.
Proof.
  intros Hrp Hbt. unfold save_ureport, save_ureport_body.
  unfold mbind at 1, M_bind at 1.
  destruct (save_ureport_core db_report u count (start d)) as [s1 [[]|e]]
    eqn:Hcore; [|by intros [=]].
  intros Hfl.
  assert (reports d' = reports (db s1) ∧ backtraces d' = backtraces (db s1) ∧
          bthashes d' = bthashes (db s1) ∧ threads d' = threads (db s1) ∧
          frames d' = frames (db s1)) as (-> & -> & -> & -> & ->).
  { destruct fl; injection Hfl as <-; done. }
  clear Hfl.
  apply save_ureport_core_inv in Hcore
    as (signal & st & hs & s0 & rp0 & Hsig & Hst & Hhs & Hne & Hf0 & Ht0 & Hb0
        & Hh0 & _ & _ & _ & Hr0 & Hrp0 & Hrun).
  simpl in Hf0, Ht0, Hb0, Hh0, Hr0.
  assert (rp0 = rp_set_errname (py_str signal) rp) as ->.
  { rewrite Hr0, list_lookup_alter, decide_True, Hrp in Hrp0 by done.
    simpl in Hrp0. congruence. }
  simpl in Hrun. rewrite Hbt in Hrun.
  apply save_backtrace_spec in Hrun
    as (ths & shapes & -> & Hsh & Hr1 & Hb1 & Hh1 & Ht1 & Hf1 & _).
  exists signal, ths, hs, shapes.
  split; [done|]. split; [done|]. split; [done|]. split; [done|].
  rewrite Hf0, Ht0, Hb0, Hh0 in *.
  split.
  { rewrite Hr1, Hr0, list_alter_alter_eq.
    rewrite (alter_insert _ _ _ _ Hrp). unfold rp_add_backtrace. simpl.
    by rewrite Hbt. }
  done.
Qed.

End Created.

Section Twice.
Context `{Externals}.

Lemma save_ureport_core_has_backtrace r (u : gmap string pyval) n s s' rp :
  reports (db s) !! r = Some rp →
  save_ureport_core r u n s = (s', Ok tt) →
  ∃ rp', reports (db s') !! r = Some rp' ∧ rp_backtraces rp' ≠ [].
Proof.
  intros Hrp (signal & st & hs & s0 & rp0 & Hsig & Hst & Hhs & Hne & Hf0 & Ht0
              & Hb0 & Hh0 & _ & _ & _ & Hr0 & Hrp0 & Hrun)%save_ureport_core_inv.
  destruct (rp_backtraces rp0) as [|bt bts] eqn:Hbts.
  - apply save_backtrace_spec in Hrun
      as (ths & shapes & -> & Hsh & Hr1 & _).
    rewrite Hr1, list_lookup_alter, decide_True, Hrp0 by done. simpl.
    eexists. split; [done|]. simpl. rewrite Hbts. done.
  - injection Hrun as <-. exists rp0. split; [done|]. by rewrite Hbts.
Qed.

Lemma save_ureport_core_existing r (u : gmap string pyval) n s s' rp :
  reports (db s) !! r = Some rp → rp_backtraces rp ≠ [] →
  save_ureport_core r u n s = (s', Ok tt) →
  frames (db s') = frames (db s) ∧ threads (db s') = threads (db s) ∧
  backtraces (db s') = backtraces (db s) ∧
  bthashes (db s') = bthashes (db s) ∧ symbols (db s') = symbols (db s) ∧
  symbolsources (db s') = symbolsources (db s).
Proof.
  intros Hrp Hbt (signal & st & hs & s0 & rp0 & Hsig & Hst & Hhs & Hne & Hf0
                  & Ht0 & Hb0 & Hh0 & Hs0 & Hl0 & _ & Hr0 & Hrp0
                  & Hrun)%save_ureport_core_inv.
  assert (rp0 = rp_set_errname (py_str signal) rp) as ->.
  { rewrite Hr0, list_lookup_alter, decide_True, Hrp in Hrp0 by done.
    simpl in Hrp0. congruence. }
  simpl in Hrun. destruct (rp_backtraces rp); [done|].
  by injection Hrun as <-.
Qed.

Lemma save_ureport_run d r u fl n d' :
  save_ureport d r u fl n = (d', Ok tt) →
  ∃ s1, save_ureport_core r u n (start d) = (s1, Ok tt) ∧
    frames d' = frames (db s1) ∧ threads d' = threads (db s1) ∧
    backtraces d' = backtraces (db s1) ∧ bthashes d' = bthashes (db s1) ∧
    symbols d' = symbols (db s1) ∧
    symbolsources d' = symbolsources (db s1) ∧ reports d' = reports (db s1).
Proof.
  unfold save_ureport, save_ureport_body. unfold mbind at 1, M_bind at 1.
  destruct (save_ureport_core r u n (start d)) as [s1 [[]|e]];
    [|by intros [=]].
  intros Hfl. exists s1. split; [done|].
  destruct fl; injection Hfl as <-; done.
Qed.

(** X21: Saving a report a second time stores its stack trace once: after a
    successful [save_ureport] the report has a backtrace, and a further
    successful [save_ureport] for it leaves the backtraces, the hashes,
    the threads, the frames, the symbols and the locations as the first
    left them. *)
Theorem save_ureport_twice (d d1 d2 : DB) (db_report : nat)
    (u1 u2 : gmap string pyval) (fl1 fl2 : bool) (n1 n2 : Z) (rp : Report) :
  reports d !! db_report = Some rp →
  save_ureport d db_report u1 fl1 n1 = (d1, Ok tt) →
  save_ureport d1 db_report u2 fl2 n2 = (d2, Ok tt) →
  (∃ rp1, reports d1 !! db_report = Some rp1 ∧ rp_backtraces rp1 ≠ []) ∧
  backtraces d2 = backtraces d1 ∧ bthashes d2 = bthashes d1 ∧
  threads d2 = threads d1 ∧ frames d2 = frames d1 ∧
  symbols d2 = symbols d1 ∧ symbolsources d2 = symbolsources d1.
Proof.
  intros Hrp (s1 & Hcore1 & _ & _ & _ & _ & _ & _ & Hr1)%save_ureport_run
             (s2 & Hcore2 & Hf2 & Ht2 & Hb2 & Hh2 & Hs2 & Hl2
              & _)%save_ureport_run.
  destruct (save_ureport_core_has_backtrace _ _ _ (start d) _ _ Hrp Hcore1)
    as (rp1 & Hrp1 & Hne).
  rewrite <- Hr1 in Hrp1. split; [by exists rp1|].
  destruct (save_ureport_core_existing _ _ _ (start d1) _ _ Hrp1 Hne Hcore2)
    as (? & ? & ? & ? & ? & ?).
  simpl in *. repeat split; congruence.
Qed.

End Twice.

(** * Validated reports can be saved *)

Lemma total_bind {A B} (P : DB → Prop) (m : M A) (k : A → M B) :
  total_on P m → keeps P m → (∀ a, total_on P (k a)) → total_on P (m ≫= k).
Proof.
  intros Hm Hk Hka s HP. destruct (Hm s HP) as (s1 & a & Hrun).
  pose proof (Hk _ _ _ Hrun HP) as HP1. simpl in HP1.
  destruct (Hka a s1 HP1) as (s2 & b & Hrun2).
  exists s2, b. unfold mbind, M_bind. by rewrite Hrun.
Qed.

Lemma total_ret {A} P (a : A) : total_on P (mret a).
Proof. intros s _. by eexists _, _. Qed.

Lemma total_lift {A} P (r : result A) a : r = Ok a → total_on P (lift r).
Proof. intros -> s _. by eexists _, _. Qed.

Lemma total_bind_lift {A B} P (r : result A) (a : A) (k : A → M B) :
  r = Ok a → total_on P (k a) → total_on P (lift r ≫= k).
Proof. intros -> Hk s HP. by apply Hk. Qed.

Lemma total_modify P f : total_on P (modify_db f).
Proof. intros s _. by eexists _, _. Qed.

Lemma total_get_db P : total_on P get_db.
Proof. intros s _. by eexists _, _. Qed.

Lemma keeps_any {A} (m : M A) : keeps (λ _, True) m.
Proof. intros s s' r _ _. by destruct r. Qed.

Lemma total_weaken {A} (P : DB → Prop) (m : M A) :
  total_on (λ _, True) m → total_on P m.
Proof. intros Hm s _. by apply Hm. Qed.

Lemma total_bind_any {A B} (m : M A) (k : A → M B) :
  total_on (λ _, True) m → (∀ a, total_on (λ _, True) (k a)) →
  total_on (λ _, True) (m ≫= k).
Proof. intros Hm Hk. apply total_bind; [done|apply keeps_any|done]. Qed.

Lemma total_forM {A} (f : A → M unit) l :
  (∀ x, total_on (λ _, True) (f x)) → total_on (λ _, True) (forM f l).
Proof.
  intros Hf. induction l as [|x l IH]; simpl; [apply total_ret|].
  apply total_bind_any; [apply Hf|]. by intros _.
Qed.

Section Succeeds.
Context `{Externals}.

Lemma total_get_or_create_symbol n p :
  total_on (λ _, True) (get_or_create_symbol n p).
Proof.
  intros s _. destruct (get_or_create_symbol_cases n p s) as (s' & r & Hr & _).
  by exists s', r.
Qed.

Lemma total_get_or_create_symbolsource sym b p o f :
  total_on (λ _, True) (get_or_create_symbolsource sym b p o f).
Proof.
  intros s _. unfold get_or_create_symbolsource.
  unfold mbind at 1, M_bind at 1, get_db at 1.
  destruct (get_ssource_by_bpo (db s) b p o); [by eexists _, _|].
  cbv beta. destruct (new_symbolsources s !! (b, p, o)); by eexists _, _.
Qed.

Lemma opt_str_get d k :
  opt_str d k → ∃ o, get_or_none k (PDict d) ≫= as_opt_str = Ok o.
Proof.
  unfold get_or_none. simpl. intros [Hn|[s Hs]].
  - rewrite Hn. simpl. eauto.
  - rewrite Hs. simpl. eauto.
Qed.

Lemma total_save_frame t fid f :
  typed_frame f → total_on (λ _, True) (save_frame t fid f).
Proof.
  intros (d & z & s & -> & Hoff & Hfile & Hbid & Hfp & Hfn).
  unfold save_frame.
  destruct (opt_str_get d "build_id" Hbid) as [b Hb].
  destruct (opt_str_get d "fingerprint" Hfp) as [fp Hfpv].
  eapply total_bind_lift; [exact Hb|].
  eapply total_bind_lift; [exact Hfpv|].
  eapply total_bind_lift; [simpl; by rewrite Hfile|].
  eapply total_bind_lift; [simpl; by rewrite Hoff|].
  eapply total_bind_lift; [done|].
  apply total_bind_any.
  { destruct Hfn as [Hn|[fn Hn]]; rewrite Hn.
    - rewrite bool_decide_eq_false_2 by (by intros [? ?]). apply total_ret.
    - rewrite bool_decide_eq_true_2 by (by eexists).
      eapply total_bind_lift; [simpl; by rewrite Hn|].
      apply total_bind_any; [apply total_get_or_create_symbol|].
      intros r. apply total_ret. }
  intros db_symbol.
  apply total_bind_any; [apply total_get_or_create_symbolsource|].
  intros loc. apply total_bind_any.
  { intros s0 _. rewrite new_frame_run. by eexists _, _. }
  intros _. apply total_ret.
Qed.

Lemma total_save_frames t fid fs :
  Forall typed_frame fs → total_on (λ _, True) (save_frames t fid fs).
Proof.
  intros Hfs. revert fid. induction Hfs as [|f fs Hf _ IH]; intros fid; simpl;
    [apply total_ret|].
  apply total_bind_any; [by apply total_save_frame|]. intros _. apply IH.
Qed.

Lemma total_save_threads bt tid ths :
  Forall typed_thread ths → total_on (λ _, True) (save_threads bt tid ths).
Proof.
  intros Hths. revert tid.
  induction Hths as [|th ths Hth _ IH]; intros tid; simpl; [apply total_ret|].
  pose proof Hth as (t & fs & -> & Hfs & _ & Hall & _).
  rewrite (is_crash_thread_dict (PDict t)) by (by eexists).
  eapply total_bind_lift; [done|].
  apply total_bind_any.
  { intros s0 _. rewrite new_thread_run. by eexists _, _. }
  intros db_thread.
  eapply total_bind_lift; [simpl; by rewrite Hfs|].
  apply total_bind_any; [by apply total_save_frames|]. intros _. apply IH.
Qed.

Lemma total_save_backtrace r ths hs :
  Forall typed_thread ths →
  total_on (λ _, True) (save_backtrace r (PList ths) hs).
Proof.
  intros Hths. unfold save_backtrace.
  apply total_bind_any.
  { intros s0 _. rewrite new_backtrace_run. by eexists _, _. }
  intros bt. apply total_bind_any.
  { apply total_forM. intros h. apply total_modify. }
  intros _. eapply total_bind_lift; [done|]. by apply total_save_threads.
Qed.

Lemma typed_thread_valid th : typed_thread th → valid_thread th.
Proof.
  intros (t & fs & -> & Hfs & Hne & Hall & Hc). exists t, fs.
  repeat (split; [done|]). split; [|done].
  eapply Forall_impl; [exact Hall|].
  intros f (d & z & s & -> & Ho & Hf & Hb & _). exists d, z, s. by repeat split.
Qed.

Lemma hash_backtrace_typed ths :
  Forall typed_thread ths →
  ∃ h hs, _hash_backtrace (PList ths) = Ok (h :: hs).
Proof.
  intros Hty.
  assert (Forall valid_thread ths) as Hths.
  { eapply Forall_impl; [exact Hty|]. apply typed_thread_valid. }
  destruct (hash_backtrace_key_valid ths "function_name" Hths) as [o1 H1].
  destruct (hash_backtrace_key_valid ths "fingerprint" Hths) as [o2 H2].
  destruct (hash_backtrace_offset_usable ths Hths) as [h H3].
  assert (_hash_backtrace (PList ths) = Ok (omap id [o1; o2; Some h])) as ->.
  { unfold _hash_backtrace. simpl. rewrite H1. simpl. rewrite H2. simpl.
    rewrite H3. done. }
  destruct o1, o2; simpl; eauto.
Qed.

Lemma total_save_ureport_core r u n :
  typed_report u →
  total_on (λ d, is_Some (reports d !! r)) (save_ureport_core r u n).
Proof.
  intros (z & c & e & ths & Hsig & _ & Hexe & Hst & _ & Hths).
  destruct (hash_backtrace_typed ths Hths) as (h & hs & Hh).
  unfold save_ureport_core.
  eapply total_bind_lift; [simpl; by rewrite Hsig|].
  apply total_bind; [apply total_modify| |].
  { apply keeps_modify. intros d. simpl. apply is_Some_alter. }
  intros _. eapply total_bind_lift; [simpl; by rewrite Hexe|].
  apply total_bind; [apply total_get_db|apply keeps_get_db|]. intros d.
  apply total_bind.
  { destruct (get_reportexe d r e); [apply total_ret|].
    intros s0 _. rewrite new_reportexe_run. by eexists _, _. }
  { destruct (get_reportexe d r e); [apply keeps_ret|].
    intros s0 s1 r0. rewrite new_reportexe_run. by intros [= <- <-]. }
  intros e0. apply total_bind; [apply total_modify| |].
  { by apply keeps_modify. }
  intros _. eapply total_bind_lift; [simpl; by rewrite Hst|].
  eapply total_bind_lift; [exact Hh|].
  apply total_bind; [apply total_ret|apply keeps_ret|]. intros _.
  intros s0 [rp Hrp]. unfold mbind, M_bind, deref. rewrite Hrp.
  destruct (rp_backtraces rp); [|by eexists _, _].
  by apply total_save_backtrace.
Qed.

(** X22: A validated report can be saved: for a report of the session,
    [save_ureport] raises nothing on it, whatever the count and with or
    without flush. *)
Theorem save_ureport_validated_succeeds (u u' : gmap string pyval) (b : bool)
    (d : DB) (db_report : nat) (rp : Report) (fl : bool) (count : Z) :
  validate_ureport u = (u', Ok b) →
  reports d !! db_report = Some rp →
  ∃ d', save_ureport d db_report u' fl count = (d', Ok tt).
Proof.
  intros Hty%validate_ureport_typed Hrp.
  destruct (total_save_ureport_core db_report u' count Hty (start d))
    as (s1 & [] & Hcore); [by eexists|].
  unfold save_ureport, save_ureport_body. unfold mbind, M_bind.
  rewrite Hcore. destruct fl; by eexists.
Qed.

End Succeeds.

(** * Identities stay unique across batches *)

Lemma NoDup_grown {K} (old new : list K) (fl : nat) :
  NoDup old → fl = length old →
  (∀ i k, old !! i = Some k → new !! i = Some k) →
  (∀ i j k, (length old ≤ i)%nat → new !! i = Some k → new !! j = Some k →
     (length old ≤ j ∨ j < fl)%nat → i = j) →
  NoDup new.
Proof.
  intros Hold -> Hpre Hfresh. apply NoDup_alt. intros i j k Hi Hj.
  destruct (decide (length old ≤ i)%nat) as [Hil|Hil];
    destruct (decide (length old ≤ j)%nat) as [Hjl|Hjl].
  - eapply Hfresh; eauto.
  - eapply Hfresh; eauto. right. lia.
  - symmetry. eapply Hfresh; eauto. right. lia.
  - destruct (lookup_lt_is_Some_2 old i) as [ki Hki]; [lia|].
    destruct (lookup_lt_is_Some_2 old j) as [kj Hkj]; [lia|].
    pose proof (Hpre _ _ Hki). pose proof (Hpre _ _ Hkj).
    eapply NoDup_lookup; [exact Hold|exact Hki|]. congruence.
Qed.

Lemma grows_sym_keys d d' i k :
  grows d d' → sym_keys d !! i = Some k → sym_keys d' !! i = Some k.
Proof.
  intros Hg. unfold sym_keys. rewrite !list_lookup_fmap.
  destruct (symbols d !! i) as [sym|] eqn:Hs; [|done]. intros [= <-].
  destruct (g_symbols _ _ Hg _ _ Hs) as (sym' & -> & Hk & _). simpl.
  by rewrite Hk.
Qed.

Lemma grows_ss_keys d d' i k :
  grows d d' → ss_keys d !! i = Some k → ss_keys d' !! i = Some k.
Proof.
  intros Hg. unfold ss_keys. rewrite !list_lookup_fmap.
  destruct (symbolsources d !! i) as [row|] eqn:Hs; [|done]. intros [= <-].
  destruct (g_symbolsources _ _ Hg _ _ Hs) as (row' & -> & Hk & _). simpl.
  by rewrite Hk.
Qed.

Lemma unique_grown d d' :
  pending_symbols d = 0%nat → pending_symbolsources d = 0%nat →
  NoDup (sym_keys d) → NoDup (ss_keys d) →
  grows d d' → no_fresh_duplicates d d' →
  NoDup (sym_keys d') ∧ NoDup (ss_keys d').
Proof.
  intros Hps Hpl Hsym Hss Hg (Hfs & Hfl & _). split.
  - apply (NoDup_grown (sym_keys d) _ (flushed_symbols d)); [done| | |].
    + unfold flushed_symbols, sym_keys. rewrite length_fmap. lia.
    + intros i k. by apply grows_sym_keys.
    + intros i j k Hi Hik Hjk Hj. unfold sym_keys in Hi, Hj.
      rewrite length_fmap in Hi, Hj. eapply Hfs; eauto.
  - apply (NoDup_grown (ss_keys d) _ (flushed_symbolsources d)); [done| | |].
    + unfold flushed_symbolsources, ss_keys. rewrite length_fmap. lia.
    + intros i k. by apply grows_ss_keys.
    + intros i j k Hi Hik Hjk Hj. unfold ss_keys in Hi, Hj.
      rewrite length_fmap in Hi, Hj. eapply Hfl; eauto.
Qed.

Section Unique.
Context `{Externals}.

(** X23: When nothing is pending and no two symbols and no two locations of
    the session have one identity, that is so after [save_ureport] too,
    whatever its outcome: a location or symbol is created only when the
    database has none with its identity. *)
Theorem save_ureport_keeps_unique (d : DB) (db_report : nat)
    (ureport : gmap string pyval) (do_flush : bool) (count : Z) :
  pending_symbols d = 0%nat → pending_symbolsources d = 0%nat →
  NoDup (sym_keys d) → NoDup (ss_keys d) →
  NoDup (sym_keys (save_ureport d db_report ureport do_flush count).1) ∧
  NoDup (ss_keys (save_ureport d db_report ureport do_flush count).1).
Proof.
  intros Hps Hpl Hsym Hss. apply (unique_grown d); try done.
  - apply (keeps_save_ureport (grows d)); try apply grows_refl;
      intros; (eapply grows_trans; [eassumption|]);
      auto using grows_add_symbol, grows_add_symbolsource, grows_attach,
        grows_new_thread, grows_new_backtrace, grows_new_bthash,
        grows_add_reportexe, grows_errname, grows_count, grows_flush.
  - unfold save_ureport, save_ureport_body. unfold mbind, M_bind.
    destruct (save_ureport_core db_report ureport count (start d))
      as [s1 r1] eqn:Hcore.
    assert (no_fresh_duplicates d (db s1)) as Hs1.
    { apply batch_inv_no_fresh_duplicates.
      eapply hoare_save_ureport_core; [exact Hcore|apply batch_inv_start|done]. }
    destruct r1 as [[]|e]; [|done]. by destruct do_flush.
Qed.

(** X24: When nothing is pending and no two symbols and no two locations of
    the session have one identity, that is so after [retrace] too,
    whatever its outcome. *)
Theorem retrace_keeps_unique (fuel : nat) (d : DB) (task : RetraceTask) :
  pending_symbols d = 0%nat → pending_symbolsources d = 0%nat →
  NoDup (sym_keys d) → NoDup (ss_keys d) →
  NoDup (sym_keys (retrace fuel d task).1) ∧
  NoDup (ss_keys (retrace fuel d task).1).
Proof.
  intros Hps Hpl Hsym Hss. apply (unique_grown d); try done.
  - apply (keeps_retrace (grows d)); try apply grows_refl;
      intros; (eapply grows_trans; [eassumption|]);
      eauto using grows_add_symbol, grows_add_symbolsource, grows_attach,
        grows_fail, grows_resolve, grows_nice.
  - unfold retrace.
    destruct (retrace_body fuel task (start d)) as [s1 r1] eqn:Hbody.
    simpl. apply batch_inv_no_fresh_duplicates.
    eapply hoare_retrace_body; [exact Hbody|apply batch_inv_start|done].
Qed.

End Unique.

(** * A resolver answer of one entry *)

Section SingleEntry.
Context `{Externals}.

Lemma fill_nice_name_run n r sym s :
  symbols (db s) !! r = Some sym →
  (sym ← deref symbols r;
   match sym_nice_name sym with
   | None => modify_db (set_symbols (alter (sym_set_nice_name n) r))
   | Some _ => mret tt
   end) s =
  (with_db (set_symbols (alter (sym_fill_nice_name n) r) (db s)) s, Ok tt).
Proof.
  intros Hsym. unfold mbind, M_bind, deref. rewrite Hsym.
  assert (alter (sym_fill_nice_name n) r (symbols (db s))
          = match sym_nice_name sym with
            | None => alter (sym_set_nice_name n) r (symbols (db s))
            | Some _ => symbols (db s)
            end) as Halt.
  { destruct (sym_nice_name sym) eqn:Hn.
    - apply list_eq. intros i. rewrite list_lookup_alter.
      destruct (decide (r = i)) as [<-|]; [|done].
      rewrite Hsym. simpl. unfold sym_fill_nice_name. by rewrite Hn.
    - apply list_eq. intros i. rewrite !list_lookup_alter.
      destruct (decide (r = i)) as [<-|]; [|done].
      rewrite Hsym. simpl. unfold sym_fill_nice_name. by rewrite Hn. }
  unfold with_db, set_symbols. simpl. rewrite Halt.
  destruct (sym_nice_name sym); unfold modify_db, mret, M_ret, set_symbols;
    simpl; [|done].
  by destruct s as [[]].
Qed.

Lemma resolve_ssource_exact l np fn sf sl row s :
  cache_ok s →
  symbolsources (db s) !! l = Some row →
  ∃ s' sy,
    resolve_ssource l np [(fn, sf, sl)] s = (s', Ok tt) ∧
    symbolsources (db s') =
      <[l := ss_resolve sy sf sl row]> (symbolsources (db s)) ∧
    frames (db s') = frames (db s) ∧ threads (db s') = threads (db s) ∧
    new_symbolsources s' = new_symbolsources s ∧
    match get_symbol_by_name_path (db s) fn np,
          new_symbols s !! (fn, np) with
    | Some r, _ | None, Some r =>
        sy = r ∧ sym_keys (db s) !! r = Some (fn, np) ∧
        new_symbols s' = new_symbols s ∧
        symbols (db s') =
          alter (sym_fill_nice_name (demangle fn)) r (symbols (db s))
    | None, None =>
        sy = length (symbols (db s)) ∧
        new_symbols s' = <[(fn, np) := sy]> (new_symbols s) ∧
        symbols (db s') =
          symbols (db s) ++
          [{| sym_name := fn; sym_normalized_path := np;
              sym_nice_name := Some (demangle fn) |}]
    end.
Proof.
  intros Hc Hrow. unfold resolve_ssource.
  unfold mbind at 1, M_bind at 1, lift at 1.
  change (list_pop [(fn, sf, sl)]) with (Ok (A:=_ * list (string * string * Z))
                                           ((fn, sf, sl), [])).
  cbn beta iota.
  assert (∀ r, canon_sym (view s) (fn, np) = Some r →
            ∃ s', (sym ← deref symbols r;
                   _ ← match sym_nice_name sym with
                       | None =>
                           modify_db (set_symbols
                                        (alter (sym_set_nice_name (demangle fn))
                                               r))
                       | Some _ => mret tt
                       end;
                   modify_db (set_symbolsources
                                (alter (ss_resolve r sf sl) l))) s
                  = (s', Ok tt) ∧
              symbolsources (db s') =
                <[l := ss_resolve r sf sl row]> (symbolsources (db s)) ∧
              frames (db s') = frames (db s) ∧
              threads (db s') = threads (db s) ∧
              new_symbolsources s' = new_symbolsources s ∧
              sym_keys (db s) !! r = Some (fn, np) ∧
              new_symbols s' = new_symbols s ∧
              symbols (db s') =
                alter (sym_fill_nice_name (demangle fn)) r (symbols (db s)))
    as Hexisting.
  { intros r Hcanon.
    pose proof (cache_ok_canon_sym _ _ _ Hc Hcanon) as Hkey.
    assert (∃ sym, symbols (db s) !! r = Some sym) as [sym Hsym].
    { unfold sym_keys in Hkey. rewrite list_lookup_fmap in Hkey.
      destruct (symbols (db s) !! r); [by eexists|done]. }
    pose proof (fill_nice_name_run (demangle fn) r sym s Hsym) as Hfill.
    unfold mbind at 1 in Hfill. unfold M_bind at 1 in Hfill.
    unfold mbind at 1, M_bind at 1.
    destruct (deref symbols r s) as [s0 [sym0|e]] eqn:Hd.
    - unfold mbind at 1, M_bind at 1. rewrite Hfill.
      eexists. split; [reflexivity|]. simpl.
      split; [by apply alter_insert|]. done.
    - unfold deref in Hd. rewrite Hsym in Hd. done. }
  pose proof (get_symbol_view s fn np) as Hview.
  destruct (get_or_create_symbol_cases fn np s)
    as (s1 & sy & Hrun & [[-> Hcanon]|(Hcanon & -> & ->)]);
    unfold mbind at 1, M_bind at 1; rewrite Hrun.
  - destruct (Hexisting sy Hcanon) as (s' & Hrun' & Hrest).
    exists s', sy. split; [exact Hrun'|].
    destruct Hrest as (? & ? & ? & ? & ? & ? & ?).
    unfold canon_sym in Hcanon. rewrite <- Hview in Hcanon.
    destruct (get_symbol_by_name_path (db s) fn np) as [r|].
    + injection Hcanon as ->. by repeat split.
    + simpl in Hcanon. rewrite Hcanon. by repeat split.
  - unfold canon_sym in Hcanon. rewrite <- Hview in Hcanon.
    destruct (get_symbol_by_name_path (db s) fn np) as [r|]; [done|].
    simpl in Hcanon. rewrite Hcanon.
    unfold mbind, M_bind, modify_db, mret, M_ret, deref. simpl.
    rewrite lookup_app_r, Nat.sub_diag by done. simpl.
    eexists _, _. split; [reflexivity|]. simpl.
    split; [by apply alter_insert|].
    repeat (split; [done|]). by rewrite alter_snoc.
Qed.

(** X25: A resolver answer of one entry, a call that is not inlined: [retrace]
    writes the symbol, the source file and the line of the entry to the
    location and creates no frame, no thread and no location.  The symbol
    is the one of the database with the name and the normalized path,
    else the one pending in the batch, and its nice name is set to the
    demangled name when it has none; only when there is neither is a
    symbol created, with the demangled name as nice name, and noted in
    the batch.  No bound on the loops is needed. *)
Theorem retrace_single_entry fuel task pkg (l : nat) (s : Batch)
    row dir base ddir fn sf sl :
  cache_ok s →
  symbolsources (db s) !! l = Some row →
  unpacked_path pkg = Some dir →
  get_base_address (path_join dir [str_tail (ss_path row)]) = Some base →
  unpacked_path (debuginfo task) = Some ddir →
  addr2line (path_join dir [str_tail (ss_path row)]) (base + ss_offset row)
            (path_join ddir ["usr"; "lib"; "debug"]) = Some [(fn, sf, sl)] →
  ∃ s' sy,
    retrace_ssource fuel task pkg l s = (s', Ok tt) ∧
    symbolsources (db s') =
      <[l := ss_resolve sy sf sl row]> (symbolsources (db s)) ∧
    frames (db s') = frames (db s) ∧ threads (db s') = threads (db s) ∧
    new_symbolsources s' = new_symbolsources s ∧
    match get_symbol_by_name_path (db s) fn (get_libname (ss_path row)),
          new_symbols s !! (fn, get_libname (ss_path row)) with
    | Some r, _ | None, Some r =>
        sy = r ∧
        sym_keys (db s) !! r = Some (fn, get_libname (ss_path row)) ∧
        new_symbols s' = new_symbols s ∧
        symbols (db s') =
          alter (sym_fill_nice_name (demangle fn)) r (symbols (db s))
    | None, None =>
        sy = length (symbols (db s)) ∧
        new_symbols s' =
          <[(fn, get_libname (ss_path row)) := sy]> (new_symbols s) ∧
        symbols (db s') =
          symbols (db s) ++
          [{| sym_name := fn;
              sym_normalized_path := get_libname (ss_path row);
              sym_nice_name := Some (demangle fn) |}]
    end.
Proof.
  intros Hc Hrow Hdir Hbase Hddir Hresp.
  destruct (resolve_ssource_exact l (get_libname (ss_path row)) fn sf sl row s
              Hc Hrow) as (s' & sy & Hrun & Hrest).
  exists s', sy. split; [|exact Hrest].
  unfold retrace_ssource.
  unfold mbind at 1, M_bind at 1, deref at 1. rewrite Hrow, Hdir, Hbase.
  unfold resolve_address. rewrite Hddir, Hresp. simpl fmap.
  change (reverse [(fn, sf, sl)]) with [(fn, sf, sl)].
  destruct fuel; exact Hrun.
Qed.

End SingleEntry.

(** * A saved stack trace, read back for comparison *)

Lemma hoare_lift_val {A} I (P : View → Prop) (r : result A) :
  hoare I P (lift r) (λ a v, r = Ok a ∧ P v).
Proof. intros s s' r' [= <- <-] HI HP. split; [done|]. by destruct r. Qed.

Lemma hoare_pure {A} I (φ : Prop) (P : View → Prop) (m : M A) Q :
  (φ → hoare I P m Q) → hoare I (λ v, φ ∧ P v) m Q.
Proof. intros Hm s s' r Hrun HI [Hφ HP]. by eapply Hm. Qed.

Lemma hoare_ex {A X} I (P : X → View → Prop) (m : M A) Q :
  (∀ x, hoare I (P x) m Q) → hoare I (λ v, ∃ x, P x v) m Q.
Proof. intros Hm s s' r Hrun HI [x HP]. by eapply Hm. Qed.

Lemma view_keyed_refl v : view_keyed v [] v.
Proof. exists []. by rewrite app_nil_r. Qed.

Lemma view_keyed_add_sym v0 ks k v :
  view_keyed v0 ks v → view_keyed v0 ks (view_add_sym k v).
Proof. done. Qed.

Lemma view_keyed_add_ss v0 ks k v :
  view_keyed v0 ks v → view_keyed v0 ks (view_add_ss k v).
Proof.
  intros (locs & Hf & Hk). exists locs. split; [done|]. simpl.
  eapply Forall2_impl; [exact Hk|]. intros k' loc Hl. simpl in Hl.
  by apply lookup_app_l_Some.
Qed.

Lemma view_keyed_add_frame v0 ks k r v :
  v_ss_keys v !! r = Some k → view_keyed v0 ks v →
  view_keyed v0 (ks ++ [k]) (view_add_frame r v).
Proof.
  intros Hr (locs & Hf & Hk). exists (locs ++ [r]). simpl.
  split; [by rewrite Hf, (assoc_L (++))|].
  apply Forall2_app; [done|]. by constructor.
Qed.

Lemma canon_ss_key n0 m0 f0 a0 b0 v k r :
  batch_inv n0 m0 f0 a0 b0 v → canon_ss v k = Some r →
  v_ss_keys v !! r = Some k.
Proof.
  intros [inv_flushed_sym0 inv_flushed_ss0 inv_cache_sym0 inv_cache_ss0
          inv_fresh_sym0 inv_fresh_ss0 inv_frames0].
  unfold canon_ss. destruct (find_key _ _ _) as [r0|] eqn:E.
  - intros [= <-]. by apply find_key_Some in E as [? _].
  - apply inv_cache_ss0.
Qed.

Section Keyed.
Context `{Externals}.

Lemma hoare_get_or_create_symbolsource_key n0 m0 f0 a0 b0 (P : View → Prop)
    sym b p o f :
  (∀ k v, P v → P (view_add_ss k v)) →
  hoare (batch_inv n0 m0 f0 a0 b0) P (get_or_create_symbolsource sym b p o f)
        (λ r v, canon_ref r v ∧ v_ss_keys v !! r = Some (b, p, o) ∧ P v).
Proof.
  intros HP s s' r Hrun HI HPs.
  apply get_or_create_symbolsource_view in Hrun
    as (r0 & -> & [[-> Hc]|(Hfind & Hnew & -> & ->)]).
  - split; [done|]. split; [by eapply canon_ref_of_canon|].
    split; [by eapply canon_ss_key|done].
  - split; [apply batch_inv_add_ss; auto using view_wf_view|].
    replace (length (symbolsources (db s))) with (length (v_ss_keys (view s)))
      by (simpl; unfold ss_keys; by rewrite length_fmap).
    split; [apply canon_ref_add_ss; auto using view_wf_view|].
    split; [|by apply HP].
    simpl. by rewrite list_lookup_middle.
Qed.

Lemma hoare_save_frame_key n0 m0 f0 a0 b0 v0 ks t fid f :
  hoare (batch_inv n0 m0 f0 a0 b0) (view_keyed v0 ks) (save_frame t fid f)
        (λ _ v, ∃ k, frame_key f = Ok k ∧ view_keyed v0 (ks ++ [k]) v).
Proof.
  unfold save_frame.
  eapply hoare_bind; [apply hoare_lift_val|]. intros b.
  apply hoare_pure; intros Hb.
  apply hoare_bind_stable; [apply stable_lift|intros fp].
  eapply hoare_bind; [apply hoare_lift_val|]. intros file.
  apply hoare_pure; intros Hfile.
  eapply hoare_bind; [apply hoare_lift_val|]. intros off.
  apply hoare_pure; intros Hoff.
  apply hoare_bind_stable; [apply stable_lift|intros has_name].
  apply (hoare_bind _ _ (λ _, view_keyed v0 ks)).
  { destruct has_name.
    - apply hoare_bind_stable; [apply stable_lift|intros name].
      apply (hoare_bind _ _ (λ _, view_keyed v0 ks)).
      + apply hoare_get_or_create_symbol. intros k v.
        apply view_keyed_add_sym.
      + intros r. by apply hoare_ret.
    - by apply hoare_ret. }
  intros sym.
  eapply hoare_bind.
  { apply hoare_get_or_create_symbolsource_key. intros k v.
    apply view_keyed_add_ss. }
  intros r. simpl.
  apply (hoare_bind _ _
           (λ _, view_keyed v0 (ks ++ [(b, abspath file, off)]))).
  - intros s s' res Hrun HI (Hc & Hk & HP).
    match type of Hrun with new_frame ?N _ = _ =>
      destruct (new_frame_view N s) as (s1 & Hs1 & Hview) end.
    rewrite Hs1 in Hrun. injection Hrun as <- <-. rewrite Hview. simpl.
    split; [by apply batch_inv_add_frame|]. by apply view_keyed_add_frame.
  - intros ?. apply hoare_ret. intros v Hv. eexists. split; [|exact Hv].
    unfold frame_key. rewrite Hb. simpl. rewrite Hfile. simpl.
    by rewrite Hoff.
Qed.

Lemma hoare_save_frames_key n0 m0 f0 a0 b0 v0 t fs : ∀ fid ks,
  hoare (batch_inv n0 m0 f0 a0 b0) (view_keyed v0 ks) (save_frames t fid fs)
        (λ _ v, ∃ ks', mapR frame_key fs = Ok ks' ∧
                       view_keyed v0 (ks ++ ks') v).
Proof.
  induction fs as [|f fs IH]; intros fid ks; simpl.
  - apply hoare_ret. intros v Hv. exists []. by rewrite app_nil_r.
  - eapply hoare_bind; [apply hoare_save_frame_key|]. intros ?.
    apply hoare_ex; intros k. apply hoare_pure; intros Hk.
    eapply hoare_weaken; [apply (IH _ (ks ++ [k]))|done|].
    intros _ v (ks' & Hks' & Hv). exists (k :: ks'). rewrite Hk. simpl.
    rewrite Hks'. simpl. split; [done|]. by rewrite <- (assoc_L (++)) in Hv.
Qed.

Lemma hoare_save_threads_key n0 m0 f0 a0 b0 v0 bt ths : ∀ tid ks,
  hoare (batch_inv n0 m0 f0 a0 b0) (view_keyed v0 ks)
        (save_threads bt tid ths)
        (λ _ v, ∃ kss, Forall2 thread_keys ths kss ∧
                       view_keyed v0 (ks ++ concat kss) v).
Proof.
  induction ths as [|th ths IH]; intros tid ks; simpl.
  - apply hoare_ret. intros v Hv. exists []. simpl. by rewrite app_nil_r.
  - apply hoare_bind_stable; [apply stable_lift|intros c].
    apply hoare_bind_stable; [apply stable_new_thread|intros t].
    eapply hoare_bind; [apply hoare_lift_val|]. intros fs.
    apply hoare_pure; intros Hfs.
    eapply hoare_bind; [apply hoare_save_frames_key|]. intros ?.
    apply hoare_ex; intros ks1. apply hoare_pure; intros Hks1.
    eapply hoare_weaken; [apply (IH _ (ks ++ ks1))|done|].
    intros _ v (kss & Hkss & Hv). exists (ks1 :: kss). split.
    + constructor; [|done]. exists fs. split; [|done].
      destruct (py_getitem th "frames") as [[| | | |l|]|]; simpl in Hfs;
        try done. congruence.
    + simpl. by rewrite (assoc_L (++)).
Qed.

Lemma hoare_save_backtrace_key n0 m0 f0 a0 b0 v0 r st hs :
  hoare (batch_inv n0 m0 f0 a0 b0) (view_keyed v0 []) (save_backtrace r st hs)
        (λ _ v, ∃ ths kss, st = PList ths ∧ Forall2 thread_keys ths kss ∧
                           view_keyed v0 (concat kss) v).
Proof.
  unfold save_backtrace.
  apply hoare_bind_stable; [apply stable_new_backtrace|intros bt].
  apply hoare_bind_stable.
  { apply stable_forM. intros h. apply stable_new_bthash. }
  intros ?. eapply hoare_bind; [apply hoare_lift_val|]. intros ths.
  apply hoare_pure; intros Hths.
  eapply hoare_weaken; [apply hoare_save_threads_key|done|].
  intros _ v (kss & Hkss & Hv). exists ths, kss. split; [|done].
  destruct st; simpl in Hths; try done. congruence.
Qed.

End Keyed.

Lemma mapR_Forall2 {A B} (f : A → result B) (l : list A) ys :
  mapR f l = Ok ys → Forall2 (λ x y, f x = Ok y) l ys.
Proof.
  revert ys. induction l as [|x l IH]; intros ys; simpl.
  - intros [= <-]. constructor.
  - destruct (f x) as [y|] eqn:Hy; simpl; [|done].
    destruct (mapR f l) as [ys'|]; simpl; [|done].
    intros [= <-]. constructor; [done|]. by apply IH.
Qed.

Lemma Forall2_compose {A B C} (R1 : A → B → Prop) (R2 : B → C → Prop) l k m :
  Forall2 R1 l k → Forall2 R2 k m →
  Forall2 (λ a c, ∃ b, R1 a b ∧ R2 b c) l m.
Proof.
  intros H1. revert m. induction H1 as [|a b l k Hab _ IH]; intros m Hkm.
  - apply Forall2_nil_inv_l in Hkm as ->. constructor.
  - apply Forall2_cons_inv_l in Hkm as (c & m' & Hbc & Hkm & ->).
    constructor; [by exists b|]. by apply IH.
Qed.

Lemma saved_thread_frames_locs t locs :
  fr_symbolsource <$> saved_thread_frames t locs = locs.
Proof.
  unfold saved_thread_frames. apply list_eq. intros j.
  rewrite list_lookup_fmap, list_lookup_imap. by destruct (locs !! j).
Qed.

Lemma saved_frames_locs shapes : ∀ t,
  fr_symbolsource <$> saved_frames t shapes = concat (snd <$> shapes).
Proof.
  induction shapes as [|[c locs] shapes IH]; intros t; simpl; [done|].
  by rewrite fmap_app, saved_thread_frames_locs, IH.
Qed.

Lemma saved_threads_lookup bt shapes : ∀ tid fr i c locs,
  shapes !! i = Some (c, locs) →
  saved_threads bt tid fr shapes !! i =
    Some {| th_backtrace := bt; th_number := tid + Z.of_nat i + 1;
            th_crashthread := c;
            th_frames :=
              seq (fr + length (concat (snd <$> take i shapes)))
                  (length locs) |}.
Proof.
  induction shapes as [|[c0 l0] shapes IH]; intros tid fr [|i] c locs;
    simpl; try done.
  - intros [= <- <-]. rewrite Nat.add_0_r. do 2 f_equal. lia.
  - intros Hi. rewrite (IH _ _ _ _ _ Hi), length_app, Nat.add_assoc.
    do 2 f_equal. lia.
Qed.

Lemma saved_frames_lookup shapes : ∀ t i c locs j loc,
  shapes !! i = Some (c, locs) → locs !! j = Some loc →
  saved_frames t shapes !! (length (concat (snd <$> take i shapes)) + j)%nat =
    Some {| fr_thread := t + i; fr_order := 10 * (Z.of_nat j + 1);
            fr_symbolsource := loc; fr_inlined := false |}.
Proof.
  induction shapes as [|[c0 l0] shapes IH]; intros t [|i] c locs j loc;
    simpl; try done.
  - intros [= <- <-] Hj. rewrite lookup_app_l.
    + unfold saved_thread_frames. rewrite list_lookup_imap, Hj. simpl.
      by rewrite Nat.add_0_r.
    + unfold saved_thread_frames. rewrite length_imap.
      by apply lookup_lt_Some in Hj.
  - intros Hi Hj. rewrite lookup_app_r.
    + unfold saved_thread_frames at 1. rewrite length_imap, length_app.
      match goal with
      | |- context [(length l0 + ?n + j - length l0)%nat] =>
          replace (length l0 + n + j - length l0)%nat
            with (length (concat (snd <$> take i shapes)) + j)%nat
            by (change n with (length (concat (snd <$> take i shapes)));
                lia)
      end.
      rewrite (IH _ _ _ _ _ _ Hi Hj). do 2 f_equal. lia.
    + unfold saved_thread_frames. rewrite length_imap, length_app. lia.
Qed.

Section ReadBack.
Context `{Externals}.

Lemma keyed_shapes (keys : list (option string * string * Z)) ths :
  ∀ kss shapes,
  Forall2 thread_keys ths kss → Forall2 shape_of ths shapes →
  Forall2 (λ k loc, keys !! loc = Some k) (concat kss)
          (concat (snd <$> shapes)) →
  Forall2 (λ th shape, ∃ fs, py_getitem th "frames" = Ok (PList fs) ∧
             Forall2 (λ f loc, ∃ k, frame_key f = Ok k ∧
                                    keys !! loc = Some k) fs shape.2)
          ths shapes.
Proof.
  induction ths as [|th ths IH]; intros kss shapes Hk Hs.
  - apply Forall2_nil_inv_l in Hs as ->. constructor.
  - apply Forall2_cons_inv_l in Hk as (ks & kss' & (fs & Hfs & Hks) & Hk & ->).
    apply Forall2_cons_inv_l in Hs
      as ([c locs] & shapes' & (Hc & fs' & Hfs' & Hlen) & Hs & ->).
    simpl in *. rewrite Hfs in Hfs'. injection Hfs' as <-.
    apply mapR_Forall2 in Hks.
    intros (l1 & l2 & H1 & H2 & Heq)%Forall2_app_inv_l.
    apply app_inj_1 in Heq as [<- <-].
    + constructor; [|by eapply IH]. exists fs. split; [done|]. simpl.
      by eapply Forall2_compose.
    + apply Forall2_length in H1, Hks. lia.
Qed.

Lemma save_ureport_saved d d' r (u : gmap string pyval) fl n rp :
  reports d !! r = Some rp → rp_backtraces rp = [] →
  save_ureport d r u fl n = (d', Ok tt) →
  ∃ ths shapes,
    u !! "stacktrace" = Some (PList ths) ∧
    Forall2 shape_of ths shapes ∧
    Forall2 (λ th shape, ∃ fs, py_getitem th "frames" = Ok (PList fs) ∧
               Forall2 (λ f loc, ∃ k, frame_key f = Ok k ∧
                                      ss_keys d' !! loc = Some k) fs shape.2)
            ths shapes ∧
    (∃ rp', reports d' !! r = Some rp' ∧
            rp_backtraces rp' = [length (backtraces d)]) ∧
    backtraces d' !! length (backtraces d) =
      Some {| bt_report := r;
              bt_threads := seq (length (threads d)) (length ths) |} ∧
    threads d' =
      threads d ++
      saved_threads (length (backtraces d)) 0 (length (frames d)) shapes ∧
    frames d' = frames d ++ saved_frames (length (threads d)) shapes.
Proof.
  intros Hrp Hbt (s1 & Hcore & Hf' & Ht' & Hb' & _ & _ & Hl' & Hr')
    %save_ureport_run.
  apply save_ureport_core_inv in Hcore
    as (signal & st & hs & s0 & rp0 & Hsig & Hst & Hhs & Hne & Hf0 & Ht0 & Hb0
        & Hh0 & _ & _ & Hv0 & Hr0 & Hrp0 & Hrun).
  simpl in Hf0, Ht0, Hb0, Hh0, Hr0.
  assert (rp0 = rp_set_errname (py_str signal) rp) as ->.
  { rewrite Hr0, list_lookup_alter, decide_True, Hrp in Hrp0 by done.
    simpl in Hrp0. congruence. }
  simpl in Hrun. rewrite Hbt in Hrun.
  destruct (hoare_save_backtrace_key
              (length (symbols d)) (length (symbolsources d))
              (length (frames d)) (flushed_symbols d)
              (flushed_symbolsources d) (view s0) r st hs s0 s1 (Ok tt)
              Hrun) as [_ (ths' & kss & -> & Hkss & locs & Hlocs & Hkeys)].
  { rewrite Hv0. apply batch_inv_start. }
  { apply view_keyed_refl. }
  apply save_backtrace_spec in Hrun
    as (ths & shapes & [= <-] & Hsh & Hr1 & Hb1 & Hh1 & Ht1 & Hf1 & _).
  rewrite Hf0, Ht0, Hb0 in *.
  simpl in Hlocs, Hkeys.
  rewrite Hf1, Hf0, fmap_app, saved_frames_locs in Hlocs.
  apply app_inv_head in Hlocs as <-.
  exists ths', shapes. split; [done|]. split; [done|].
  split.
  { unfold ss_keys at 1. rewrite Hl'. by apply (keyed_shapes _ _ kss). }
  split.
  { rewrite Hr', Hr1, Hr0, list_alter_alter_eq, list_lookup_alter,
      decide_True, Hrp by done.
    simpl. eexists. split; [done|]. simpl. by rewrite Hbt. }
  split.
  { rewrite Hb', Hb1. by rewrite list_lookup_middle. }
  split; congruence.
Qed.

(** X26: The thread that [db_report_to_satyr] returns for a report just saved
    by [save_ureport] is the first thread of the report flagged as crash
    thread, numbered by its position from 1, with one frame for each frame
    of that thread, in order: the library name is the absolute path of
    [file_name], the address is [build_id_offset] and the number is the
    order 10, 20, ... *)
Theorem saved_report_to_satyr (cfg : Config) (d d' : DB) (db_report : nat)
    (u : gmap string pyval) (fl : bool) (count : Z) (rp : Report)
    (g : GdbThread) :
  reports d !! db_report = Some rp →
  rp_backtraces rp = [] →
  save_ureport d db_report u fl count = (d', Ok tt) →
  db_report_to_satyr cfg d' db_report = Ok (Some g) →
  ∃ pre t post fs th0,
    u !! "stacktrace" = Some (PList (pre ++ t :: post)) ∧
    Forall (λ x, is_crash_thread x = Ok false) pre ∧
    is_crash_thread t = Ok true ∧
    py_getitem t "frames" = Ok (PList fs) ∧
    g = (if normalize cfg then satyr_normalize th0 else th0) ∧
    gt_number th0 = Z.of_nat (length pre) + 1 ∧
    length (gt_frames th0) = length fs ∧
    ∀ j f gf, fs !! j = Some f → gt_frames th0 !! j = Some gf →
              satyr_frame_of j f gf.
Proof.
  intros Hrp Hbt Hsave Hg.
  destruct (save_ureport_saved _ _ _ _ _ _ _ Hrp Hbt Hsave)
    as (ths & shapes & Hst & Hsh & Hkeyed & (rp' & Hrp' & Hbt') & Hbts & Hths
        & Hfrs).
  unfold db_report_to_satyr in Hg. rewrite Hrp', Hbt', Hbts in Hg.
  simpl in Hg.
  assert (first_crash_thread cfg d' (seq (length (threads d)) (length ths))
          = Ok (Some g)) as Hfirst.
  { destruct (seq _ _); [done|exact Hg]. }
  clear Hg.
  apply first_crash_thread_Some_inv in Hfirst
    as (pre_i & t_i & post_i & th & Hseq & Hpre & Hth & Hcrash & _ & Hsat).
  set (i := length pre_i).
  assert (seq (length (threads d)) (length ths) !! i = Some t_i) as Hi.
  { rewrite Hseq. by apply list_lookup_middle. }
  apply lookup_seq in Hi as [-> Hi].
  destruct (lookup_lt_is_Some_2 ths i Hi) as [t Ht].
  destruct (Forall2_lookup_l _ _ _ _ _ Hsh Ht)
    as ([c locs] & Hshape & Hc & fs0 & Hfs0 & Hlen0).
  destruct (Forall2_lookup_lr _ _ _ _ _ _ Hkeyed Ht Hshape)
    as (fs & Hfs & Hkeys).
  simpl in Hc, Hkeys.
  pose proof (saved_threads_lookup (length (backtraces d)) shapes 0
                (length (frames d)) i c locs Hshape) as Hsaved.
  rewrite Hths, lookup_app_r, Nat.add_comm, Nat.add_sub in Hth by lia.
  rewrite Hsaved in Hth. injection Hth as <-. simpl in Hcrash. subst c.
  unfold _db_thread_to_satyr in Hsat.
  rewrite Hths, lookup_app_r, (Nat.add_comm (length (threads d))),
    Nat.add_sub, Hsaved in Hsat by lia.
  simpl in Hsat.
  destruct (mapR (_db_frame_to_satyr d') _) as [gfs|] eqn:Hgfs;
    simpl in Hsat; [|done].
  injection Hsat as <-.
  apply mapR_Forall2 in Hgfs.
  exists (take i ths), t, (drop (S i) ths), fs,
    {| gt_number := 0 + Z.of_nat i + 1; gt_frames := gfs |}.
  split; [by rewrite take_drop_middle|].
  split.
  { apply Forall_forall. intros x Hx.
    apply elem_of_take in Hx as (i' & Hx & Hi').
    destruct (Forall2_lookup_l _ _ _ _ _ Hsh Hx)
      as ([c' locs'] & Hshape' & Hc' & _).
    simpl in Hc'.
    assert (pre_i !! i' = Some (length (threads d) + i')%nat) as Hp.
    { assert (seq (length (threads d)) (length ths) !! i'
              = Some (length (threads d) + i')%nat) as Hs
        by (apply lookup_seq; lia).
      rewrite Hseq, lookup_app_l in Hs by (unfold i in Hi'; lia). done. }
    pose proof (proj1 (Forall_lookup _ _) Hpre _ _ Hp)
      as (th' & Hth' & Hnc).
    rewrite Hths, lookup_app_r, (Nat.add_comm (length (threads d))),
      Nat.add_sub in Hth' by lia.
    rewrite (saved_threads_lookup _ _ _ _ _ _ _ Hshape') in Hth'.
    injection Hth' as <-. simpl in Hnc. by subst c'. }
  split; [done|]. split; [done|]. split; [done|].
  split.
  { simpl. rewrite length_take. lia. }
  split.
  { simpl. apply Forall2_length in Hgfs, Hkeys.
    rewrite length_seq in Hgfs. lia. }
  simpl. intros j f gf Hf Hgf.
  destruct (Forall2_lookup_l _ _ _ _ _ Hkeys Hf)
    as (loc & Hloc & k & Hk & Hkey).
  destruct (Forall2_lookup_r _ _ _ _ _ Hgfs Hgf) as (x & Hx & Hconv).
  apply lookup_seq in Hx as [-> Hj].
  unfold _db_frame_to_satyr in Hconv.
  rewrite Hfrs, lookup_app_r, <- Nat.add_assoc,
    (Nat.add_comm (length (frames d))), Nat.add_sub in Hconv by lia.
  rewrite (saved_frames_lookup _ _ _ _ _ _ _ Hshape Hloc) in Hconv.
  simpl in Hconv.
  unfold ss_keys in Hkey. rewrite list_lookup_fmap in Hkey.
  destruct (symbolsources d' !! loc) as [ss|]; [|done].
  injection Hkey as <-.
  match type of Hconv with
  | (?name ≫= _) = _ => destruct name as [nm|]; simpl in Hconv; [|done]
  end.
  injection Hconv as <-. unfold satyr_frame_of. simpl.
  unfold frame_key in Hk.
  destruct (get_or_none "build_id" f ≫= as_opt_str) as [b|]; simpl in Hk;
    [|done].
  destruct (py_getitem f "file_name" ≫= as_str) as [file|]; simpl in Hk;
    [|done].
  destruct (py_getitem f "build_id_offset" ≫= as_int) as [off|]; simpl in Hk;
    [|done].
  injection Hk as _ <- <-. by exists file.
Qed.

End ReadBack.

(** * The further statements on the example data *)

Lemma get_crash_thread_cases_witness :
  _get_crash_thread
    (PList [dict [("crash_thread", PBool true);
                  ("frames", PList example_frames)]])
  = Ok (PList example_frames).
Proof.
  destruct (get_crash_thread_cases
              [dict [("crash_thread", PBool true);
                     ("frames", PList example_frames)]])
    as (_ & Hone & _).
  - repeat constructor. by eexists.
  - rewrite (Hone [] _ [] eq_refl).
    + vm_compute. reflexivity.
    + vm_compute. reflexivity.
    + constructor.
Defined.

Lemma validate_ureport_single_crash_thread_witness :
  ∃ pre t post,
    example_ureport !! "stacktrace" = Some (PList (pre ++ PDict t :: post)) ∧
    t !! "crash_thread" = Some (PBool true).
Proof.
  destruct (@validate_ureport_single_crash_thread (test_externals no_resolver)
              example_ureport example_ureport true)
    as (_ & pre & t & post & fs & Hst & Hc & _).
  - vm_compute. reflexivity.
  - exists pre, t, post. split; [exact Hst|exact Hc].
Defined.

Lemma validated_report_has_short_hash_witness :
  ∃ h, @hash_ureport (test_externals no_resolver) (@init ∅ ∅) example_ureport
       = Ok h.
Proof.
  apply (@validated_report_has_short_hash (test_externals no_resolver)
           (@init ∅ ∅) example_ureport example_ureport true).
  vm_compute. reflexivity.
Defined.

Lemma check_btpath_match_validated_witness :
  ∃ files,
    check_btpath_match example_ureport (String.eqb "/usr/bin/app")
    = Ok (existsb (String.eqb "/usr/bin/app") files).
Proof.
  destruct (@check_btpath_match_validated (test_externals no_resolver)
              example_ureport example_ureport true
              (String.eqb "/usr/bin/app"))
    as (ths & fs & files & _ & _ & _ & Hm).
  - vm_compute. reflexivity.
  - exists files. exact Hm.
Defined.

Lemma check_btpath_match_last_flagged_witness :
  check_btpath_match
    (list_to_map [("stacktrace", PList [dict [("frames", PList [])]])])
    (String.eqb "/usr/bin/app")
  = Raise TypeError.
Proof.
  destruct (check_btpath_match_last_flagged
              (list_to_map [("stacktrace", PList [dict [("frames", PList [])]])])
              [dict [("frames", PList [])]] (String.eqb "/usr/bin/app"))
    as (Hnone & _).
  - vm_compute. reflexivity.
  - repeat constructor. by eexists.
  - apply Hnone. repeat constructor.
Defined.

Lemma jit_repair_complete_unchanged_witness :
  (jit_repair example_ureport).1 = example_ureport.
Proof.
  destruct (@jit_repair_complete_unchanged (test_externals no_resolver)
              example_ureport
              [dict [("crash_thread", PBool true);
                     ("frames", PList example_frames)]])
    as (Hk & _).
  - vm_compute. reflexivity.
  - constructor; [|constructor]. vm_compute.
    split; [repeat constructor; by eexists|].
    eexists. split; [reflexivity|discriminate].
  - exact Hk.
Defined.

Lemma save_ureport_wf_witness :
  wf_db (@save_ureport (test_externals no_resolver) saved_db 0
                       example_ureport false 1).1.
Proof.
  apply (@save_ureport_wf (test_externals no_resolver)). exact saved_db_wf.
Defined.

Lemma retrace_wf_witness :
  wf_db (@retrace (test_externals (answer_at 4106 three_entries)) 5 saved_db
                  single_task).1.
Proof.
  apply (@retrace_wf (test_externals (answer_at 4106 three_entries))).
  exact saved_db_wf.
Defined.

Lemma retrace_ssource_outcome_witness :
  resolved 0
    (db (@retrace_ssource (test_externals (answer_at 4106 two_entries)) 5
           single_task (example_package (Some "/tmp/app")) 0
           (start saved_db)).1).
Proof.
  pose proof (@retrace_ssource_outcome
                (test_externals (answer_at 4106 two_entries)) 5 single_task
                (example_package (Some "/tmp/app")) 0%nat (start saved_db)
                (@retrace_ssource (test_externals (answer_at 4106 two_entries))
                   5 single_task (example_package (Some "/tmp/app")) 0
                   (start saved_db)).1
                {| ss_symbol := Some 0%nat; ss_build_id := Some "abc123";
                   ss_path := "/lib/libc.so"; ss_offset := 10; ss_hash := None;
                   ss_source_path := None; ss_line_number := None;
                   ss_retrace_fail_count := 0; ss_frames := [0%nat] |})
    as Hout.
  assert (symbolsources (db (start saved_db)) !! 0%nat
          = Some {| ss_symbol := Some 0%nat; ss_build_id := Some "abc123";
                    ss_path := "/lib/libc.so"; ss_offset := 10;
                    ss_hash := None; ss_source_path := None;
                    ss_line_number := None; ss_retrace_fail_count := 0;
                    ss_frames := [0%nat] |}) as Hrow by reflexivity.
  specialize (Hout Hrow).
  assert (@retrace_ssource (test_externals (answer_at 4106 two_entries)) 5
            single_task (example_package (Some "/tmp/app")) 0
            (start saved_db)
          = ((@retrace_ssource (test_externals (answer_at 4106 two_entries)) 5
                single_task (example_package (Some "/tmp/app")) 0
                (start saved_db)).1, Ok tt)) as Hrun
    by (vm_compute; reflexivity).
  specialize (Hout Hrun). exact (proj2 Hout).
Defined.

Lemma retrace_empty_answer_aborts_witness :
  @retrace (test_externals (answer_at 4106 [])) 5 saved_db single_task
  = (saved_db, Raise IndexError).
Proof.
  apply (@retrace_empty_answer_aborts (test_externals (answer_at 4106 [])) 5
           single_task (example_package (Some "/tmp/app")) 0%nat [] [] [] []
           saved_db (start saved_db) (start saved_db)
           {| ss_symbol := Some 0%nat; ss_build_id := Some "abc123";
              ss_path := "/lib/libc.so"; ss_offset := 10; ss_hash := None;
              ss_source_path := None; ss_line_number := None;
              ss_retrace_fail_count := 0; ss_frames := [0%nat] |}
           "/tmp/app" 4096 "/tmp/debuginfo"); reflexivity.
Defined.

Lemma save_ureport_new_backtrace_witness :
  ∃ shapes,
    threads saved_db = threads one_report_db ++ saved_threads 0 0 0 shapes ∧
    frames saved_db = frames one_report_db ++ saved_frames 0 shapes.
Proof.
  destruct (@save_ureport_new_backtrace (test_externals no_resolver)
              one_report_db saved_db 0 example_ureport true 1
              {| rp_errname := None; rp_backtraces := [] |})
    as (signal & ths & hashes & shapes & _ & _ & _ & _ & _ & _ & _ & Ht & Hf).
  - reflexivity.
  - reflexivity.
  - vm_compute. reflexivity.
  - exists shapes. split; [exact Ht|exact Hf].
Defined.

Lemma save_ureport_twice_witness :
  frames (@save_ureport (test_externals no_resolver) saved_db 0
                        example_ureport false 2).1 = frames saved_db.
Proof.
  destruct (@save_ureport_twice (test_externals no_resolver)
              one_report_db saved_db
              (@save_ureport (test_externals no_resolver) saved_db 0
                             example_ureport false 2).1
              0 example_ureport example_ureport true false 1 2
              {| rp_errname := None; rp_backtraces := [] |})
    as (_ & _ & _ & _ & Hf & _).
  - reflexivity.
  - vm_compute. reflexivity.
  - vm_compute. reflexivity.
  - exact Hf.
Defined.

Lemma save_ureport_validated_succeeds_witness :
  ∃ d', @save_ureport (test_externals no_resolver) one_report_db 0
                      example_ureport true 1 = (d', Ok tt).
Proof.
  apply (@save_ureport_validated_succeeds (test_externals no_resolver)
           example_ureport example_ureport true one_report_db 0
           {| rp_errname := None; rp_backtraces := [] |} true 1).
  - vm_compute. reflexivity.
  - reflexivity.
Defined.

Lemma save_ureport_keeps_unique_witness :
  NoDup (sym_keys (@save_ureport (test_externals no_resolver) saved_db 0
                     example_ureport true 2).1) ∧
  NoDup (ss_keys (@save_ureport (test_externals no_resolver) saved_db 0
                    example_ureport true 2).1).
Proof.
  apply (@save_ureport_keeps_unique (test_externals no_resolver) saved_db
           0%nat example_ureport true 2).
  - reflexivity.
  - reflexivity.
  - apply (bool_decide_unpack _). vm_compute. exact I.
  - apply (bool_decide_unpack _). vm_compute. exact I.
Defined.

Lemma retrace_keeps_unique_witness :
  NoDup (sym_keys (@retrace (test_externals (answer_at 4106 two_entries)) 5
                     saved_db single_task).1) ∧
  NoDup (ss_keys (@retrace (test_externals (answer_at 4106 two_entries)) 5
                    saved_db single_task).1).
Proof.
  apply (@retrace_keeps_unique (test_externals (answer_at 4106 two_entries)) 5
           saved_db single_task).
  - reflexivity.
  - reflexivity.
  - apply (bool_decide_unpack _). vm_compute. exact I.
  - apply (bool_decide_unpack _). vm_compute. exact I.
Defined.

Lemma retrace_single_entry_witness :
  ∃ s',
    @retrace_ssource (test_externals (answer_at 4106 [("malloc", "malloc.c", 3)]))
      0 single_task (example_package (Some "/tmp/app")) 0 (start saved_db)
    = (s', Ok tt) ∧
    (ss_symbol <$> symbolsources (db s') !! 0%nat) = Some (Some 0%nat) ∧
    (ss_source_path <$> symbolsources (db s') !! 0%nat)
    = Some (Some "malloc.c") ∧
    length (symbols (db s')) = length (symbols saved_db) ∧
    (sym_nice_name <$> symbols (db s') !! 0%nat)
    = Some (Some "demangled malloc").
Proof.
  destruct (@retrace_single_entry
              (test_externals (answer_at 4106 [("malloc", "malloc.c", 3)]))
              0 single_task (example_package (Some "/tmp/app")) 0%nat
              (start saved_db)
              {| ss_symbol := Some 0%nat; ss_build_id := Some "abc123";
                 ss_path := "/lib/libc.so"; ss_offset := 10; ss_hash := None;
                 ss_source_path := None; ss_line_number := None;
                 ss_retrace_fail_count := 0; ss_frames := [0%nat] |}
              "/tmp/app" 4096 "/tmp/debuginfo" "malloc" "malloc.c" 3)
    as (s' & sy & Hrun & Hss & _ & _ & _ & Hsym).
  - apply cache_ok_start.
  - reflexivity.
  - reflexivity.
  - reflexivity.
  - reflexivity.
  - reflexivity.
  - assert (sy = 0%nat ∧
            symbols (db s') =
              alter (@sym_fill_nice_name "demangled malloc") 0%nat
                    (symbols saved_db)) as [-> Hsyms]
      by (split; apply Hsym).
    exists s'. split; [exact Hrun|]. rewrite Hss, Hsyms.
    repeat split; reflexivity.
Defined.

Lemma saved_report_to_satyr_witness :
  ∃ pre t post fs th0,
    example_ureport !! "stacktrace" = Some (PList (pre ++ t :: post)) ∧
    Forall (λ x, is_crash_thread x = Ok false) pre ∧
    is_crash_thread t = Ok true ∧
    py_getitem t "frames" = Ok (PList fs) ∧
    {| gt_number := 1;
       gt_frames :=
         [{| gf_address := 10; gf_library_name := "/lib/libc.so";
             gf_number := 10; gf_function_name := "malloc";
             gf_source_file := None; gf_source_line := None |};
          {| gf_address := 20; gf_library_name := "/usr/bin/app";
             gf_number := 20; gf_function_name := "main";
             gf_source_file := None; gf_source_line := None |}] |}
    = (if normalize {| hashframes := 16; normalize := false;
                       skipsrc := false |}
       then @satyr_normalize (test_externals no_resolver) th0 else th0) ∧
    gt_number th0 = Z.of_nat (length pre) + 1 ∧
    length (gt_frames th0) = length fs ∧
    ∀ j f gf, fs !! j = Some f → gt_frames th0 !! j = Some gf →
              @satyr_frame_of (test_externals no_resolver) j f gf.
Proof.
  apply (@saved_report_to_satyr (test_externals no_resolver)
           {| hashframes := 16; normalize := false; skipsrc := false |}
           one_report_db saved_db 0%nat example_ureport true 1
           {| rp_errname := None; rp_backtraces := [] |}).
  - reflexivity.
  - reflexivity.
  - vm_compute. reflexivity.
  - vm_compute. reflexivity.
Defined.

Lemma find_packages_for_ssource_result_witness :
  let row := {| ss_symbol := None; ss_build_id := Some "abc123";
                ss_path := "/lib/libc.so"; ss_offset := 10; ss_hash := None;
                ss_source_path := None; ss_line_number := None;
                ss_retrace_fail_count := 0; ss_frames := [] |} in
  @find_packages_for_ssource (test_externals no_resolver) string nat nat
    (fun files => if bool_decide
                       (files = ["/usr/lib/debug/.build-id/ab/c123.debug";
                                 "/usr/lib/.build-id/ab/c123"])
                  then Some "glibc-debuginfo" else None)
    (fun path b a => if String.eqb path "/usr/lib/libc.so"
                     then Some "glibc" else None)
    (fun b => Some "glibc-src") (fun _ => 7%nat) (fun _ => 64%nat)
    (fun p => "/usr" +:+ p)
    {| hashframes := 16; normalize := false; skipsrc := false |} row
  = Ok (row, (Some "glibc-debuginfo", Some "glibc", Some "glibc-src")).
Proof.
  intros row.
  destruct (@find_packages_for_ssource_result (test_externals no_resolver)
              string nat nat
              (fun files =>
                 if bool_decide
                      (files = ["/usr/lib/debug/.build-id/ab/c123.debug";
                                "/usr/lib/.build-id/ab/c123"])
                 then Some "glibc-debuginfo" else None)
              (fun path b a => if String.eqb path "/usr/lib/libc.so"
                               then Some "glibc" else None)
              (fun b => Some "glibc-src") (fun _ => 7%nat) (fun _ => 64%nat)
              (fun p => "/usr" +:+ p)
              {| hashframes := 16; normalize := false; skipsrc := false |}
              row) as (_ & Hfound & _).
  destruct (Hfound ["/usr/lib/debug/.build-id/ab/c123.debug";
                    "/usr/lib/.build-id/ab/c123"] eq_refl) as [_ Hsome].
  destruct (Hsome "glibc-debuginfo" eq_refl) as [Hhit _].
  apply (Hhit ["/lib/libc.so"] "/usr/lib/libc.so"
              ["/lib/libc.so"; "/usr/lib/libc.so"] "glibc").
  - reflexivity.
  - repeat constructor.
  - reflexivity.
Defined.

